(* ===== verification/_CoqProject ===== *)
-Q . S2P
Prelude.v
Ieee.v
Common.v
DataPool.v
CxxLib.v
Json.v
NodeConfig.v
NodeEntity.v
Signal.v
UdpClient.v
UdpServer.v
UdpRoundtrip.v
Receiver.v
Transmitter.v
Channel.v
Kernels.v
Filters.v
Noise.v
Antenna.v
Intermediate.v
DataPath.v
Controller.v
Accounting.v
Pipeline.v
Routing.v
ControllerInv.v
Sides.v
Tuning.v
Removal.v
Requests.v
Emulator.v
Extensions.v
Coordinator.v
Commands.v
Http.v
Sionna.v
Rays.v
Sandbox.v
Operator.v
PathLoss.v
RealLoss.v
Rotator.v
TcpServer.v
Backlog.v
Config.v
Reports.v
