(* ===== verification/Prelude.v ===== *)
(** CHEM: a verification of the channel emulator under src/.

    CHEM emulates radio channels between software radios.  Every node sends
    its samples in UDP datagrams to a _receiver_ of the emulator, which
    reassembles bursts and hands them to the _intermediate_ (one per carrier
    frequency) its node is attached to.  A worker of the intermediate converts
    each burst to samples, passes it over the _link_ to every other attached
    node (gain, path loss, delay, noise, resampling) and queues the result at
    that node's _transmitter_, which fragments it into datagrams again.  The
    _controller_ answers the nodes' requests: it creates receivers and
    transmitters and moves them between intermediates.

    ** Files

    - [Prelude] (this file): machine integers, fallible computations, record
      update, bounded memory, shared lemmas and automation.
    - [Ieee]: binary32 and binary64 on the standard library's [spec_float],
      and the conversions of common.h that need no logarithm.
    - [Common]: constants, wire headers and their encodings, enumerations, the
      AERPAW site table (src/include/chem/common.h).
    - [DataPool]: buffer pools (models/data_pool.hpp).
    - [CxxLib], [Json]: [stoi]/[stod] and character functions of the C++
      library, JSON values and the accessors the program calls.
    - [NodeConfig]: usrp_channel.hpp, node_config.hpp and aerpaw/: what a node
      asks for, and its JSON form.
    - [NodeEntity]: node_entity.cpp: [Node], [refreshFromConfig].
    - [Signal]: models/signal.hpp.
    - [UdpClient], [UdpServer], [UdpRoundtrip]: net/udp_client.cpp and
      net/udp_server.cpp, and what they do together.
    - [Receiver], [Transmitter]: node/receiver.cpp, node/transmitter.cpp.
    - [Channel]: channel/channel.cpp, one link.
    - [Kernels], [Filters]: dsp/signal.cpp, dsp/utils.cpp and the
      impulse-response filters of dsp/channel.cpp, and what they compute.
    - [Noise]: the noise generator of dsp/channel.cpp and its thread-local cache.
    - [Antenna]: dsp/antenna_prop.cpp and antennas/, with the cache of antennas.
    - [Intermediate]: channel/intermediate.cpp, membership, links, parameters.
    - [DataPath]: channel/intermediate.cpp, the processing of bursts.
    - [Controller]: node/controller.cpp: requests, ports, the assignment of
      channels, disconnects and time-outs.
    - [Accounting], [Pipeline], [Routing]: lemmas and properties of the data
      path as a concurrent machine: buffer counting, the coherence of the
      workers' caches, delivery.
    - [ControllerInv], [Sides], [Tuning], [Removal], [Requests]: the invariant
      of the controller and the specifications of its operations: one side of a
      node, assigning a channel, removing nodes, whole requests.
    - [Emulator]: controller and channels as one machine ([cstep]), and what
      holds in every state it reaches.  A parameter of the machine says in which
      modes requests are served: outside sandbox mode ([eq false]), where the
      invariant holds, or in both, where it does not ([sandbox_retune_splits]).
    - [Coordinator], [Commands]: channel/coordinator.cpp, the commands of the
      operator and the update of positions, as steps of that machine.
    - [Extensions]: extensions/extension.h as a class with laws, and
      extensions/extension_registry.cpp against it.
    - [Http], [Sionna], [Rays], [Sandbox]: the two clients under
      src/extensions/ ([SionnaExtension], [SandboxExtension]), what they share,
      and what the ray tracer's client does to the links.
    - [Operator]: the coordinator with its registry: the extension commands, the
      start of extensions in main.cpp, and the whole operator side as one
      machine ([sys_step]) on top of [cstep], whose requests are served in the
      mode the runtime configuration has at that time.
    - [PathLoss], [RealLoss]: channel_models/ and the path-loss functions of
      dsp/channel.cpp, written once over an arithmetic [Num]; the program's own
      arithmetic ([float_num], [with_models]) and exact reals ([real_num]).
    - [Rotator]: the frequency shift of dsp/signal.cpp, over the same arithmetic.
    - [TcpServer]: net/tcp_server.cpp, as the completions it registers, and the
      clients that wait for their answers ([lstep]); the controller behind it
      ([controller_handler]).
    - [Backlog]: the loop of a worker over several passes.
    - [Config]: config.cpp, with the JSON library's [merge_patch]; [Reports]: what
      the coordinator reports on links, nodes, antennas and the log.

    ** How the code is modelled

    Integers are [Z] with every truncation written out ([u8] ... [s64]);
    floating-point numbers are rounded at every operation.  Exceptions and
    undefined behaviour (an access outside a buffer, a null or dangling
    pointer, a conversion out of range) are values of the error type of
    [outcome], so that memory safety is a statement about results.  Objects
    shared through [shared_ptr] live in a [heap] and are named by addresses;
    the nodes of the map of links have addresses because workers keep pointers
    to them.  Each critical section is one step of an interleaving
    ([istep], [dstep], [cstep]); the network is a schedule of deliveries, timeouts and
    errors chosen by the environment ([UDPServer.rx_event]).

    Code outside src/ is a parameter with its documented behaviour as a class:
    [PriorityQueue] (TBB's concurrent_priority_queue), [Converter] (UHD's
    sample converters), [Volk] (vector kernels), [Random], [Libm] and the other
    classes of elementary functions, the JSON parser, the database's answer.
    [Host] is what the extensions see of the outside: HTTP exchanges with a server
    in any state, JSON text, the allocator.
    [Channel] and the data path take the sample kernels and path-loss models as
    the class [Dsp]; the kernels themselves are modelled in [Kernels], [Noise] and
    [Antenna], where a call can also fail, the models in [PathLoss].  What holds only in exact arithmetic
    is stated over samples that obey the laws of [ExactSample].  The scratch
    buffers of the workers hold arbitrary old samples.

    ** What is proved

    - The wire: back-to-back bursts survive fragmentation and reassembly
      whatever the kernel's batching ([send_recv_stream]); the shape of the
      datagrams ([send_datagrams]), both for bursts of more than 144 bytes (for
      smaller ones see [send_small_burst]); memory safety of [Recv] under a
      stated bound ([recv_memory_safe]), and when exactly a first datagram makes
      it write outside its buffer ([recv_overflow]); which buffers are lost, and
      which event loses them, on every path ([recv_buffer_accounting],
      [recv_starves]).
    - Buffers: pools are all-or-nothing and conserve their items
      ([acquireBatch_all_or_nothing], [pool_conservation]); so do receivers,
      transmitters and the whole data path under any interleaving
      ([receiver_conserves], [transmitter_conserves],
      [pipeline_conserves_buffers]).
    - Delivery: every linked listener is offered a burst exactly once, and
      takes it unless its queue is full ([burst_reaches_every_listener]); the workers' cached destination lists
      are never out of date ([workers_see_current_destinations]), their rates
      are ([cached_rate_is_stale]); a worker's full queue gives up its oldest
      burst and that burst's buffer, transmitters send in time order ([enqueue_keeps_newest], [transmit_in_order]).
    - Channels: links join attached nodes and carry the models in force
      ([links_consistent]), attaching links everybody ([attach_links_all]) and
      is safe without sandbox nodes ([attach_safe_without_sandbox]), not with
      them ([mixed_deployment_crashes]); what detaching cuts
      ([detach_cuts_both_roles]).
    - Links: port gains, bounded received power, power measurement
      ([channel_ports], [link_power_limited], [power_every_fourth]).
    - Kernels: in exact arithmetic the causal filter and direct convolution agree
      ([causal_filter_is_convolution]), which in place would not hold
      ([direct_conv_in_place_feeds_back]); resampling is zero-stuffing, filtering
      and picking, inside its buffers ([resample_is_filter_and_pick]), but not for
      rates that round to zero ([resample_slow_rate_overflows]) or whose factor
      wraps around ([resample_factor_wraps]); the cached noise
      has the level asked ([noise_has_the_level_asked]) unless a link without noise
      comes between ([noise_lost_after_noiseless_link]) or the thread's first
      request is for nothing ([fresh_thread_silent]); the cache of antennas is
      invisible up to a kilohertz ([antenna_cache_transparent]).
    - Path loss, in exact arithmetic: the urban loss without line of sight can be
      below the one with it, and an unknown scenario loses nothing
      ([nlos_below_los_aloft]); the Hata loss grows with
      the frequency up to 1500 MHz and not beyond ([hata_frequency_inversion]);
      terrain loss is that of free space up to the horizon and jumps there
      ([longley_rice_at_horizon]); the ground at most doubles the field
      ([two_ray_at_most_doubles]).
    - The frequency shift, in exact arithmetic, continues from buffer to buffer
      ([offset_continues]).
    - Nodes: what of a configuration survives its JSON form, and what takes its
      place where it does not ([config_json_roundtrip]),
      site resolution and RF profiles ([refresh_resolves_site],
      [refresh_sets_profile]).

    - The controller, outside sandbox mode: in every state reached by requests,
      time-outs and passes of the channels a node is attached to one channel per side, that of the
      frequency it is tuned to ([node_on_one_frequency]), and ports are not
      shared ([ports_unique]); a retuned node moves to its new channels and
      nobody else does ([retune_moves_node]), a request that changes no frequency
      changes no channel, not even for a new node, in either mode
      ([unchanged_request_attaches_nothing]);
      disconnects and time-outs remove what they should and nothing else
      ([disconnect_removes_node], [timeouts_remove_silent]).  In sandbox mode a
      node can end up in two channels ([sandbox_retune_splits]).
    - The operator: every command, extension, turn of an extension's thread and
      update of positions is a sequence of steps of the same machine
      ([system_refines_machine], [coordinator_refines_machine]); settings reach one link
      ([link_command_one_link]), defaults all channels ([default_model_applies])
      except for some parameters ([new_channel_misses_parameters]); the runtime
      configuration stays in range ([runtime_config_in_range]); the shadowing
      reported can differ from the one in use ([shadow_report_diverges]).
    - Extensions: the registry starts and stops what it should
      ([startFromConfig_starts_enabled], [stopAll_stops_all]); the ray tracer's
      paths become taps without loss ([cirToTaps_accumulates]) on exactly the
      links they were computed for ([cir_reaches_registered_links]); its records
      stay consistent ([sionna_well_formed]); a failed registration is not
      repeated ([failed_registration_not_retried]); a stop leaves the taps
      ([stop_leaves_taps]); all ports but the first lose the path-loss model
      ([other_ports_bypass]).

    - The TCP server: a client that waits for its answers is served, line by
      line, however its stream is cut ([lockstep_every_request_answered]); one
      that does not may lose requests ([pipelined_requests_lost]), and any can
      be taken for another ([request_under_anothers_address]).
    - Falling behind: a backlog that is too old is dropped, and its buffers come
      back ([stale_backlog_drained]).
    - The configuration: what a start reads from a saved file, setting by setting
      ([saved_configuration_reads_back]), patches merge as documented
      ([config_patch_merges]), a fault in the file stops the reading half way
      ([missing_key_stops_reading]); the reports list exactly the links whose
      ends differ in name ([report_lists_links]), with the latest activity
      ([activity_is_latest]).

    ** Bounds

    No fuel is used where the code has a natural measure: loops over datagrams
    recurse on the schedule, the fragment loop of [Send] on the number of
    fragments, the filters on the samples, all others on lists.  Claims that
    count versions assume fewer than 2^64 steps, the width of the version
    counter.

    ** Not modelled

    Logging, profiling and statistics; the database, and the reports that only
    show it; the status report, which reads /proc; socket set-up, and the TCP
    client and location store, which nothing uses; thread creation and
    priorities (threads are steps); MAVSDK handlers;
    the gains of the generated antenna tables.  A turn of an extension's thread
    is one step, although the nodes' requests can run between its HTTP
    exchanges.  The reports and the configuration file are not steps of
    [sys_step]: they change no node and no channel. *)

From Stdlib Require Import ZArith Lia Strings.Byte.
From stdpp Require Import prelude list strings gmap.

#[global] Open Scope Z_scope.

(** ** Machine integers

    C++ integers are kept in [Z]; every conversion or arithmetic result that
    the hardware would truncate goes through one of these functions. *)

Definition wrap (w z : Z) : Z := z mod 2 ^ w.

Definition u8 (z : Z) : Z := wrap 8 z.

Definition u16 (z : Z) : Z := wrap 16 z.

Definition u32 (z : Z) : Z := wrap 32 z.

Definition u64 (z : Z) : Z := wrap 64 z.

Definition swrap (w z : Z) : Z := (z + 2 ^ (w - 1)) mod 2 ^ w - 2 ^ (w - 1).

Definition s16 (z : Z) : Z := swrap 16 z.

Definition s32 (z : Z) : Z := swrap 32 z.

Definition s64 (z : Z) : Z := swrap 64 z.

(** [std::clamp]. *)
Definition clampZ (lo hi z : Z) : Z := Z.max lo (Z.min hi z).

(** ** Fallible computations

    A C++ exception is a value of [E]; undefined behaviour (an access outside
    an object, a null dereference) is modelled as an error value too, so that
    "this never happens" is a statement about the result. *)

Inductive outcome (E A : Type) : Type :=
  | Ok (a : A)
  | Err (e : E).

Arguments Ok {E A} a.
Arguments Err {E A} e.

Definition obind {E A B} (m : outcome E A) (k : A → outcome E B) : outcome E B :=
  match m with Ok a => k a | Err e => Err e end.

Declare Scope chem_scope.
Delimit Scope chem_scope with chem.
Notation "'do!' x <- m ; k" := (obind m (fun x => k))
  (at level 100, x pattern, m at next level, right associativity) : chem_scope.

Definition of_option {E A} (e : E) (o : option A) : outcome E A :=
  match o with Some a => Ok a | None => Err e end.

(** A [for] loop whose body may fail. *)
Fixpoint ofold {E S A} (f : A → S → outcome E S) (l : list A) (s : S) : outcome E S :=
  match l with
  | [] => Ok s
  | a :: l => match f a s with Ok s => ofold f l s | Err e => Err e end
  end.

Fixpoint omap_list {E A B} (f : A → outcome E B) (l : list A) : outcome E (list B) :=
  match l with
  | [] => Ok []
  | a :: l =>
      match f a with
      | Err e => Err e
      | Ok b => match omap_list f l with Ok bs => Ok (b :: bs) | Err e => Err e end
      end
  end.

(** Total of a measure over the values of a map. *)
Definition map_sum {K A} `{Countable K} (f : A → Z) (m : gmap K A) : Z :=
  map_fold (fun _ a n => f a + n) 0 m.

(** ** Record update

    [r <| f := v |>] is [r] with field [f] replaced.  A record type opts in by
    listing its fields once, as the eta expansion [Settable]. *)

Class Settable (R : Type) : Type := eta : R → R.

Class Setter {R E : Type} (proj : R → E) : Type := modify : (E → E) → R → R.

#[global] Arguments modify {R E} proj {_} / _ _.

Ltac solve_setter :=
  match goal with
  | |- @Setter ?R ?E ?p =>
      let h := constr:(_ : Settable R) in
      let h := match h with ?i => i end in
      exact (fun (upd : E → E) (r : R) => ltac:(
        let e := eval cbv beta delta [h] in (h r) in
        match e with
        | context K [p r] => let t := context K [upd (p r)] in exact t
        end))
  end.

#[global] Hint Extern 1 (Setter _) => solve_setter : typeclass_instances.

Notation "r <| f := v |>" := (modify f (fun _ => v) r)
  (at level 1, left associativity, format "r <| f  :=  v |>").

(** ** Bytes and little-endian words *)

Definition byte_of_Z (z : Z) : byte :=
  match Byte.of_N (Z.to_N (z mod 256)) with Some b => b | None => x00 end.

Definition Z_of_byte (b : byte) : Z := Z.of_N (Byte.to_N b).

#[export] Instance byte_eq_dec : EqDecision byte := Byte.byte_eq_dec.

(** The [n] low bytes of [z], least significant first: the object
    representation of an [n]-byte integer on the little-endian targets. *)
Fixpoint le_split (n : nat) (z : Z) : list byte :=
  match n with
  | O => []
  | S n => byte_of_Z z :: le_split n (z / 256)
  end.

Fixpoint le_combine (l : list byte) : Z :=
  match l with
  | [] => 0
  | b :: l => Z_of_byte b + 256 * le_combine l
  end.

#[global] Arguments le_split : simpl never.

(** ** Bounded memory

    [mread] and [mwrite] are [memcpy] out of and into one object: [None] when
    the range leaves the object. *)

Definition mread {A} (off len : Z) (buf : list A) : option (list A) :=
  if decide (0 ≤ off ∧ 0 ≤ len ∧ off + len ≤ Z.of_nat (length buf))
  then Some (take (Z.to_nat len) (drop (Z.to_nat off) buf))
  else None.

Definition mwrite {A} (off : Z) (src buf : list A) : option (list A) :=
  if decide (0 ≤ off ∧ off + Z.of_nat (length src) ≤ Z.of_nat (length buf))
  then Some (take (Z.to_nat off) buf ++ src
             ++ drop (Z.to_nat off + length src) buf)
  else None.

(** ** Tactics and hint databases *)

Create HintDb chem.

(** Case analysis on every [if]/[match] of the goal, cleaning up after each. *)
Ltac cases :=
  repeat (case_match; simplify_eq/=; try done).

(** Linear arithmetic with [/] and [mod] by literals. *)
Ltac zdiv := Z.to_euclidean_division_equations; lia.

Ltac unfold_wrap := unfold u8, u16, u32, u64, wrap in *.

(** ** Generic lemmas *)

Section Integers.

Lemma wrap_small (w z : Z) : 0 ≤ z < 2 ^ w → wrap w z = z.
Proof. intros. by apply Z.mod_small. Qed.

Lemma wrap_range (w z : Z) : 0 ≤ w → 0 ≤ wrap w z < 2 ^ w.
Proof. intros. apply Z.mod_pos_bound. by apply Z.pow_pos_nonneg. Qed.

Lemma swrap_small (w z : Z) :
  0 < w → - 2 ^ (w - 1) ≤ z < 2 ^ (w - 1) → swrap w z = z.
Proof.
  intros Hw Hz. unfold swrap.
  assert (2 ^ w = 2 * 2 ^ (w - 1)) as E
    by (rewrite <- Z.pow_succ_r by lia; f_equal; lia).
  rewrite Z.mod_small; lia.
Qed.

Lemma u8_small z : 0 ≤ z < 256 → u8 z = z.
Proof. intros. apply wrap_small. lia. Qed.

Lemma u16_small z : 0 ≤ z < 65536 → u16 z = z.
Proof. intros. apply wrap_small. lia. Qed.

Lemma u32_small z : 0 ≤ z < 4294967296 → u32 z = z.
Proof. intros. apply wrap_small. lia. Qed.

Lemma u64_small z : 0 ≤ z < 18446744073709551616 → u64 z = z.
Proof. intros. apply wrap_small. lia. Qed.

Lemma clampZ_range lo hi z : lo ≤ hi → lo ≤ clampZ lo hi z ≤ hi.
Proof. unfold clampZ. lia. Qed.

Lemma clampZ_id lo hi z : lo ≤ z ≤ hi → clampZ lo hi z = z.
Proof. unfold clampZ. lia. Qed.

End Integers.

Section Bytes.

Lemma Z_of_byte_range b : 0 ≤ Z_of_byte b < 256.
Proof. unfold Z_of_byte. pose proof (Byte.to_N_bounded b). lia. Qed.

Lemma Z_of_byte_of_Z z : Z_of_byte (byte_of_Z z) = z mod 256.
Proof.
  pose proof (Z.mod_pos_bound z 256 eq_refl) as Hb.
  unfold byte_of_Z, Z_of_byte.
  destruct (Byte.of_N _) as [b|] eqn:E.
  - apply Byte.to_of_N in E. rewrite E. lia.
  - apply Byte.of_N_None_iff in E. lia.
Qed.

Lemma le_split_length n z : length (le_split n z) = n.
Proof. revert z. induction n as [|n IH]; intros z; [done|].
  change (S (length (le_split n (z / 256))) = S n). by rewrite IH. Qed.

Lemma le_combine_split n z : le_combine (le_split n z) = z mod 256 ^ Z.of_nat n.
Proof.
  revert z. induction n as [|n IH]; intros z.
  - symmetry. apply Z.mod_1_r.
  - change (Z_of_byte (byte_of_Z z) + 256 * le_combine (le_split n (z / 256))
            = z mod 256 ^ Z.of_nat (S n)).
    rewrite IH, Z_of_byte_of_Z, Nat2Z.inj_succ, Z.pow_succ_r by lia.
    rewrite Z.rem_mul_r by lia. lia.
Qed.

Lemma le_combine_range l : 0 ≤ le_combine l < 256 ^ Z.of_nat (length l).
Proof.
  induction l as [|b l IH]; cbn [le_combine length]; [lia|].
  rewrite Nat2Z.inj_succ, Z.pow_succ_r by lia.
  pose proof (Z_of_byte_range b). lia.
Qed.

End Bytes.

Section Memory.
Context {A : Type}.
Implicit Types (buf src : list A) (off len : Z).

Lemma mread_Some off len buf r :
  mread off len buf = Some r ↔
  (0 ≤ off ∧ 0 ≤ len ∧ off + len ≤ Z.of_nat (length buf)) ∧
  r = take (Z.to_nat len) (drop (Z.to_nat off) buf).
Proof. unfold mread. case_decide; naive_solver. Qed.

Lemma mread_length off len buf r :
  mread off len buf = Some r → Z.of_nat (length r) = len.
Proof.
  rewrite mread_Some. intros [? ->]. rewrite length_take, length_drop. lia.
Qed.

Lemma mread_lookup off len buf r (k : nat) :
  mread off len buf = Some r → Z.of_nat k < len →
  r !! k = buf !! (Z.to_nat off + k)%nat.
Proof.
  rewrite mread_Some. intros [? ->] ?.
  rewrite lookup_take_lt by lia. by rewrite lookup_drop.
Qed.

Lemma mwrite_Some off src buf r :
  mwrite off src buf = Some r ↔
  (0 ≤ off ∧ off + Z.of_nat (length src) ≤ Z.of_nat (length buf)) ∧
  r = take (Z.to_nat off) buf ++ src ++ drop (Z.to_nat off + length src) buf.
Proof. unfold mwrite. case_decide; naive_solver. Qed.

Lemma mwrite_is_Some off src buf :
  is_Some (mwrite off src buf) ↔
  0 ≤ off ∧ off + Z.of_nat (length src) ≤ Z.of_nat (length buf).
Proof. unfold mwrite, is_Some. case_decide; naive_solver. Qed.

Lemma mwrite_length off src buf r :
  mwrite off src buf = Some r → length r = length buf.
Proof.
  rewrite mwrite_Some. intros [? ->].
  rewrite !length_app, length_take, length_drop. lia.
Qed.

Lemma mwrite_lookup_in off src buf r (k : nat) :
  mwrite off src buf = Some r → (k < length src)%nat →
  r !! (Z.to_nat off + k)%nat = src !! k.
Proof.
  rewrite mwrite_Some. intros [? ->] ?.
  rewrite lookup_app_r by (rewrite length_take; lia).
  rewrite length_take, lookup_app_l by lia. f_equal. lia.
Qed.

Lemma mwrite_lookup_out off src buf r (k : nat) :
  mwrite off src buf = Some r →
  (k < Z.to_nat off)%nat ∨ (Z.to_nat off + length src ≤ k)%nat →
  r !! k = buf !! k.
Proof.
  rewrite mwrite_Some. intros [? ->] [?|?].
  - rewrite lookup_app_l by (rewrite length_take; lia).
    by rewrite lookup_take_lt by lia.
  - rewrite lookup_app_r by (rewrite length_take; lia).
    rewrite length_take, lookup_app_r by lia.
    rewrite lookup_drop. f_equal. lia.
Qed.

End Memory.

(** ** Loops and sums *)

Section Loops.
Context {E S A B : Type}.

(** A loop whose body keeps [P] and never fails under it. *)
Lemma ofold_inv (P : S → Prop) (f : A → S → outcome E S) l s :
  P s → (∀ a s, a ∈ l → P s → ∃ s', f a s = Ok s' ∧ P s') →
  ∃ s', ofold f l s = Ok s' ∧ P s'.
Proof.
  revert s. induction l as [|a l IH]; intros s Hs Hf; [by exists s|].
  destruct (Hf a s) as (s1 & E1 & Hs1); [by left|done|]. cbn [ofold]. rewrite E1.
  apply IH; [done|]. intros b s2 Hb. apply Hf. by right.
Qed.

(** Partial correctness of a loop. *)
Lemma ofold_rel (P : S → Prop) (f : A → S → outcome E S) l s s' :
  ofold f l s = Ok s' → P s →
  (∀ a s s', a ∈ l → f a s = Ok s' → P s → P s') → P s'.
Proof.
  revert s. induction l as [|a l IH]; intros s Hf Hs Hstep; [by injection Hf as <-|].
  cbn [ofold] in Hf. destruct (f a s) as [s1|] eqn:E1; [|done].
  apply (IH s1 Hf); [eapply Hstep; [by left|done..]|].
  intros b s2 s3 Hb. apply Hstep. by right.
Qed.

Lemma omap_list_ok (f : A → outcome E B) (P : A → B → Prop) l :
  (∀ a, a ∈ l → ∃ b, f a = Ok b ∧ P a b) →
  ∃ bs, omap_list f l = Ok bs ∧ Forall2 P l bs.
Proof.
  induction l as [|a l IH]; intros Hf; [by exists []|].
  destruct (Hf a) as (b & Eb & Hb); [by left|].
  destruct IH as (bs & Ebs & Hbs); [by intros c Hc; apply Hf; right|].
  exists (b :: bs). cbn [omap_list]. rewrite Eb, Ebs. by split; [|constructor].
Qed.

Lemma omap_list_length (f : A → outcome E B) l bs :
  omap_list f l = Ok bs → length bs = length l.
Proof.
  revert bs. induction l as [|a l IH]; intros bs; cbn [omap_list]; [by intros [= <-]|].
  destruct (f a); [|done]. destruct (omap_list f l); [|done]. intros [= <-].
  cbn. by rewrite (IH _ eq_refl).
Qed.

End Loops.

Section Sums.
Context {K A : Type} `{Countable K} (f : A → Z).
Implicit Types m : gmap K A.

Lemma map_sum_empty : map_sum f (∅ : gmap K A) = 0.
Proof. apply map_fold_empty. Qed.

Lemma map_sum_insert_new m k a :
  m !! k = None → map_sum f (<[k := a]> m) = f a + map_sum f m.
Proof.
  intros Hk. unfold map_sum. rewrite map_fold_insert_L; [done| |done]. intros. lia.
Qed.

Lemma map_sum_delete m k a :
  m !! k = Some a → map_sum f m = f a + map_sum f (delete k m).
Proof.
  intros Hk. unfold map_sum. rewrite (map_fold_delete_L _ _ k a m); [done| |done]. intros. lia.
Qed.

Lemma map_sum_insert m k a b :
  m !! k = Some a → map_sum f (<[k := b]> m) = map_sum f m - f a + f b.
Proof.
  intros Hk. rewrite <- insert_delete_eq, map_sum_insert_new by apply lookup_delete_eq.
  rewrite (map_sum_delete m k a Hk). lia.
Qed.

Lemma map_sum_alter m k (g : A → A) a :
  m !! k = Some a → map_sum f (alter g k m) = map_sum f m - f a + f (g a).
Proof.
  intros Hk. rewrite <- (map_sum_insert m k a (g a) Hk). f_equal.
  apply map_eq. intros j. destruct (decide (k = j)) as [<-|].
  - by rewrite lookup_alter_eq, Hk, lookup_insert_eq.
  - by rewrite lookup_alter_ne, lookup_insert_ne.
Qed.

Lemma map_sum_alter_same m k (g : A → A) :
  (∀ a, f (g a) = f a) → map_sum f (alter g k m) = map_sum f m.
Proof.
  intros Hg. destruct (m !! k) as [a|] eqn:E.
  - rewrite (map_sum_alter m k g a E), Hg. lia.
  - f_equal. apply map_eq. intros j. destruct (decide (k = j)) as [<-|].
    + by rewrite lookup_alter_eq, E.
    + by rewrite lookup_alter_ne.
Qed.

End Sums.
