(* ===== verification/Ieee.v ===== *)
(** IEEE-754 binary32 and binary64 arithmetic as the C++ code uses it.

    A [float] is a [spec_float] rounded to 24 bits, a [double] one rounded to
    53 bits; [+ - * /], comparisons and integer conversions are the standard
    library's executable specification of round-to-nearest-even arithmetic.
    The unit conversions of src/include/chem/common.h that need no
    transcendental function are modelled here. *)

From Stdlib Require Import ZArith Lia Floats.SpecFloat.
From stdpp Require Import prelude.
From S2P Require Import Prelude.

Abbreviation float := spec_float (only parsing).

#[export] Instance spec_float_eq_dec : EqDecision spec_float.
Proof. solve_decision. Defined.

Module F32.

Definition of_Z (z : Z) : float := binary_normalize 24 128 z 0 false.

Definition add (x y : float) : float := SFadd 24 128 x y.

Definition sub (x y : float) : float := SFsub 24 128 x y.

Definition mul (x y : float) : float := SFmul 24 128 x y.

Definition div (x y : float) : float := SFdiv 24 128 x y.

(** [static_cast<float>] of any value: one rounding of the exact value. *)
Definition of_float (x : float) : float :=
  match x with
  | S754_finite s m e => binary_normalize 24 128 (cond_Zopp s (Zpos m)) e s
  | _ => x
  end.

End F32.

Module F64.

Definition of_Z (z : Z) : float := binary_normalize 53 1024 z 0 false.

Definition add (x y : float) : float := SFadd 53 1024 x y.

Definition sub (x y : float) : float := SFsub 53 1024 x y.

Definition mul (x y : float) : float := SFmul 53 1024 x y.

Definition div (x y : float) : float := SFdiv 53 1024 x y.

Definition of_float (x : float) : float :=
  match x with
  | S754_finite s m e => binary_normalize 53 1024 (cond_Zopp s (Zpos m)) e s
  | _ => x
  end.

(** A decimal literal [n / 10^k]: [n] and [10^k] are exact in binary64 for the
    literals used, and one division rounds correctly. *)
Definition lit (n k : Z) : float := div (of_Z n) (of_Z (10 ^ k)).

End F64.

#[global] Arguments F32.of_Z : simpl never.
#[global] Arguments F32.of_float : simpl never.
#[global] Arguments F64.of_Z : simpl never.
#[global] Arguments F64.of_float : simpl never.
#[global] Arguments F64.lit : simpl never.

Definition fzero : float := S754_zero false.

(** [std::isfinite]. *)
Definition isfinite (x : float) : bool :=
  match x with S754_zero _ | S754_finite _ _ _ => true | _ => false end.

(** [x == 0.0]: true of both zeros, false of NaN. *)
Definition is_zero (x : float) : bool :=
  match x with S754_zero _ => true | _ => false end.

(** Conversion to an integer: the fractional part is discarded; a NaN or an
    infinity has no value (undefined behaviour in C++). *)
Definition trunc (x : float) : option Z :=
  match x with
  | S754_zero _ => Some 0
  | S754_finite s m e => Some (cond_Zopp s (Z.shiftl (Zpos m) e))
  | _ => None
  end.

(** [std::round]: nearest integer, halves away from zero. *)
Definition round (x : float) : option Z :=
  match x with
  | S754_zero _ => Some 0
  | S754_finite s m e =>
      if decide (0 ≤ e) then Some (cond_Zopp s (Z.shiftl (Zpos m) e))
      else Some (cond_Zopp s ((Zpos m + 2 ^ (- e - 1)) / 2 ^ (- e)))
  | _ => None
  end.

(** ** common.h: time conversions *)

Definition NS_2_MS (x : float) : float := F32.div x (F32.of_Z 1000000).

Definition NS_2_US (x : float) : float := F32.div x (F32.of_Z 1000).

Definition NS_2_S (x : float) : float := F32.div x (F32.of_Z 1000000000).

Definition MS_2_NS (x : float) : float := F32.mul x (F32.of_Z 1000000).

Definition S_2_NS (x : float) : float := F32.mul x (F32.of_Z 1000000000).

(** ** common.h: [LOG_GUARD] *)

Definition LOG_SAFE_GUARD : float := F64.lit 1 4.

(** [std::max<float>(a, b)] is [a < b ? b : a]. *)
Definition fmax (a b : float) : float := if SFltb a b then b else a.

(** [std::min(a, b)] is [b < a ? b : a]. *)
Definition fmin (a b : float) : float := if SFltb b a then b else a.

Definition LOG_GUARD (x : float) : float :=
  fmax (F32.of_float LOG_SAFE_GUARD) (if isfinite x then x else fzero).

(** ** common.h: dB conversions without logarithms *)

Definition DBM_TO_DB (x : float) : float := F32.sub x (F32.of_Z 30).

Definition DB_TO_DBM (x : float) : float := F32.add x (F32.of_Z 30).

(** ** Order lemmas *)

Section Order.

Lemma SFcompare_refl_finite x : isfinite x = true → SFcompare x x = Some Eq.
Proof.
  destruct x as [[]|[]| |[] m e]; simpl; try done; intros _;
    rewrite Z.compare_refl, ?Pos.compare_cont_refl; done.
Qed.

Lemma LOG_GUARD_cases x :
  LOG_GUARD x = F32.of_float LOG_SAFE_GUARD ∨ LOG_GUARD x = x ∧ isfinite x = true.
Proof.
  unfold LOG_GUARD, fmax. destruct (isfinite x) eqn:E.
  - destruct (SFltb _ x); auto.
  - replace (SFltb _ _) with false by (vm_compute; reflexivity). by left.
Qed.

End Order.

(** ** Results of rounding have short mantissas *)

Section Mantissa.

Lemma digits2_bound p : Zpos p < 2 ^ Zpos (digits2_pos p).
Proof.
  induction p as [p IH|p IH|]; cbn [digits2_pos]; rewrite ?Pos2Z.inj_succ;
    rewrite ?Z.pow_succ_r by lia; lia.
Qed.

Lemma shr_1_m r : 0 ≤ shr_m r → shr_m (shr_1 r) = shr_m r / 2.
Proof.
  intros Hr. destruct r as [m r s]. cbn [shr_m] in *.
  destruct m as [|[p|p|]|]; cbn [shr_1 shr_m]; try reflexivity; try lia; zdiv.
Qed.

Lemma iter_shr_1_m n r :
  0 ≤ shr_m r → shr_m (SpecFloat.iter_pos shr_1 n r) = shr_m r / 2 ^ Zpos n.
Proof.
  assert (Hp : ∀ a p q, 0 ≤ a → a / 2 ^ Zpos p / 2 ^ Zpos q = a / 2 ^ (Zpos p + Zpos q)).
  { intros. rewrite Z.pow_add_r, Z.div_div by lia. done. }
  revert r. induction n as [n IH|n IH|]; intros r Hr; cbn [SpecFloat.iter_pos].
  - assert (0 ≤ shr_m (shr_1 r)) as H1 by (rewrite shr_1_m by done; zdiv).
    rewrite !IH; [|done|rewrite IH by done; apply Z.div_pos; lia].
    rewrite shr_1_m, Hp by (done || zdiv). rewrite Z.div_div by lia. f_equal.
    rewrite <- Z.pow_succ_r by lia. f_equal. lia.
  - rewrite !IH; [|done|rewrite IH by done; apply Z.div_pos; lia].
    rewrite Hp by done. f_equal. f_equal. lia.
  - by apply shr_1_m.
Qed.

Lemma shr_fexp_bound prec emax m e r e' :
  0 < prec → 0 ≤ m → shr_fexp prec emax m e loc_Exact = (r, e') → shr_m r < 2 ^ prec.
Proof.
  intros Hp Hm. unfold shr_fexp, shr. cbn [shr_record_of_loc].
  pose proof (Z.le_max_l (Zdigits2 m + e - prec) (emin prec emax)) as Hf.
  unfold fexp. set (n := _ `max` _ - e). assert (Hn : Zdigits2 m - prec ≤ n) by lia.
  assert (Hb : m < 2 ^ Zdigits2 m).
  { destruct m as [|p|p]; [done|apply digits2_bound|lia]. }
  assert (Hd : 0 ≤ Zdigits2 m) by by destruct m.
  destruct n as [|p|p] eqn:E; intros [= <- <-]; cbn [shr_m].
  - eapply Z.lt_le_trans; [exact Hb|]. apply Z.pow_le_mono_r; lia.
  - rewrite iter_shr_1_m by done. cbn [shr_m]. apply Z.div_lt_upper_bound; [lia|].
    rewrite <- Z.pow_add_r by lia. eapply Z.lt_le_trans; [exact Hb|].
    apply Z.pow_le_mono_r; lia.
  - eapply Z.lt_le_trans; [exact Hb|]. apply Z.pow_le_mono_r; lia.
Qed.

Lemma round_aux_mantissa prec emax sx mx ex s m e :
  0 < prec → 0 ≤ mx → binary_round_aux prec emax sx mx ex loc_Exact = S754_finite s m e →
  Zpos m < 2 ^ prec.
Proof.
  intros Hp Hm. unfold binary_round_aux.
  destruct (shr_fexp prec emax mx ex loc_Exact) as [r1 e1] eqn:E1.
  destruct (shr_fexp prec emax _ e1 loc_Exact) as [r2 e2] eqn:E2.
  assert (H1 : 0 ≤ shr_m r1).
  { unfold shr_fexp, shr in E1. cbn [shr_record_of_loc] in E1.
    destruct (_ - ex); injection E1 as <- _; cbn [shr_m]; [done| |done].
    rewrite iter_shr_1_m by done. apply Z.div_pos; cbn; lia. }
  apply shr_fexp_bound in E2; [|done|].
  - destruct (shr_m r2); [done| |done]. destruct (_ <=? _); [|done].
    by intros [= _ <- _].
  - unfold round_nearest_even, loc_of_shr_record.
    repeat case_match; lia.
Qed.

Lemma F32_mul_mantissa x y s m e : F32.mul x y = S754_finite s m e → Zpos m < 2 ^ 24.
Proof.
  unfold F32.mul, SFmul. destruct x, y; try done. by apply round_aux_mantissa.
Qed.

End Mantissa.
