(* ===== verification/Common.v ===== *)
(** src/include/chem/common.h: wire headers, protocol constants, the
    enumerations shared by every component, and their string conversions. *)

From Stdlib Require Import ZArith Lia Strings.Byte Strings.Ascii Floats.SpecFloat.
From stdpp Require Import prelude list strings.
From S2P Require Import Prelude Ieee.

(** ** Wire headers *)

(** [struct Header]: 48 bytes, the last one padding. *)
Record Header : Type := mkHeader {
  h_size : Z;                  (* size_t *)
  h_start : Z;                 (* int64_t *)
  h_end : Z;                  (* int64_t *)
  h_rt_tx_time : Z;            (* uint64_t *)
  h_sample_rate : Z;           (* uint64_t *)
  h_number_of_samples : Z;     (* uint32_t *)
  h_total_frags : Z;           (* uint16_t *)
  h_number_of_channels : Z;    (* uint8_t *)
}.

(** [struct UDPHeader]: 24 bytes, the last five padding. *)
Record UDPHeader : Type := mkUDPHeader {
  u_timestamp : Z;             (* uint64_t *)
  u_size : Z;              (* size_t *)
  u_seq_number : Z;            (* uint16_t *)
  u_flag : Z;                  (* uint8_t *)
}.

Definition HEADER_SIZE : Z := 48.

Definition UDP_HEADER_SIZE : Z := 24.

Definition MTU_SIZE : Z := 1472.

Definition BATCH_SIZE : Z := 4.

Definition UDP_CAP : Z := 16.

Definition PAYLOAD_SIZE : Z := MTU_SIZE - UDP_HEADER_SIZE.

Definition MAX_FRAGS : Z := 128.

Definition MAX_IQ : Z := PAYLOAD_SIZE * MAX_FRAGS.

Definition OTW_SIZE : Z := 4.

Definition POOL_CAP : Z := 32.

Definition QUEUE_CAP : Z := 500.

Definition IQ_POOL_CAP : Z := QUEUE_CAP * 4.

Definition IQ_SIZE : Z := MAX_IQ * 4.

Definition UL_PORT_NUM (x : Z) : Z := x + 10000.

Definition REP_PORT_NUM (x : Z) : Z := x + 11000.

Definition REQ_PORT_NUM (x : Z) : Z := x + 10000.

(** Every field in the range of its C++ type. *)
Definition Header_wf (h : Header) : Prop :=
  0 ≤ h_size h < 2 ^ 64 ∧ - 2 ^ 63 ≤ h_start h < 2 ^ 63 ∧
  - 2 ^ 63 ≤ h_end h < 2 ^ 63 ∧ 0 ≤ h_rt_tx_time h < 2 ^ 64 ∧
  0 ≤ h_sample_rate h < 2 ^ 64 ∧ 0 ≤ h_number_of_samples h < 2 ^ 32 ∧
  0 ≤ h_total_frags h < 2 ^ 16 ∧ 0 ≤ h_number_of_channels h < 2 ^ 8.

Definition UDPHeader_wf (h : UDPHeader) : Prop :=
  0 ≤ u_timestamp h < 2 ^ 64 ∧ 0 ≤ u_size h < 2 ^ 64 ∧
  0 ≤ u_seq_number h < 2 ^ 16 ∧ 0 ≤ u_flag h < 2 ^ 8.

(** Object representation of the two structs; [pad] is the (indeterminate)
    content of the padding bytes. *)
Definition encode_Header (pad : byte) (h : Header) : list byte :=
  le_split 8 (h_size h) ++ le_split 8 (h_start h) ++ le_split 8 (h_end h) ++
  le_split 8 (h_rt_tx_time h) ++ le_split 8 (h_sample_rate h) ++
  le_split 4 (h_number_of_samples h) ++ le_split 2 (h_total_frags h) ++
  le_split 1 (h_number_of_channels h) ++ [pad].

Definition encode_UDPHeader (pad : byte) (h : UDPHeader) : list byte :=
  le_split 8 (u_timestamp h) ++ le_split 8 (u_size h) ++
  le_split 2 (u_seq_number h) ++ le_split 1 (u_flag h) ++ replicate 5 pad.

(** [n] bytes at [off] as an unsigned integer. *)
Definition field (off n : nat) (l : list byte) : Z :=
  le_combine (take n (drop off l)).

(** [reinterpret_cast<Header*>]: reads the fields at their offsets. *)
Definition decode_Header (l : list byte) : Header :=
  mkHeader (field 0 8 l) (s64 (field 8 8 l)) (s64 (field 16 8 l))
    (field 24 8 l) (field 32 8 l) (field 40 4 l) (field 44 2 l) (field 46 1 l).

Definition decode_UDPHeader (l : list byte) : UDPHeader :=
  mkUDPHeader (field 0 8 l) (field 8 8 l) (field 16 2 l) (field 18 1 l).

(** ** Enumerations *)

Inductive NodeType : Type :=
  | NT_UNKNOWN | NT_FIXED | NT_AERPAW_FIXED | NT_AERPAW_PORTABLE
  | NT_VEHICLE_MAVPROXY
  | NT_other (v : Z).  (** a [static_cast] of an out-of-range integer *)

#[export] Instance NodeType_eq_dec : EqDecision NodeType.
Proof. solve_decision. Defined.

Definition NodeTypeToString (t : NodeType) : string :=
  match t with
  | NT_FIXED => "Fixed"
  | NT_AERPAW_FIXED => "AERPAW Fixed"
  | NT_AERPAW_PORTABLE => "AERPAW Portable"
  | NT_VEHICLE_MAVPROXY => "Vehicle (MAVProxy)"
  | _ => "Unknown"
  end.

(** [static_cast<int>] and [static_cast<NodeType>]. *)
Definition NodeType_to_int (t : NodeType) : Z :=
  match t with
  | NT_UNKNOWN => 0 | NT_FIXED => 1 | NT_AERPAW_FIXED => 2
  | NT_AERPAW_PORTABLE => 3 | NT_VEHICLE_MAVPROXY => 4
  | NT_other v => v
  end.

Definition NodeType_of_int (v : Z) : NodeType :=
  if v =? 0 then NT_UNKNOWN else if v =? 1 then NT_FIXED
  else if v =? 2 then NT_AERPAW_FIXED else if v =? 3 then NT_AERPAW_PORTABLE
  else if v =? 4 then NT_VEHICLE_MAVPROXY else NT_other v.

Inductive NoiseType : Type := NoiseNONE | AWGN.

#[export] Instance NoiseType_eq_dec : EqDecision NoiseType.
Proof. solve_decision. Defined.

Inductive PropagationModel : Type :=
  | UNKNOWN | FREE_SPACE | TWO_RAY | THREE_GPP_38_901 | OKUMURA_HATA
  | LONGLEY_RICE | NONE.

#[export] Instance PropagationModel_eq_dec : EqDecision PropagationModel.
Proof. solve_decision. Defined.

Definition PropagationModelToString (model : PropagationModel) : string :=
  match model with
  | FREE_SPACE => "FREE_SPACE"
  | TWO_RAY => "2_RAY"
  | THREE_GPP_38_901 => "3GPP_38_901"
  | OKUMURA_HATA => "OKUMURA_HATA"
  | LONGLEY_RICE => "LONGLEY_RICE"
  | NONE => "NONE"
  | UNKNOWN => "UNKNOWN"
  end.

(** [std::toupper] and [std::tolower] in the "C" locale. *)
Definition toupper (c : ascii) : ascii :=
  let n := N_of_ascii c in
  if ((97 <=? n) && (n <=? 122))%N then ascii_of_N (n - 32) else c.

Definition tolower (c : ascii) : ascii :=
  let n := N_of_ascii c in
  if ((65 <=? n) && (n <=? 90))%N then ascii_of_N (n + 32) else c.

Fixpoint string_map (f : ascii → ascii) (s : string) : string :=
  match s with
  | EmptyString => EmptyString
  | String c s => String (f c) (string_map f s)
  end.

Definition upper (s : string) : string := string_map toupper s.

Definition lower (s : string) : string := string_map tolower s.

(** [s.empty()]. *)
Definition empty_str (s : string) : bool :=
  match s with EmptyString => true | String _ _ => false end.

Definition PropagationModelFromString (model : string) : PropagationModel :=
  let u := upper model in
  if (u =? "FREE_SPACE")%string then FREE_SPACE
  else if (u =? "2_RAY")%string || (u =? "TWO_RAY")%string then TWO_RAY
  else if (u =? "3GPP_38_901")%string || (u =? "3GPP")%string
       then THREE_GPP_38_901
  else if (u =? "OKUMURA_HATA")%string || (u =? "HATA")%string
       then OKUMURA_HATA
  else if (u =? "LONGLEY_RICE")%string || (u =? "ITM")%string
       then LONGLEY_RICE
  else if (u =? "NONE")%string then NONE
  else UNKNOWN.

Inductive PathLossType : Type :=
  | twoRay | freeSpace | multiPath | threeGPP_38_901 | okumuraHata | longleyRice.

#[export] Instance PathLossType_eq_dec : EqDecision PathLossType.
Proof. solve_decision. Defined.

(** ** Geometry records *)

Record NodeLink : Type := mkNodeLink {
  nl_type : NodeType;
  dist : float;              (* float *)
  h_dist : float;            (* float *)
  elevation : float;         (* float *)
  azimuth : float;           (* float *)
}.

Record Location : Type := mkLocation {
  lat : float;               (* double *)
  lon : float;               (* double *)
  alt : float;               (* float *)
}.

Record Velocity : Type := mkVelocity {
  east : float;              (* float *)
  north : float;             (* float *)
  up : float;                (* float *)
}.

Record NodeLocation : Type := mkNodeLocation {
  nl_logicalNode : Z;        (* uint8_t *)
  position : Location;
  velocity : Velocity;
  nl_hasVelocity : bool;
}.

Record PropagationDefaults : Type := mkPropagationDefaults {
  pd_model : PropagationModel;
  groundCoeff : float;
  scenario : string;
  pd_hataEnvironment : string;
  refractivity : float;
  groundConductivity : float;
  groundPermittivity : float;
  climateZone : Z;
}.

Definition default_PropagationDefaults : PropagationDefaults :=
  mkPropagationDefaults FREE_SPACE (F32.of_Z (-1)) "UMa" "URBAN" (F32.of_Z 301)
    (F32.of_float (F64.lit 5 3)) (F32.of_Z 15) 5.

(** The AERPAW fixed-node table.  Coordinates carry up to 17 significant
    decimals; [coord n k] is the double nearest to [n / 10^k]. *)
Definition coord (n k : Z) : float :=
  (* n does not fit in 53 bits: round the exact quotient once *)
  let q := n * 2 ^ 200 / 10 ^ k in
  let q' := if (n * 2 ^ 200) mod 10 ^ k =? 0 then 2 * q else 2 * q + 1 in
  binary_normalize 53 1024 q' (-201) false.

Definition ResolveAerpawLocation (key_raw : string) : option Location :=
  let u := upper key_raw in
  let loc la lak lo lok al :=
    Some (mkLocation (coord la lak) (SFopp (coord lo lok)) (F32.of_Z al)) in
  let key a b := (u =? a)%string || (u =? b)%string in
  if key "CC-1" "CC1" then loc 35773871026537634 15 7867694781603241 14 10
  else if key "CC-2" "CC2" then loc 35772182310053005 15 7867476986245003 14 10
  else if key "CC-3" "CC3" then None
  else if key "LW-1" "LW1" then loc 3572750947 8 7869595819 8 12
  else if key "LW-2" "LW2" then loc 3572821305 8 7870090823 8 10
  else if key "LW-3" "LW3" then loc 3572491205 8 7869190014 8 20
  else if key "LW-4" "LW4" then loc 3573318358 8 786983642 7 12
  else if key "LW-5" "LW5" then loc 3574294142 8 7869962993 8 18
  else None.

(** ** Lemmas: the wire format *)

Section Wire.

Lemma encode_Header_length pad h : length (encode_Header pad h) = 48%nat.
Proof. reflexivity. Qed.

Lemma encode_UDPHeader_length pad h : length (encode_UDPHeader pad h) = 24%nat.
Proof. reflexivity. Qed.

Lemma field_skip (n off k : nat) (z : Z) (l : list byte) :
  (k ≤ off)%nat → field off n (le_split k z ++ l) = field (off - k) n l.
Proof.
  intros. unfold field. rewrite drop_app_ge by (rewrite le_split_length; lia).
  by rewrite le_split_length.
Qed.

Lemma field_here (n : nat) (z : Z) (l : list byte) :
  field 0 n (le_split n z ++ l) = z mod 256 ^ Z.of_nat n.
Proof.
  unfold field. rewrite drop_0, take_app_le by (rewrite le_split_length; lia).
  rewrite take_ge by (rewrite le_split_length; lia). apply le_combine_split.
Qed.

Lemma s64_mod z : - 2 ^ 63 ≤ z < 2 ^ 63 → s64 (z mod 256 ^ Z.of_nat 8) = z.
Proof.
  intros Hz. unfold s64, swrap. change (256 ^ Z.of_nat 8) with (2 ^ 64).
  rewrite Zplus_mod_idemp_l, Z.mod_small; lia.
Qed.

(** Evaluate every [field] of a concatenation of words. *)
Ltac read_fields :=
  repeat first [rewrite field_here | rewrite field_skip by lia; cbn [Nat.sub]].

(** What is decoded depends only on the bytes of the header itself. *)
Lemma decode_encode_Header pad h rest :
  Header_wf h → decode_Header (encode_Header pad h ++ rest) = h.
Proof.
  intros (H1 & H2 & H3 & H4 & H5 & H6 & H7 & H8).
  destruct h; unfold decode_Header, encode_Header;
    cbn [h_size h_start h_end h_rt_tx_time h_sample_rate h_number_of_samples
      h_total_frags h_number_of_channels] in *.
  rewrite <- !(assoc_L (++)). read_fields.
  rewrite !s64_mod by done. f_equal; by apply Z.mod_small.
Qed.

Lemma decode_encode_UDPHeader pad h rest :
  UDPHeader_wf h → decode_UDPHeader (encode_UDPHeader pad h ++ rest) = h.
Proof.
  intros (H1 & H2 & H3 & H4).
  destruct h; unfold decode_UDPHeader, encode_UDPHeader;
    cbn [u_timestamp u_size u_seq_number u_flag] in *.
  rewrite <- !(assoc_L (++)). read_fields. f_equal; by apply Z.mod_small.
Qed.

End Wire.
