(* ===== verification/DataPool.v ===== *)
(** src/include/chem/models/data_pool.hpp: the buffer pools.

    [tbb::concurrent_queue] is a FIFO list; a [std::unique_ptr<T[]>] is an
    [option] of its contents.  Exceptions are values of [pool_error].  The
    class [BufferPool] is what the other components are proved against: a pool
    is a bag of buffers that [acquire] takes from and [release] gives back to. *)

From Stdlib Require Import ZArith Lia Strings.Byte.
From stdpp Require Import prelude list strings.
From S2P Require Import Prelude Common.

Inductive pool_error : Type :=
  | InvalidPoolSize     (** [std::invalid_argument]: pool size zero *)
  | NullRelease         (** [std::invalid_argument]: release of a null *)
  | PoolExhausted.      (** [std::runtime_error]: no item available *)

Module DataArrayPool.
Section DataArrayPool.
Context {T : Type} (zeroT : T).

Record t : Type := mk {
  poolSize : Z;
  m_itemSize : Z;
  zeroOnRelease : bool;
  pool : list (list T);
  id : string;
}.

Definition set_pool (p : t) (l : list (list T)) : t :=
  mk (poolSize p) (m_itemSize p) (zeroOnRelease p) l (id p).

(** [std::make_unique<T[]>(n)] value-initialises; [std::memset] to 0 gives the
    same contents. *)
Definition fresh_item (n : Z) : list T := replicate (Z.to_nat n) zeroT.

(** The loop of every constructor. *)
Definition fill (n itemSize : Z) : list (list T) :=
  replicate (Z.to_nat n) (fresh_item itemSize).

Definition ctor_runtime (n runtimeItemSize : Z) (name : string) (zor : bool)
    : outcome pool_error t :=
  if n =? 0 then Err InvalidPoolSize
  else Ok (mk n runtimeItemSize zor (fill n runtimeItemSize) name).

(** Item size fixed by the template argument [itemSize]. *)
Definition ctor (itemSize n : Z) (name : string) (zor : bool)
    : outcome pool_error t :=
  if n =? 0 then Err InvalidPoolSize
  else Ok (mk n itemSize zor (fill n itemSize) name).

(** The NUMA-aware constructors differ only in where the memory lives: each
    buffer is allocated, then zeroed by [std::memset]. *)
Definition ctor_numa (itemSize n : Z) (name : string) (numa_node : Z) (zor : bool)
    : outcome pool_error t :=
  if n =? 0 then Err InvalidPoolSize
  else Ok (mk n itemSize zor
             (map (fun b => replicate (length b) zeroT) (fill n itemSize)) name).

Definition ctor_numa_runtime (n runtimeItemSize : Z) (name : string)
    (numa_node : Z) (zor : bool) : outcome pool_error t :=
  if n =? 0 then Err InvalidPoolSize
  else Ok (mk n runtimeItemSize zor
             (map (fun b => replicate (length b) zeroT) (fill n runtimeItemSize))
             name).

Definition acquire (p : t) : outcome pool_error (list T * t) :=
  match pool p with
  | [] => Err PoolExhausted
  | item :: rest => Ok (item, set_pool p rest)
  end.

(** The loop of [acquireBatch]; [batch] holds what was acquired so far, in
    order.  When the pool runs dry the batch is pushed back behind what the
    queue holds (nothing) and the exception is thrown. *)
Fixpoint acquire_loop (n : nat) (batch : list (list T)) (p : t)
    : outcome pool_error (list (list T)) * t :=
  match n with
  | O => (Ok batch, p)
  | S n =>
      match pool p with
      | [] => (Err PoolExhausted, set_pool p (pool p ++ batch))
      | item :: rest => acquire_loop n (batch ++ [item]) (set_pool p rest)
      end
  end.

Definition acquireBatch (n : Z) (p : t) : outcome pool_error (list (list T)) * t :=
  acquire_loop (Z.to_nat n) [] p.

Definition available (p : t) : Z := Z.of_nat (length (pool p)).

(** [std::memset(item, 0, m_itemSize * sizeof(T))], as far as the buffer
    reaches; [inv] says that it reaches exactly that far. *)
Definition zeroed (n : Z) (b : list T) : list T :=
  take (length b) (replicate (Z.to_nat n) zeroT) ++ drop (Z.to_nat n) b.

Definition release (item : option (list T)) (p : t) : outcome pool_error t :=
  match item with
  | None => Err NullRelease
  | Some b =>
      let b' := if zeroOnRelease p then zeroed (m_itemSize p) b else b in
      Ok (set_pool p (pool p ++ [b']))
  end.

Definition getItemSize (p : t) : Z := m_itemSize p.

(** Every buffer held has the pool's item size. *)
Definition inv (p : t) : Prop :=
  0 ≤ m_itemSize p ∧
  Forall (fun b => Z.of_nat (length b) = m_itemSize p) (pool p).

(** ** Lemmas *)

Lemma fresh_item_length n : 0 ≤ n → Z.of_nat (length (fresh_item n)) = n.
Proof. intros. unfold fresh_item. rewrite length_replicate. lia. Qed.

Lemma zeroed_length n b : length (zeroed n b) = length b.
Proof. unfold zeroed. rewrite length_app, length_take, length_replicate, length_drop. lia. Qed.

Lemma fill_memset n sz :
  map (fun b => replicate (length b) zeroT) (fill n sz) = fill n sz.
Proof.
  unfold fill, fresh_item.
  induction (Z.to_nat n); simpl; [done|]. by rewrite length_replicate, IHn0.
Qed.

Lemma fill_forall n sz :
  0 ≤ sz → Forall (fun b => Z.of_nat (length b) = sz) (fill n sz).
Proof. intros. apply Forall_replicate. by apply fresh_item_length. Qed.

Lemma acquire_inv p b p' : inv p → acquire p = Ok (b, p') →
  inv p' ∧ Z.of_nat (length b) = m_itemSize p'.
Proof.
  unfold inv, acquire. intros [Hs Hf] Ha.
  destruct (pool p) as [|x l] eqn:E; simplify_eq/=.
  apply Forall_cons in Hf as [??]. auto.
Qed.

Lemma release_inv p b p' :
  inv p → Z.of_nat (length b) = m_itemSize p → release (Some b) p = Ok p' → inv p'.
Proof.
  unfold inv, release. intros [Hs Hf] Hb Hr. simplify_eq/=. split; [done|].
  apply Forall_app. split; [done|]. apply Forall_singleton.
  destruct (zeroOnRelease p); [|done]. by rewrite zeroed_length.
Qed.

Lemma acquire_loop_spec n batch p :
  acquire_loop n batch p =
  if decide (n ≤ length (pool p))%nat
  then (Ok (batch ++ take n (pool p)), set_pool p (drop n (pool p)))
  else (Err PoolExhausted, set_pool p (batch ++ pool p)).
Proof.
  revert batch p. induction n as [|n IH]; intros batch p; simpl.
  - rewrite drop_0, app_nil_r. by destruct p.
  - destruct (pool p) as [|x l] eqn:E.
    + simpl. by rewrite app_nil_r.
    + rewrite IH. simpl. rewrite <- !(assoc_L (++)). simpl.
      repeat case_decide; try lia; reflexivity.
Qed.

End DataArrayPool.
Arguments t : clear implicits.
End DataArrayPool.

(** ** [DataPool<T>]: single objects *)

Module DataPool.
Section DataPool.
Context {T : Type} (zeroT freshT : T).

Record t : Type := mk {
  poolSize : Z;
  zeroOnRelease : bool;
  pool : list T;
  id : string;
}.

Definition set_pool (p : t) (l : list T) : t :=
  mk (poolSize p) (zeroOnRelease p) l (id p).

Definition ctor (n : Z) (name : string) (zor : bool) : outcome pool_error t :=
  if n =? 0 then Err InvalidPoolSize
  else Ok (mk n zor (replicate (Z.to_nat n) freshT) name).

Definition acquire (p : t) : outcome pool_error (T * t) :=
  match pool p with
  | [] => Err PoolExhausted
  | item :: rest => Ok (item, set_pool p rest)
  end.

Definition available (p : t) : Z := Z.of_nat (length (pool p)).

Definition release (item : option T) (p : t) : outcome pool_error t :=
  match item with
  | None => Err NullRelease
  | Some b => Ok (set_pool p (pool p ++ [if zeroOnRelease p then zeroT else b]))
  end.

End DataPool.
Arguments t : clear implicits.
End DataPool.

(** ** The interface: a pool is a bag *)

Class BufferPool (P B : Type) : Type := {
  bp_items : P → list B;
  bp_acquire : P → outcome pool_error (B * P);
  bp_release : option B → P → outcome pool_error P;
}.

Class BufferPoolLaws (P B : Type) `{BufferPool P B} : Prop := {
  bp_acquire_ok p b p' :
    bp_acquire p = Ok (b, p') → bp_items p ≡ₚ b :: bp_items p';
  bp_acquire_err p e :
    bp_acquire p = Err e → bp_items p = [];
  bp_release_ok p b :
    ∃ b' p', bp_release (Some b) p = Ok p' ∧ bp_items p' ≡ₚ b' :: bp_items p;
  bp_release_null p : bp_release None p = Err NullRelease;
}.

#[export] Instance DataArrayPool_BufferPool :
  BufferPool (DataArrayPool.t byte) (list byte) := {|
  bp_items := DataArrayPool.pool;
  bp_acquire := DataArrayPool.acquire;
  bp_release := DataArrayPool.release x00;
|}.

#[export] Instance DataPool_BufferPool {T} (zeroT : T) :
  BufferPool (DataPool.t T) T := {|
  bp_items := DataPool.pool;
  bp_acquire := DataPool.acquire;
  bp_release := DataPool.release zeroT;
|}.

#[export] Instance DataArrayPool_laws :
  BufferPoolLaws (DataArrayPool.t byte) (list byte).
Proof.
  split; simpl.
  - intros p b p'. unfold DataArrayPool.acquire. intros. cases.
  - intros p e. unfold DataArrayPool.acquire. intros. cases.
  - intros p b. eexists _, _. split; [done|].
    apply (Permutation_app_comm _ [_]).
  - done.
Qed.

#[export] Instance DataPool_laws {T} (zeroT : T) :
  @BufferPoolLaws (DataPool.t T) T (DataPool_BufferPool zeroT).
Proof.
  split; simpl.
  - intros p b p'. unfold DataPool.acquire. intros. cases.
  - intros p e. unfold DataPool.acquire. intros. cases.
  - intros p b. eexists _, _. split; [done|].
    apply (Permutation_app_comm _ [_]).
  - done.
Qed.

(** [iqPool_t] and [udpDataPool_t]. *)
Abbreviation iqPool_t := (DataArrayPool.t byte) (only parsing).
Abbreviation udpDataPool_t := (DataArrayPool.t byte) (only parsing).

Definition bp_count {P B} `{BufferPool P B} (p : P) : Z :=
  Z.of_nat (length (bp_items p)).

(** Releasing a buffer that cannot fail: the [dataArray()] of a signal. *)
Definition bp_give {P B} `{BufferPool P B} (b : B) (p : P) : P :=
  match bp_release (Some b) p with Ok p' => p' | Err _ => p end.

Lemma bp_give_count {P B} `{BufferPoolLaws P B} (b : B) (p : P) :
  bp_count (bp_give b p) = bp_count p + 1.
Proof.
  unfold bp_count, bp_give. destruct (bp_release_ok p b) as (b' & p' & -> & ->).
  simpl. lia.
Qed.

Lemma give_available (b : list byte) (p : iqPool_t) :
  DataArrayPool.available (bp_give b p) = DataArrayPool.available p + 1.
Proof. pose proof (bp_give_count b p) as H. exact H. Qed.

(** ** Properties of [DataArrayPool] *)

Section PoolRuns.
Context {T : Type} (zeroT : T).
Implicit Types (p : DataArrayPool.t T) (held : list (list T)).

(** One call by a client that holds the buffers [held]: it can only release a
    buffer it holds. *)
Inductive pool_step : DataArrayPool.t T * list (list T) →
                      DataArrayPool.t T * list (list T) → Prop :=
  | ps_acquire p held b p' :
      DataArrayPool.acquire p = Ok (b, p') →
      pool_step (p, held) (p', b :: held)
  | ps_batch p held n r p' :
      DataArrayPool.acquireBatch n p = (r, p') →
      pool_step (p, held)
        (p', match r with Ok bs => bs ++ held | Err _ => held end)
  | ps_write p held l b b' r :
      held = l ++ b :: r → length b' = length b →
      pool_step (p, held) (p, l ++ b' :: r)
  | ps_release p held l b r p' :
      held = l ++ b :: r →
      DataArrayPool.release zeroT (Some b) p = Ok p' →
      pool_step (p, held) (p', l ++ r).

Definition pool_account (N sz : Z) (s : DataArrayPool.t T * list (list T)) : Prop :=
  DataArrayPool.available (s.1) + Z.of_nat (length (s.2)) = N ∧
  DataArrayPool.m_itemSize (s.1) = sz ∧
  Forall (fun b => Z.of_nat (length b) = sz) (DataArrayPool.pool (s.1) ++ s.2).

Lemma acquireBatch_spec (n : Z) p :
  0 ≤ n →
  DataArrayPool.acquireBatch n p =
  if decide (n ≤ DataArrayPool.available p)
  then (Ok (take (Z.to_nat n) (DataArrayPool.pool p)),
        DataArrayPool.set_pool p (drop (Z.to_nat n) (DataArrayPool.pool p)))
  else (Err PoolExhausted, p).
Proof.
  intros. unfold DataArrayPool.acquireBatch, DataArrayPool.available.
  rewrite DataArrayPool.acquire_loop_spec. repeat case_decide; try lia; [done|].
  by destruct p.
Qed.

Lemma acquireBatch_neg (n : Z) p :
  n < 0 → DataArrayPool.acquireBatch n p = (Ok [], p).
Proof. intros. unfold DataArrayPool.acquireBatch. by replace (Z.to_nat n) with 0%nat by lia. Qed.

Lemma pool_account_step N sz s s' :
  pool_account N sz s → pool_step s s' → pool_account N sz s'.
Proof.
  intros (HN & Hs & Hf) Hstep. unfold pool_account, DataArrayPool.available in *.
  destruct Hstep as [p held b p' Ha|p held n r p' Ha|p held l b b' r -> Hb|
    p held l b r p' -> Hr]; simpl in *.
  - unfold DataArrayPool.acquire in Ha. cases.
    split_and!; [lia|done|]. revert Hf.
    rewrite !Forall_app, !Forall_cons, ?Forall_app. tauto.
  - destruct (decide (n < 0)).
    { rewrite acquireBatch_neg in Ha by done. by simplify_eq/=. }
    rewrite acquireBatch_spec in Ha by lia. case_decide; simplify_eq/=; [|done].
    rewrite length_app, length_drop, length_take.
    unfold DataArrayPool.available in *. split_and!; [lia|done|].
    rewrite <- (take_drop (Z.to_nat n) (DataArrayPool.pool p)) in Hf.
    revert Hf. rewrite !Forall_app. tauto.
  - revert Hf HN. rewrite !length_app, !Forall_app, !Forall_cons. simpl.
    rewrite Hb. auto.
  - unfold DataArrayPool.release in Hr. injection Hr as <-. simpl.
    revert Hf HN. rewrite !length_app, !Forall_app, !Forall_cons. simpl.
    intros (? & ? & ? & ?) ?. split_and!; try done; [lia|].
    destruct (DataArrayPool.zeroOnRelease p); [|done].
    rewrite DataArrayPool.zeroed_length. auto.
Qed.

End PoolRuns.

(** C24 [acquireBatch] is all or nothing: with enough items it returns exactly
    the [n] oldest buffers and removes them; otherwise it throws and the pool
    is exactly what it was before the call. *)
Theorem acquireBatch_all_or_nothing {T} (n : Z) (p : DataArrayPool.t T) (Hn : 0 ≤ n) :
  (n ≤ DataArrayPool.available p ∧
   ∃ bs p', DataArrayPool.acquireBatch n p = (Ok bs, p') ∧
     Z.of_nat (length bs) = n ∧ DataArrayPool.pool p = bs ++ DataArrayPool.pool p') ∨
  (DataArrayPool.available p < n ∧
   DataArrayPool.acquireBatch n p = (Err PoolExhausted, p)).
Proof.
  rewrite acquireBatch_spec by done. case_decide; [left|right; split; [lia|done]].
  split; [done|]. eexists _, _. split_and!; [done| |].
  - rewrite length_take. unfold DataArrayPool.available in *. lia.
  - simpl. by rewrite take_drop.
Qed.

Lemma acquireBatch_all_or_nothing_witness :
  let p := DataArrayPool.mk 2 1 false [[x01]; [x02]] "IQ" in
  (3 ≤ DataArrayPool.available p ∧
   ∃ bs p', DataArrayPool.acquireBatch 3 p = (Ok bs, p') ∧
     Z.of_nat (length bs) = 3 ∧ DataArrayPool.pool p = bs ++ DataArrayPool.pool p') ∨
  (DataArrayPool.available p < 3 ∧
   DataArrayPool.acquireBatch 3 p = (Err PoolExhausted, p)).
Proof. intros p. apply (acquireBatch_all_or_nothing 3 p). lia. Defined.

(** C25 Buffers are conserved: after any sequence of acquires, batch acquires
    (failing ones included), in-place writes and releases on a pool built by
    its constructor, the free buffers and the buffers in the client's hands
    are together exactly [poolSize], each of the pool's item size. *)
Theorem pool_conservation {T} (zeroT : T) (N sz : Z) (name : string) (zor : bool)
    (p0 : DataArrayPool.t T) (s : DataArrayPool.t T * list (list T))
    (HN : 0 < N) (Hsz : 0 ≤ sz)
    (Hctor : DataArrayPool.ctor_runtime zeroT N sz name zor = Ok p0)
    (Hrun : rtc (pool_step zeroT) (p0, []) s) :
  DataArrayPool.available (s.1) + Z.of_nat (length (s.2)) = N ∧
  Forall (fun b => Z.of_nat (length b) = sz) (DataArrayPool.pool (s.1) ++ s.2).
Proof.
  assert (pool_account N sz (p0, [])) as H0.
  { unfold DataArrayPool.ctor_runtime in Hctor. cases. unfold pool_account; simpl.
    rewrite app_nil_r. unfold DataArrayPool.available; simpl.
    unfold DataArrayPool.fill at 1. rewrite length_replicate.
    split_and!; [lia|done|by apply DataArrayPool.fill_forall]. }
  enough (pool_account N sz s) as (? & ? & ?) by done.
  clear Hctor. remember (p0, []) as s0 eqn:E. clear E.
  induction Hrun; eauto using pool_account_step.
Qed.

Lemma pool_conservation_witness :
  let p0 := DataArrayPool.mk 2 1 false [[x00]; [x00]] "IQ" in
  let p1 := DataArrayPool.mk 2 1 false [[x00]] "IQ" in
  DataArrayPool.ctor_runtime x00 2 1 "IQ" false = Ok p0 ∧
  (DataArrayPool.available p1 + Z.of_nat (length [[x00]]) = 2 ∧
   Forall (fun b => Z.of_nat (length b) = 1) (DataArrayPool.pool p1 ++ [[x00]])).
Proof.
  intros p0 p1. split; [reflexivity|].
  apply (pool_conservation x00 2 1 "IQ" false p0 (p1, [[x00]]));
    [lia|lia|reflexivity|].
  apply rtc_once. by apply ps_acquire.
Defined.
