(* ===== verification/CxxLib.v ===== *)
(** Pieces of the C++ standard library the sources use: [std::stoi],
    [std::stod], [std::stof], floating-point comparison and float-to-integer
    conversion on the x86-64 target. *)

From Stdlib Require Import ZArith Lia Strings.Ascii Floats.SpecFloat.
From stdpp Require Import prelude list strings.
From S2P Require Import Prelude Ieee Common.

(** [x == y], [x < y] and [x <= y] on floating-point values. *)
Definition feq (x y : float) : bool := SFeqb x y.

Definition flt (x y : float) : bool := SFltb x y.

Definition fle (x y : float) : bool := SFleb x y.

(** [static_cast<int>] of a floating-point value: [cvttsd2si] gives
    0x80000000 for a NaN and for anything out of range. *)
Definition cvtt32 (x : float) : Z :=
  match trunc x with
  | Some z => if decide (- 2 ^ 31 ≤ z < 2 ^ 31) then z else - 2 ^ 31
  | None => - 2 ^ 31
  end.

(** The 64-bit form, through which [uint32_t] conversions go. *)
Definition cvtt64 (x : float) : Z :=
  match trunc x with
  | Some z => if decide (- 2 ^ 63 ≤ z < 2 ^ 63) then z else - 2 ^ 63
  | None => - 2 ^ 63
  end.

(** Conversion of a [double] to [uint32_t]. *)
Definition double_to_u32 (x : float) : Z := u32 (cvtt64 x).

(** ** Numeric text *)

Inductive num_error : Type := InvalidArgument | OutOfRange.

Definition chr (c : ascii) : Z := Z.of_N (N_of_ascii c).

Definition isspace (c : ascii) : bool := (chr c =? 32) || ((9 <=? chr c) && (chr c <=? 13)).

Definition digit (c : ascii) : option Z :=
  if (48 <=? chr c) && (chr c <=? 57) then Some (chr c - 48) else None.

Definition xdigit (c : ascii) : option Z :=
  let c := tolower c in
  if (48 <=? chr c) && (chr c <=? 57) then Some (chr c - 48)
  else if (97 <=? chr c) && (chr c <=? 102) then Some (chr c - 87) else None.

Fixpoint skip_space (s : string) : string :=
  match s with
  | String c s' => if isspace c then skip_space s' else s
  | EmptyString => s
  end.

(** An optional sign: whether it is [-], and the rest. *)
Definition sign (s : string) : bool * string :=
  match s with
  | String "-" s' => (true, s')
  | String "+" s' => (false, s')
  | _ => (false, s)
  end.

(** The longest run of digits: value, how many, rest. *)
Fixpoint digits (dig : ascii → option Z) (base acc : Z) (n : nat) (s : string)
    : Z * nat * string :=
  match s with
  | String c s' =>
      match dig c with
      | Some d => digits dig base (base * acc + d) (S n) s'
      | None => (acc, n, s)
      end
  | EmptyString => (acc, n, s)
  end.

Definition stoi (s : string) : outcome num_error Z :=
  let '(neg, s) := sign (skip_space s) in
  let '(v, n, _) := digits digit 10 0 0 s in
  let v := if neg : bool then - v else v in
  if Nat.eqb n 0 then Err InvalidArgument
  else if decide (- 2 ^ 31 ≤ v < 2 ^ 31) then Ok v else Err OutOfRange.

(** The binary value nearest to [m * base^e], with the inexact flag. *)
Definition nearest (prec emax m base e : Z) : float * bool :=
  if 0 <=? e then
    let z := m * base ^ e in
    let x := binary_normalize prec emax z 0 false in
    (x, negb (match trunc x with Some v => v =? z | None => false end))
  else
    let k := 4 * - e + 64 in
    let d := base ^ (- e) in
    let q := m * 2 ^ k / d in
    let sticky := negb ((m * 2 ^ k) mod d =? 0) in
    let x := binary_normalize prec emax (2 * q + Z.b2z sticky) (- k - 1) false in
    (x, sticky || negb (match x with
                        | S754_finite _ mx ex => Z.shiftl q (- k - ex) =? Zpos mx
                        | S754_zero _ => q =? 0
                        | _ => false
                        end)).

(** Digits, an optional fraction and an optional exponent. *)
Definition scan_number (dig : ascii → option Z) (base : Z) (expc : ascii) (s : string)
    : option (Z * Z * Z) :=
  let '(ip, ni, s1) := digits dig base 0 0 s in
  let '(mant, nf, s2) :=
    match s1 with
    | String "." r => let '(m, n, r') := digits dig base ip 0 r in (m, n, r')
    | _ => (ip, 0%nat, s1)
    end in
  if Nat.eqb (ni + nf) 0 then None
  else
    let ex :=
      match s2 with
      | String c r =>
          if Ascii.eqb (tolower c) expc then
            let '(neg, r) := sign r in
            let '(v, n, _) := digits digit 10 0 0 r in
            if Nat.eqb n 0 then 0 else if neg : bool then - v else v
          else 0
      | EmptyString => 0
      end in
    Some (mant, Z.of_nat nf, ex).

(** [strtod]/[strtof]: [None] when nothing can be converted; the flag is
    [ERANGE]. *)
Definition strtof_gen (prec emax : Z) (s : string) : option (float * bool) :=
  let '(neg, s) := sign (skip_space s) in
  let put (r : float * bool) :=
    let '(x, inexact) := r in
    let tiny := match x with
                | S754_zero _ => true
                | S754_finite _ m e => Z.log2 (Zpos m) + e <? 3 - emax - 1
                | _ => false
                end in
    let erange := match x with S754_infinity _ => true | _ => tiny && inexact end in
    (if neg : bool then SFopp x else x, erange) in
  let l := lower s in
  if String.prefix "inf" l then Some (S754_infinity neg, false)
  else if String.prefix "nan" l then Some (S754_nan, false)
  else
    let hex := if String.prefix "0x" l
               then scan_number xdigit 16 "p" (String.substring 2 (String.length l) l)
               else None in
    match hex with
    | Some (m, nf, ex) => Some (put (nearest prec emax m 2 (ex - 4 * nf)))
    | None =>
        match scan_number digit 10 "e" l with
        | Some (m, nf, ex) => Some (put (nearest prec emax m 10 (ex - nf)))
        | None => None
        end
    end.

Definition sto_gen (prec emax : Z) (s : string) : outcome num_error float :=
  match strtof_gen prec emax s with
  | None => Err InvalidArgument
  | Some (x, erange) => if erange : bool then Err OutOfRange else Ok x
  end.

Definition stod (s : string) : outcome num_error float := sto_gen 53 1024 s.

Definition stof (s : string) : outcome num_error float := sto_gen 24 128 s.

(** ** Small facts *)

Example stoi_ex :
  stoi " -42abc" = Ok (-42) ∧ stoi "x" = Err InvalidArgument ∧
  stoi "2147483648" = Err OutOfRange.
Proof. by vm_compute. Qed.

Example stod_ex :
  stod "35.5" = Ok (F64.lit 355 1) ∧ stod "-1e2" = Ok (F64.of_Z (-100)) ∧
  stod "0x1.8p1" = Ok (F64.of_Z 3) ∧ stod "1e400" = Err OutOfRange ∧
  stod "abc" = Err InvalidArgument ∧ stof "0.1" = Ok (F32.of_float (F64.lit 1 1)).
Proof. by vm_compute. Qed.

Section Compare.

Lemma SFcompare_sym_Eq x y : SFcompare x y = Some Eq → SFcompare y x = Some Eq.
Proof.
  destruct x as [[]|[]| |[] m e], y as [[]|[]| |[] m' e']; simpl; try done;
    rewrite (Z.compare_antisym e e'); destruct (e ?= e') eqn:E; simpl; try done;
    change (Pos.compare_cont Eq m' m) with (Pos.compare_cont (CompOpp Eq) m' m);
    rewrite <- (Pos.compare_cont_antisym m m' Eq);
    destruct (Pos.compare_cont Eq m m'); done.
Qed.

Lemma feq_refl x : isfinite x = true → feq x x = true.
Proof. intros. unfold feq, SFeqb. by rewrite SFcompare_refl_finite. Qed.

Lemma feq_sym x y : feq x y = feq y x.
Proof.
  unfold feq, SFeqb.
  destruct (SFcompare x y) as [[]|] eqn:E, (SFcompare y x) as [[]|] eqn:E'; try done;
    try (apply SFcompare_sym_Eq in E; congruence);
    try (apply SFcompare_sym_Eq in E'; congruence).
Qed.

End Compare.
