(* ===== verification/Json.v ===== *)
(** JSON values as src/include/chem/nlohmann/json.hpp represents them, and the
    accessors the emulator uses.  An object is a [std::map]: an association
    list sorted by key.  Exceptions are values of [json_error]. *)

From Stdlib Require Import ZArith Lia Strings.String Floats.SpecFloat.
From stdpp Require Import prelude list strings.
From S2P Require Import Prelude Ieee Common CxxLib.

#[local] Set Warnings "-register-all".

Inductive json : Type :=
  | JNull
  | JObject (fields : list (string * json))
  | JArray (items : list json)
  | JString (s : string)
  | JBool (b : bool)
  | JInt (z : Z)          (** [number_integer], 64 bit signed *)
  | JUnsigned (z : Z)     (** [number_unsigned], 64 bit *)
  | JFloat (x : float).   (** [number_float], a [double] *)

Inductive json_error : Type :=
  | TypeError             (** 302, 304, 305 *)
  | KeyNotFound           (** 403 *)
  | NumError (e : num_error).

Definition lift_num {A} (r : outcome num_error A) : outcome json_error A :=
  match r with Ok a => Ok a | Err e => Err (NumError e) end.

Definition is_number_integer (j : json) : bool :=
  match j with JInt _ | JUnsigned _ => true | _ => false end.

Definition is_number (j : json) : bool :=
  match j with JInt _ | JUnsigned _ | JFloat _ => true | _ => false end.

Definition is_string (j : json) : bool :=
  match j with JString _ => true | _ => false end.

Definition is_object (j : json) : bool :=
  match j with JObject _ => true | _ => false end.

(** [std::map::find]. *)
Fixpoint find_key (k : string) (fs : list (string * json)) : option json :=
  match fs with
  | [] => None
  | (k', v) :: fs => if (k =? k')%string then Some v else find_key k fs
  end.

(** [m[k] = v]. *)
Fixpoint put_key (k : string) (v : json) (fs : list (string * json))
    : list (string * json) :=
  match fs with
  | [] => [(k, v)]
  | (k', v') :: fs' =>
      match String.compare k k' with
      | Lt => (k, v) :: fs
      | Eq => (k, v) :: fs'
      | Gt => (k', v') :: put_key k v fs'
      end
  end.

Definition contains (k : string) (j : json) : bool :=
  match j with
  | JObject fs => match find_key k fs with Some _ => true | None => false end
  | _ => false
  end.

Definition at_key (k : string) (j : json) : outcome json_error json :=
  match j with
  | JObject fs => of_option KeyNotFound (find_key k fs)
  | _ => Err TypeError
  end.

(** [j[k] = v]; a null becomes an object. *)
Definition set_key (k : string) (v : json) (j : json) : outcome json_error json :=
  match j with
  | JNull => Ok (JObject [(k, v)])
  | JObject fs => Ok (JObject (put_key k v fs))
  | _ => Err TypeError
  end.

(** [json{{k1, v1}, ...}]. *)
Definition of_pairs (l : list (string * json)) : json :=
  JObject (foldl (fun fs kv => put_key (fst kv) (snd kv) fs) [] l).

(** ** [get<T>] *)

Definition get_string (j : json) : outcome json_error string :=
  match j with JString s => Ok s | _ => Err TypeError end.

Definition get_double (j : json) : outcome json_error float :=
  match j with
  | JUnsigned z | JInt z => Ok (F64.of_Z z)
  | JFloat x => Ok x
  | _ => Err TypeError
  end.

(** The arithmetic types other than [double] and the 64-bit integers accept a
    boolean too. *)
Definition get_float (j : json) : outcome json_error float :=
  match j with
  | JUnsigned z | JInt z => Ok (F32.of_Z z)
  | JFloat x => Ok (F32.of_float x)
  | JBool b => Ok (F32.of_Z (Z.b2z b))
  | _ => Err TypeError
  end.

Definition get_u8 (j : json) : outcome json_error Z :=
  match j with
  | JUnsigned z | JInt z => Ok (u8 z)
  | JFloat x => Ok (u8 (cvtt32 x))
  | JBool b => Ok (Z.b2z b)
  | _ => Err TypeError
  end.

Definition get_int (j : json) : outcome json_error Z :=
  match j with
  | JUnsigned z | JInt z => Ok (s32 z)
  | JFloat x => Ok (cvtt32 x)
  | JBool b => Ok (Z.b2z b)
  | _ => Err TypeError
  end.

Definition get_array (j : json) : outcome json_error (list json) :=
  match j with JArray l => Ok l | _ => Err TypeError end.

(** ** [try] blocks

    Statements executed in order on the object being filled; an exception
    leaves the object as the statements before it made it. *)

Definition stmt (A : Type) : Type := A → outcome json_error A.

Fixpoint try_block {A} (ss : list (stmt A)) (a : A) : A :=
  match ss with
  | [] => a
  | s :: ss => match s a with Ok a' => try_block ss a' | Err _ => a end
  end.

(** [x.set(e)] where evaluating [e] may throw. *)
Definition assign {A B} (e : outcome json_error B) (set : B → A → A) : stmt A :=
  fun a => match e with Ok b => Ok (set b a) | Err x => Err x end.

(** [if (c) { ss }] inside a block: an exception leaves the whole block, so the
    statements of the branch are spliced into it. *)
Definition when {A} (c : bool) (ss : list (stmt A)) : list (stmt A) :=
  if c then ss else [].

(** ** Lemmas *)

Section Objects.

Lemma compare_refl k : String.compare k k = Eq.
Proof. pose proof (String.compare_antisym k k). by destruct (String.compare k k). Qed.

Lemma find_put k k' v fs :
  find_key k (put_key k' v fs) = if (k =? k')%string then Some v else find_key k fs.
Proof.
  induction fs as [|[k1 v1] fs IH]; simpl; [done|].
  destruct (String.compare k' k1) eqn:E; simpl.
  - apply String.compare_eq_iff in E as ->. by destruct (k =? k1)%string.
  - done.
  - destruct (String.eqb_spec k k1) as [->|]; [|done].
    destruct (String.eqb_spec k1 k') as [->|]; [|done].
    by rewrite compare_refl in E.
Qed.

(** Keys of an object, last writer wins. *)
Lemma find_foldl_put k l fs :
  find_key k (foldl (fun fs kv => put_key (fst kv) (snd kv) fs) fs l)
  = match find_key k (reverse l) with Some v => Some v | None => find_key k fs end.
Proof.
  revert fs. induction l as [|[k1 v1] l IH]; intros fs; [done|].
  cbn [foldl fst snd]. rewrite IH, reverse_cons, find_put.
  generalize (reverse l) as r. intros r. induction r as [|[k2 v2] r IHr]; simpl.
  - by destruct (k =? k1)%string.
  - destruct (k =? k2)%string; [done|apply IHr].
Qed.

Lemma find_put_if (c : bool) k k' v fs :
  find_key k (if c then put_key k' v fs else fs)
  = if c && (k =? k')%string then Some v else find_key k fs.
Proof. destruct c; [apply find_put|done]. Qed.

(** A block of guarded [j[k] = v] statements on an object. *)
Definition put_all (l : list (bool * string * json)) (fs : list (string * json))
    : list (string * json) :=
  foldl (fun fs e => if e.1.1 : bool then put_key (e.1.2) (e.2) fs else fs) fs l.

Lemma try_block_put_all l fs :
  try_block (concat (map (fun e => when (e.1.1) [set_key (e.1.2) (e.2)]) l)) (JObject fs)
  = JObject (put_all l fs).
Proof.
  revert fs. induction l as [|[[c k] v] l IH]; intros fs; [done|].
  cbn [map concat put_all foldl]. destruct c; simpl; apply IH.
Qed.

Lemma contains_object k fs :
  contains k (JObject fs) = match find_key k fs with Some _ => true | None => false end.
Proof. done. Qed.

Lemma at_key_object k fs :
  at_key k (JObject fs) = of_option KeyNotFound (find_key k fs).
Proof. done. Qed.

End Objects.
