(* ===== verification/NodeConfig.v ===== *)
(** src/include/chem/models/usrp_channel.hpp and node_config.hpp: the radio
    configuration of a node and its JSON form.  src/include/chem/aerpaw: the
    characteristics of the AERPAW front ends. *)

From Stdlib Require Import ZArith Lia Strings.String Floats.SpecFloat.
From stdpp Require Import prelude list strings.
From S2P Require Import Prelude Ieee Common CxxLib Json.

(** ** usrp::Channel and usrp::SampleRate *)

Module usrp.

Record Channel : Type := mkChannel {
  m_txTuneFreq : float;   (* double *)
  m_rxTuneFreq : float;
  m_txGain : float;
  m_rxGain : float;
  m_txAnt : string;
  m_rxAnt : string;
}.

#[global] Instance Channel_eta : Settable Channel := fun c =>
  mkChannel (m_txTuneFreq c) (m_rxTuneFreq c) (m_txGain c) (m_rxGain c)
    (m_txAnt c) (m_rxAnt c).

Definition default_Channel : Channel := mkChannel fzero fzero fzero fzero "" "".

Definition compare (a b : Channel) : bool :=
  feq (m_txTuneFreq a) (m_txTuneFreq b) && feq (m_rxTuneFreq a) (m_rxTuneFreq b)
  && feq (m_txGain a) (m_txGain b) && feq (m_rxGain a) (m_rxGain b)
  && (m_txAnt a =? m_txAnt b)%string && (m_rxAnt a =? m_rxAnt b)%string.

Definition setTxFreq (v : float) (c : Channel) : Channel := c <| m_txTuneFreq := v |>.

Definition setRxFreq (v : float) (c : Channel) : Channel := c <| m_rxTuneFreq := v |>.

Definition setTxGain (v : float) (c : Channel) : Channel := c <| m_txGain := v |>.

Definition setRxGain (v : float) (c : Channel) : Channel := c <| m_rxGain := v |>.

Definition setTxAntenna (v : string) (c : Channel) : Channel := c <| m_txAnt := v |>.

Definition setRxAntenna (v : string) (c : Channel) : Channel := c <| m_rxAnt := v |>.

(** [from_json(j, Channel)]: one [try] block per direction. *)
Definition Channel_from_json (j : json) (c : Channel) : Channel :=
  let fld dir name := (do! d <- at_key dir j; at_key name d)%chem in
  let c := try_block (when (contains "tx" j)
    [assign (obind (fld "tx" "tune_freq") get_double) setTxFreq;
     assign (obind (fld "tx" "gain") get_double) setTxGain;
     assign (obind (fld "tx" "antenna") get_string) setTxAntenna]) c in
  try_block (when (contains "rx" j)
    [assign (obind (fld "rx" "tune_freq") get_double) setRxFreq;
     assign (obind (fld "rx" "gain") get_double) setRxGain;
     assign (obind (fld "rx" "antenna") get_string) setRxAntenna]) c.

Definition Channel_to_json (c : Channel) : json :=
  let dir f g a :=
    of_pairs [("tune_freq", JFloat f); ("gain", JFloat g); ("antenna", JString a)] in
  try_block
    (when (negb (feq (m_txTuneFreq c) fzero))
       [set_key "tx" (dir (m_txTuneFreq c) (m_txGain c) (m_txAnt c))]
     ++ when (negb (feq (m_rxTuneFreq c) fzero))
       [set_key "rx" (dir (m_rxTuneFreq c) (m_rxGain c) (m_rxAnt c))]) JNull.

Record SampleRate : Type := mkSampleRate {
  m_txRate : float;
  m_rxRate : float;
}.

#[global] Instance SampleRate_eta : Settable SampleRate := fun s =>
  mkSampleRate (m_txRate s) (m_rxRate s).

Definition default_SampleRate : SampleRate := mkSampleRate fzero fzero.

Definition SampleRate_eqb (a b : SampleRate) : bool :=
  feq (m_txRate a) (m_txRate b) && feq (m_rxRate a) (m_rxRate b).

Definition setTxRate (v : float) (s : SampleRate) : SampleRate := s <| m_txRate := v |>.

Definition setRxRate (v : float) (s : SampleRate) : SampleRate := s <| m_rxRate := v |>.

Definition SampleRate_to_json (s : SampleRate) : json :=
  of_pairs [("tx", JFloat (m_txRate s)); ("rx", JFloat (m_rxRate s))].

(** [j.contains(k) && j.at(k).is_number()]. *)
Definition has_number (k : string) (j : json) : bool :=
  contains k j && match at_key k j with Ok v => is_number v | Err _ => false end.

Definition SampleRate_from_json (j : json) (s : SampleRate) : SampleRate :=
  let one k (set : float → SampleRate → SampleRate) :=
    if has_number k j then assign (obind (at_key k j) get_double) set
    else assign (Ok (F64.of_Z 1000000)) set in
  try_block [one "rx" setRxRate] (try_block [one "tx" setTxRate] s).

End usrp.

(** ** aerpaw::NodeCharacteristics *)

Record NodeCharacteristics : Type := mkNodeCharacteristics {
  tx_pa_gain_db : float;
  rx_gain_db : float;
  tx_noise_figure_db : float;
  rx_noise_figure_db : float;
  cable_loss_db : float;
  source_power_dbfs : float;    (** NaN = unset *)
  tx_antennas : list string;
  rx_antennas : list string;
}.

(** [NOISE_FIGURE_RX] is 6 (common.h). *)
Definition NOISE_FIGURE_RX : float := F64.of_Z 6.

Definition fixed_node_characteristics : NodeCharacteristics :=
  mkNodeCharacteristics (F64.of_Z 30) (F64.of_Z 19) (F64.of_Z 5)
    (F64.add (F64.lit 145 2) NOISE_FIGURE_RX) (F64.of_Z 5) (F64.of_Z (-12))
    ["rm-wb1-dn-blk right side up"] ["rm-wb1-dn-blk right side up"].

Definition portable_node_characteristics : NodeCharacteristics :=
  mkNodeCharacteristics (F64.of_Z 25) (F64.of_Z 19) (F64.lit 41 1)
    (F64.add (F64.lit 145 2) NOISE_FIGURE_RX) (F64.of_Z 1) (F64.of_Z (-12))
    ["sa-1400-5900"] ["sa-1400-5900"].

(** ** NodeConfig *)

Module NodeConfig.

Record t : Type := mk {
  m_ipAddress : string;
  m_id : string;
  m_name : string;
  m_portTxNum : Z;             (* short *)
  m_portRxNum : Z;             (* short *)
  m_numChannels : Z;           (* uint8_t *)
  m_sample_rate : usrp.SampleRate;
  m_channels : list usrp.Channel;
  m_logicalNode : Z;           (* int *)
  m_location : Location;
  m_hasLocation : bool;
  m_vehicleAddress : string;
  m_aerpawKey : string;
  m_nodeType : NodeType;
  m_characteristics : option NodeCharacteristics;
  m_deviceTxGain : float;      (* double *)
  m_deviceRxGain : float;
  m_hasDeviceTxGain : bool;
  m_hasDeviceRxGain : bool;
  m_txAntennaPattern : string;
  m_rxAntennaPattern : string;
  m_hasTxAntennaPattern : bool;
  m_hasRxAntennaPattern : bool;
  m_inputFormat : string;
  m_outputFormat : string;
}.

#[global] Instance t_eta : Settable t := fun n =>
  mk (m_ipAddress n) (m_id n) (m_name n) (m_portTxNum n) (m_portRxNum n)
    (m_numChannels n) (m_sample_rate n) (m_channels n) (m_logicalNode n)
    (m_location n) (m_hasLocation n) (m_vehicleAddress n) (m_aerpawKey n)
    (m_nodeType n) (m_characteristics n) (m_deviceTxGain n) (m_deviceRxGain n)
    (m_hasDeviceTxGain n) (m_hasDeviceRxGain n) (m_txAntennaPattern n)
    (m_rxAntennaPattern n) (m_hasTxAntennaPattern n) (m_hasRxAntennaPattern n)
    (m_inputFormat n) (m_outputFormat n).

Definition zero_location : Location := mkLocation fzero fzero fzero.

(** A default-constructed object; the two ports have no initialiser. *)
Definition default (tx_port rx_port : Z) : t :=
  mk "" "" "" tx_port rx_port 1 usrp.default_SampleRate [] (-1) zero_location false
    "" "" NT_UNKNOWN None fzero fzero false false "" "" false false "" "".

Definition setId (v : string) (n : t) : t := n <| m_id := v |>.

Definition setName (v : string) (n : t) : t := n <| m_name := v |>.

Definition setIpAddress (v : string) (n : t) : t := n <| m_ipAddress := v |>.

(** [const short&]: the argument is converted to 16 bits signed. *)
Definition setTxPortNumber (v : Z) (n : t) : t := n <| m_portTxNum := s16 v |>.

Definition setRxPortNumber (v : Z) (n : t) : t := n <| m_portRxNum := s16 v |>.

(** [m_channels.at(ch)] throws [std::out_of_range]. *)
Definition update_channel (f : usrp.Channel → usrp.Channel) (ch : Z) (n : t)
    : option t :=
  match m_channels n !! Z.to_nat ch with
  | Some c => Some (n <| m_channels := <[Z.to_nat ch := f c]> (m_channels n) |>)
  | None => None
  end.

Definition updateTxFreq (freq : float) (ch : Z) (n : t) : option t :=
  update_channel (usrp.setTxFreq freq) ch n.

Definition updateRxFreq (freq : float) (ch : Z) (n : t) : option t :=
  update_channel (usrp.setRxFreq freq) ch n.

Definition setSampleRate (v : usrp.SampleRate) (n : t) : t := n <| m_sample_rate := v |>.

Definition setChannels (v : list usrp.Channel) (n : t) : t := n <| m_channels := v |>.

Definition addChannel (c : usrp.Channel) (n : t) : t :=
  n <| m_channels := m_channels n ++ [c] |>.

Definition setNumChannels (v : Z) (n : t) : t := n <| m_numChannels := u8 v |>.

Definition setLogicalNode (v : Z) (n : t) : t := n <| m_logicalNode := s32 v |>.

Definition hasLogicalNode (n : t) : bool := 0 <=? m_logicalNode n.

Definition setLocation (l : Location) (n : t) : t :=
  n <| m_location := l |> <| m_hasLocation := true |>.

Definition setVehicleAddress (v : string) (n : t) : t := n <| m_vehicleAddress := v |>.

Definition hasVehicleAddress (n : t) : bool := negb (empty_str (m_vehicleAddress n)).

Definition setNodeType (v : NodeType) (n : t) : t := n <| m_nodeType := v |>.

Definition setAerpawKey (v : string) (n : t) : t := n <| m_aerpawKey := v |>.

Definition hasAerpawKey (n : t) : bool := negb (empty_str (m_aerpawKey n)).

Definition setCharacteristics (c : NodeCharacteristics) (n : t) : t :=
  n <| m_characteristics := Some c |>.

Definition clearCharacteristics (n : t) : t := n <| m_characteristics := None |>.

Definition hasCharacteristics (n : t) : bool :=
  match m_characteristics n with Some _ => true | None => false end.

Definition setDeviceTxGain (v : float) (n : t) : t :=
  n <| m_deviceTxGain := v |> <| m_hasDeviceTxGain := true |>.

Definition setDeviceRxGain (v : float) (n : t) : t :=
  n <| m_deviceRxGain := v |> <| m_hasDeviceRxGain := true |>.

Definition setDeviceGains (tx rx : float) (n : t) : t :=
  setDeviceRxGain rx (setDeviceTxGain tx n).

Definition setTxAntennaPattern (v : string) (n : t) : t :=
  n <| m_txAntennaPattern := v |> <| m_hasTxAntennaPattern := true |>.

Definition setRxAntennaPattern (v : string) (n : t) : t :=
  n <| m_rxAntennaPattern := v |> <| m_hasRxAntennaPattern := true |>.

Definition setAntennaPattern (v : string) (n : t) : t :=
  setRxAntennaPattern v (setTxAntennaPattern v n).

Definition setInputFormat (v : string) (n : t) : t := n <| m_inputFormat := v |>.

Definition setOutputFormat (v : string) (n : t) : t := n <| m_outputFormat := v |>.

(** *** JSON *)

(** [to_json]: every value a [json] of the C++ type's kind ([uint8_t] is
    unsigned, [int] signed, [double] and [float] a [double]). *)
Definition to_json (n : t) : json :=
  let gains :=
    try_block
      (when (m_hasDeviceTxGain n) [set_key "tx" (JFloat (m_deviceTxGain n))]
       ++ when (m_hasDeviceRxGain n) [set_key "rx" (JFloat (m_deviceRxGain n))]) JNull in
  try_block
    (when (negb (bool_decide (m_channels n = [])))
       [set_key "channels" (JArray (map usrp.Channel_to_json (m_channels n)))]
     ++ when (0 <=? m_logicalNode n) [set_key "logical_node" (JInt (m_logicalNode n))]
     ++ when (m_hasLocation n)
       [set_key "location"
          (of_pairs [("lat", JFloat (lat (m_location n)));
                     ("lon", JFloat (lon (m_location n)));
                     ("alt", JFloat (alt (m_location n)))])]
     ++ when (negb (empty_str (m_vehicleAddress n)))
       [set_key "vehicle" (of_pairs [("address", JString (m_vehicleAddress n))])]
     ++ when (negb (empty_str (m_aerpawKey n)))
       [set_key "AERPAW" (JString (m_aerpawKey n))]
     ++ when (negb (bool_decide (m_nodeType n = NT_UNKNOWN)))
       [set_key "node_type" (JInt (NodeType_to_int (m_nodeType n)))]
     ++ when (m_hasDeviceTxGain n || m_hasDeviceRxGain n) [set_key "gains" gains]
     ++ when (negb (empty_str (m_inputFormat n)))
       [set_key "inputFormat" (JString (m_inputFormat n))]
     ++ when (negb (empty_str (m_outputFormat n)))
       [set_key "outputFormat" (JString (m_outputFormat n))])
    (of_pairs [("id", JString (m_id n)); ("name", JString (m_name n));
               ("numChannels", JUnsigned (m_numChannels n));
               ("sample_rate", usrp.SampleRate_to_json (m_sample_rate n))]).

(** [j.contains(k) && p(j.at(k))]. *)
Definition has (p : json → bool) (k : string) (j : json) : bool :=
  contains k j && match at_key k j with Ok v => p v | Err _ => false end.

Definition get {A} (f : json → outcome json_error A) (k : string) (j : json)
    : outcome json_error A := obind (at_key k j) f.

(** Lines 232-241. *)
Definition parse_channels (j : json) (n : t) : t :=
  try_block
    (if contains "channels" j then
       [assign
          (get get_array "channels" j)
          (fun l n => n <| m_channels :=
             map (fun c => usrp.Channel_from_json c usrp.default_Channel) l |>)]
     else when (0 <? m_numChannels n)
       [fun n => Ok (n <| m_channels :=
          replicate (Z.to_nat (m_numChannels n)) usrp.default_Channel |>)]) n.

(** Lines 272-292: a coordinate, as a number or as text; [location.f] stays 0
    when the key is absent. *)
Definition parse_coord {A} (num : json → outcome json_error A)
    (text : string → outcome num_error A) (zero : A) (k : string) (loc : json)
    : outcome json_error A :=
  if contains k loc then
    if has is_number k loc then get num k loc
    else obind (get get_string k loc) (fun s => lift_num (text s))
  else Ok zero.

Definition parse_location (j : json) (n : t) : t :=
  try_block (when (has is_object "location" j)
    [assign
       (do! loc <- at_key "location" j;
        do! la <- parse_coord get_double stod fzero "lat" loc;
        do! lo <- parse_coord get_double stod fzero "lon" loc;
        do! al <- parse_coord get_float stof fzero "alt" loc;
        Ok (mkLocation la lo al))%chem setLocation]) n.

(** Lines 312-332. *)
Definition parse_aerpaw (j : json) (n : t) : t :=
  let key k :=
    if has is_string k j then [assign (get get_string k j) setAerpawKey]
    else when (has is_object k j)
      (match at_key k j with
       | Ok o => when (has is_string "node" o)
                   [assign (get get_string "node" o) setAerpawKey]
       | Err _ => []
       end) in
  try_block (if contains "AERPAW" j then key "AERPAW"
             else when (contains "aerpaw" j) (key "aerpaw")) n.

(** Lines 352-367: the gain of the first channel stands in for a missing device
    gain when it is finite and above 1e-12 in magnitude. *)
Definition usable_gain (g : float) : bool :=
  isfinite g && flt (F64.lit 1 12) (SFabs g).

Definition gain_fallback (n : t) : t :=
  match m_channels n with
  | [] => n
  | c :: _ =>
      let n := if negb (m_hasDeviceTxGain n) && usable_gain (usrp.m_txGain c)
               then setDeviceTxGain (usrp.m_txGain c) n else n in
      if negb (m_hasDeviceRxGain n) && usable_gain (usrp.m_rxGain c)
      then setDeviceRxGain (usrp.m_rxGain c) n else n
  end.

Definition parse_gains (j : json) (n : t) : t :=
  let g := at_key "gains" j in
  try_block
    (when (has is_object "gains" j)
       (match g with
        | Ok g =>
            when (has is_number "tx" g) [assign (get get_double "tx" g) setDeviceTxGain]
            ++ when (has is_number "rx" g) [assign (get get_double "rx" g) setDeviceRxGain]
        | Err _ => []
        end)
     ++ [fun n => Ok (gain_fallback n)]) n.

Definition parse_logical_node (j : json) (n : t) : t :=
  try_block (when (contains "logical_node" j)
    (if has is_number "logical_node" j
     then [assign (get get_int "logical_node" j) setLogicalNode]
     else when (has is_string "logical_node" j)
       [assign (obind (get get_string "logical_node" j) (fun s => lift_num (stoi s)))
          setLogicalNode])) n.

Definition parse_vehicle (j : json) (n : t) : t :=
  try_block (when (has is_object "vehicle" j)
    (match at_key "vehicle" j with
     | Ok v => when (has is_string "address" v)
                 [assign (get get_string "address" v) setVehicleAddress]
     | Err _ => []
     end)) n.

(** [from_json]: ten independent [try] blocks. *)
Definition from_json (j : json) (n : t) : t :=
  let n := try_block
    (when (contains "id" j) [assign (get get_string "id" j) setId]
     ++ when (contains "name" j) [assign (get get_string "name" j) setName]) n in
  let n := try_block (when (has is_number "numChannels" j)
    [assign (get get_u8 "numChannels" j) setNumChannels]) n in
  let n := parse_channels j n in
  let n := try_block (when (contains "sample_rate" j)
    [assign (at_key "sample_rate" j)
       (fun v => setSampleRate (usrp.SampleRate_from_json v usrp.default_SampleRate))]) n in
  let n := parse_logical_node j n in
  let n := parse_location j n in
  let n := parse_vehicle j n in
  let n := parse_aerpaw j n in
  let n := parse_gains j n in
  let n := try_block (when (has is_number_integer "node_type" j)
    [assign (get get_int "node_type" j) (fun v => setNodeType (NodeType_of_int v))]) n in
  try_block
    (when (has is_string "inputFormat" j)
       [assign (get get_string "inputFormat" j) setInputFormat]
     ++ when (has is_string "outputFormat" j)
       [assign (get get_string "outputFormat" j) setOutputFormat]) n.

(** *** The round trip *)

(** The keys of [to_json n], each with the condition under which it is set. *)
Definition json_fields (n : t) : list (bool * string * json) :=
  [(true, "id", JString (m_id n)); (true, "name", JString (m_name n));
   (true, "numChannels", JUnsigned (m_numChannels n));
   (true, "sample_rate", usrp.SampleRate_to_json (m_sample_rate n));
   (negb (bool_decide (m_channels n = [])), "channels",
    JArray (map usrp.Channel_to_json (m_channels n)));
   (0 <=? m_logicalNode n, "logical_node", JInt (m_logicalNode n));
   (m_hasLocation n, "location",
    of_pairs [("lat", JFloat (lat (m_location n)));
              ("lon", JFloat (lon (m_location n)));
              ("alt", JFloat (alt (m_location n)))]);
   (negb (empty_str (m_vehicleAddress n)), "vehicle",
    of_pairs [("address", JString (m_vehicleAddress n))]);
   (negb (empty_str (m_aerpawKey n)), "AERPAW", JString (m_aerpawKey n));
   (negb (bool_decide (m_nodeType n = NT_UNKNOWN)), "node_type",
    JInt (NodeType_to_int (m_nodeType n)));
   (m_hasDeviceTxGain n || m_hasDeviceRxGain n, "gains",
    try_block
      (when (m_hasDeviceTxGain n) [set_key "tx" (JFloat (m_deviceTxGain n))]
       ++ when (m_hasDeviceRxGain n) [set_key "rx" (JFloat (m_deviceRxGain n))]) JNull);
   (negb (empty_str (m_inputFormat n)), "inputFormat", JString (m_inputFormat n));
   (negb (empty_str (m_outputFormat n)), "outputFormat", JString (m_outputFormat n))].

Lemma to_json_fields n : to_json n = JObject (put_all (json_fields n) []).
Proof.
  transitivity (try_block
    (concat (map (fun e => when (e.1.1) [set_key (e.1.2) (e.2)]) (drop 4 (json_fields n))))
    (JObject (put_all (take 4 (json_fields n)) []))).
  { unfold to_json, json_fields. destruct (empty_str (m_outputFormat n)); reflexivity. }
  rewrite try_block_put_all. reflexivity.
Qed.

(** The value under [k], if any: the first entry named [k]. *)
Fixpoint entry (k : string) (l : list (bool * string * json)) : option json :=
  match l with
  | [] => None
  | (c, k', v) :: l => if (k =? k')%string then (if c : bool then Some v else None)
                       else entry k l
  end.

Lemma find_put_all k l fs :
  NoDup (map (fun e => e.1.2) l) →
  find_key k (put_all l fs)
  = match entry k l with Some v => Some v | None => find_key k fs end.
Proof.
  revert fs. induction l as [|[[c k1] v] l IH]; intros fs Hnd; [done|].
  cbn [map] in Hnd. apply NoDup_cons in Hnd as [Hk Hnd].
  change (put_all ((c, k1, v) :: l) fs)
    with (put_all l (if c then put_key k1 v fs else fs)).
  rewrite IH, find_put_if by done. cbn [entry].
  destruct (String.eqb_spec k k1) as [->|Hne]; [|by rewrite andb_false_r].
  assert (entry k1 l = None) as ->; [|by destruct c].
  clear -Hk. induction l as [|[[c2 k2] v2] l IH]; [done|]. cbn [map entry fst snd] in *.
  apply not_elem_of_cons in Hk as [Hne Hk]. simpl in Hne.
  destruct (String.eqb_spec k1 k2); [done|]. by apply IH.
Qed.

Lemma find_to_json k n :
  find_key k (put_all (json_fields n) []) = entry k (json_fields n).
Proof.
  rewrite find_put_all; [by destruct (entry _ _)|].
  apply (bool_decide_unpack (NoDup _)). reflexivity.
Qed.

Lemma contains_to_json k n :
  contains k (to_json n) = match entry k (json_fields n) with Some _ => true | _ => false end.
Proof. by rewrite to_json_fields, contains_object, find_to_json. Qed.

Lemma at_to_json k n :
  at_key k (to_json n) = of_option KeyNotFound (entry k (json_fields n)).
Proof. by rewrite to_json_fields, at_key_object, find_to_json. Qed.

(** Evaluate every access to a key of [to_json n]. *)
Ltac json_keys :=
  unfold has, get; rewrite ?contains_to_json, ?at_to_json;
  cbn [json_fields entry String.eqb Ascii.eqb Bool.eqb].

(** What becomes of a channel: a direction without a frequency is not written,
    so its gain and antenna are lost. *)
Definition kept_channel (c : usrp.Channel) : usrp.Channel :=
  let tx := negb (feq (usrp.m_txTuneFreq c) fzero) in
  let rx := negb (feq (usrp.m_rxTuneFreq c) fzero) in
  {| usrp.m_txTuneFreq := if tx then usrp.m_txTuneFreq c else fzero;
     usrp.m_rxTuneFreq := if rx then usrp.m_rxTuneFreq c else fzero;
     usrp.m_txGain := if tx then usrp.m_txGain c else fzero;
     usrp.m_rxGain := if rx then usrp.m_rxGain c else fzero;
     usrp.m_txAnt := if tx then usrp.m_txAnt c else "";
     usrp.m_rxAnt := if rx then usrp.m_rxAnt c else "" |}.

(** An empty list of channels is not written either: [numChannels] blank ones
    are read. *)
Definition kept_channels (n : t) : list usrp.Channel :=
  match m_channels n with
  | [] => replicate (Z.to_nat (m_numChannels n)) usrp.default_Channel
  | l => map kept_channel l
  end.

(** The gain of the first channel that stands in for a missing device gain. *)
Definition stand_in (g : usrp.Channel → float) (l : list usrp.Channel) : option float :=
  match l with c :: _ => if usable_gain (g c) then Some (g c) else None | [] => None end.

Definition kept_gain (has : bool) (gain : float) (other : option float) : float :=
  if has then gain else match other with Some g => g | None => fzero end.

Definition kept_has (has : bool) (other : option float) : bool :=
  has || match other with Some _ => true | None => false end.

(** The members lie in the ranges of their C++ types: [uint8_t], [int], [float],
    and an enumeration with [int] values. *)
Record in_types (n : t) : Prop := {
  se_num : 0 ≤ m_numChannels n < 256;
  se_logical : - 2 ^ 31 ≤ m_logicalNode n < 2 ^ 31;
  se_alt : F32.of_float (alt (m_location n)) = alt (m_location n);
  se_type : NodeType_of_int (NodeType_to_int (m_nodeType n)) = m_nodeType n;
  se_type_range : - 2 ^ 31 ≤ NodeType_to_int (m_nodeType n) < 2 ^ 31;
}.

(** What comes back.  Not written at all: addresses, ports, characteristics,
    antenna patterns. *)
Definition persisted (tx_port rx_port : Z) (n : t) : t :=
  let tx := stand_in usrp.m_txGain (kept_channels n) in
  let rx := stand_in usrp.m_rxGain (kept_channels n) in
  {| m_ipAddress := ""; m_id := m_id n; m_name := m_name n;
     m_portTxNum := tx_port; m_portRxNum := rx_port;
     m_numChannels := m_numChannels n; m_sample_rate := m_sample_rate n;
     m_channels := kept_channels n;
     m_logicalNode := if 0 <=? m_logicalNode n then m_logicalNode n else -1;
     m_location := if m_hasLocation n then m_location n else zero_location;
     m_hasLocation := m_hasLocation n;
     m_vehicleAddress := m_vehicleAddress n; m_aerpawKey := m_aerpawKey n;
     m_nodeType := m_nodeType n; m_characteristics := None;
     m_deviceTxGain := kept_gain (m_hasDeviceTxGain n) (m_deviceTxGain n) tx;
     m_deviceRxGain := kept_gain (m_hasDeviceRxGain n) (m_deviceRxGain n) rx;
     m_hasDeviceTxGain := kept_has (m_hasDeviceTxGain n) tx;
     m_hasDeviceRxGain := kept_has (m_hasDeviceRxGain n) rx;
     m_txAntennaPattern := ""; m_rxAntennaPattern := "";
     m_hasTxAntennaPattern := false; m_hasRxAntennaPattern := false;
     m_inputFormat := m_inputFormat n; m_outputFormat := m_outputFormat n |}.

(** [to_json n] read into an object [n0] that is still as it was constructed
    where the next key is concerned. *)
Section RoundTrip.
Context (n n0 : t) (Hse : in_types n).

Lemma Channel_roundtrip c :
  usrp.Channel_from_json (usrp.Channel_to_json c) usrp.default_Channel = kept_channel c.
Proof.
  destruct c as [tf rf tg rg ta ra]. unfold usrp.Channel_to_json, kept_channel.
  cbn [usrp.m_txTuneFreq usrp.m_rxTuneFreq usrp.m_txGain usrp.m_rxGain usrp.m_txAnt usrp.m_rxAnt].
  destruct (feq tf fzero), (feq rf fzero); reflexivity.
Qed.

Lemma channels_roundtrip :
  m_numChannels n0 = m_numChannels n → m_channels n0 = [] →
  parse_channels (to_json n) n0 = n0 <| m_channels := kept_channels n |>.
Proof.
  intros Hn H0. unfold parse_channels. json_keys.
  destruct (bool_decide_reflect (m_channels n = [])) as [He|He]; cbn [negb].
  - rewrite Hn. unfold kept_channels. rewrite He.
    destruct (Z.ltb_spec 0 (m_numChannels n)); [cbn; by rewrite Hn|].
    replace (Z.to_nat (m_numChannels n)) with 0%nat by lia. cbn. rewrite <- H0. by destruct n0.
  - assert (Hk : kept_channels n = map kept_channel (m_channels n))
      by (unfold kept_channels; by destruct (m_channels n)).
    rewrite Hk. cbn -[kept_channel]. do 2 f_equal. rewrite map_map. apply map_ext.
    apply Channel_roundtrip.
Qed.

Lemma logical_roundtrip :
  m_logicalNode n0 = -1 →
  parse_logical_node (to_json n) n0
  = n0 <| m_logicalNode := if 0 <=? m_logicalNode n then m_logicalNode n else -1 |>.
Proof.
  intros H0. unfold parse_logical_node. json_keys. pose proof (se_logical n Hse).
  destruct (Z.leb_spec 0 (m_logicalNode n)); cbn.
  - unfold setLogicalNode. cbn. unfold s32. rewrite !swrap_small; try done; try lia.
    rewrite swrap_small; lia.
  - rewrite <- H0. by destruct n0.
Qed.

Lemma location_roundtrip :
  m_hasLocation n0 = false → m_location n0 = zero_location →
  parse_location (to_json n) n0
  = n0 <| m_location := if m_hasLocation n then m_location n else zero_location |>
       <| m_hasLocation := m_hasLocation n |>.
Proof.
  intros Hh H0. unfold parse_location. json_keys.
  destruct (m_hasLocation n) eqn:E; cbn.
  - pose proof (se_alt n Hse) as Ha. destruct (m_location n) as [la lo al]. cbn [alt] in Ha.
    lazy -[F32.of_float]. by rewrite Ha.
  - rewrite <- H0, <- Hh. by destruct n0.
Qed.

Lemma vehicle_roundtrip :
  m_vehicleAddress n0 = "" →
  parse_vehicle (to_json n) n0 = n0 <| m_vehicleAddress := m_vehicleAddress n |>.
Proof.
  intros H0. unfold parse_vehicle. json_keys.
  destruct (m_vehicleAddress n) eqn:E; cbn; [rewrite <- H0; by destruct n0|done].
Qed.

Lemma aerpaw_roundtrip :
  m_aerpawKey n0 = "" →
  parse_aerpaw (to_json n) n0 = n0 <| m_aerpawKey := m_aerpawKey n |>.
Proof.
  intros H0. unfold parse_aerpaw. json_keys.
  destruct (m_aerpawKey n) eqn:E; cbn; [rewrite <- H0; by destruct n0|done].
Qed.

Lemma gains_roundtrip :
  m_hasDeviceTxGain n0 = false → m_hasDeviceRxGain n0 = false →
  m_deviceTxGain n0 = fzero → m_deviceRxGain n0 = fzero →
  let tx := stand_in usrp.m_txGain (m_channels n0) in
  let rx := stand_in usrp.m_rxGain (m_channels n0) in
  parse_gains (to_json n) n0
  = n0 <| m_deviceTxGain := kept_gain (m_hasDeviceTxGain n) (m_deviceTxGain n) tx |>
       <| m_deviceRxGain := kept_gain (m_hasDeviceRxGain n) (m_deviceRxGain n) rx |>
       <| m_hasDeviceTxGain := kept_has (m_hasDeviceTxGain n) tx |>
       <| m_hasDeviceRxGain := kept_has (m_hasDeviceRxGain n) rx |>.
Proof.
  intros Ht Hr Htg Hrg tx rx. subst tx rx. unfold parse_gains. json_keys.
  destruct n0 as [ip id nm pt pr nc sr chs ln loc hl va ak nt ch tg rg ht hr tp rp htp hrp inf outf].
  cbn in Ht, Hr, Htg, Hrg. subst.
  unfold stand_in, kept_gain, kept_has.
  destruct (m_hasDeviceTxGain n), (m_hasDeviceRxGain n), chs as [|c chs]; cbn -[usable_gain];
    try reflexivity;
    unfold gain_fallback, setDeviceTxGain, setDeviceRxGain; cbn -[usable_gain];
    destruct (usable_gain (usrp.m_txGain c)), (usable_gain (usrp.m_rxGain c)); reflexivity.
Qed.

Lemma type_roundtrip :
  m_nodeType n0 = NT_UNKNOWN →
  try_block (when (has is_number_integer "node_type" (to_json n))
    [assign (get get_int "node_type" (to_json n))
       (fun v => setNodeType (NodeType_of_int v))]) n0
  = n0 <| m_nodeType := m_nodeType n |>.
Proof.
  intros H0. json_keys. destruct (bool_decide_reflect (m_nodeType n = NT_UNKNOWN)) as [->|].
  - cbn. rewrite <- H0. by destruct n0.
  - cbn. unfold s32. rewrite swrap_small; [|done|apply (se_type_range n Hse)].
    by rewrite (se_type n Hse).
Qed.

End RoundTrip.

End NodeConfig.

(** C26 Saving and loading a node configuration, for every configuration there can
    be (members in the ranges of their C++ types): reading back what [to_json]
    wrote gives exactly [persisted], that is, the same configuration except
    that addresses, ports, characteristics and antenna patterns are as in a new
    object; the gain and antenna of a channel's direction without a frequency
    are blank; an empty list of channels comes back as [numChannels] blank ones;
    a negative logical node comes back as -1 and a position that is not set as
    zero; and a device gain that is not set comes back as the first channel's
    gain when that is usable, marked as set, and as zero otherwise. *)
Theorem config_json_roundtrip (n : NodeConfig.t) (tx_port rx_port : Z)
    (Hse : NodeConfig.in_types n) :
  NodeConfig.from_json (NodeConfig.to_json n) (NodeConfig.default tx_port rx_port)
  = NodeConfig.persisted tx_port rx_port n.
Proof.
  unfold NodeConfig.from_json.
  set (j := NodeConfig.to_json n). set (d := NodeConfig.default tx_port rx_port).
  assert (H1 : try_block
    (when (contains "id" j) [assign (NodeConfig.get get_string "id" j) NodeConfig.setId]
     ++ when (contains "name" j)
          [assign (NodeConfig.get get_string "name" j) NodeConfig.setName]) d
    = d <| NodeConfig.m_id := NodeConfig.m_id n |>
        <| NodeConfig.m_name := NodeConfig.m_name n |>)
    by (subst j; NodeConfig.json_keys; reflexivity).
  rewrite H1. clear H1. cbn zeta.
  set (d1 := try_block (when (NodeConfig.has is_number "numChannels" j) _) _).
  assert (Hd1 : d1 = d <| NodeConfig.m_id := NodeConfig.m_id n |>
    <| NodeConfig.m_name := NodeConfig.m_name n |>
    <| NodeConfig.m_numChannels := NodeConfig.m_numChannels n |>).
  { subst d1 j. NodeConfig.json_keys. cbn. unfold NodeConfig.setNumChannels. cbn.
    pose proof (NodeConfig.se_num n Hse). by rewrite !u8_small by (rewrite ?u8_small; lia). }
  clearbody d1. subst d1 j.
  rewrite NodeConfig.channels_roundtrip by done.
  set (d2 := try_block (when (contains "sample_rate" (NodeConfig.to_json n)) _) _).
  assert (Hd2 : d2 = (d <| NodeConfig.m_id := NodeConfig.m_id n |>
    <| NodeConfig.m_name := NodeConfig.m_name n |>
    <| NodeConfig.m_numChannels := NodeConfig.m_numChannels n |>)
    <| NodeConfig.m_channels := NodeConfig.kept_channels n |>
    <| NodeConfig.m_sample_rate := NodeConfig.m_sample_rate n |>).
  { subst d2. NodeConfig.json_keys. cbn. unfold NodeConfig.setSampleRate.
    by destruct (NodeConfig.m_sample_rate n). }
  clearbody d2. subst d2.
  rewrite NodeConfig.logical_roundtrip, NodeConfig.location_roundtrip,
    NodeConfig.vehicle_roundtrip, NodeConfig.aerpaw_roundtrip,
    NodeConfig.gains_roundtrip by done.
  rewrite NodeConfig.type_roundtrip by done.
  NodeConfig.json_keys. unfold NodeConfig.persisted. subst d. clear Hse.
  destruct n as [? ? ? ? ? ? ? ? ? ? ? ? ? ? ? ? ? ? ? ? ? ? ? inf outf].
  destruct inf, outf; reflexivity.
Qed.

(** A portable AERPAW node with one channel, a position and two gains. *)
Definition sample_config : NodeConfig.t :=
  NodeConfig.mk "10.0.0.2" "n1" "uav" 4001 4002 1
    (usrp.mkSampleRate (F64.of_Z 2000000) (F64.of_Z 2000000))
    [usrp.mkChannel (F64.of_Z 3500000000) (F64.of_Z 3400000000) (F64.of_Z 30) (F64.of_Z 25)
       "TX/RX" "RX2"] 3
    (mkLocation (F64.lit 357275 4) (F64.lit (-786962) 4) (F32.of_Z 12)) true
    "" "LW1" NT_AERPAW_PORTABLE None (F64.of_Z 20) (F64.of_Z 10) true true "" "" false false
    "sc16" "".

(** That node without its receive gain and with a second, blank channel, and a
    new object: the first channel's gain stands in, the one channel of a new
    object appears. *)
Definition partial_config : NodeConfig.t :=
  sample_config <| NodeConfig.m_hasDeviceRxGain := false |>
    <| NodeConfig.m_channels := NodeConfig.m_channels sample_config
         ++ [usrp.mkChannel fzero fzero (F64.of_Z 7) fzero "TX/RX" ""] |>.

Lemma config_json_roundtrip_witness :
  let back n := NodeConfig.from_json (NodeConfig.to_json n) (NodeConfig.default 0 0) in
  back sample_config = sample_config <| NodeConfig.m_ipAddress := "" |>
    <| NodeConfig.m_portTxNum := 0 |> <| NodeConfig.m_portRxNum := 0 |> ∧
  NodeConfig.m_deviceRxGain (back partial_config) = F64.of_Z 25 ∧
  NodeConfig.m_channels (back partial_config)
  = NodeConfig.m_channels sample_config ++ [usrp.default_Channel] ∧
  NodeConfig.m_channels (back (NodeConfig.default 0 0)) = [usrp.default_Channel].
Proof.
  intros back. subst back. cbv beta.
  assert (Hs : NodeConfig.in_types sample_config) by by split.
  assert (Hp : NodeConfig.in_types partial_config) by by split.
  assert (Hd : NodeConfig.in_types (NodeConfig.default 0 0)) by by split.
  rewrite (config_json_roundtrip sample_config 0 0 Hs),
    (config_json_roundtrip partial_config 0 0 Hp),
    (config_json_roundtrip (NodeConfig.default 0 0) 0 0 Hd).
  vm_compute. by split_and!.
Defined.
