(* ===== verification/NodeEntity.v ===== *)
(** src/src/chem/node/node_entity.cpp: a connected node, its location and
    velocity, and [refreshFromConfig], which derives node type, location and RF
    characteristics from what the node asked for.

    Pointers to the transmitter and the receiver are addresses of the shared
    [heap] of Intermediate.v; the vehicle handlers are a map from node name to
    the address a handler was started with (MAVSDK is not modelled).  Times are
    nanoseconds of the steady clock; [cos] is libm's. *)

From Stdlib Require Import ZArith Lia Strings.String Strings.Ascii Floats.SpecFloat.
From stdpp Require Import prelude list strings gmap pretty.
From S2P Require Import Prelude Ieee Common CxxLib Json NodeConfig.

Definition PI : float := F64.lit 314159265 8.

(** [std::map<std::string, std::shared_ptr<vehicle::Handler>>]: the address of
    every running handler. *)
Abbreviation handlers := (gmap string string) (only parsing).

Module Node.

Record t : Type := mk {
  m_config : NodeConfig.t;
  m_update : bool;
  m_txExist : bool;
  m_rxExist : bool;
  m_type : NodeType;
  m_location : Location;
  m_logicalNode : Z;                (* uint8_t *)
  m_hasLocation : bool;
  m_velocity : Velocity;
  m_hasVelocity : bool;
  m_hasPrevLocation : bool;
  m_prevLocation : Location;
  m_prevLocationTime : Z;
  m_characteristics : option NodeCharacteristics;
  m_transmitter : option positive;
  m_receiver : option positive;
  m_lastHeartbeat : Z;
}.

#[global] Instance t_eta : Settable t := fun n =>
  mk (m_config n) (m_update n) (m_txExist n) (m_rxExist n) (m_type n) (m_location n)
    (m_logicalNode n) (m_hasLocation n) (m_velocity n) (m_hasVelocity n)
    (m_hasPrevLocation n) (m_prevLocation n) (m_prevLocationTime n)
    (m_characteristics n) (m_transmitter n) (m_receiver n) (m_lastHeartbeat n).

Definition ctor (now : Z) (config : NodeConfig.t) : t :=
  mk config false false false NT_UNKNOWN NodeConfig.zero_location 0 false
    (mkVelocity fzero fzero fzero) false false NodeConfig.zero_location 0 None None None now.

Definition updateHeartbeat (now : Z) (n : t) : t := n <| m_lastHeartbeat := now |>.

(** [duration_cast<seconds>] truncates. *)
Definition isAlive (now timeout : Z) (n : t) : bool :=
  Z.quot (now - m_lastHeartbeat n) 1000000000 <? timeout.

(** [a[i].compare(b[i])] for every [i]. *)
Fixpoint compare_channels (a b : list usrp.Channel) : bool :=
  match a, b with
  | x :: a, y :: b => usrp.compare x y && compare_channels a b
  | _, _ => true
  end.

(** [Node::compare(const NodeConfig&)]. *)
Definition compare_config (nc : NodeConfig.t) (n : t) : bool :=
  let c := m_config n in
  let gains_ok (has : NodeConfig.t → bool) (g : NodeConfig.t → float) :=
    Bool.eqb (has c) (has nc) && (negb (has c && has nc) || feq (g c) (g nc)) in
  (NodeConfig.m_id c =? NodeConfig.m_id nc)%string
  && (NodeConfig.m_name c =? NodeConfig.m_name nc)%string
  && (NodeConfig.m_ipAddress c =? NodeConfig.m_ipAddress nc)%string
  && usrp.SampleRate_eqb (NodeConfig.m_sample_rate c) (NodeConfig.m_sample_rate nc)
  && (NodeConfig.m_inputFormat c =? NodeConfig.m_inputFormat nc)%string
  && (NodeConfig.m_outputFormat c =? NodeConfig.m_outputFormat nc)%string
  && bool_decide (length (NodeConfig.m_channels c) = length (NodeConfig.m_channels nc))
  && bool_decide (NodeConfig.m_nodeType c = NodeConfig.m_nodeType nc)
  && gains_ok NodeConfig.m_hasDeviceTxGain NodeConfig.m_deviceTxGain
  && gains_ok NodeConfig.m_hasDeviceRxGain NodeConfig.m_deviceRxGain
  && compare_channels (NodeConfig.m_channels c) (NodeConfig.m_channels nc).

(** [Node::compare(const Node&)]. *)
Definition compare (other : t) (n : t) : bool := compare_config (m_config other) n.

(** [operator==]. *)
Definition eqb (a b : t) : bool :=
  (NodeConfig.m_id (m_config a) =? NodeConfig.m_id (m_config b))%string.

Definition setNodeType (v : NodeType) (n : t) : t := n <| m_type := v |>.

Definition set_config (f : NodeConfig.t → NodeConfig.t) (n : t) : t :=
  n <| m_config := f (m_config n) |>.

Section Location.
Context (cos : float → float).

(** Lines 209-222: the velocity from two positions [dt] seconds apart. *)
Definition velocity_between (prev loc : Location) (dt : float) : Velocity :=
  let meters_per_deg := F64.lit 1113195 1 in
  let lat_avg_rad := F64.mul (F64.mul (F64.add (lat prev) (lat loc)) (F64.lit 5 1))
                       (F64.div PI (F64.of_Z 180)) in
  let dlat_m := F64.mul (F64.sub (lat loc) (lat prev)) meters_per_deg in
  let dlon_m := F64.mul (F64.mul (F64.sub (lon loc) (lon prev)) meters_per_deg)
                  (cos lat_avg_rad) in
  let dalt_m := F32.sub (alt loc) (alt prev) in
  mkVelocity (F32.of_float (F64.div dlon_m dt)) (F32.of_float (F64.div dlat_m dt))
    (F32.of_float (F64.div dalt_m dt)).

Definition setLocation (now : Z) (location : Location) (logicalNode : Z) (n : t) : t :=
  let dt := F64.div (F64.of_Z (now - m_prevLocationTime n)) (F64.of_Z 1000000000) in
  let moved := m_hasPrevLocation n && flt (F64.lit 1 3) dt in
  let n := if moved then
             n <| m_velocity := velocity_between (m_prevLocation n) location dt |>
               <| m_hasVelocity := true |>
           else n in
  let n := n <| m_prevLocation := location |> <| m_prevLocationTime := now |>
             <| m_hasPrevLocation := true |> <| m_location := location |>
             <| m_logicalNode := u8 logicalNode |> <| m_hasLocation := true |> in
  set_config (fun c => NodeConfig.setLogicalNode (u8 logicalNode)
                         (NodeConfig.setLocation location c)) n.

End Location.

Definition setVelocity (v : Velocity) (n : t) : t :=
  n <| m_velocity := v |> <| m_hasVelocity := true |>.

Definition getLocation (n : t) : option NodeLocation :=
  if m_hasLocation n
  then Some (mkNodeLocation (m_logicalNode n) (m_location n) (m_velocity n) (m_hasVelocity n))
  else None.

Definition isComplete (n : t) : bool :=
  negb (bool_decide (NodeConfig.m_channels (m_config n) = [])).

Definition setUpdate (u : bool) (n : t) : t := n <| m_update := u |>.

Definition setTransmitter (tx : option positive) (n : t) : t :=
  n <| m_transmitter := tx |> <| m_txExist := bool_decide (is_Some tx) |>.

Definition setReceiver (rx : option positive) (n : t) : t :=
  n <| m_receiver := rx |> <| m_rxExist := bool_decide (is_Some rx) |>.

Definition setConfig (c : NodeConfig.t) (n : t) : t :=
  n <| m_config := c |> <| m_characteristics := NodeConfig.m_characteristics c |>.

Definition setCharacteristics (c : NodeCharacteristics) (n : t) : t :=
  n <| m_characteristics := Some c |>.

Definition clearCharacteristics (n : t) : t := n <| m_characteristics := None |>.

(** *** JSON *)

Definition to_json (n : t) : json := NodeConfig.to_json (m_config n).

Definition get_bool (j : json) : outcome json_error bool :=
  match j with JBool b => Ok b | _ => Err TypeError end.

(** [j.get<NodeConfig>()] fills a default-constructed configuration, whose
    ports hold whatever was in memory. *)
Definition from_json (tx_port rx_port : Z) (j : json) (n : t) : t :=
  try_block
    [(fun n => Ok (setConfig (NodeConfig.from_json j (NodeConfig.default tx_port rx_port)) n));
     assign (obind (at_key "update" j) get_bool) setUpdate] n.

(** *** Vehicles and refresh *)

(** [s.find_first_of("0123456789")]: the text from the first digit on. *)
Fixpoint from_digit (s : string) : option string :=
  match s with
  | EmptyString => None
  | String c s' => match digit c with Some _ => Some s | None => from_digit s' end
  end.

(** [upperKey.rfind("PN", 0) == 0]. *)
Definition is_pn (key : string) : bool := String.prefix "PN" (upper key).

(** [fmt::format("tcp://127.0.0.1:{}", 5760 + logicalNode)]; the [int] sum is in range
    for logical nodes below 2^31 - 5760. *)
Definition vehicle_url (logicalNode : Z) : string :=
  ("tcp://127.0.0.1:" ++ pretty (5760 + logicalNode))%string.

Definition vehicle_key (c : NodeConfig.t) : string :=
  if empty_str (NodeConfig.m_name c) then NodeConfig.m_id c else NodeConfig.m_name c.

(** Lines 369-394: the address a handler would connect to. *)
Definition vehicle_address (nc : NodeConfig.t) : string :=
  if empty_str (NodeConfig.m_vehicleAddress nc) && NodeConfig.hasAerpawKey nc then
    if is_pn (NodeConfig.m_aerpawKey nc) then
      vehicle_url
        (if NodeConfig.hasLogicalNode nc then NodeConfig.m_logicalNode nc
         else match from_digit (upper (NodeConfig.m_aerpawKey nc)) with
              | Some s => match stoi s with Ok v => v | Err _ => 0 end
              | None => 0
              end)
    else ""
  else NodeConfig.m_vehicleAddress nc.

(** [addVehicle]: at most one handler per node name. *)
Definition addVehicle (nc : NodeConfig.t) (vh : handlers) (n : t) : bool * handlers * t :=
  let key := vehicle_key (m_config n) in
  if empty_str key then (false, vh, n)
  else match vh !! key with
       | Some _ => (false, vh, n)
       | None =>
           let a := vehicle_address nc in
           if empty_str a then (false, vh, n)
           else (true, <[key := a]> vh, set_config (NodeConfig.setVehicleAddress a) n)
       end.

(** The lambda [resolveLogicalNode]: the number, and the configuration it
    completes. *)
Definition resolveLogicalNode (nc : NodeConfig.t) : Z * NodeConfig.t :=
  if NodeConfig.hasLogicalNode nc then (NodeConfig.m_logicalNode nc, nc)
  else match from_digit (NodeConfig.m_aerpawKey nc) with
       | Some s =>
           match stoi s with
           | Ok v => (v, NodeConfig.setLogicalNode v nc)
           | Err _ => (0, NodeConfig.setLogicalNode 0 nc)
           end
       | None => (0, NodeConfig.setLogicalNode 0 nc)
       end.

(** [getResolvedLogicalNode]: memoised; whether the number was given at all. *)
Definition getResolvedLogicalNode (memo : option (Z * bool)) (nc : NodeConfig.t)
    : (Z * bool) * NodeConfig.t :=
  match memo with
  | Some r => (r, nc)
  | None =>
      let hasInfo := NodeConfig.hasLogicalNode nc in
      let '(ln, nc') := resolveLogicalNode nc in
      ((ln, hasInfo || bool_decide (is_Some (from_digit (NodeConfig.m_aerpawKey nc')))), nc')
  end.

(** [lat == 0.0 && lon == 0.0 && alt == 0.0f]. *)
Definition at_origin (l : Location) : bool :=
  feq (lat l) fzero && feq (lon l) fzero && feq (alt l) fzero.

(** Lines 415-433: the fields copied into the node's configuration. *)
Definition copy_fields (nc c : NodeConfig.t) : NodeConfig.t :=
  let c := NodeConfig.setNodeType (NodeConfig.m_nodeType nc)
    (NodeConfig.setNumChannels (NodeConfig.m_numChannels nc)
    (NodeConfig.setOutputFormat (NodeConfig.m_outputFormat nc)
    (NodeConfig.setInputFormat (NodeConfig.m_inputFormat nc)
    (NodeConfig.setIpAddress (NodeConfig.m_ipAddress nc)
    (NodeConfig.setName (NodeConfig.m_name nc)
    (NodeConfig.setId (NodeConfig.m_id nc) c)))))) in
  let c := if NodeConfig.hasVehicleAddress nc
           then NodeConfig.setVehicleAddress (NodeConfig.m_vehicleAddress nc) c else c in
  let c := if NodeConfig.hasAerpawKey nc
           then NodeConfig.setAerpawKey (NodeConfig.m_aerpawKey nc) c else c in
  let c := if NodeConfig.m_hasDeviceTxGain nc
           then NodeConfig.setDeviceTxGain (NodeConfig.m_deviceTxGain nc) c else c in
  if NodeConfig.m_hasDeviceRxGain nc
  then NodeConfig.setDeviceRxGain (NodeConfig.m_deviceRxGain nc) c else c.

(** The local variables of [refreshFromConfig]. *)
Record refresh : Type := mkRefresh {
  r_node : t;
  r_cfg : NodeConfig.t;
  r_handlers : handlers;
  r_memo : option (Z * bool);
  r_type : NodeType;
  r_vehicleAdded : bool;
}.

#[global] Instance refresh_eta : Settable refresh := fun r =>
  mkRefresh (r_node r) (r_cfg r) (r_handlers r) (r_memo r) (r_type r) (r_vehicleAdded r).

(** Runs [getResolvedLogicalNode] on the locals. *)
Definition resolve (r : refresh) : (Z * bool) * refresh :=
  let '(v, nc) := getResolvedLogicalNode (r_memo r) (r_cfg r) in
  (v, r <| r_memo := Some v |> <| r_cfg := nc |>).

(** Lines 486-507: the type of the node. *)
Definition decide_type (r : refresh) : refresh :=
  let nc := r_cfg r in
  if NodeConfig.hasVehicleAddress nc then
    let '(added, vh, n) := addVehicle nc (r_handlers r) (r_node r) in
    r <| r_type := NT_VEHICLE_MAVPROXY |> <| r_vehicleAdded := added |>
      <| r_handlers := vh |> <| r_node := n |>
  else if NodeConfig.m_hasLocation nc then
    if at_origin (NodeConfig.m_location nc) then r else r <| r_type := NT_FIXED |>
  else if NodeConfig.hasAerpawKey nc then
    if is_pn (NodeConfig.m_aerpawKey nc)
    then let '(_, r) := resolve (r <| r_type := NT_AERPAW_PORTABLE |>) in r
    else r <| r_type := NT_AERPAW_FIXED |>
  else r.

(** One profile for the node and both configurations. *)
Definition use_profile (ch : NodeCharacteristics) (r : refresh) : refresh :=
  r <| r_node := set_config (NodeConfig.setCharacteristics ch)
                   (setCharacteristics ch (r_node r)) |>
    <| r_cfg := NodeConfig.setCharacteristics ch (r_cfg r) |>.

(** Lines 508-542. *)
Definition set_profile (r : refresh) : refresh :=
  let ty := r_type r in
  let r := r <| r_cfg := NodeConfig.setNodeType ty (r_cfg r) |>
             <| r_node := set_config (NodeConfig.setNodeType ty) (r_node r) |> in
  match ty with
  | NT_AERPAW_FIXED => use_profile fixed_node_characteristics r
  | NT_AERPAW_PORTABLE => use_profile portable_node_characteristics r
  | NT_VEHICLE_MAVPROXY =>
      use_profile (match NodeConfig.m_characteristics (r_cfg r) with
                   | Some ch => ch
                   | None => portable_node_characteristics
                   end) r
  | _ =>
      r <| r_node := set_config NodeConfig.clearCharacteristics
                       (clearCharacteristics (r_node r)) |>
        <| r_cfg := NodeConfig.clearCharacteristics (r_cfg r) |>
  end.

Section Refresh.
Context (cos : float → float) (now : Z).

(** Both copies of the location. *)
Definition place (loc : Location) (ln : Z) (r : refresh) : refresh :=
  r <| r_node := setLocation cos now loc (u8 ln) (r_node r) |>
    <| r_cfg := NodeConfig.setLogicalNode (u8 ln) (NodeConfig.setLocation loc (r_cfg r)) |>.

(** Lines 544-600. *)
Definition set_place (r : refresh) : refresh :=
  let nc := r_cfg r in
  if NodeConfig.m_hasLocation nc then
    if at_origin (NodeConfig.m_location nc) then r
    else
      let r := place (NodeConfig.m_location nc)
                 (if NodeConfig.hasLogicalNode nc then NodeConfig.m_logicalNode nc else 0) r in
      r <| r_node := set_config (NodeConfig.setCharacteristics fixed_node_characteristics)
                       (setCharacteristics fixed_node_characteristics (r_node r)) |>
  else if NodeConfig.hasAerpawKey nc then
    match ResolveAerpawLocation (NodeConfig.m_aerpawKey nc) with
    | Some loc =>
        if NodeConfig.hasLogicalNode nc then place loc (NodeConfig.m_logicalNode nc) r
        else let '(v, r) := resolve r in place loc v.1 r
    | None => r
    end
  else r.

(** Lines 602-613. *)
Definition start_vehicle (pn : bool) (r : refresh) : refresh :=
  let r :=
    if pn && negb (r_vehicleAdded r) then
      let '(v, r) := resolve r in
      if v.2 : bool then
        let nc := NodeConfig.setVehicleAddress (vehicle_url v.1) (r_cfg r) in
        let '(added, vh, n) := addVehicle nc (r_handlers r) (r_node r) in
        r <| r_cfg := nc |> <| r_vehicleAdded := added |> <| r_handlers := vh |>
          <| r_node := n |>
      else r
    else r in
  if NodeConfig.hasVehicleAddress (r_cfg r)
  then r <| r_node := set_config (NodeConfig.setVehicleAddress
                        (NodeConfig.m_vehicleAddress (r_cfg r))) (r_node r) |>
  else r.

(** [refreshFromConfig]: node, configuration and handlers afterwards. *)
Definition refreshFromConfig (nc : NodeConfig.t) (vh : handlers) (n : t)
    : t * NodeConfig.t * handlers :=
  let pn := NodeConfig.hasAerpawKey nc && is_pn (NodeConfig.m_aerpawKey nc) in
  let r := mkRefresh (set_config (copy_fields nc) n) nc vh None (NodeConfig.m_nodeType nc) false in
  let r := start_vehicle pn (set_place (set_profile (decide_type r))) in
  (r_node r, r_cfg r, r_handlers r).

End Refresh.

End Node.

(** ** Lemmas *)

Section RefreshLemmas.
Import Node.
Context (cos : float → float) (now : Z).

(** RF profile and type of the node being refreshed. *)
Definition profile (n : Node.t) : option NodeCharacteristics * option NodeCharacteristics * NodeType :=
  (m_characteristics n, NodeConfig.m_characteristics (m_config n),
   NodeConfig.m_nodeType (m_config n)).

Lemma addVehicle_profile nc vh n b vh' n' :
  addVehicle nc vh n = (b, vh', n') → profile n' = profile n.
Proof.
  unfold addVehicle. destruct (empty_str _); [by intros [= _ _ <-]|].
  destruct (vh !! _); [by intros [= _ _ <-]|].
  destruct (empty_str _); by intros [= _ _ <-].
Qed.

Lemma resolve_node r v r' : resolve r = (v, r') →
  r_node r' = r_node r ∧ r_handlers r' = r_handlers r ∧ r_type r' = r_type r ∧
  r_vehicleAdded r' = r_vehicleAdded r.
Proof.
  unfold resolve. destruct (getResolvedLogicalNode _ _). by intros [= _ <-].
Qed.

(** [resolve] fills in the logical node and nothing else of the request. *)
Lemma resolve_cfg r v r' : resolve r = (v, r') →
  r_cfg r' = r_cfg r ∨ ∃ k, r_cfg r' = NodeConfig.setLogicalNode k (r_cfg r).
Proof.
  unfold resolve, getResolvedLogicalNode, resolveLogicalNode.
  destruct (r_memo r); [intros [= _ <-]; by left|].
  destruct (NodeConfig.hasLogicalNode _); [intros [= _ <-]; by left|].
  destruct (from_digit _) as [s|]; [destruct (stoi s)|]; intros [= _ <-]; right; by eexists.
Qed.

Lemma decide_type_facts r :
  NodeConfig.m_hasLocation (r_cfg (decide_type r)) = NodeConfig.m_hasLocation (r_cfg r) ∧
  NodeConfig.m_location (r_cfg (decide_type r)) = NodeConfig.m_location (r_cfg r) ∧
  NodeConfig.m_aerpawKey (r_cfg (decide_type r)) = NodeConfig.m_aerpawKey (r_cfg r).
Proof.
  unfold decide_type. destruct (NodeConfig.hasVehicleAddress _).
  { by destruct (addVehicle _ _ _) as [[??]?]. }
  destruct (NodeConfig.m_hasLocation (r_cfg r)) eqn:El; [by destruct (at_origin _)|].
  destruct (NodeConfig.hasAerpawKey _); [|done]. destruct (is_pn _); [|done].
  destruct (resolve _) as [v r'] eqn:Er.
  by destruct (resolve_cfg _ _ _ Er) as [->|[k ->]].
Qed.

(** The types that carry an RF profile. *)
Definition has_profile (ty : NodeType) : bool :=
  match ty with
  | NT_AERPAW_FIXED | NT_AERPAW_PORTABLE | NT_VEHICLE_MAVPROXY => true
  | _ => false
  end.

Lemma set_profile_spec r :
  ∃ ch, profile (r_node (set_profile r)) = (ch, ch, r_type r) ∧
    (is_Some ch ↔ has_profile (r_type r) = true) ∧ r_type (set_profile r) = r_type r ∧
    NodeConfig.m_hasLocation (r_cfg (set_profile r)) = NodeConfig.m_hasLocation (r_cfg r) ∧
    NodeConfig.m_location (r_cfg (set_profile r)) = NodeConfig.m_location (r_cfg r) ∧
    NodeConfig.m_aerpawKey (r_cfg (set_profile r)) = NodeConfig.m_aerpawKey (r_cfg r).
Proof.
  unfold set_profile. destruct (r_type r) eqn:Et; eexists; (split; [reflexivity|]); cbn;
    (split; [split; first [done|by intros []]|]); rewrite ?Et; by split_and!.
Qed.

Lemma setLocation_profile loc ln n : profile (setLocation cos now loc ln n) = profile n.
Proof. unfold setLocation. by destruct (_ && _). Qed.

Lemma set_place_profile r :
  profile (r_node (set_place cos now r)) =
  if NodeConfig.m_hasLocation (r_cfg r) && negb (at_origin (NodeConfig.m_location (r_cfg r)))
  then (Some fixed_node_characteristics, Some fixed_node_characteristics,
        NodeConfig.m_nodeType (m_config (r_node r)))
  else profile (r_node r).
Proof.
  unfold set_place. destruct (NodeConfig.m_hasLocation _); cbn [andb].
  - destruct (at_origin _); [done|]. unfold profile. cbn. unfold setLocation.
    by destruct (_ && _).
  - destruct (NodeConfig.hasAerpawKey _); [|done].
    destruct (ResolveAerpawLocation _); [|done].
    destruct (NodeConfig.hasLogicalNode _); [apply setLocation_profile|].
    destruct (resolve r) as [v r'] eqn:Er. apply resolve_node in Er as [E _].
    cbn. rewrite setLocation_profile. by rewrite E.
Qed.

Lemma start_vehicle_profile pn r :
  profile (r_node (start_vehicle pn r)) = profile (r_node r).
Proof.
  unfold start_vehicle. set (r1 := if pn && _ then _ else r).
  assert (H1 : profile (r_node r1) = profile (r_node r)).
  { subst r1. destruct (pn && _); [|done]. destruct (resolve r) as [v r'] eqn:Er.
    apply resolve_node in Er as [E _]. destruct (v.2); [|by rewrite E].
    destruct (addVehicle _ _ _) as [[b vh] n] eqn:Ea. apply addVehicle_profile in Ea.
    cbn. by rewrite Ea, E. }
  destruct (NodeConfig.hasVehicleAddress _); exact H1.
Qed.

End RefreshLemmas.

(** ** Properties *)

(** After [refreshFromConfig] a node and its configuration agree on the
    RF profile, and there is one exactly when the node is an AERPAW fixed or
    portable node or a vehicle, or reports a location other than the origin: no
    vehicle is left without the source power its link budget needs. *)
Theorem refresh_sets_profile (cos : float → float) (now : Z) (nc : NodeConfig.t)
    (vh : handlers) (n n' : Node.t) (nc' : NodeConfig.t) (vh' : handlers)
    (Href : Node.refreshFromConfig cos now nc vh n = (n', nc', vh')) :
  Node.m_characteristics n' = NodeConfig.m_characteristics (Node.m_config n') ∧
  (is_Some (Node.m_characteristics n') ↔
     has_profile (NodeConfig.m_nodeType (Node.m_config n')) = true ∨
     NodeConfig.m_hasLocation nc = true ∧ Node.at_origin (NodeConfig.m_location nc) = false).
Proof.
  unfold Node.refreshFromConfig in Href.
  set (r0 := Node.mkRefresh _ _ _ _ _ _) in Href.
  destruct (decide_type_facts r0) as (E1 & E2 & _).
  destruct (set_profile_spec (Node.decide_type r0)) as (ch & Hp & Hs & _ & E3 & E4 & _).
  set (r1 := Node.set_profile _) in *.
  injection Href as Hn _ _.
  assert (Hprof : profile n' = profile (Node.r_node (Node.set_place cos now r1)))
    by (rewrite <- Hn; apply start_vehicle_profile).
  rewrite set_place_profile, E3, E4, E1, E2 in Hprof. cbn in Hprof.
  unfold profile in Hp. injection Hp as Hp1 Hp2 Hp3.
  destruct (NodeConfig.m_hasLocation nc) eqn:El, (Node.at_origin _) eqn:Eo; cbn [andb negb] in Hprof.
  2:{ injection Hprof as -> -> Ht. split; [done|]. split; [by right|by eexists]. }
  all: unfold profile in Hprof; rewrite Hp1, Hp2, Hp3 in Hprof; injection Hprof as -> -> ->;
    (split; [done|]); rewrite Hs; split; [by left|]; by intros [?|[??]].
Qed.

Definition drone_config : NodeConfig.t :=
  NodeConfig.setVehicleAddress "udp://:14540" (NodeConfig.setId "n9"
    (NodeConfig.setName "drone" (NodeConfig.default 0 0))).

Lemma refresh_sets_profile_witness :
  let '(n', nc', vh') := Node.refreshFromConfig (fun x => x) 0 drone_config ∅
                           (Node.ctor 0 drone_config) in
  Node.m_characteristics n' = NodeConfig.m_characteristics (Node.m_config n') ∧
  (is_Some (Node.m_characteristics n') ↔
     has_profile (NodeConfig.m_nodeType (Node.m_config n')) = true ∨
     NodeConfig.m_hasLocation drone_config = true ∧
     Node.at_origin (NodeConfig.m_location drone_config) = false).
Proof.
  destruct (Node.refreshFromConfig _ _ _ _ _) as [[n' nc'] vh'] eqn:E.
  exact (refresh_sets_profile (fun x => x) 0 drone_config ∅ (Node.ctor 0 drone_config) n' nc' vh' E).
Defined.

(** A request that names an AERPAW site and neither a location nor a
    vehicle becomes a fixed node at the coordinates of that site, with the
    fixed-node RF profile, and starts no vehicle handler. *)
Theorem refresh_resolves_site (cos : float → float) (now : Z) (nc : NodeConfig.t)
    (vh : handlers) (n : Node.t) (loc : Location)
    (Hsite : ResolveAerpawLocation (NodeConfig.m_aerpawKey nc) = Some loc)
    (Hloc : NodeConfig.m_hasLocation nc = false)
    (Hveh : NodeConfig.m_vehicleAddress nc = "") :
  let '(n', nc', vh') := Node.refreshFromConfig cos now nc vh n in
  option_map position (Node.getLocation n') = Some loc ∧
  NodeConfig.m_location nc' = loc ∧ NodeConfig.m_hasLocation nc' = true ∧
  NodeConfig.m_nodeType (Node.m_config n') = NT_AERPAW_FIXED ∧
  Node.m_characteristics n' = Some fixed_node_characteristics ∧ vh' = vh.
Proof.
  assert (Hpn : Node.is_pn (NodeConfig.m_aerpawKey nc) = false).
  { unfold Node.is_pn. revert Hsite. unfold ResolveAerpawLocation.
    set (u := upper _). clearbody u. cbv zeta beta.
    repeat match goal with
    | |- (if (u =? ?b)%string || (u =? ?c)%string then _ else _) = _ → _ =>
        destruct (String.eqb_spec u b) as [->|]; [reflexivity|];
        destruct (String.eqb_spec u c) as [->|]; [reflexivity|]; cbn [orb]
    end; done. }
  assert (Hkey : NodeConfig.hasAerpawKey nc = true).
  { unfold NodeConfig.hasAerpawKey. destruct (NodeConfig.m_aerpawKey nc) eqn:E; [|done].
    by vm_compute in Hsite. }
  assert (Hv : NodeConfig.hasVehicleAddress nc = false)
    by (unfold NodeConfig.hasVehicleAddress; by rewrite Hveh).
  unfold Node.refreshFromConfig. rewrite Hpn, Hkey. cbn [andb].
  set (r0 := Node.mkRefresh _ _ _ _ _ _).
  assert (Hd : Node.decide_type r0 = r0 <| Node.r_type := NT_AERPAW_FIXED |>).
  { unfold Node.decide_type. change (Node.r_cfg r0) with nc. by rewrite Hv, Hloc, Hkey, Hpn. }
  rewrite Hd. clear Hd. set (r1 := Node.set_profile _).
  assert (Hc1 : Node.r_cfg r1 = NodeConfig.setCharacteristics fixed_node_characteristics
    (NodeConfig.setNodeType NT_AERPAW_FIXED nc)) by done.
  assert (Hplace : ∃ k r2, Node.set_place cos now r1 = Node.place cos now loc k r2 ∧
    Node.r_node r2 = Node.r_node r1 ∧ Node.r_handlers r2 = vh).
  { unfold Node.set_place. rewrite Hc1.
    change (NodeConfig.m_hasLocation (NodeConfig.setCharacteristics _ _))
      with (NodeConfig.m_hasLocation nc). rewrite Hloc.
    change (NodeConfig.hasAerpawKey (NodeConfig.setCharacteristics _ _))
      with (NodeConfig.hasAerpawKey nc). rewrite Hkey.
    change (NodeConfig.m_aerpawKey (NodeConfig.setCharacteristics _ _))
      with (NodeConfig.m_aerpawKey nc). rewrite Hsite.
    destruct (NodeConfig.hasLogicalNode _); [by eexists _, r1|].
    destruct (Node.resolve r1) as [v r2] eqn:Er.
    apply resolve_node in Er as (E1 & E2 & _). exists v.1, r2. by rewrite E1, E2. }
  destruct Hplace as (k & r2 & -> & Hn2 & Hh2). unfold Node.start_vehicle. cbn [andb].
  unfold Node.place, Node.setLocation. rewrite Hn2.
  clear Hv Hkey Hpn. set (b := NodeConfig.hasVehicleAddress (Node.r_cfg _)). clearbody b.
  destruct b, (_ && _); cbn; split_and!; (reflexivity || exact Hh2).
Qed.

Definition tower_config : NodeConfig.t :=
  NodeConfig.setAerpawKey "lw-1" (NodeConfig.setId "n2" (NodeConfig.default 0 0)).

Lemma refresh_resolves_site_witness :
  ∃ loc, ResolveAerpawLocation (NodeConfig.m_aerpawKey tower_config) = Some loc ∧
  let '(n', nc', vh') := Node.refreshFromConfig (fun x => x) 0 tower_config ∅
                           (Node.ctor 0 tower_config) in
  option_map position (Node.getLocation n') = Some loc ∧
  NodeConfig.m_location nc' = loc ∧ NodeConfig.m_hasLocation nc' = true ∧
  NodeConfig.m_nodeType (Node.m_config n') = NT_AERPAW_FIXED ∧
  Node.m_characteristics n' = Some fixed_node_characteristics ∧ vh' = ∅.
Proof.
  eexists. split; [reflexivity|].
  apply (refresh_resolves_site (fun x => x) 0 tower_config ∅ (Node.ctor 0 tower_config)); reflexivity.
Defined.
