(* ===== verification/Signal.v ===== *)
(** src/include/chem/models/signal.hpp: one burst of IQ samples with its
    header, owning its sample buffer. *)

From Stdlib Require Import ZArith Lia Strings.Byte.
From stdpp Require Import prelude list strings.
From S2P Require Import Prelude Ieee Common.

Module Signal.

Record t : Type := mk {
  srcId : string;
  size : Z;                    (* uint32_t *)
  srate : float;               (* float *)
  freq : float;                (* double *)
  numCh : Z;                   (* uint8_t *)
  numSamp : Z;                 (* size_t *)
  sample_step : float;         (* float *)
  t_recv : Z;
  t_proc_start : Z;
  t_proc_end : Z;
  t_send : Z;
  header : Header;
  iq_data : option (list byte);  (** the owned buffer, [None] for null *)
}.

(** The constructor.  The members it leaves uninitialised when [hdr.size] is 0
    come from [junk]; the buffer argument is then destroyed with the call. *)
Definition ctor (junk : t) (iq : option (list byte)) (hdr : Header) (freq : float)
    (id : string) : t :=
  if decide (h_size hdr = 0) then
    mk id (u32 (h_size hdr)) (srate junk) freq (numCh junk) (numSamp junk)
       (sample_step junk) 0 0 0 0 hdr None
  else
    let sr := F32.of_Z (h_sample_rate hdr) in
    mk id (u32 (h_size hdr)) sr freq (h_number_of_channels hdr)
       (h_number_of_samples hdr) (F32.div (S_2_NS (F32.of_Z 1)) sr)
       0 0 0 0 hdr iq.

Definition initData (iq : option (list byte)) (d_size : Z) (s : t) : t :=
  mk (srcId s) d_size (srate s) (freq s) (numCh s) (numSamp s) (sample_step s)
     (t_recv s) (t_proc_start s) (t_proc_end s) (t_send s) (header s)
     (match iq with Some b => Some b | None => iq_data s end).

(** Moves the buffer out; the signal is left with a null pointer. *)
Definition dataArray (s : t) : option (list byte) * t :=
  (iq_data s,
   mk (srcId s) (size s) (srate s) (freq s) (numCh s) (numSamp s) (sample_step s)
      (t_recv s) (t_proc_start s) (t_proc_end s) (t_send s) (header s) None).

Definition getSizePerBuff (s : t) : Z :=
  if numCh s =? 0 then 0 else size s / numCh s.

(** [getData(chNo)]: the offset of channel [chNo] in the buffer, [None] for
    [nullptr]. *)
Definition getData (chNo : Z) (s : t) : option Z :=
  if numCh s <=? chNo then None else Some (chNo * getSizePerBuff s).

Definition getTotalNumSamps (s : t) : Z := u64 (numSamp s * numCh s).

Definition setTRecv (v : Z) (s : t) : t :=
  mk (srcId s) (size s) (srate s) (freq s) (numCh s) (numSamp s) (sample_step s)
     v (t_proc_start s) (t_proc_end s) (t_send s) (header s) (iq_data s).

Definition setTProcStart (v : Z) (s : t) : t :=
  mk (srcId s) (size s) (srate s) (freq s) (numCh s) (numSamp s) (sample_step s)
     (t_recv s) v (t_proc_end s) (t_send s) (header s) (iq_data s).

Definition setTProcEnd (v : Z) (s : t) : t :=
  mk (srcId s) (size s) (srate s) (freq s) (numCh s) (numSamp s) (sample_step s)
     (t_recv s) (t_proc_start s) v (t_send s) (header s) (iq_data s).

Definition setTSend (v : Z) (s : t) : t :=
  mk (srcId s) (size s) (srate s) (freq s) (numCh s) (numSamp s) (sample_step s)
     (t_recv s) (t_proc_start s) (t_proc_end s) v (header s) (iq_data s).

(** The members agree with the header, and the buffer holds what it declares. *)
Definition wf (s : t) : Prop :=
  Header_wf (header s) ∧ h_size (header s) ≠ 0 ∧
  h_size (header s) < 2 ^ 32 ∧
  size s = h_size (header s) ∧
  numCh s = h_number_of_channels (header s) ∧
  numSamp s = h_number_of_samples (header s) ∧
  ∃ b, iq_data s = Some b ∧ size s ≤ Z.of_nat (length b).

Lemma ctor_wf junk b hdr f id :
  Header_wf hdr → h_size hdr ≠ 0 → h_size hdr < 2 ^ 32 →
  h_size hdr ≤ Z.of_nat (length b) →
  wf (ctor junk (Some b) hdr f id).
Proof.
  intros Hw H0 H32 Hb. unfold wf, ctor. rewrite decide_False by done. simpl.
  destruct Hw as (Hs & Hw'). rewrite u32_small by lia.
  split_and!; eauto; by split.
Qed.

(** Channel slices are disjoint and stay inside the declared size. *)
Lemma getData_in_bounds s c off :
  0 < numCh s → 0 ≤ size s → 0 ≤ c → getData c s = Some off →
  0 ≤ off ∧ off + getSizePerBuff s ≤ size s.
Proof.
  intros Hn Hs Hc. unfold getData, getSizePerBuff.
  destruct (Z.leb_spec (numCh s) c); [done|]. intros [= <-].
  destruct (Z.eqb_spec (numCh s) 0); [lia|].
  pose proof (Z.mul_div_le (size s) (numCh s) Hn).
  pose proof (Z.div_pos (size s) (numCh s) Hs Hn). nia.
Qed.

End Signal.
