(* ===== verification/UdpClient.v ===== *)
(** src/src/chem/net/udp_client.cpp: [UDPClient::Send], which cuts one signal
    into UDP datagrams and hands them to [sendmmsg] in batches.

    A datagram is the byte string the kernel gathers from its [iovec]s.  The
    result of [Send] is the list of vectors passed to [sendmmsg], in order; the
    kernel itself, the clock and the padding bytes are parameters.  A read
    outside the sample buffer is the error [ReadOutOfBounds]. *)

From Stdlib Require Import ZArith Lia Strings.Byte.
From stdpp Require Import prelude list strings list_numbers.
From S2P Require Import Prelude Ieee Common DataPool Signal.

Abbreviation datagram := (list byte) (only parsing).

Inductive send_error : Type :=
  | ReadOutOfBounds             (** an [iovec] that leaves the sample buffer *)
  | SendPoolError (e : pool_error).

(** What [Send] reads besides the signal. *)
Record SendEnv : Type := mkSendEnv {
  m_port : Z;                   (* unsigned short *)
  now_ns : Z → Z;               (** steady clock at the i-th fragment *)
  hdr_pad : byte;
  udp_pad : byte;
}.

Module UDPClient.

(** Lines 69-78: payload size per fragment and number of fragments. *)
Definition plan (size : Z) : Z * Z :=
  let total := u64 (size + HEADER_SIZE) in
  let total_frags :=
    total / PAYLOAD_SIZE + (if total mod PAYLOAD_SIZE =? 0 then 0 else 1) in
  if (total_frags <? BATCH_SIZE) && (0 <? total_frags) then
    let current := (total + BATCH_SIZE - 1) / BATCH_SIZE in
    (current, total / current)
  else (PAYLOAD_SIZE, total_frags).

(** Lines 108-116. *)
Definition frag_flag (total_frags i : Z) : Z :=
  if total_frags =? 1 then Z.lor 1 4
  else if i =? 0 then 1
  else if i =? total_frags - 1 then 4
  else 2.

(** The local variables the loop carries; [pending] are the messages of the
    current batch, [batches] the vectors already sent. *)
Record loop_state : Type := mkLoop {
  sent : Z;
  sent_bytes_per_ch : Z;
  pending : list datagram;
  batches : list (list datagram);
}.

(** The [iovec]s of lines 157-161: [size_per_ch] bytes of every channel. *)
Fixpoint gather (s : Signal.t) (buf : list byte) (off len : Z) (n : nat) (c : Z)
    : option (list byte) :=
  match n with
  | O => Some []
  | S n =>
      base ← Signal.getData c s;
      chunk ← mread (base + off) len buf;
      rest ← gather s buf off len n (c + 1);
      Some (chunk ++ rest)
  end.

(** One iteration of the loop (lines 103-186): [None] is a [break]. *)
Definition send_iter (env : SendEnv) (s : Signal.t) (buf : list byte)
    (main_header : Header) (current_payload_size total_frags i : Z)
    (st : loop_state) : outcome send_error (option loop_state) :=
  let nof_ch := h_number_of_channels main_header in
  let size := Signal.size s in
  let remaining := u64 (size - sent st) in
  let payload_size := Z.min remaining current_payload_size in
  if payload_size =? 0 then Ok None else
  let payload_size :=
    if (i =? 0) && (1 <? total_frags) then u64 (payload_size - HEADER_SIZE)
    else payload_size in
  let size_per_ch := payload_size / nof_ch in
  let aligned_payload := size_per_ch * nof_ch in
  if aligned_payload =? 0 then Ok None else
  match gather s buf (sent_bytes_per_ch st) size_per_ch (Z.to_nat nof_ch) 0 with
  | None => Err ReadOutOfBounds
  | Some body =>
      let uh := mkUDPHeader (u64 (now_ns env i)) aligned_payload (u16 i)
                  (frag_flag total_frags i) in
      let dg := encode_UDPHeader (udp_pad env) uh
                ++ (if i =? 0 then encode_Header (hdr_pad env) main_header else [])
                ++ body in
      let pend := pending st ++ [dg] in
      let flush := (Z.of_nat (length pend) =? BATCH_SIZE) || (i =? total_frags - 1) in
      Ok (Some (mkLoop (sent st + aligned_payload)
                  (sent_bytes_per_ch st + size_per_ch)
                  (if flush then [] else pend)
                  (if flush then batches st ++ [pend] else batches st)))
  end.

(** The [for] loop; [n] is the number of iterations left.  Messages still
    pending at a [break] are never sent. *)
Fixpoint send_loop (env : SendEnv) (s : Signal.t) (buf : list byte)
    (main_header : Header) (cps tf : Z) (n : nat) (i : Z) (st : loop_state)
    : outcome send_error (list (list datagram)) :=
  match n with
  | O => Ok (batches st)
  | S n =>
      match send_iter env s buf main_header cps tf i st with
      | Err e => Err e
      | Ok None => Ok (batches st)
      | Ok (Some st') => send_loop env s buf main_header cps tf n (i + 1) st'
      end
  end.

Definition set_total_frags (h : Header) (tf : Z) : Header :=
  mkHeader (h_size h) (h_start h) (h_end h) (h_rt_tx_time h) (h_sample_rate h)
    (h_number_of_samples h) (u16 tf) (h_number_of_channels h).

Definition release_sig (s : Signal.t) (p : iqPool_t) : outcome send_error iqPool_t :=
  match DataArrayPool.release x00 (Signal.iq_data s) p with
  | Ok p' => Ok p'
  | Err e => Err (SendPoolError e)
  end.

(** [UDPClient::Send]: the vectors sent and the pool afterwards. *)
Definition Send (env : SendEnv) (sig : option Signal.t) (bytes_per_otw : Z)
    (p : iqPool_t) : outcome send_error (list (list datagram) * iqPool_t) :=
  match sig with
  | None => Ok ([], p)
  | Some s =>
      let final_header := Signal.header s in
      let should_pass :=
        (h_number_of_samples final_header =? 0)
        || (h_number_of_channels final_header =? 0)
        || (bytes_per_otw =? 0) || (m_port env =? 0) in
      if should_pass then (do! p' <- release_sig s p; Ok ([], p'))%chem
      else
        let '(cps, tf) := plan (Signal.size s) in
        if tf =? 0 then (do! p' <- release_sig s p; Ok ([], p'))%chem
        else
          let main_header := set_total_frags final_header tf in
          let buf := default [] (Signal.iq_data s) in
          (do! bs <- send_loop env s buf main_header cps tf (Z.to_nat tf) 0
                       (mkLoop 0 0 [] []);
           do! p' <- release_sig s p;
           Ok (bs, p'))%chem
  end.

(** ** What a well-formed burst is cut into *)

(** The burst sizes the emulator produces: [n] samples of 4 bytes on 1, 2 or 4
    channels, at least 148 bytes, at most the IQ buffer. *)
Definition sendable (nch size : Z) : Prop :=
  (nch = 1 ∨ nch = 2 ∨ nch = 4) ∧ size mod (4 * nch) = 0 ∧ 148 ≤ size ≤ IQ_SIZE.

#[export] Instance sendable_dec nch size : Decision (sendable nch size).
Proof. unfold sendable. apply _. Defined.

(** Facts about [plan] that the proofs use; [Fragments] abstracts from the
    arithmetic that establishes them. *)
Record plan_ok (nch size cps tf : Z) : Prop := {
  po_nch : 0 < nch < 256;
  po_hdr : (nch | HEADER_SIZE);
  po_cps : (nch | cps);
  po_size : (nch | size);
  po_cps_range : HEADER_SIZE < cps ≤ PAYLOAD_SIZE;
  po_tf_range : BATCH_SIZE ≤ tf < 65536;
  po_low : cps * (tf - 1) - HEADER_SIZE < size;
  po_high : size ≤ cps * tf - HEADER_SIZE;
}.

(** Bytes sent before fragment [i], and the payload of fragment [i]. *)
Definition frag_sent (size cps i : Z) : Z :=
  if i =? 0 then 0 else Z.min size (cps * i - HEADER_SIZE).

Definition frag_len (size cps i : Z) : Z :=
  frag_sent size cps (i + 1) - frag_sent size cps i.

(** Channel [c]'s share of a byte range of the interleaved stream. *)
Definition slice (buf : list byte) (stride off len c : Z) : list byte :=
  take (Z.to_nat len) (drop (Z.to_nat (c * stride + off)) buf).

Fixpoint slices (buf : list byte) (stride off len : Z) (n : nat) (c : Z) : list byte :=
  match n with
  | O => []
  | S n => slice buf stride off len c ++ slices buf stride off len n (c + 1)
  end.

(** The i-th datagram of a burst. *)
Definition frag (env : SendEnv) (mh : Header) (buf : list byte)
    (nch size cps tf i : Z) : datagram :=
  encode_UDPHeader (udp_pad env)
    (mkUDPHeader (u64 (now_ns env i)) (frag_len size cps i) i (frag_flag tf i))
  ++ (if i =? 0 then encode_Header (hdr_pad env) mh else [])
  ++ slices buf (size / nch) (frag_sent size cps i / nch)
       (frag_len size cps i / nch) (Z.to_nat nch) 0.

(** Divisibility by a literal, and bounds. *)
Ltac solve_plan :=
  split; unfold HEADER_SIZE, PAYLOAD_SIZE, MTU_SIZE, UDP_HEADER_SIZE, BATCH_SIZE;
  first [lia | destruct_or!; subst; first [lia | apply Z.mod_divide; [lia|zdiv]]].

Lemma plan_sendable nch size :
  sendable nch size → plan_ok nch size (plan size).1 (plan size).2.
Proof.
  unfold sendable, IQ_SIZE, MAX_IQ, MAX_FRAGS, PAYLOAD_SIZE, MTU_SIZE, UDP_HEADER_SIZE.
  intros (Hn & Hs & Hr). apply Z.mod_divide in Hs as [n Hs]; [|lia].
  unfold plan. rewrite u64_small by (unfold HEADER_SIZE; lia).
  unfold HEADER_SIZE, BATCH_SIZE, PAYLOAD_SIZE, MTU_SIZE, UDP_HEADER_SIZE.
  change (1472 - 24) with 1448 in *.
  set (q := (size + 48) / 1448) in *.
  set (r := if (size + 48) mod 1448 =? 0 then 0 else 1) in *.
  assert (Hq : 1448 * (q + r - 1) < size + 48 ≤ 1448 * (q + r)).
  { subst q r. destruct (Z.eqb_spec ((size + 48) mod 1448) 0); zdiv. }
  clearbody q r. destruct (Z.ltb_spec (q + r) 4); cbn [andb].
  - rewrite (proj2 (Z.ltb_lt 0 (q + r))) by lia.
    assert (Hp : (size + 48 + 4 - 1) / 4 = nch * n + 12) by zdiv.
    cbn [fst snd]. rewrite Hp.
    assert (Ht : (size + 48) / (nch * n + 12) = 4).
    { symmetry. apply (Z.div_unique _ _ 4 0); lia. }
    rewrite Ht. solve_plan.
  - cbn [fst snd]. solve_plan.
Qed.

Section PlanFacts.
Context (nch size cps tf : Z) (Hplan : plan_ok nch size cps tf).

Lemma frag_sent_range i : 0 ≤ i ≤ tf → 0 ≤ frag_sent size cps i ≤ size.
Proof.
  destruct Hplan as [????????]. unfold frag_sent, BATCH_SIZE, HEADER_SIZE in *. intros.
  destruct (Z.eqb_spec i 0); nia.
Qed.

Lemma frag_sent_tf : frag_sent size cps tf = size.
Proof.
  destruct Hplan as [????????]. unfold frag_sent, BATCH_SIZE, HEADER_SIZE in *.
  destruct (Z.eqb_spec tf 0); lia.
Qed.

Lemma frag_sent_lt i :
  0 < i < tf → frag_sent size cps i = cps * i - HEADER_SIZE.
Proof.
  destruct Hplan as [????????]. unfold frag_sent, BATCH_SIZE, HEADER_SIZE in *. intros.
  destruct (Z.eqb_spec i 0); [lia|]. nia.
Qed.

Lemma frag_sent_divide i : (nch | frag_sent size cps i).
Proof.
  destruct Hplan as [????????]. unfold frag_sent.
  destruct (Z.eqb_spec i 0); [apply Z.divide_0_r|].
  destruct (Z.min_spec size (cps * i - HEADER_SIZE)) as [[_ ->]|[_ ->]]; [done|].
  apply Z.divide_sub_r; [by apply Z.divide_mul_l|done].
Qed.

Lemma frag_len_divide i : (nch | frag_len size cps i).
Proof. apply Z.divide_sub_r; apply frag_sent_divide. Qed.

(** Every fragment carries at least one byte, and at most what fits. *)
Lemma frag_len_range i :
  0 ≤ i < tf →
  0 < frag_len size cps i ≤ cps - (if i =? 0 then HEADER_SIZE else 0).
Proof.
  destruct Hplan as [????????]. unfold frag_len, frag_sent, BATCH_SIZE, HEADER_SIZE in *.
  intros. destruct (Z.eqb_spec i 0), (Z.eqb_spec (i + 1) 0); try lia; nia.
Qed.

Lemma sent_step i :
  frag_sent size cps i + frag_len size cps i = frag_sent size cps (i + 1).
Proof. unfold frag_len. lia. Qed.

Lemma div_add_frag i :
  frag_sent size cps i / nch + frag_len size cps i / nch
  = frag_sent size cps (i + 1) / nch.
Proof.
  pose proof (po_nch _ _ _ _ Hplan). rewrite <- sent_step.
  destruct (frag_sent_divide i) as [a ->]. rewrite Z.div_add_l, Z.div_mul by lia. done.
Qed.

End PlanFacts.

Section Fragments.
Context (env : SendEnv) (s : Signal.t) (buf : list byte) (mh : Header).
Context (nch size cps tf : Z).
Context (Hplan : plan_ok nch size cps tf).
Context (Hsize : Signal.size s = size) (Hnch : Signal.numCh s = nch).
Context (Hmh : h_number_of_channels mh = nch).
Context (Hbuf : size ≤ Z.of_nat (length buf)) (Hsmall : size < 2 ^ 32).

Lemma gather_slices off len n c :
  0 ≤ off → 0 ≤ len → off + len ≤ size / nch → 0 ≤ c → c + Z.of_nat n ≤ nch →
  gather s buf off len n c = Some (slices buf (size / nch) off len n c).
Proof.
  destruct Hplan as [? _ _ [q Hq] _ _ _ _]. revert c.
  assert (size / nch = q) as Hd by (subst size; rewrite Hq; apply Z.div_mul; lia).
  induction n as [|n IH]; intros c Ho Hl Hol Hc Hn; [done|].
  cbn [gather slices]. unfold Signal.getData, Signal.getSizePerBuff.
  rewrite Hnch, Hsize, Hd in *.
  rewrite (proj2 (Z.leb_gt nch c)) by lia.
  destruct (Z.eqb_spec nch 0); [lia|]. simpl.
  unfold mread. rewrite decide_True by nia. simpl.
  rewrite IH by lia. done.
Qed.

Lemma send_iter_frag i st :
  0 ≤ i < tf →
  sent st = frag_sent size cps i →
  sent_bytes_per_ch st = frag_sent size cps i / nch →
  send_iter env s buf mh cps tf i st =
  let pend := pending st ++ [frag env mh buf nch size cps tf i] in
  let flush := (Z.of_nat (length pend) =? BATCH_SIZE) || (i =? tf - 1) in
  Ok (Some (mkLoop (frag_sent size cps (i + 1)) (frag_sent size cps (i + 1) / nch)
              (if flush then [] else pend)
              (if flush then batches st ++ [pend] else batches st))).
Proof.
  intros Hi Hs Hsc. unfold send_iter. rewrite Hs, Hsc, Hsize, Hmh.
  pose proof (frag_sent_range nch size cps tf Hplan i ltac:(lia)) as Hr.
  pose proof (frag_len_range nch size cps tf Hplan i Hi) as Hl.
  pose proof (frag_sent_range nch size cps tf Hplan (i + 1) ltac:(lia)) as Hr'.
  pose proof Hplan as [? ? ? ? Hcr Htr Hlo Hhi].
  assert (Hle : frag_len size cps i ≤ size) by (unfold frag_len; lia).
  assert (Hrem : Z.min (u64 (size - frag_sent size cps i)) cps =
                 if i =? 0 then frag_len size cps i + HEADER_SIZE
                 else frag_len size cps i).
  { rewrite u64_small by lia. unfold frag_len, frag_sent, HEADER_SIZE, BATCH_SIZE in *.
    destruct (Z.eqb_spec i 0), (Z.eqb_spec (i + 1) 0); try lia; nia. }
  rewrite Hrem.
  assert (Hpl : (if (i =? 0) && (1 <? tf)
                 then u64 ((if i =? 0 then frag_len size cps i + HEADER_SIZE
                            else frag_len size cps i) - HEADER_SIZE)
                 else if i =? 0 then frag_len size cps i + HEADER_SIZE
                      else frag_len size cps i) = frag_len size cps i).
  { unfold BATCH_SIZE, HEADER_SIZE in *. rewrite (proj2 (Z.ltb_lt 1 tf)) by lia.
    destruct (i =? 0); simpl; [|done]. rewrite Z.add_simpl_r, u64_small; lia. }
  rewrite Hpl. clear Hpl Hrem.
  rewrite (proj2 (Z.eqb_neq (if i =? 0 then _ else _) 0))
    by (unfold HEADER_SIZE; destruct (i =? 0); lia).
  assert (frag_len size cps i / nch * nch = frag_len size cps i) as ->.
  { destruct (frag_len_divide nch size cps tf Hplan i) as [a ->]. by rewrite Z.div_mul by lia. }
  rewrite (proj2 (Z.eqb_neq (frag_len size cps i) 0)) by lia.
  rewrite gather_slices; try lia.
  - rewrite (div_add_frag nch size cps tf Hplan), sent_step, u16_small by (unfold BATCH_SIZE in *; lia). done.
  - apply Z.div_pos; lia.
  - apply Z.div_pos; lia.
  - rewrite (div_add_frag nch size cps tf Hplan). apply Z.div_le_mono; lia.
Qed.

(** The whole loop: the vectors sent are the fragments in order, none lost at
    the end. *)
Lemma send_loop_frags n i st :
  i + Z.of_nat n = tf → 0 ≤ i → (0 < n)%nat →
  sent st = frag_sent size cps i →
  sent_bytes_per_ch st = frag_sent size cps i / nch →
  ∃ bs, send_loop env s buf mh cps tf n i st = Ok (batches st ++ bs) ∧
    concat bs = pending st ++ (frag env mh buf nch size cps tf <$> seqZ i (tf - i)).
Proof.
  revert i st. induction n as [|n IH]; intros i st Hin Hi Hn Hs Hsc; [lia|].
  cbn [send_loop]. rewrite send_iter_frag by (done || lia). cbn zeta.
  set (pend := pending st ++ _). rewrite seqZ_cons by lia. cbn [fmap list_fmap].
  destruct (decide (n = O)) as [->|Hn0].
  - rewrite (proj2 (Z.eqb_eq i (tf - 1))) by lia. rewrite orb_true_r. simpl.
    exists [pend]. split; [done|]. simpl. subst pend.
    replace (Z.pred (tf - i)) with 0 by lia. by rewrite app_nil_r.
  - rewrite (proj2 (Z.eqb_neq i (tf - 1))) by lia. rewrite orb_false_r.
    edestruct (IH (i + 1)) as (bs & -> & Hc); [lia|lia|lia|reflexivity|reflexivity|].
    replace (tf - (i + 1)) with (Z.pred (tf - i)) in Hc by lia.
    simpl in *. destruct (Z.eqb (Z.of_nat (length pend)) BATCH_SIZE).
    + exists (pend :: bs). rewrite <- (assoc_L (++)). split; [done|].
      simpl. rewrite Hc. subst pend. by rewrite <- (assoc_L (++)).
    + exists bs. split; [done|]. rewrite Hc. subst pend. by rewrite <- (assoc_L (++)).
Qed.

End Fragments.

End UDPClient.
