(* ===== verification/UdpServer.v ===== *)
(** src/src/chem/net/udp_server.cpp: [UDPServer::Recv], which reassembles one
    signal from the datagrams [recvmmsg] delivers.

    The socket is a queue of datagrams; how many of them one [recvmmsg] call
    returns, timeouts, errors and the closing of the socket are decided by a
    schedule.  [Recv] consumes the schedule; [RecvBlocked] is a call that is
    still waiting when the schedule ends.  A [memcpy] that leaves the IQ buffer
    is the error [WriteOutOfBounds]. *)

From Stdlib Require Import ZArith Lia Strings.Byte.
From stdpp Require Import prelude list strings.
From S2P Require Import Prelude Ieee Common DataPool.

Module UDPServer.

Record t : Type := mk {
  m_pool : iqPool_t;
  m_udpPool : udpDataPool_t;
  m_current_batch_size : Z;       (* int *)
  socket : list (list byte);      (** datagrams queued in the kernel *)
}.

#[global] Instance t_eta : Settable t := fun s =>
  mk (m_pool s) (m_udpPool s) (m_current_batch_size s) (socket s).

(** The constructor's members (lines 16-20). *)
Definition ctor (pool : iqPool_t) : outcome pool_error t :=
  (do! up <- DataArrayPool.ctor x00 MTU_SIZE UDP_CAP "SERVER" true;
   Ok (mk pool up BATCH_SIZE []))%chem.

(** What one iteration of the [while] loop finds. *)
Inductive rx_event : Type :=
  | Deliver (n : nat)    (** [recvmmsg] returns up to [n] queued datagrams *)
  | Again                (** [EAGAIN]/[EWOULDBLOCK]: timeout *)
  | RxError              (** any other error *)
  | Closed.              (** the socket is no longer open *)

Definition zero_header : Header := mkHeader 0 0 0 0 0 0 0 0.

(** Lines 68-77: the locals of [Recv]. *)
Record asm : Type := mkAsm {
  is_assembling : bool;
  last_seq_no : Z;               (* uint32_t *)
  fragments_received : Z;        (* uint32_t *)
  bytes_written_per_ch : Z;      (* size_t *)
  per_channel_stride : Z;        (* size_t *)
  active_num_channels : Z;       (* uint8_t *)
  final_hdr : Header;
  final_data_buffer : list byte;
  batch : Z;                     (** [m_current_batch_size] *)
}.

(** Lines 79-91: the lambda [reset_assembly]. *)
Definition reset_assembly (a : asm) : asm :=
  mkAsm false 0 0 0 0 0 zero_header (final_data_buffer a) BATCH_SIZE.

(** Lines 213-218: one chunk per channel. *)
Fixpoint scatter (payload : list byte) (stride written chunk : Z) (n : nat) (c : Z)
    (buf : list byte) : option (list byte) :=
  match n with
  | O => Some buf
  | S n =>
      src ← mread (c * chunk) chunk payload;
      buf' ← mwrite (c * stride + written) src buf;
      scatter payload stride written chunk n (c + 1) buf'
  end.

Inductive pkt_result : Type :=
  | PktContinue (a : asm)
  | PktComplete (a : asm)
  | PktFault.                    (** a write outside the buffer *)

(** Lines 182-218, once the header and the sequence number are accepted. *)
Definition accept_payload (uh : UDPHeader) (start_flag end_flag : bool)
    (payload : list byte) (a : asm) : pkt_result :=
  let n := active_num_channels a in
  if start_flag && (Z.of_nat (length payload) <? HEADER_SIZE)
  then PktContinue (reset_assembly a) else
  let payload := if start_flag then drop (Z.to_nat HEADER_SIZE) payload else payload in
  let payload_len := Z.of_nat (length payload) in
  if negb (payload_len =? u_size uh) then PktContinue (reset_assembly a) else
  if (n =? 0) || negb (payload_len mod n =? 0) then PktContinue (reset_assembly a) else
  let chunk := payload_len / n in
  if (chunk =? 0) || (per_channel_stride a <? u64 (bytes_written_per_ch a + chunk))
  then PktContinue (reset_assembly a) else
  match scatter payload (per_channel_stride a) (bytes_written_per_ch a) chunk
          (Z.to_nat n) 0 (final_data_buffer a) with
  | None => PktFault
  | Some buf =>
      let a' := mkAsm (is_assembling a) (last_seq_no a)
                  (u32 (fragments_received a + 1))
                  (u64 (bytes_written_per_ch a + chunk)) (per_channel_stride a)
                  n (final_hdr a) buf (batch a) in
      if end_flag then
        if negb (bytes_written_per_ch a' =? per_channel_stride a')
        then PktContinue (reset_assembly a')
        else PktComplete a'
      else PktContinue a'
  end.

(** Lines 128-235: one datagram. *)
Definition process_packet (packet : list byte) (a : asm) : pkt_result :=
  if Z.of_nat (length packet) <? UDP_HEADER_SIZE then PktContinue a else
  let uh := decode_UDPHeader packet in
  let start_flag := negb (Z.land (u_flag uh) 1 =? 0) in
  let end_flag := negb (Z.land (u_flag uh) 4 =? 0) in
  let payload := drop (Z.to_nat UDP_HEADER_SIZE) packet in
  if negb (is_assembling a) then
    if negb start_flag then PktContinue a else
    if Z.of_nat (length packet) <? UDP_HEADER_SIZE + HEADER_SIZE
    then PktContinue a else
    let hdr := decode_Header payload in
    let n := h_number_of_channels hdr in
    let stride := if n =? 0 then 0 else h_size hdr / n in
    let a' := mkAsm false (u_seq_number uh) 0 0 stride n hdr
                (final_data_buffer a) (batch a) in
    if (n =? 0) || (stride =? 0) || negb (h_size hdr mod n =? 0)
    then PktContinue (reset_assembly a')
    else accept_payload uh start_flag end_flag payload
           (mkAsm true (u_seq_number uh) 0 0 stride n hdr
              (final_data_buffer a) (batch a))
  else
    if negb (u_seq_number uh =? u32 (last_seq_no a + 1))
    then PktContinue (reset_assembly a)
    else accept_payload uh start_flag end_flag payload
           (mkAsm true (u_seq_number uh) (fragments_received a)
              (bytes_written_per_ch a) (per_channel_stride a)
              (active_num_channels a) (final_hdr a) (final_data_buffer a) (batch a)).

(** The [for] loop over the datagrams of one [recvmmsg]; those behind the one
    that completes the signal are dropped. *)
Fixpoint process_batch (pkts : list (list byte)) (a : asm) : pkt_result :=
  match pkts with
  | [] => PktContinue a
  | p :: pkts =>
      match process_packet p a with
      | PktContinue a' => process_batch pkts a'
      | r => r
      end
  end.

(** Lines 236-245. *)
Definition adjust_batch (a : asm) : asm :=
  if is_assembling a && (0 <? h_total_frags (final_hdr a)) then
    let remaining_frags := s32 (h_total_frags (final_hdr a) - fragments_received a) in
    mkAsm (is_assembling a) (last_seq_no a) (fragments_received a)
      (bytes_written_per_ch a) (per_channel_stride a) (active_num_channels a)
      (final_hdr a) (final_data_buffer a)
      (if (0 <? remaining_frags) && (remaining_frags <? BATCH_SIZE)
       then Z.max 1 remaining_frags else BATCH_SIZE)
  else a.

(** [m_current_batch_size = BATCH_SIZE] before a [return]. *)
Definition reset_batch (a : asm) : asm :=
  mkAsm (is_assembling a) (last_seq_no a) (fragments_received a)
    (bytes_written_per_ch a) (per_channel_stride a) (active_num_channels a)
    (final_hdr a) (final_data_buffer a) BATCH_SIZE.

Inductive recv_result : Type :=
  | RecvOk (hdr : Header) (buf : list byte)
  | RecvNull                      (** [nullptr], [hdr.size] set to 0 *)
  | RecvBlocked
  | RecvThrow (e : pool_error)
  | WriteOutOfBounds.

(** [recvmmsg]: between one and [batch] datagrams, each truncated to the
    [MTU_SIZE] bytes of its buffer. *)
Definition recvmmsg (n : nat) (batch : Z) (sock : list (list byte))
    : list (list byte) * list (list byte) :=
  let k := Nat.min (Nat.max 1 n) (Z.to_nat batch) in
  (take (Z.to_nat MTU_SIZE) <$> take k sock, drop k sock).

(** How the loop ends, with the socket, the locals and whether the packet
    buffers go back to [m_udpPool]. *)
Inductive loop_end : Type :=
  | LoopEnd (r : recv_result) (a : asm) (sock : list (list byte))
      (sched : list rx_event) (give_packets give_final : bool).

(** The [while] loop (lines 93-246). *)
Fixpoint recv_loop (sched : list rx_event) (sock : list (list byte)) (a : asm)
    : loop_end :=
  match sched with
  | [] => LoopEnd RecvBlocked a sock [] false false
  | Closed :: sched => LoopEnd RecvNull a sock sched true true
  | RxError :: sched => LoopEnd RecvNull (reset_batch a) sock sched true true
  | Again :: sched =>
      if is_assembling a then LoopEnd RecvNull (reset_batch a) sock sched false true
      else recv_loop sched sock a
  | Deliver n :: sched =>
      match sock with
      | [] => recv_loop sched sock a
      | _ :: _ =>
          let '(pkts, sock') := recvmmsg n (batch a) sock in
          match process_batch pkts a with
          | PktFault => LoopEnd WriteOutOfBounds a sock' sched false false
          | PktComplete a' =>
              LoopEnd (RecvOk (final_hdr a') (final_data_buffer a')) (reset_batch a')
                sock' sched true false
          | PktContinue a' => recv_loop sched sock' (adjust_batch a')
          end
      end
  end.

(** Lines 56-66: the four packet buffers; what was acquired before an
    exception is destroyed with the array. *)
Fixpoint acquire_packets (n : nat) (p : udpDataPool_t)
    : outcome pool_error (list (list byte)) * udpDataPool_t :=
  match n with
  | O => (Ok [], p)
  | S n =>
      match DataArrayPool.acquire p with
      | Err e => (Err e, p)
      | Ok (b, p') =>
          match acquire_packets n p' with
          | (Ok bs, p'') => (Ok (b :: bs), p'')
          | (Err e, p'') => (Err e, p'')
          end
      end
  end.

Definition release_packets (bs : list (list byte)) (p : udpDataPool_t) : udpDataPool_t :=
  foldl (fun p b => bp_give b p) p bs.

Definition initial_asm (buf : list byte) : asm :=
  mkAsm false 0 0 0 0 0 zero_header buf BATCH_SIZE.

(** [UDPServer::Recv].  Besides the result: the server and what is left of the
    schedule. *)
Definition Recv (sched : list rx_event) (s : t) : recv_result * t * list rx_event :=
  match acquire_packets (Z.to_nat BATCH_SIZE) (m_udpPool s) with
  | (Err e, up) =>
      (RecvThrow e, mk (m_pool s) up (m_current_batch_size s) (socket s), sched)
  | (Ok bufs, up) =>
      match DataArrayPool.acquire (m_pool s) with
      | Err e =>
          (RecvThrow e, mk (m_pool s) up (m_current_batch_size s) (socket s), sched)
      | Ok (final, pool') =>
          let '(LoopEnd r a sock' sched' gp gf) :=
            recv_loop sched (socket s) (initial_asm final) in
          (r,
           mk (if gf then bp_give (final_data_buffer a) pool' else pool')
              (if gp then release_packets bufs up else up)
              (batch a) sock',
           sched')
      end
  end.

(** ** Memory safety *)

(** Writing one chunk per channel: exactly the bytes of the chunk slots change. *)
Lemma scatter_spec payload stride written chunk n c buf :
  0 ≤ written → 0 < chunk → written + chunk ≤ stride → 0 ≤ c →
  (c + Z.of_nat n) * stride ≤ Z.of_nat (length buf) →
  (c + Z.of_nat n) * chunk ≤ Z.of_nat (length payload) →
  ∃ buf', scatter payload stride written chunk n c buf = Some buf' ∧
    length buf' = length buf ∧
    (∀ c' k, c ≤ c' < c + Z.of_nat n → 0 ≤ k < chunk →
       buf' !! Z.to_nat (c' * stride + written + k) =
       payload !! Z.to_nat (c' * chunk + k)) ∧
    (∀ j : nat, (∀ c', c ≤ c' < c + Z.of_nat n →
       ¬ (c' * stride + written ≤ Z.of_nat j < c' * stride + written + chunk)) →
       buf' !! j = buf !! j).
Proof.
  intros Hw Hc Hs. revert c buf. induction n as [|n IH]; intros c buf H0 Hb Hp.
  { exists buf. split_and!; [done|done|lia|done]. }
  cbn [scatter]. unfold mread. rewrite decide_True by nia. simpl.
  set (src := take _ _).
  assert (Hlen : length src = Z.to_nat chunk).
  { subst src. rewrite length_take, length_drop. nia. }
  destruct (mwrite (c * stride + written) src buf) as [b1|] eqn:Ew; simpl.
  2:{ apply eq_None_not_Some in Ew. destruct Ew. apply mwrite_is_Some. rewrite Hlen. nia. }
  pose proof (mwrite_length _ _ _ _ Ew) as Hl1.
  destruct (IH (c + 1) b1) as (b2 & -> & Hl2 & Hin & Hout); [lia|rewrite Hl1; nia|nia|].
  exists b2. split_and!; [done|lia| |].
  - intros c' k Hc' Hk. destruct (decide (c' = c)) as [->|].
    + rewrite Hout by nia.
      replace (Z.to_nat (c * stride + written + k))
        with (Z.to_nat (c * stride + written) + Z.to_nat k)%nat by nia.
      rewrite (mwrite_lookup_in _ _ _ _ _ Ew) by lia. subst src.
      rewrite lookup_take_lt, lookup_drop by lia. f_equal. nia.
    + apply Hin; lia.
  - intros j Hj. rewrite Hout by (intros c' Hc'; apply Hj; lia).
    apply (mwrite_lookup_out _ _ _ _ _ Ew). rewrite Hlen.
    specialize (Hj c ltac:(lia)). nia.
Qed.

(** What holds of the locals between two datagrams. *)
Definition asm_inv (cap : Z) (a : asm) : Prop :=
  Z.of_nat (length (final_data_buffer a)) = cap ∧
  (is_assembling a = true →
   0 < active_num_channels a ∧
   0 ≤ bytes_written_per_ch a ≤ per_channel_stride a ∧
   active_num_channels a * per_channel_stride a ≤ cap).

(** The header a start fragment announces fits the IQ buffers. *)
Definition fits (cap : Z) (packet : list byte) : Prop :=
  Z.land (u_flag (decode_UDPHeader packet)) 1 ≠ 0 →
  h_size (decode_Header (drop (Z.to_nat UDP_HEADER_SIZE) packet)) ≤ cap.

Lemma reset_inv cap a : asm_inv cap a → asm_inv cap (reset_assembly a).
Proof. intros [? _]. by split. Qed.

Lemma field_nonneg off n l : 0 ≤ field off n l.
Proof. unfold field. apply le_combine_range. Qed.

Definition pkt_inv (cap : Z) (r : pkt_result) : Prop :=
  match r with PktContinue a | PktComplete a => asm_inv cap a | PktFault => False end.

Lemma accept_payload_inv cap uh sf ef payload a :
  cap < 2 ^ 62 → Z.of_nat (length payload) < 2 ^ 62 → is_assembling a = true →
  asm_inv cap a → pkt_inv cap (accept_payload uh sf ef payload a).
Proof.
  intros Hcap Hpl0 Has Hinv. pose proof Hinv as [Hlen Ha]. specialize (Ha Has).
  destruct Ha as (Hn & Hw & Hs). unfold accept_payload.
  destruct (sf && _); [by apply reset_inv|].
  set (pl := if sf then _ else _).
  assert (Hpl : Z.of_nat (length pl) < 2 ^ 62)
    by (subst pl; destruct sf; rewrite ?length_drop; lia). clearbody pl.
  destruct (negb (_ =? u_size uh)); [by apply reset_inv|].
  destruct (Z.eqb_spec (active_num_channels a) 0); [lia|]. cbn [orb].
  destruct (Z.eqb_spec (Z.of_nat (length pl) mod active_num_channels a) 0) as [Hm|];
    [|by apply reset_inv]. cbn [negb].
  apply Z.mod_divide in Hm as [q Hq]; [|lia]. rewrite Hq, Z.div_mul by lia.
  destruct (Z.eqb_spec q 0); [by apply reset_inv|]. cbn [orb].
  rewrite u64_small by nia.
  destruct (Z.ltb_spec (per_channel_stride a) (bytes_written_per_ch a + q));
    [by apply reset_inv|].
  destruct (scatter_spec pl (per_channel_stride a) (bytes_written_per_ch a) q
    (Z.to_nat (active_num_channels a)) 0 (final_data_buffer a))
    as (b & -> & Hb & _); [nia..|].
  assert (∀ a', is_assembling a' = is_assembling a →
     active_num_channels a' = active_num_channels a →
     per_channel_stride a' = per_channel_stride a →
     bytes_written_per_ch a' = bytes_written_per_ch a + q →
     final_data_buffer a' = b → asm_inv cap a') as Hgo.
  { intros a' E1 E2 E3 E4 E5. unfold asm_inv. rewrite E2, E3, E4, E5, Hb.
    split; [done|]. nia. }
  destruct ef; [|by apply Hgo]. destruct (negb _); [|by apply Hgo].
  apply reset_inv. by apply Hgo.
Qed.

Lemma process_packet_inv cap packet a :
  0 ≤ cap < 2 ^ 62 → Z.of_nat (length packet) < 2 ^ 62 → fits cap packet →
  asm_inv cap a → pkt_inv cap (process_packet packet a).
Proof.
  intros Hcap Hpk Hfit Hinv. unfold process_packet.
  destruct (_ <? UDP_HEADER_SIZE); [done|].
  assert (Hd : Z.of_nat (length (drop (Z.to_nat UDP_HEADER_SIZE) packet)) < 2 ^ 62)
    by (rewrite length_drop; lia).
  unfold fits in Hfit. set (payload := drop _ packet) in *.
  destruct (is_assembling a) eqn:Eas; cbn [negb].
  - destruct (negb (u_seq_number _ =? _)); [by apply reset_inv|].
    apply accept_payload_inv; try done; [lia|]. unfold asm_inv in *. simpl. tauto.
  - destruct (Z.eqb_spec (Z.land (u_flag (decode_UDPHeader packet)) 1) 0) as [|Hsf];
      cbn [negb]; [done|]. specialize (Hfit Hsf).
    destruct (_ <? UDP_HEADER_SIZE + HEADER_SIZE); [done|].
    set (h := decode_Header payload) in *.
    assert (0 ≤ h_size h) by apply field_nonneg.
    assert (0 ≤ h_number_of_channels h) by apply field_nonneg.
    destruct Hinv as [Hl _].
    destruct (Z.eqb_spec (h_number_of_channels h) 0); cbn [orb]; [by split|].
    destruct (Z.eqb_spec (h_size h / h_number_of_channels h) 0); cbn [orb]; [by split|].
    destruct (negb _) eqn:Em; [by split|].
    apply accept_payload_inv; try done; [lia|].
    split; [done|]. intros _.
    cbn [active_num_channels bytes_written_per_ch per_channel_stride].
    pose proof (Z.mul_div_le (h_size h) (h_number_of_channels h) ltac:(lia)).
    pose proof (Z.div_pos (h_size h) (h_number_of_channels h) ltac:(lia) ltac:(lia)).
    lia.
Qed.

(** Truncation to [MTU_SIZE] does not touch the headers. *)
Lemma field_take off n m l : (off + n ≤ m)%nat → field off n (take m l) = field off n l.
Proof.
  intros. unfold field. by rewrite !take_drop_commute, take_take, Nat.min_l by done.
Qed.

Lemma fits_truncated cap packet :
  fits cap packet → fits cap (take (Z.to_nat MTU_SIZE) packet).
Proof.
  unfold fits, decode_Header, decode_UDPHeader. cbn [h_size u_flag].
  rewrite field_take by (cbv; lia). intros Hf Hs. specialize (Hf Hs). revert Hf. clear Hs.
  replace (Z.to_nat MTU_SIZE)
    with (Z.to_nat UDP_HEADER_SIZE + Z.to_nat PAYLOAD_SIZE)%nat by reflexivity.
  rewrite <- take_drop_commute. by rewrite field_take by (cbv; lia).
Qed.

Lemma process_batch_inv cap pkts a :
  0 ≤ cap < 2 ^ 62 → Forall (fun p => Z.of_nat (length p) < 2 ^ 62) pkts →
  Forall (fits cap) pkts → asm_inv cap a → pkt_inv cap (process_batch pkts a).
Proof.
  intros Hc Hl Hf. revert a. induction pkts as [|p pkts IH]; intros a Ha; [done|].
  apply Forall_cons in Hl as [Hlp Hl], Hf as [Hfp Hf]. cbn [process_batch].
  pose proof (process_packet_inv cap p a Hc Hlp Hfp Ha) as Hp.
  destruct (process_packet p a) as [a'|a'|]; [|done..]. by apply IH.
Qed.

Lemma adjust_batch_inv cap a : asm_inv cap a → asm_inv cap (adjust_batch a).
Proof. unfold adjust_batch. by destruct (_ && _). Qed.

Definition end_inv (cap : Z) (e : loop_end) : Prop :=
  let '(LoopEnd r a _ _ _ _) := e in r ≠ WriteOutOfBounds ∧ asm_inv cap a.

Lemma recv_loop_inv cap sched sock a :
  0 ≤ cap < 2 ^ 62 → Forall (fits cap) sock → asm_inv cap a →
  end_inv cap (recv_loop sched sock a).
Proof.
  intros Hc. revert sock a. induction sched as [|e sched IH]; intros sock a Hf Ha.
  { by split. }
  destruct e; simpl; [|destruct (is_assembling a); auto; by split|by split..].
  destruct sock as [|p0 sock0] eqn:Es; [by apply IH|]. rewrite <- Es in *.
  clear Es p0 sock0. unfold recvmmsg.
  set (k := Nat.min _ _).
  assert (Hk : Forall (fits cap) (take k sock)) by by apply Forall_take.
  assert (Hk' : Forall (fits cap) (drop k sock)) by by apply Forall_drop.
  assert (Hpkts : pkt_inv cap (process_batch (take (Z.to_nat MTU_SIZE) <$> take k sock) a)).
  { apply process_batch_inv; [done| | |done].
    - apply Forall_fmap, Forall_true. intros x. simpl. rewrite length_take.
      unfold MTU_SIZE. lia.
    - apply Forall_fmap. eapply Forall_impl; [exact Hk|]. apply fits_truncated. }
  destruct (process_batch _ a) as [a'|a'|]; simpl in *; [|by split|done].
  apply IH; [done|]. by apply adjust_batch_inv.
Qed.

(** ** A returned burst is never empty *)

Definition hdr_inv (a : asm) : Prop :=
  is_assembling a = true → h_size (final_hdr a) ≠ 0.

Definition pkt_hdr (r : pkt_result) : Prop :=
  match r with
  | PktContinue a => hdr_inv a
  | PktComplete a => h_size (final_hdr a) ≠ 0
  | PktFault => True
  end.

Lemma accept_payload_hdr uh sf ef payload a :
  h_size (final_hdr a) ≠ 0 → pkt_hdr (accept_payload uh sf ef payload a).
Proof.
  intros Ha. unfold accept_payload.
  destruct (sf && _); [done|]. destruct (negb (_ =? u_size uh)); [done|].
  destruct (_ || _); [done|]. destruct (_ || _); [done|].
  destruct (scatter _ _ _ _ _ _ _); [|done].
  destruct ef; [destruct (negb _)|]; first [done | by intros _].
Qed.

Lemma process_packet_hdr p a : hdr_inv a → pkt_hdr (process_packet p a).
Proof.
  intros Ha. unfold process_packet. destruct (_ <? UDP_HEADER_SIZE); [done|].
  destruct (is_assembling a) eqn:Eas; cbn [negb].
  - destruct (negb _); [done|]. by apply accept_payload_hdr, Ha.
  - destruct (Z.land _ 1 =? 0); [done|]. cbn [negb].
    destruct (_ <? _ + _); [done|].
    destruct (Z.eqb_spec (h_number_of_channels (decode_Header
      (drop (Z.to_nat UDP_HEADER_SIZE) p))) 0); [done|]. cbn [orb].
    destruct (Z.eqb_spec (h_size (decode_Header (drop (Z.to_nat UDP_HEADER_SIZE) p))
      / h_number_of_channels (decode_Header (drop (Z.to_nat UDP_HEADER_SIZE) p))) 0)
      as [|Hs]; [done|]. cbn [orb].
    destruct (negb _); [done|]. apply accept_payload_hdr. cbn [final_hdr].
    intros E. rewrite E in Hs. by rewrite Zdiv_0_l in Hs.
Qed.

Lemma process_batch_hdr ps a : hdr_inv a → pkt_hdr (process_batch ps a).
Proof.
  revert a. induction ps as [|p ps IH]; intros a Ha; [done|]. cbn [process_batch].
  pose proof (process_packet_hdr p a Ha). destruct (process_packet p a); auto.
Qed.

Lemma recv_loop_hdr sched sock a :
  hdr_inv a →
  let '(LoopEnd r _ _ _ _ _) := recv_loop sched sock a in
  match r with RecvOk h _ => h_size h ≠ 0 | _ => True end.
Proof.
  revert sock a. induction sched as [|e sched IH]; intros sock a Ha; [done|].
  destruct e; simpl; [|destruct (is_assembling a); [done|by apply IH]|done..].
  destruct sock; [by apply IH|].
  pose proof (process_batch_hdr (take (Z.to_nat MTU_SIZE) <$>
    take (Nat.min (Nat.max 1 n) (Z.to_nat (batch a))) (l :: sock)) a Ha) as Hp.
  simpl in Hp. destruct (process_batch _ a) as [a'|a'|]; [|done|done].
  apply IH. unfold adjust_batch. by destruct (_ && _).
Qed.

Lemma Recv_size sched s h b s' rest :
  Recv sched s = (RecvOk h b, s', rest) → h_size h ≠ 0.
Proof.
  unfold Recv. destruct (acquire_packets _ _) as [[bufs|e] up]; [|done].
  destruct (DataArrayPool.acquire _) as [[final pool']|e]; [|done].
  pose proof (recv_loop_hdr sched (socket s) (initial_asm final)) as Hh.
  destruct (recv_loop _ _ _). intros [= -> _ _]. by apply Hh.
Qed.

End UDPServer.

(** ** Properties *)

Section Accounting.
Import UDPServer.

Lemma acquire_packets_spec n (p : udpDataPool_t) :
  match acquire_packets n p with
  | (Ok bs, p') => length bs = n ∧ DataArrayPool.available p' = DataArrayPool.available p - Z.of_nat n
                   ∧ DataArrayPool.m_itemSize p' = DataArrayPool.m_itemSize p
  | (Err e, p') => e = PoolExhausted ∧ DataArrayPool.available p < Z.of_nat n
                   ∧ DataArrayPool.available p' = 0
  end.
Proof.
  revert p. induction n as [|n IH]; intros p; cbn [acquire_packets];
    [split_and!; [done|lia|done]|].
  unfold DataArrayPool.acquire. destruct (DataArrayPool.pool p) as [|b l] eqn:E.
  - unfold DataArrayPool.available. rewrite E. simpl. split_and!; [done|lia|done].
  - specialize (IH (DataArrayPool.set_pool p l)).
    destruct (acquire_packets n _) as [[bs|e] p']; unfold DataArrayPool.available in *;
      rewrite E; simpl in *; destruct IH as (-> & ? & ?); split_and!; done || lia.
Qed.

Lemma release_packets_available bs p :
  DataArrayPool.available (release_packets bs p)
  = DataArrayPool.available p + Z.of_nat (length bs).
Proof.
  unfold release_packets. revert p. induction bs as [|b bs IH]; intros p; simpl; [lia|].
  rewrite IH, give_available. lia.
Qed.

(** The flags of the loop end: the packet buffers are kept back exactly when a
    timeout strikes an assembly, the final buffer exactly when it is returned. *)
Lemma recv_loop_flags sched sock a :
  let '(LoopEnd r a' _ rest gp gf) := recv_loop sched sock a in
  match r with
  | RecvOk _ _ => gp = true ∧ gf = false
  | RecvNull => gf = true ∧
      (gp = true ∨
       gp = false ∧ is_assembling a' = true ∧ ∃ pre, sched = pre ++ Again :: rest)
  | RecvThrow _ => False
  | _ => True
  end.
Proof.
  revert sock a. induction sched as [|e sched IH]; intros sock a; simpl; [done|].
  assert (Hcons : ∀ e sock a,
    let '(LoopEnd r a' _ rest gp gf) := recv_loop sched sock a in
    match r with
    | RecvOk _ _ => gp = true ∧ gf = false
    | RecvNull => gf = true ∧
        (gp = true ∨
         gp = false ∧ is_assembling a' = true ∧ ∃ pre, e :: sched = pre ++ Again :: rest)
    | RecvThrow _ => False
    | _ => True
    end).
  { intros e' sock' a'. specialize (IH sock' a').
    destruct (recv_loop sched sock' a') as [r ? ? ? gp gf]; destruct r; try done.
    destruct IH as [? [?|(? & ? & pre & ->)]]; (split; [done|]); [by left|right].
    split_and!; [done..|]. by exists (e' :: pre). }
  destruct e; [|destruct (is_assembling a) eqn:Ea|auto..]; try apply Hcons.
  - destruct sock; [apply Hcons|].
    destruct (process_batch _ a); [apply Hcons|auto|auto].
  - split; [done|right]. split_and!; [done..|]. by exists [].
Qed.

Lemma Recv_cases sched s :
  (∃ up, Recv sched s =
     (RecvThrow PoolExhausted, mk (m_pool s) up (m_current_batch_size s) (socket s),
      sched)) ∨
  (∃ bufs up final pool' r a sock rest gp gf,
     acquire_packets (Z.to_nat BATCH_SIZE) (m_udpPool s) = (Ok bufs, up) ∧
     DataArrayPool.acquire (m_pool s) = Ok (final, pool') ∧
     recv_loop sched (socket s) (initial_asm final) = LoopEnd r a sock rest gp gf ∧
     Recv sched s =
       (r, mk (if gf : bool then bp_give (final_data_buffer a) pool' else pool')
             (if gp : bool then release_packets bufs up else up) (batch a) sock, rest)).
Proof.
  unfold Recv. pose proof (acquire_packets_spec (Z.to_nat BATCH_SIZE) (m_udpPool s)) as H.
  destruct (acquire_packets _ _) as [[bufs|e] up] eqn:Ep.
  - destruct (DataArrayPool.acquire (m_pool s)) as [[final pool']|e] eqn:Ea.
    + right. destruct (recv_loop _ _ _) as [r a sock rest gp gf] eqn:El.
      do 10 eexists. split_and!; [done..|exact El|done].
    + left. unfold DataArrayPool.acquire in Ea. cases. eauto.
  - destruct H as [-> _]. left. eauto.
Qed.

Lemma Recv_account (sched : list UDPServer.rx_event) (s : UDPServer.t) :
  let '(r, s', rest) := UDPServer.Recv sched s in
  let iq s := DataArrayPool.available (UDPServer.m_pool s) in
  let udp s := DataArrayPool.available (UDPServer.m_udpPool s) in
  match r with
  | UDPServer.RecvOk _ _ => iq s' = iq s - 1 ∧ udp s' = udp s
  | UDPServer.RecvNull =>
      iq s' = iq s ∧
      (udp s' = udp s ∨
       udp s' = udp s - BATCH_SIZE ∧ ∃ pre, sched = pre ++ UDPServer.Again :: rest)
  | UDPServer.RecvThrow e => e = PoolExhausted
  | _ => True
  end.
Proof.
  destruct (Recv_cases sched s)
    as [[up ->]|(bufs & up & final & pool' & r & a & sock & rest & gp & gf &
         Hap & Hac & Hl & ->)]; [done|]. cbn zeta. simpl.
  pose proof (acquire_packets_spec (Z.to_nat BATCH_SIZE) (UDPServer.m_udpPool s)) as Hs.
  rewrite Hap in Hs. destruct Hs as (Hlen & Hav & _).
  pose proof (recv_loop_flags sched (UDPServer.socket s) (UDPServer.initial_asm final))
    as Hfl. rewrite Hl in Hfl.
  assert (Hiq : DataArrayPool.available (UDPServer.m_pool s)
                = DataArrayPool.available pool' + 1).
  { clear -Hac. unfold DataArrayPool.acquire in Hac. unfold DataArrayPool.available.
    destruct (DataArrayPool.pool (UDPServer.m_pool s)); simplify_eq/=. lia. }
  assert (Hback : DataArrayPool.available (UDPServer.release_packets bufs up)
                  = DataArrayPool.available (UDPServer.m_udpPool s)).
  { rewrite release_packets_available, Hav, Hlen. lia. }
  destruct r; try done.
  - destruct Hfl as [-> ->]. lia.
  - destruct Hfl as [-> [->|(-> & _ & pre & ->)]]; rewrite give_available; (split; [lia|]).
    + by left.
    + right. split; [exact Hav|]. by exists pre.
Qed.

End Accounting.

(** C9 Memory safety of [UDPServer::Recv] against arbitrary datagrams: if every
    queued datagram announces (where its header bytes are) a burst no larger
    than the IQ buffers, no schedule of deliveries, timeouts and errors makes
    [Recv] write outside its buffer, and the IQ pool keeps its invariant. *)
Theorem recv_memory_safe (sched : list UDPServer.rx_event) (s : UDPServer.t)
    (Hpool : DataArrayPool.inv (UDPServer.m_pool s))
    (Hcap : DataArrayPool.m_itemSize (UDPServer.m_pool s) < 2 ^ 62)
    (Hfits : Forall (UDPServer.fits (DataArrayPool.m_itemSize (UDPServer.m_pool s)))
               (UDPServer.socket s)) :
  let '(r, s', _) := UDPServer.Recv sched s in
  r ≠ UDPServer.WriteOutOfBounds ∧ DataArrayPool.inv (UDPServer.m_pool s').
Proof.
  destruct (Recv_cases sched s)
    as [[up ->]|(bufs & up & final & pool' & r & a & sock & rest & gp & gf &
         Hap & Hac & Hl & ->)]; [done|].
  destruct (DataArrayPool.acquire_inv _ _ _ Hpool Hac) as [Hp' Hf].
  assert (DataArrayPool.m_itemSize pool' = DataArrayPool.m_itemSize (UDPServer.m_pool s))
      as Hsz by (unfold DataArrayPool.acquire in Hac; cases).
  rewrite <- Hsz in *.
  pose proof (UDPServer.recv_loop_inv (DataArrayPool.m_itemSize pool') sched
      (UDPServer.socket s) (UDPServer.initial_asm final)) as Hi.
  rewrite Hl in Hi. destruct Hi as [Hr [Hlen _]]; [|done|by split|].
    { destruct Hp'. lia. }
  split; [done|]. simpl. destruct gf; [|done].
  unfold bp_give. simpl. eapply DataArrayPool.release_inv; [exact Hp'|exact Hlen|done].
Qed.

(** A start fragment of an 8-byte single-channel burst, carrying its first
    four bytes, and a server with two 8-byte IQ buffers. *)
Definition sample_header : Header := mkHeader 8 0 0 0 1000000 2 2 1.

Definition sample_start : list byte :=
  encode_UDPHeader x00 (mkUDPHeader 0 4 0 1) ++ encode_Header x00 sample_header
  ++ [x01; x02; x03; x04].

Definition sample_end : list byte :=
  encode_UDPHeader x00 (mkUDPHeader 0 4 1 4) ++ [x05; x06; x07; x08].

Definition sample_pool : iqPool_t :=
  DataArrayPool.mk 2 8 false [replicate 8 x00; replicate 8 x00] "IQ".

Definition sample_server (sock : list (list byte)) : UDPServer.t :=
  UDPServer.mk sample_pool
    (DataArrayPool.mk 16 1472 true (replicate 16 (replicate 1472 x00)) "SERVER")
    BATCH_SIZE sock.

Lemma recv_memory_safe_witness :
  let '(r, s', _) :=
    UDPServer.Recv [UDPServer.Deliver 4] (sample_server [sample_start; sample_end]) in
  r ≠ UDPServer.WriteOutOfBounds ∧ DataArrayPool.inv (UDPServer.m_pool s').
Proof.
  apply (recv_memory_safe [UDPServer.Deliver 4]
           (sample_server [sample_start; sample_end])).
  - split; [done|]. repeat constructor.
  - done.
  - apply Forall_cons_2; [by vm_compute|]. apply Forall_cons_2; [|constructor].
    intros Hs. by destruct Hs.
Defined.

(** ** The unchecked size *)

Lemma scatter_S payload stride written chunk n c buf :
  UDPServer.scatter payload stride written chunk (S n) c buf
  = (src ← mread (c * chunk) chunk payload;
     buf' ← mwrite (c * stride + written) src buf;
     UDPServer.scatter payload stride written chunk n (c + 1) buf').
Proof. reflexivity. Qed.

(** The copying fails exactly when the last channel's slot ends past the
    buffer. *)
Lemma scatter_faults payload stride written chunk n c buf :
  0 ≤ c → 0 ≤ written → 0 < chunk → 0 ≤ stride →
  (c + Z.of_nat (S n)) * chunk ≤ Z.of_nat (length payload) →
  UDPServer.scatter payload stride written chunk (S n) c buf = None ↔
  Z.of_nat (length buf) < (c + Z.of_nat n) * stride + written + chunk.
Proof.
  intros H0 Hw Hc Hs. revert c buf H0. induction n as [|n IH]; intros c buf H0 Hp;
    rewrite scatter_S; unfold mread; rewrite decide_True by nia; cbn [mbind option_bind];
    set (src := take _ _);
    assert (Hlen : length src = Z.to_nat chunk)
      by (subst src; rewrite length_take, length_drop; nia);
    pose proof (mwrite_is_Some (c * stride + written) src buf) as Hin;
    rewrite Hlen in Hin;
    destruct (mwrite (c * stride + written) src buf) as [b1|] eqn:Ew;
    cbn [mbind option_bind].
  - assert (is_Some (Some b1)) as E by done. apply Hin in E. split; [done|lia].
  - split; [intros _|done]. apply Z.lt_nge. intros Hge.
    assert (is_Some (@None (list byte))) as [? [=]]. apply Hin. nia.
  - assert (is_Some (Some b1)) as E by done. apply Hin in E.
    pose proof (mwrite_length _ _ _ _ Ew) as Hl1.
    rewrite IH by lia. rewrite Hl1.
    replace (c + 1 + Z.of_nat n) with (c + Z.of_nat (S n)) by lia. done.
  - split; [intros _|done]. apply Z.lt_nge. intros Hge.
    assert (is_Some (@None (list byte))) as [? [=]]. apply Hin. nia.
Qed.

(** The part of a start datagram behind its two headers. *)
Definition start_payload (packet : list byte) : list byte :=
  drop (Z.to_nat HEADER_SIZE) (drop (Z.to_nat UDP_HEADER_SIZE) packet).

(** What [Recv] checks of a datagram that starts a burst: the start flag, the
    lengths, and that the announced size and the payload divide evenly over the
    announced channels, the payload's share fitting the channel's. *)
Definition passes_checks (packet : list byte) : bool :=
  let uh := decode_UDPHeader packet in
  let hdr := decode_Header (drop (Z.to_nat UDP_HEADER_SIZE) packet) in
  let n := h_number_of_channels hdr in
  let len := Z.of_nat (length (start_payload packet)) in
  (UDP_HEADER_SIZE + HEADER_SIZE <=? Z.of_nat (length packet)) &&
  (Z.of_nat (length packet) <=? MTU_SIZE) &&
  negb (Z.land (u_flag uh) 1 =? 0) && negb (n =? 0) &&
  (h_size hdr mod n =? 0) && (u_size uh =? len) && (len mod n =? 0) &&
  (0 <? len) && (len <=? h_size hdr).

(** Where the last byte that datagram writes lies: the last channel's slot
    begins after the announced shares of the others. *)
Definition write_end (packet : list byte) : Z :=
  let hdr := decode_Header (drop (Z.to_nat UDP_HEADER_SIZE) packet) in
  let n := h_number_of_channels hdr in
  (n - 1) * (h_size hdr / n) + Z.of_nat (length (start_payload packet)) / n.

(** Those checks, and the arithmetic they give. *)
Lemma passes_checks_spec packet :
  passes_checks packet = true →
  let uh := decode_UDPHeader packet in
  let hdr := decode_Header (drop (Z.to_nat UDP_HEADER_SIZE) packet) in
  let n := h_number_of_channels hdr in
  UDP_HEADER_SIZE + HEADER_SIZE ≤ Z.of_nat (length packet) ≤ MTU_SIZE ∧
  Z.land (u_flag uh) 1 ≠ 0 ∧ 0 < n ∧
  u_size uh = Z.of_nat (length (start_payload packet)) ∧
  Z.of_nat (length (start_payload packet)) ≤ MTU_SIZE ∧
  ∃ stride chunk, h_size hdr = stride * n ∧ 0 < chunk ≤ stride ∧
    Z.of_nat (length (start_payload packet)) = chunk * n ∧
    write_end packet = (n - 1) * stride + chunk.
Proof.
  unfold passes_checks, write_end. rewrite !andb_true_iff, !negb_true_iff.
  rewrite !Z.leb_le, !Z.eqb_eq, !Z.eqb_neq, Z.ltb_lt.
  intros ((((((((H1 & H2) & H3) & H4) & H5) & H6) & H7) & H8) & H9). cbv zeta.
  set (hdr := decode_Header (drop (Z.to_nat UDP_HEADER_SIZE) packet)) in *.
  set (n := h_number_of_channels hdr) in *.
  assert (0 ≤ n) by apply UDPServer.field_nonneg.
  apply Z.mod_divide in H5 as [st Hst]; [|done].
  apply Z.mod_divide in H7 as [q Hq]; [|done].
  split_and!; [done|done|done|lia|done|unfold start_payload; rewrite !length_drop; lia|].
  exists st, q. rewrite Hst, Hq, !Z.div_mul by done. split_and!; nia.
Qed.

Lemma process_start packet buf :
  passes_checks packet = true → Z.of_nat (length buf) < 2 ^ 62 →
  UDPServer.process_packet packet (UDPServer.initial_asm buf) = UDPServer.PktFault
  ↔ Z.of_nat (length buf) < write_end packet.
Proof.
  intros Hc Hb.
  destruct (passes_checks_spec _ Hc)
    as (Hlen & Hflag & Hn & Hsize & Hpl & st & q & Hst & Hq & Hlq & ->).
  unfold UDPServer.process_packet. cbv zeta.
  cbn [UDPServer.is_assembling UDPServer.initial_asm negb].
  set (hdr := decode_Header (drop (Z.to_nat UDP_HEADER_SIZE) packet)) in *.
  set (n := h_number_of_channels hdr) in *.
  rewrite (proj2 (Z.ltb_ge (Z.of_nat (length packet)) UDP_HEADER_SIZE))
    by (unfold HEADER_SIZE, UDP_HEADER_SIZE in *; lia).
  rewrite (proj2 (Z.eqb_neq _ _) Hflag). cbn [negb].
  rewrite (proj2 (Z.ltb_ge _ _)) by lia.
  rewrite Hst, (proj2 (Z.eqb_neq n 0)), Z.div_mul, Z.mod_mul, Z.eqb_refl by lia.
  rewrite (proj2 (Z.eqb_neq st 0)) by lia. cbn [orb negb].
  unfold UDPServer.accept_payload. cbn [UDPServer.active_num_channels
    UDPServer.per_channel_stride UDPServer.bytes_written_per_ch
    UDPServer.final_data_buffer UDPServer.batch UDPServer.final_hdr].
  fold (start_payload packet). cbn [andb]. rewrite length_drop.
  rewrite (proj2 (Z.ltb_ge _ _)) by (unfold HEADER_SIZE, UDP_HEADER_SIZE in *; lia).
  rewrite Hsize, Z.eqb_refl, (proj2 (Z.eqb_neq n 0)) by lia. cbn [negb].
  rewrite Hlq, Z.mod_mul, Z.div_mul, Z.eqb_refl, (proj2 (Z.eqb_neq q 0)) by lia.
  cbn [orb negb]. rewrite u64_small by (unfold MTU_SIZE in *; nia).
  rewrite (proj2 (Z.ltb_ge _ _)) by lia. cbn [orb].
  replace (Z.to_nat n) with (S (Z.to_nat (n - 1))) by lia.
  pose proof (scatter_faults (start_payload packet) st 0 q (Z.to_nat (n - 1)) 0 buf)
    as Hsc. destruct (UDPServer.scatter _ _ _ _ _ _ _).
  - split.
    + intros E. exfalso. revert E.
      destruct (negb (Z.land _ 4 =? 0)); [|done]. by destruct (negb _).
    + intros Hlt. discriminate (proj2 (Hsc ltac:(lia) ltac:(lia) ltac:(lia) ltac:(lia)
        ltac:(nia)) ltac:(nia)).
  - split; [intros _|done].
    pose proof (proj1 (Hsc ltac:(lia) ltac:(lia) ltac:(lia) ltac:(lia) ltac:(nia))
      eq_refl). nia.
Qed.

(** C37 The size a burst announces is never compared with the buffer it is
    assembled in: whatever the server, a datagram that passes the checks of
    [Recv] for the start of a burst (its fields are consistent with each other)
    makes [Recv] write outside its IQ buffer exactly when the slot of its last
    channel ends past the buffer; nothing that follows can prevent it. *)
Theorem recv_overflow (pkt : list byte) (sock : list (list byte)) (s : UDPServer.t)
    (sched : list UDPServer.rx_event)
    (Hsock : UDPServer.socket s = pkt :: sock)
    (Hchecks : passes_checks pkt = true)
    (Hpool : DataArrayPool.inv (UDPServer.m_pool s))
    (Hcap : DataArrayPool.m_itemSize (UDPServer.m_pool s) < 2 ^ 62)
    (Hudp : BATCH_SIZE ≤ DataArrayPool.available (UDPServer.m_udpPool s))
    (Hiq : 0 < DataArrayPool.available (UDPServer.m_pool s)) :
  (DataArrayPool.m_itemSize (UDPServer.m_pool s) < write_end pkt →
     (UDPServer.Recv (UDPServer.Deliver 1 :: sched) s).1.1 = UDPServer.WriteOutOfBounds) ∧
  (write_end pkt ≤ DataArrayPool.m_itemSize (UDPServer.m_pool s) →
     (UDPServer.Recv [UDPServer.Deliver 1] s).1.1 ≠ UDPServer.WriteOutOfBounds).
Proof.
  pose proof (acquire_packets_spec (Z.to_nat BATCH_SIZE) (UDPServer.m_udpPool s)) as Hp.
  unfold UDPServer.Recv.
  destruct (UDPServer.acquire_packets _ _) as [[bufs|e] up];
    [|unfold BATCH_SIZE in *; lia].
  destruct (DataArrayPool.acquire (UDPServer.m_pool s)) as [[final pool']|e] eqn:Ea.
  2:{ unfold DataArrayPool.acquire in Ea. unfold DataArrayPool.available in Hiq. cases. }
  destruct (DataArrayPool.acquire_inv _ _ _ Hpool Ea) as [_ Hf].
  assert (Hsz : DataArrayPool.m_itemSize pool'
                = DataArrayPool.m_itemSize (UDPServer.m_pool s))
    by (unfold DataArrayPool.acquire in Ea; cases).
  assert (Hlen : Z.of_nat (length final)
                 = DataArrayPool.m_itemSize (UDPServer.m_pool s)) by lia.
  assert (Hmtu : take (Z.to_nat MTU_SIZE) pkt = pkt).
  { apply take_ge. unfold passes_checks in Hchecks. rewrite !andb_true_iff in Hchecks.
    destruct Hchecks as ((((((((_ & H2) & _) & _) & _) & _) & _) & _) & _).
    apply Z.leb_le in H2. lia. }
  assert (Hbig : Z.of_nat (length final) < 2 ^ 62) by (rewrite Hlen; exact Hcap).
  pose proof (process_start pkt final Hchecks Hbig) as Hstart.
  rewrite Hsock, <- Hlen. cbn [UDPServer.recv_loop].
  change (UDPServer.recvmmsg 1 (UDPServer.batch (UDPServer.initial_asm final))
    (pkt :: sock)) with ([take (Z.to_nat MTU_SIZE) pkt], sock).
  cbn [UDPServer.process_batch]. rewrite Hmtu.
  split; intros Hw.
  - by rewrite (proj2 Hstart Hw).
  - destruct (UDPServer.process_packet _ _); try done.
    pose proof (proj1 Hstart eq_refl). lia.
Qed.

(** A datagram of 146 bytes announcing a two-channel burst of two shares of
    nine bytes, on the server with 8-byte buffers. *)
Lemma recv_overflow_witness :
  (UDPServer.Recv [UDPServer.Deliver 1; UDPServer.Deliver 4]
     (sample_server [encode_UDPHeader x00 (mkUDPHeader 0 2 0 1)
                     ++ encode_Header x00 (mkHeader 18 0 0 0 1000000 2 2 2)
                     ++ [x01; x02]])).1.1 = UDPServer.WriteOutOfBounds.
Proof.
  apply (recv_overflow
    (encode_UDPHeader x00 (mkUDPHeader 0 2 0 1)
     ++ encode_Header x00 (mkHeader 18 0 0 0 1000000 2 2 2) ++ [x01; x02]) []
    (sample_server [encode_UDPHeader x00 (mkUDPHeader 0 2 0 1)
                     ++ encode_Header x00 (mkHeader 18 0 0 0 1000000 2 2 2)
                     ++ [x01; x02]]) [UDPServer.Deliver 4]).
  - reflexivity.
  - vm_compute. reflexivity.
  - split; [done|]. repeat constructor.
  - vm_compute. reflexivity.
  - vm_compute. discriminate.
  - vm_compute. reflexivity.
  - vm_compute. reflexivity.
Defined.

(** [recv_loop] on a prefix of the schedule on which it does not end goes on
    with the rest from where it stands; when it ends on an error, the event it
    ended on and the state before it are determined. *)
Lemma recv_loop_stop sched sock a r a' sock' rest gp gf :
  UDPServer.recv_loop sched sock a = UDPServer.LoopEnd r a' sock' rest gp gf →
  r = UDPServer.RecvNull →
  ∃ pre ev al sl,
    sched = pre ++ ev :: rest ∧
    UDPServer.recv_loop pre sock a
    = UDPServer.LoopEnd UDPServer.RecvBlocked al sl [] false false ∧
    gf = true ∧
    match ev with
    | UDPServer.Again => UDPServer.is_assembling al = true ∧ gp = false
    | UDPServer.RxError | UDPServer.Closed => gp = true
    | UDPServer.Deliver _ => False
    end.
Proof.
  intros H Hr. revert sock a H.
  induction sched as [|e sched IH]; intros sock a H; [by simplify_eq/=|].
  assert (Hgo : ∀ sock1 a1,
    UDPServer.recv_loop sched sock1 a1 = UDPServer.LoopEnd r a' sock' rest gp gf →
    (∀ pre, UDPServer.recv_loop (e :: pre) sock a
            = UDPServer.recv_loop pre sock1 a1) →
    ∃ pre ev al sl,
      e :: sched = pre ++ ev :: rest ∧
      UDPServer.recv_loop pre sock a
      = UDPServer.LoopEnd UDPServer.RecvBlocked al sl [] false false ∧
      gf = true ∧
      match ev with
      | UDPServer.Again => UDPServer.is_assembling al = true ∧ gp = false
      | UDPServer.RxError | UDPServer.Closed => gp = true
      | UDPServer.Deliver _ => False
      end).
  { intros sock1 a1 H1 Hstep. destruct (IH _ _ H1) as (pre & ev & al & sl & -> & Hl & Hx).
    exists (e :: pre), ev, al, sl. rewrite Hstep. done. }
  destruct e; cbn [UDPServer.recv_loop] in H.
  - destruct sock as [|p sock]; [by eapply Hgo|]. cbv beta iota zeta in H.
    destruct (UDPServer.recvmmsg n (UDPServer.batch a) (p :: sock)) as [pkts sock1] eqn:Em.
    destruct (UDPServer.process_batch pkts a) as [a1|a1|] eqn:Eb; [|by simplify_eq..].
    eapply Hgo; [exact H|]. intros pre. cbn [UDPServer.recv_loop]. by rewrite Em, Eb.
  - destruct (UDPServer.is_assembling a) eqn:Ea.
    + simplify_eq. exists [], UDPServer.Again, a, sock'. done.
    + eapply Hgo; [exact H|]. intros pre. cbn [UDPServer.recv_loop]. by rewrite Ea.
  - simplify_eq. exists [], UDPServer.RxError, a, sock'. done.
  - simplify_eq. exists [], UDPServer.Closed, a', sock'. done.
Qed.

(** A thrown [Recv] has drained the packet pool, or found the IQ pool empty
    and lost the four packet buffers it had taken. *)
Lemma Recv_throw_account sched s e s' rest :
  UDPServer.Recv sched s = (UDPServer.RecvThrow e, s', rest) →
  let iq s := DataArrayPool.available (UDPServer.m_pool s) in
  let udp s := DataArrayPool.available (UDPServer.m_udpPool s) in
  e = PoolExhausted ∧ iq s' = iq s ∧ rest = sched ∧
  (udp s < BATCH_SIZE ∧ udp s' = 0 ∨
   BATCH_SIZE ≤ udp s ∧ iq s = 0 ∧ udp s' = udp s - BATCH_SIZE).
Proof.
  unfold UDPServer.Recv.
  pose proof (acquire_packets_spec (Z.to_nat BATCH_SIZE) (UDPServer.m_udpPool s)) as Hp.
  destruct (UDPServer.acquire_packets _ _) as [[bufs|e'] up].
  - destruct (DataArrayPool.acquire (UDPServer.m_pool s)) as [[final pool']|e'] eqn:Ea.
    + pose proof (recv_loop_flags sched (UDPServer.socket s)
        (UDPServer.initial_asm final)) as Hfl.
      destruct (UDPServer.recv_loop _ _ _). intros H. simplify_eq. done.
    + unfold DataArrayPool.acquire in Ea.
      destruct (DataArrayPool.pool (UDPServer.m_pool s)) eqn:Epool; simplify_eq.
      intros H. simplify_eq. simpl. destruct Hp as (_ & Hav & _).
      assert (DataArrayPool.available (UDPServer.m_pool s) = 0)
        by (unfold DataArrayPool.available; by rewrite Epool).
      pose proof (eq_refl : Z.of_nat (Z.to_nat BATCH_SIZE) = BATCH_SIZE).
      assert (0 ≤ DataArrayPool.available up) by (unfold DataArrayPool.available; lia).
      split_and!; try done. right. lia.
  - intros H. simplify_eq. simpl. destruct Hp as (-> & Hlt & H0).
    split_and!; try done. left. split; [exact Hlt|exact H0].
Qed.

(** C31 What [Recv] does to the two pools, on every path on which it comes back.
    A returned signal takes one IQ buffer and gives the four packet buffers
    back. A null result gives the IQ buffer back; the packet buffers too when
    an error or the closing of the socket ended the call, and when a timeout
    ended it they are lost for good. A timeout ends the call only while a burst
    is being assembled (the call had not ended on the events before it and
    stood with [is_assembling] set). An exception is always the exhausted
    pool's: either fewer than four packet buffers were free and all of them are
    lost, or the IQ pool was empty and the four packet buffers taken are lost. *)
Theorem recv_buffer_accounting (sched : list UDPServer.rx_event) (s s' : UDPServer.t)
    (r : UDPServer.recv_result) (rest : list UDPServer.rx_event)
    (Hrecv : UDPServer.Recv sched s = (r, s', rest)) :
  let iq s := DataArrayPool.available (UDPServer.m_pool s) in
  let udp s := DataArrayPool.available (UDPServer.m_udpPool s) in
  match r with
  | UDPServer.RecvOk _ _ => iq s' = iq s - 1 ∧ udp s' = udp s
  | UDPServer.RecvNull =>
      iq s' = iq s ∧
      ∃ pre ev final al sl,
        sched = pre ++ ev :: rest ∧
        UDPServer.recv_loop pre (UDPServer.socket s) (UDPServer.initial_asm final)
        = UDPServer.LoopEnd UDPServer.RecvBlocked al sl [] false false ∧
        match ev with
        | UDPServer.Again =>
            UDPServer.is_assembling al = true ∧ udp s' = udp s - BATCH_SIZE
        | UDPServer.RxError | UDPServer.Closed => udp s' = udp s
        | UDPServer.Deliver _ => False
        end
  | UDPServer.RecvThrow e =>
      e = PoolExhausted ∧ iq s' = iq s ∧ rest = sched ∧
      (udp s < BATCH_SIZE ∧ udp s' = 0 ∨
       BATCH_SIZE ≤ udp s ∧ iq s = 0 ∧ udp s' = udp s - BATCH_SIZE)
  | UDPServer.RecvBlocked | UDPServer.WriteOutOfBounds => True
  end.
Proof.
  destruct r; [| |done| |done].
  - pose proof (Recv_account sched s) as Ha. rewrite Hrecv in Ha. exact Ha.
  - pose proof (Recv_account sched s) as Ha. rewrite Hrecv in Ha. simpl in Ha.
    split; [apply Ha|].
    destruct (Recv_cases sched s)
      as [[up E]|(bufs & up & final & pool' & r & a & sock & rest' & gp & gf &
           Hap & Hac & Hl & E)]; rewrite E in Hrecv; simplify_eq.
    destruct (recv_loop_stop _ _ _ _ _ _ _ _ _ Hl eq_refl)
      as (pre & ev & al & sl & Hs & Hpre & _ & Hev).
    exists pre, ev, final, al, sl. split; [exact Hs|]. split; [exact Hpre|].
    pose proof (acquire_packets_spec (Z.to_nat BATCH_SIZE) (UDPServer.m_udpPool s)) as Hp.
    rewrite Hap in Hp. destruct Hp as (Hlen & Hav & _).
    destruct ev; [done|destruct Hev as [? ->]|subst gp..]; simpl.
    + split; [done|exact Hav].
    + rewrite release_packets_available, Hav, Hlen. lia.
    + rewrite release_packets_available, Hav, Hlen. lia.
  - exact (Recv_throw_account _ _ _ _ _ Hrecv).
Qed.

(** A start fragment, a timeout, an end fragment nobody waits for: the four
    packet buffers are gone. *)
Lemma recv_buffer_accounting_witness :
  ∃ s', UDPServer.Recv
    [UDPServer.Again; UDPServer.Deliver 1; UDPServer.Again; UDPServer.Deliver 1]
    (sample_server [sample_start; sample_end])
  = (UDPServer.RecvNull, s', [UDPServer.Deliver 1]) ∧
  DataArrayPool.available (UDPServer.m_pool s') = 2.
Proof.
  eexists. split; [vm_compute; reflexivity|].
  destruct (recv_buffer_accounting
    [UDPServer.Again; UDPServer.Deliver 1; UDPServer.Again; UDPServer.Deliver 1]
    (sample_server [sample_start; sample_end]) _ UDPServer.RecvNull
    [UDPServer.Deliver 1] ltac:(vm_compute; reflexivity)) as [Hiq _].
  exact Hiq.
Defined.

(** Consequence of the leak: after four timeouts in the middle of a burst the
    16 packet buffers of a fresh server are gone and the next [Recv] throws,
    whatever is queued and however long it would wait. *)
Theorem recv_starves :
  ∃ s4 : UDPServer.t,
    rtc (fun s s' => ∃ n, (UDPServer.Recv [UDPServer.Deliver n; UDPServer.Again] s).1
                          = (UDPServer.RecvNull, s'))
        (sample_server (replicate 4 sample_start)) s4 ∧
    ∀ sched sock pool b,
      (UDPServer.Recv sched (UDPServer.mk pool (UDPServer.m_udpPool s4) b sock)).1.1
      = UDPServer.RecvThrow PoolExhausted.
Proof.
  eexists. split.
  - do 4 (eapply rtc_l; [exists 1%nat; vm_compute; reflexivity|]). apply rtc_refl.
  - intros. reflexivity.
Qed.
