(* ===== verification/UdpRoundtrip.v ===== *)
(** The UDP link end to end: what [UDPClient::Send] puts on the wire is what
    [UDPServer::Recv] reassembles, for every way the kernel splits the stream
    into [recvmmsg] results, and for bursts queued back to back. *)

From Stdlib Require Import ZArith Lia Strings.Byte.
From stdpp Require Import prelude list strings list_numbers.
From S2P Require Import Prelude Ieee Common DataPool Signal UdpClient UdpServer.
Import UDPClient UDPServer.

(** ** Slices of the sample buffer *)

Section Slices.
Context (buf : list byte) (stride off len : Z).
Context (Hoff : 0 ≤ off) (Hlen : 0 ≤ len) (Hol : off + len ≤ stride).

Lemma slice_length c :
  0 ≤ c → c * stride + off + len ≤ Z.of_nat (length buf) →
  length (slice buf stride off len c) = Z.to_nat len.
Proof. intros. unfold slice. rewrite length_take, length_drop. nia. Qed.

Lemma slices_length n c :
  0 ≤ c → (c + Z.of_nat n) * stride ≤ Z.of_nat (length buf) →
  Z.of_nat (length (slices buf stride off len n c)) = Z.of_nat n * len.
Proof.
  revert c. induction n as [|n IH]; intros c Hc Hb; [done|].
  cbn [slices]. rewrite length_app, slice_length by nia.
  rewrite Nat2Z.inj_add, IH by nia. lia.
Qed.

Lemma slices_lookup n c c' k :
  0 ≤ c → (c + Z.of_nat n) * stride ≤ Z.of_nat (length buf) →
  0 ≤ c' < Z.of_nat n → 0 ≤ k < len →
  slices buf stride off len n c !! Z.to_nat (c' * len + k)
  = buf !! Z.to_nat ((c + c') * stride + off + k).
Proof.
  revert c c'. induction n as [|n IH]; intros c c' Hc Hb Hc' Hk; [lia|].
  cbn [slices]. destruct (decide (c' = 0)) as [->|].
  - rewrite lookup_app_l by (rewrite slice_length; nia).
    unfold slice. rewrite lookup_take_lt, lookup_drop by nia. f_equal. nia.
  - rewrite lookup_app_r by (rewrite slice_length; nia).
    rewrite slice_length by nia.
    replace (Z.to_nat (c' * len + k) - Z.to_nat len)%nat
      with (Z.to_nat ((c' - 1) * len + k)) by nia.
    rewrite IH by nia. f_equal. nia.
Qed.

End Slices.

(** A byte already received lies in no slot of the next chunk. *)
Lemma slot_disjoint stride w len c c' k :
  0 ≤ k < w → 0 < len → w + len ≤ stride →
  ¬ (c' * stride + w ≤ c * stride + k < c' * stride + w + len).
Proof.
  intros. destruct (Z.lt_trichotomy c c') as [?|[->|?]]; [|lia|].
  - assert ((c + 1) * stride ≤ c' * stride) by (apply Z.mul_le_mono_nonneg_r; lia). lia.
  - assert ((c' + 1) * stride ≤ c * stride) by (apply Z.mul_le_mono_nonneg_r; lia). lia.
Qed.

(** ** One burst *)

Section Burst.
Context (env : SendEnv) (mh : Header) (buf : list byte) (nch size cps tf cap : Z).
Context (Hplan : plan_ok nch size cps tf).
Context (Hwf : Header_wf mh) (Hmsize : h_size mh = size).
Context (Hmch : h_number_of_channels mh = nch) (Hmtf : h_total_frags mh = tf).
Context (Hbuf : size ≤ Z.of_nat (length buf)).
Context (Hcap : size ≤ cap < 2 ^ 62).

Let fr (i : Z) : datagram := frag env mh buf nch size cps tf i.
Let stride : Z := size / nch.

(** The part of the buffer already received agrees with the original. *)
Definition prefix_ok (written : Z) (b : list byte) : Prop :=
  ∀ c k, 0 ≤ c < nch → 0 ≤ k < written →
    b !! Z.to_nat (c * stride + k) = buf !! Z.to_nat (c * stride + k).

(** The locals of [Recv] after [i] fragments. *)
Definition asm_at (i : Z) (a : asm) : Prop :=
  is_assembling a = true ∧ last_seq_no a = i - 1 ∧ fragments_received a = i ∧
  bytes_written_per_ch a = frag_sent size cps i / nch ∧
  per_channel_stride a = stride ∧ active_num_channels a = nch ∧
  final_hdr a = mh ∧ Z.of_nat (length (final_data_buffer a)) = cap ∧
  prefix_ok (frag_sent size cps i / nch) (final_data_buffer a).

Lemma size_stride : size = nch * stride.
Proof using Hplan. clear -Hplan.
  subst stride. pose proof (po_nch _ _ _ _ Hplan).
  destruct (po_size _ _ _ _ Hplan) as [q ->]. rewrite Z.div_mul; lia.
Qed.

Lemma frag_body_length i :
  0 ≤ i < tf →
  Z.of_nat (length (slices buf stride (frag_sent size cps i / nch)
    (frag_len size cps i / nch) (Z.to_nat nch) 0)) = frag_len size cps i.
Proof using Hplan Hbuf. clear Hcap Hmsize Hmch Hmtf Hwf.
  intros Hi. pose proof (po_nch _ _ _ _ Hplan).
  pose proof (frag_len_range _ _ _ _ Hplan i Hi).
  pose proof (frag_sent_range _ _ _ _ Hplan i ltac:(lia)).
  pose proof (frag_sent_range _ _ _ _ Hplan (i + 1) ltac:(lia)).
  destruct (frag_len_divide _ _ _ _ Hplan i) as [q Hq].
  pose proof size_stride.
  rewrite slices_length.
  - rewrite Z2Nat.id by lia. rewrite Hq, Z.div_mul; lia.
  - apply Z.div_pos; lia.
  - apply Z.div_pos; lia.
  - rewrite (div_add_frag _ _ _ _ Hplan). subst stride. apply Z.div_le_mono; lia.
  - lia.
  - rewrite Z2Nat.id by lia. lia.
Qed.

(** No fragment exceeds the MTU. *)
Lemma frag_mtu i : 0 ≤ i < tf → Z.of_nat (length (fr i)) ≤ MTU_SIZE.
Proof using Hplan Hbuf. clear Hcap Hmsize Hmch Hmtf Hwf.
  intros Hi. pose proof (frag_len_range _ _ _ _ Hplan i Hi).
  pose proof (po_cps_range _ _ _ _ Hplan).
  unfold fr, frag. rewrite !length_app, encode_UDPHeader_length.
  pose proof (frag_body_length i Hi) as Hb. fold stride.
  unfold PAYLOAD_SIZE, MTU_SIZE, UDP_HEADER_SIZE, HEADER_SIZE in *.
  destruct (i =? 0); rewrite ?encode_Header_length; cbn [length]; lia.
Qed.

Lemma frag_decode i :
  0 ≤ i < tf →
  decode_UDPHeader (fr i) =
  mkUDPHeader (u64 (now_ns env i)) (frag_len size cps i) i (frag_flag tf i).
Proof.
  intros Hi. unfold fr, frag. apply decode_encode_UDPHeader.
  pose proof (frag_len_range _ _ _ _ Hplan i Hi).
  pose proof (po_cps_range _ _ _ _ Hplan). pose proof (po_tf_range _ _ _ _ Hplan).
  unfold PAYLOAD_SIZE, MTU_SIZE, UDP_HEADER_SIZE, HEADER_SIZE, BATCH_SIZE in *.
  unfold UDPHeader_wf; cbn [u_timestamp u_size u_seq_number u_flag].
  split_and!; try lia; try (apply wrap_range; lia).
  - destruct (i =? 0); lia.
  - unfold frag_flag. repeat case_match; vm_compute; done.
  - unfold frag_flag. repeat case_match; vm_compute; done.
Qed.

Lemma frag_flags i :
  0 ≤ i < tf →
  negb (Z.land (frag_flag tf i) 1 =? 0) = (i =? 0) ∧
  negb (Z.land (frag_flag tf i) 4 =? 0) = (i =? tf - 1).
Proof using Hplan. clear -Hplan.
  intros Hi. pose proof (po_tf_range _ _ _ _ Hplan). unfold BATCH_SIZE, frag_flag in *.
  destruct (Z.eqb_spec tf 1); [lia|].
  destruct (Z.eqb_spec i 0) as [->|]; [|destruct (Z.eqb_spec i (tf - 1))]; try done.
  by destruct (Z.eqb_spec 0 (tf - 1)); [lia|].
Qed.

Lemma frag_payload i :
  drop (Z.to_nat UDP_HEADER_SIZE) (fr i) =
  (if i =? 0 then encode_Header (hdr_pad env) mh else [])
  ++ slices buf stride (frag_sent size cps i / nch) (frag_len size cps i / nch)
       (Z.to_nat nch) 0.
Proof. reflexivity. Qed.

Lemma frag_chunk_bounds i :
  0 ≤ i < tf →
  0 ≤ frag_sent size cps i / nch ∧ 0 < frag_len size cps i / nch ∧
  frag_sent size cps i / nch + frag_len size cps i / nch ≤ stride ∧
  frag_len size cps i mod nch = 0.
Proof.
  intros Hi. pose proof (po_nch _ _ _ _ Hplan).
  pose proof (frag_len_range _ _ _ _ Hplan i Hi).
  pose proof (frag_sent_range _ _ _ _ Hplan i ltac:(lia)).
  pose proof (frag_sent_range _ _ _ _ Hplan (i + 1) ltac:(lia)).
  destruct (frag_len_divide _ _ _ _ Hplan i) as [q Hq].
  split_and!.
  - apply Z.div_pos; lia.
  - rewrite Hq, Z.div_mul by lia. nia.
  - rewrite (div_add_frag _ _ _ _ Hplan). subst stride. apply Z.div_le_mono; lia.
  - rewrite Hq. apply Z.mod_mul. lia.
Qed.

(** The chunk of fragment [i] extends the received prefix. *)
Lemma scatter_frag i b :
  0 ≤ i < tf → Z.of_nat (length b) = cap →
  prefix_ok (frag_sent size cps i / nch) b →
  ∃ b', scatter (slices buf stride (frag_sent size cps i / nch)
                   (frag_len size cps i / nch) (Z.to_nat nch) 0)
          stride (frag_sent size cps i / nch) (frag_len size cps i / nch)
          (Z.to_nat nch) 0 b = Some b' ∧
    Z.of_nat (length b') = cap ∧ prefix_ok (frag_sent size cps (i + 1) / nch) b'.
Proof.
  intros Hi Hb Hpre. pose proof (po_nch _ _ _ _ Hplan).
  pose proof (frag_chunk_bounds i Hi) as (H1 & H2 & H3 & H4).
  pose proof (frag_body_length i Hi) as Hbl. pose proof size_stride.
  pose proof (Z.div_mod (frag_len size cps i) nch ltac:(lia)).
  edestruct (scatter_spec (slices buf stride (frag_sent size cps i / nch)
    (frag_len size cps i / nch) (Z.to_nat nch) 0) stride (frag_sent size cps i / nch)
    (frag_len size cps i / nch) (Z.to_nat nch) 0 b) as (b' & -> & Hl & Hin & Hout);
    [lia|lia|lia|lia|rewrite Z2Nat.id by lia; lia|rewrite Z2Nat.id by lia; lia|].
  exists b'. split_and!; [done|lia|]. intros c k Hc Hk.
  rewrite <- (div_add_frag _ _ _ _ Hplan) in Hk.
  destruct (decide (k < frag_sent size cps i / nch)).
  - rewrite Hout; [apply Hpre; lia|]. intros c' Hc'.
    assert (0 ≤ c * stride) by (apply Z.mul_nonneg_nonneg; lia).
    rewrite Z2Nat.id by lia. apply slot_disjoint; lia.
  - replace (c * stride + k)
      with (c * stride + frag_sent size cps i / nch + (k - frag_sent size cps i / nch))
      by lia.
    rewrite Hin by lia. rewrite slices_lookup; try lia; try (rewrite Z2Nat.id; lia).
    done.
Qed.

Lemma accept_frag i a :
  0 ≤ i < tf → is_assembling a = true → last_seq_no a = i →
  fragments_received a = i → bytes_written_per_ch a = frag_sent size cps i / nch →
  per_channel_stride a = stride → active_num_channels a = nch → final_hdr a = mh →
  Z.of_nat (length (final_data_buffer a)) = cap →
  prefix_ok (frag_sent size cps i / nch) (final_data_buffer a) →
  ∃ a', accept_payload (decode_UDPHeader (fr i)) (i =? 0) (i =? tf - 1)
          (drop (Z.to_nat UDP_HEADER_SIZE) (fr i)) a
        = (if i =? tf - 1 then PktComplete a' else PktContinue a') ∧
    asm_at (i + 1) a' ∧ batch a' = batch a.
Proof.
  intros Hi Has Hseq Hfr Hwr Hst Hn Hh Hl Hpre.
  pose proof (po_nch _ _ _ _ Hplan). pose proof (po_tf_range _ _ _ _ Hplan) as Htf.
  pose proof (frag_chunk_bounds i Hi) as (H1 & H2 & H3 & H4).
  pose proof (frag_body_length i Hi) as Hbl. pose proof size_stride.
  pose proof (frag_len_range _ _ _ _ Hplan i Hi).
  destruct (scatter_frag i (final_data_buffer a) Hi Hl Hpre) as (b' & Hsc & Hb' & Hpre').
  unfold accept_payload. rewrite frag_payload, frag_decode by done. cbn [u_size].
  rewrite Hst, Hwr, Hn.
  set (body := slices _ _ _ _ _ _) in *.
  assert ((if i =? 0
           then drop (Z.to_nat HEADER_SIZE)
                  ((if i =? 0 then encode_Header (hdr_pad env) mh else []) ++ body)
           else (if i =? 0 then encode_Header (hdr_pad env) mh else []) ++ body) = body)
    as -> by (destruct (i =? 0); reflexivity).
  assert ((i =? 0) && (Z.of_nat (length ((if i =? 0 then encode_Header (hdr_pad env) mh
            else []) ++ body)) <? HEADER_SIZE) = false) as ->.
  { destruct (i =? 0); cbn [andb]; [|done]. rewrite length_app, encode_Header_length.
    apply Z.ltb_ge. unfold HEADER_SIZE. lia. }
  rewrite Hbl, Z.eqb_refl. cbn [negb].
  rewrite (proj2 (Z.eqb_neq nch 0)), H4, Z.eqb_refl by lia. cbn [orb negb].
  rewrite (proj2 (Z.eqb_neq (frag_len size cps i / nch) 0)) by lia. cbn [orb].
  rewrite u64_small by nia.
  rewrite (proj2 (Z.ltb_ge _ _)) by lia. rewrite Hsc, Hfr.
  unfold BATCH_SIZE in *. rewrite u32_small by lia.
  assert (Hdone : (i =? tf - 1) = true →
    frag_sent size cps i / nch + frag_len size cps i / nch = stride).
  { intros ->%Z.eqb_eq. rewrite (div_add_frag _ _ _ _ Hplan).
    replace (tf - 1 + 1) with tf by lia. by rewrite (frag_sent_tf _ _ _ _ Hplan). }
  destruct (i =? tf - 1); cbn [bytes_written_per_ch per_channel_stride].
  - rewrite Hdone, Z.eqb_refl by done. cbn [negb]. eexists. split; [done|].
    split; [|done]. unfold asm_at; cbn.
    rewrite <- (div_add_frag _ _ _ _ Hplan) in *. rewrite Hdone in * by done.
    split_and!; done || lia.
  - eexists. split; [done|]. split; [|done]. unfold asm_at; cbn.
    rewrite <- (div_add_frag _ _ _ _ Hplan) in *. split_and!; done || lia.
Qed.

(** The first fragment starts an assembly, every later one continues it. *)
Lemma process_frag i a :
  0 ≤ i < tf →
  (if i =? 0 then is_assembling a = false ∧
                  Z.of_nat (length (final_data_buffer a)) = cap
   else asm_at i a) →
  ∃ a', process_packet (fr i) a
        = (if i =? tf - 1 then PktComplete a' else PktContinue a') ∧
    asm_at (i + 1) a' ∧ batch a' = batch a.
Proof.
  intros Hi Ha. pose proof (po_nch _ _ _ _ Hplan). pose proof size_stride as Hss.
  pose proof (po_tf_range _ _ _ _ Hplan) as Htf. unfold BATCH_SIZE in Htf.
  pose proof (po_low _ _ _ _ Hplan). pose proof (po_cps_range _ _ _ _ Hplan).
  unfold process_packet.
  assert ((Z.of_nat (length (fr i)) <? UDP_HEADER_SIZE) = false) as ->.
  { apply Z.ltb_ge. unfold fr, frag. rewrite length_app, encode_UDPHeader_length.
    unfold UDP_HEADER_SIZE. lia. }
  pose proof (frag_decode i Hi) as Hdec. rewrite Hdec.
  cbn [u_flag u_seq_number]. cbn zeta.
  destruct (frag_flags i Hi) as [-> ->].
  destruct (Z.eqb_spec i 0) as [->|Hi0]; cbn [negb].
  - destruct Ha as [-> Hl]. cbn [negb].
    assert ((Z.of_nat (length (fr 0)) <? UDP_HEADER_SIZE + HEADER_SIZE) = false) as ->.
    { apply Z.ltb_ge. unfold fr, frag.
      rewrite !length_app, encode_UDPHeader_length, Z.eqb_refl, encode_Header_length.
      unfold UDP_HEADER_SIZE, HEADER_SIZE. lia. }
    assert (decode_Header (drop (Z.to_nat UDP_HEADER_SIZE) (fr 0)) = mh) as ->
      by (rewrite (frag_payload 0); by apply decode_encode_Header).
    rewrite Hmch, Hmsize. rewrite !(proj2 (Z.eqb_neq nch 0)) by lia. fold stride.
    unfold HEADER_SIZE in *.
    rewrite (proj2 (Z.eqb_neq stride 0)) by nia. cbn [orb].
    rewrite (proj2 (Z.mod_divide size nch ltac:(lia)) (po_size _ _ _ _ Hplan)).
    rewrite Z.eqb_refl. cbn [negb].
    destruct (accept_frag 0 (mkAsm true 0 0 0 stride nch mh (final_data_buffer a) (batch a)))
      as (a' & Heq & ?); try done.
    { intros c k ? Hk. unfold frag_sent in Hk. simpl in Hk. rewrite Z.div_0_l in Hk; lia. }
    exists a'. rewrite Hdec in Heq. done.
  - destruct Ha as (Has & Hseq & Hfr & Hwr & Hst & Hn & Hh & Hl & Hpre).
    rewrite Has. cbn [negb].
    rewrite Hseq, u32_small by lia. replace (i - 1 + 1) with i by lia.
    rewrite Z.eqb_refl. cbn [negb].
    destruct (accept_frag i (mkAsm true i (fragments_received a) (bytes_written_per_ch a)
      (per_channel_stride a) (active_num_channels a) (final_hdr a)
      (final_data_buffer a) (batch a))) as (a' & Heq & ?); try done.
    exists a'. rewrite (proj2 (Z.eqb_neq i 0)) in Heq by done.
    rewrite Hdec in Heq. done.
Qed.

(** The state of the loop before fragment [i], between two datagrams. *)
Definition before (i : Z) (a : asm) : Prop :=
  if i =? 0 then is_assembling a = false ∧ Z.of_nat (length (final_data_buffer a)) = cap
  else asm_at i a.

Definition frags_from (i k : Z) : list datagram := fr <$> seqZ i k.

Lemma process_batch_frags k i a :
  0 ≤ i → i + Z.of_nat k ≤ tf → before i a →
  ∃ a', process_batch (frags_from i (Z.of_nat k)) a
        = (if (0 <? Z.of_nat k) && (i + Z.of_nat k =? tf) then PktComplete a'
           else PktContinue a') ∧
    before (i + Z.of_nat k) a' ∧ batch a' = batch a.
Proof.
  revert i a. induction k as [|k IH]; intros i a Hi Hk Ha.
  { exists a. rewrite Z.add_0_r. done. }
  unfold frags_from. rewrite seqZ_cons by lia. cbn [fmap list_fmap process_batch].
  destruct (process_frag i a) as (a1 & -> & Ha1 & Hb1); [lia|exact Ha|].
  rewrite (proj2 (Z.ltb_lt 0 (Z.of_nat (S k)))) by lia. cbn [andb].
  assert (Hbef : before (i + 1) a1)
    by (unfold before; by rewrite (proj2 (Z.eqb_neq (i + 1) 0)) by lia).
  destruct (Z.eqb_spec i (tf - 1)).
  - rewrite (proj2 (Z.eqb_eq (i + Z.of_nat (S k)) tf)) by lia.
    exists a1. by replace (i + Z.of_nat (S k)) with (i + 1) by lia.
  - destruct (IH (i + 1) a1) as (a2 & Heq & Ha2 & Hb2); [lia|lia|done|].
    replace (Z.pred (Z.of_nat (S k))) with (Z.of_nat k) by lia.
    replace (Z.succ i) with (i + 1) by lia. unfold frags_from in Heq. rewrite Heq.
    exists a2. replace (i + Z.of_nat (S k)) with (i + 1 + Z.of_nat k) by lia.
    split_and!; [|done|congruence].
    destruct (Z.ltb_spec 0 (Z.of_nat k)); cbn [andb]; [done|].
    by rewrite (proj2 (Z.eqb_neq (i + 1 + Z.of_nat k) tf)) by lia.
Qed.

Lemma frags_split i k :
  0 ≤ k → i + k ≤ tf →
  frags_from i (tf - i) = frags_from i k ++ frags_from (i + k) (tf - (i + k)).
Proof.
  intros. unfold frags_from. rewrite <- fmap_app. f_equal.
  rewrite <- seqZ_app by lia. f_equal. lia.
Qed.

Lemma frags_from_length i k : 0 ≤ k → length (frags_from i k) = Z.to_nat k.
Proof. intros. unfold frags_from. by rewrite length_fmap, length_seqZ. Qed.

Lemma frags_truncated i k :
  0 ≤ i → i + k ≤ tf → take (Z.to_nat MTU_SIZE) <$> frags_from i k = frags_from i k.
Proof.
  intros Hi Hk. unfold frags_from. rewrite <- list_fmap_compose.
  apply list_fmap_ext. intros j x [-> Hj]%lookup_seqZ. apply take_ge.
  pose proof (frag_mtu (i + Z.of_nat j) ltac:(lia)). lia.
Qed.

(** The batch size in force before fragment [i]: never more than what the
    burst still needs, so the datagrams of the next burst stay queued. *)
Definition batch_at (i : Z) : Z := if tf - i <? BATCH_SIZE then tf - i else BATCH_SIZE.

Lemma batch_at_range i : 0 ≤ i < tf → 1 ≤ batch_at i ≤ tf - i.
Proof. intros. unfold batch_at, BATCH_SIZE. destruct (Z.ltb_spec (tf - i) 4); lia. Qed.

Lemma adjust_batch_at i a :
  0 < i < tf → asm_at i a → before i (adjust_batch a) ∧ batch (adjust_batch a) = batch_at i.
Proof.
  intros Hi (Has & Hseq & Hfr & Hwr & Hst & Hn & Hh & Hl & Hpre).
  pose proof (po_tf_range _ _ _ _ Hplan). unfold before, adjust_batch, batch_at, BATCH_SIZE in *.
  rewrite (proj2 (Z.eqb_neq i 0)) by lia.
  rewrite Has, Hh, Hfr, Hmtf, (proj2 (Z.ltb_lt 0 tf)) by lia. cbn [andb].
  unfold s32. rewrite swrap_small by lia.
  rewrite (proj2 (Z.ltb_lt 0 (tf - i))) by lia. cbn [andb batch].
  split; [by repeat split|]. destruct (tf - i <? 4); lia.
Qed.

Lemma recv_loop_frags ns i a rest :
  0 ≤ i < tf → (Z.to_nat (tf - i) ≤ length ns)%nat → before i a → batch a = batch_at i →
  ∃ a' j, recv_loop (Deliver <$> ns) (frags_from i (tf - i) ++ rest) a
      = LoopEnd (RecvOk mh (final_data_buffer a')) (reset_batch a') rest
          (Deliver <$> drop j ns) true false ∧
    (j ≤ Z.to_nat (tf - i))%nat ∧ asm_at tf a'.
Proof.
  revert i a. induction ns as [|n ns IH]; intros i a Hi Hns Ha Hb; simpl in Hns; [lia|].
  pose proof (batch_at_range i Hi) as Hbr.
  assert (Hk : ∃ k, Nat.min (Nat.max 1 n) (Z.to_nat (batch a)) = k ∧
                    (1 ≤ k)%nat ∧ i + Z.of_nat k ≤ tf) by (eexists; split; [done|lia]).
  destruct Hk as (k & Hk & Hk1 & Hk2).
  rewrite (frags_split i (Z.of_nat k)), <- (assoc_L (++)) by lia.
  cbn [fmap list_fmap recv_loop]. unfold recvmmsg. rewrite Hk.
  destruct (frags_from i (Z.of_nat k) ++ _) as [|p0 l0] eqn:El.
  { apply (f_equal length) in El. rewrite length_app, frags_from_length in El by lia.
    simpl in El. lia. }
  rewrite <- El. clear p0 l0 El.
  rewrite take_app_length', drop_app_length' by (rewrite frags_from_length; lia).
  rewrite frags_truncated by lia.
  destruct (process_batch_frags k i a) as (a1 & -> & Ha1 & Hb1); [lia|lia|done|].
  rewrite (proj2 (Z.ltb_lt 0 (Z.of_nat k))) by lia. cbn [andb].
  assert (Hat : asm_at (i + Z.of_nat k) a1)
    by (unfold before in Ha1; by rewrite (proj2 (Z.eqb_neq (i + Z.of_nat k) 0)) in Ha1 by lia).
  destruct (Z.eqb_spec (i + Z.of_nat k) tf) as [Htf|Htf].
  - exists a1, 1%nat. rewrite Htf, Z.sub_diag in *. split_and!; [|lia|done].
    destruct Hat as (_ & _ & _ & _ & _ & _ & -> & _). done.
  - destruct (adjust_batch_at (i + Z.of_nat k) a1) as [Hbe Hba]; [lia|done|].
    destruct (IH (i + Z.of_nat k) (adjust_batch a1)) as (a2 & j & -> & Hj & Ha2);
      [lia|lia|done|done|].
    exists a2, (S j). split_and!; [done|lia|done].
Qed.

(** All fragments received: the declared bytes are the sender's. *)
Lemma asm_complete a :
  asm_at tf a →
  take (Z.to_nat size) (final_data_buffer a) = take (Z.to_nat size) buf.
Proof.
  intros (_ & _ & _ & _ & _ & _ & _ & Hl & Hpre).
  rewrite (frag_sent_tf _ _ _ _ Hplan) in Hpre. fold stride in Hpre.
  pose proof (po_nch _ _ _ _ Hplan). pose proof size_stride as Hss.
  apply list_eq. intros j. destruct (decide (Z.of_nat j < size)) as [Hj|].
  - rewrite !lookup_take_lt by lia.
    pose proof (Z.div_mod (Z.of_nat j) stride ltac:(nia)).
    pose proof (Z.mod_pos_bound (Z.of_nat j) stride ltac:(nia)).
    specialize (Hpre (Z.of_nat j / stride) (Z.of_nat j mod stride)).
    replace (Z.to_nat (Z.of_nat j / stride * stride + Z.of_nat j mod stride))
      with j in Hpre by lia.
    apply Hpre; [|lia]. split; [apply Z.div_pos; nia|].
    apply Z.div_lt_upper_bound; nia.
  - rewrite !lookup_take_ge by lia. done.
Qed.

Lemma frags_sizes_from n i :
  0 ≤ i → i + Z.of_nat n = tf →
  foldr (fun d acc => u_size (decode_UDPHeader d) + acc) 0 (frags_from i (Z.of_nat n))
  = size - frag_sent size cps i.
Proof using Hplan.
  revert i. induction n as [|n IH]; intros i Hi Hn.
  - replace i with tf by lia. rewrite (frag_sent_tf _ _ _ _ Hplan). 
    change (frags_from tf (Z.of_nat 0)) with (@nil datagram). cbn [foldr]. lia.
  - unfold frags_from. rewrite seqZ_cons by lia. cbn [fmap list_fmap foldr].
    replace (Z.pred (Z.of_nat (S n))) with (Z.of_nat n) by lia.
    replace (Z.succ i) with (i + 1) by lia.
    fold (frags_from (i + 1) (Z.of_nat n)).
    rewrite IH, frag_decode by lia. cbn [u_size]. pose proof (sent_step size cps i). lia.
Qed.

Lemma frags_sizes :
  foldr (fun d acc => u_size (decode_UDPHeader d) + acc) 0 (frags_from 0 tf) = size.
Proof using Hplan.
  pose proof (po_tf_range _ _ _ _ Hplan). unfold BATCH_SIZE in *.
  pose proof (frags_sizes_from (Z.to_nat tf) 0 ltac:(lia) ltac:(lia)) as H0.
  rewrite Z2Nat.id in H0 by lia. rewrite H0. unfold frag_sent. rewrite Z.eqb_refl. lia.
Qed.

Lemma frag_length (i : nat) :
  Z.of_nat i < tf →
  Z.of_nat (length (fr (Z.of_nat i)))
  = UDP_HEADER_SIZE + (if Nat.eqb i 0 then HEADER_SIZE else 0)
    + frag_len size cps (Z.of_nat i).
Proof using Hplan Hbuf. clear Hcap Hmsize Hmch Hmtf Hwf.
  intros Hi. unfold fr, frag. rewrite !length_app, encode_UDPHeader_length.
  pose proof (frag_body_length (Z.of_nat i) ltac:(lia)) as Hb. fold stride.
  rewrite !Nat2Z.inj_add, Hb. unfold UDP_HEADER_SIZE, HEADER_SIZE.
  destruct i as [|i]; [rewrite Z.eqb_refl|rewrite (proj2 (Z.eqb_neq _ 0)) by lia];
    rewrite ?encode_Header_length; cbn [Nat.eqb length]; lia.
Qed.

End Burst.

(** ** Whole calls *)

(** A burst the emulator can send: its members agree with its header, it has
    samples, and its size is one [UDPClient::Send] cuts without loss. *)
Definition burst_ok (s : Signal.t) : Prop :=
  Signal.wf s ∧ Signal.numSamp s ≠ 0 ∧ sendable (Signal.numCh s) (Signal.size s).

(** The header on the wire. *)
Definition wire_header (s : Signal.t) : Header :=
  set_total_frags (Signal.header s) (plan (Signal.size s)).2.

Definition burst_frags (env : SendEnv) (s : Signal.t) : list datagram :=
  frags_from env (wire_header s) (default [] (Signal.iq_data s)) (Signal.numCh s)
    (Signal.size s) (plan (Signal.size s)).1 (plan (Signal.size s)).2
    0 (plan (Signal.size s)).2.

Lemma wire_header_wf s :
  burst_ok s →
  Header_wf (wire_header s) ∧ h_size (wire_header s) = Signal.size s ∧
  h_number_of_channels (wire_header s) = Signal.numCh s ∧
  h_total_frags (wire_header s) = (plan (Signal.size s)).2.
Proof.
  intros ((Hw & _ & _ & Hs & Hn & _) & _ & Hsend).
  pose proof (po_tf_range _ _ _ _ (plan_sendable _ _ Hsend)). unfold BATCH_SIZE in *.
  unfold wire_header, set_total_frags. cbn [h_size h_number_of_channels h_total_frags].
  rewrite u16_small by lia. split_and!; [|done..].
  unfold Header_wf in *. cbn. destruct_and! Hw. split_and!; done || lia.
Qed.

Lemma Send_frags env s otw p :
  burst_ok s → m_port env ≠ 0 → otw ≠ 0 →
  ∃ bs p', Send env (Some s) otw p = Ok (bs, p') ∧ concat bs = burst_frags env s ∧
    DataArrayPool.available p' = DataArrayPool.available p + 1.
Proof.
  intros Hok Hport Hotw. pose proof (wire_header_wf s Hok) as (_ & _ & Hch & _).
  destruct Hok as ((Hw & _ & H32 & Hs & Hn & Hns & b & Hiq & Hb) & Hsamp & Hsend).
  pose proof (plan_sendable _ _ Hsend) as Hplan.
  pose proof (po_tf_range _ _ _ _ Hplan) as Htf. pose proof (po_nch _ _ _ _ Hplan).
  unfold Send, BATCH_SIZE, burst_frags, wire_header in *.
  rewrite <- Hns, <- Hn, !(proj2 (Z.eqb_neq _ 0)) by lia. cbn [orb].
  destruct (plan (Signal.size s)) as [cps tf]. cbn [fst snd] in *.
  rewrite (proj2 (Z.eqb_neq tf 0)) by lia. rewrite Hiq. change (default [] (Some b)) with b.
  edestruct (send_loop_frags env s b (set_total_frags (Signal.header s) tf)
    (Signal.numCh s) (Signal.size s) cps tf Hplan eq_refl eq_refl Hch Hb)
    with (n := Z.to_nat tf) (i := 0) (st := mkLoop 0 0 [] [])
    as (bs & -> & Hc); try done; try lia.
  unfold release_sig. rewrite Hiq. simpl.
  eexists _, _. split; [done|]. split.
  - rewrite Hc. by rewrite Z.sub_0_r.
  - unfold DataArrayPool.available. simpl. rewrite length_app. simpl. lia.
Qed.

(** One [Recv] on a socket that starts with the fragments of a burst. *)
Lemma Recv_burst env sig srv ns rest :
  burst_ok sig → DataArrayPool.inv (m_pool srv) →
  Signal.size sig ≤ DataArrayPool.m_itemSize (m_pool srv) < 2 ^ 62 →
  1 ≤ DataArrayPool.available (m_pool srv) →
  BATCH_SIZE ≤ DataArrayPool.available (m_udpPool srv) →
  socket srv = burst_frags env sig ++ rest →
  (length (burst_frags env sig) ≤ length ns)%nat →
  ∃ b srv' j, Recv (Deliver <$> ns) srv
      = (RecvOk (wire_header sig) b, srv', Deliver <$> drop j ns) ∧
    (j ≤ length (burst_frags env sig))%nat ∧
    take (Z.to_nat (Signal.size sig)) b
    = take (Z.to_nat (Signal.size sig)) (default [] (Signal.iq_data sig)) ∧
    socket srv' = rest ∧ DataArrayPool.inv (m_pool srv') ∧
    DataArrayPool.m_itemSize (m_pool srv') = DataArrayPool.m_itemSize (m_pool srv) ∧
    DataArrayPool.available (m_pool srv') = DataArrayPool.available (m_pool srv) - 1 ∧
    DataArrayPool.available (m_udpPool srv') = DataArrayPool.available (m_udpPool srv).
Proof.
  intros Hok Hinv Hcap Hav Hudp Hsock Hns.
  pose proof (wire_header_wf sig Hok) as (Hwf & Hhs & Hhc & Hht).
  destruct Hok as ((_ & _ & _ & _ & _ & _ & buf & Hiq & Hb) & _ & Hsend).
  pose proof (plan_sendable _ _ Hsend) as Hplan.
  pose proof (po_tf_range _ _ _ _ Hplan) as Htf. unfold BATCH_SIZE in Htf.
  unfold Recv. pose proof (acquire_packets_spec (Z.to_nat BATCH_SIZE) (m_udpPool srv)) as Hp.
  destruct (acquire_packets _ _) as [[bufs|e] up]; [|unfold BATCH_SIZE in *; lia].
  destruct Hp as (Hlen & Hup & _).
  destruct (DataArrayPool.acquire (m_pool srv)) as [[final pool']|e] eqn:Ea;
    [|unfold DataArrayPool.acquire, DataArrayPool.available in *;
      destruct (DataArrayPool.pool _); [simpl in *; lia|done]].
  destruct (DataArrayPool.acquire_inv _ _ _ Hinv Ea) as [Hinv' Hfl].
  assert (DataArrayPool.m_itemSize pool' = DataArrayPool.m_itemSize (m_pool srv) ∧
    DataArrayPool.available pool' = DataArrayPool.available (m_pool srv) - 1) as [Hsz Hav'].
  { clear -Ea. unfold DataArrayPool.acquire, DataArrayPool.available in *.
    destruct (DataArrayPool.pool _); simplify_eq/=. split; [done|lia]. }
  rewrite Hsock. unfold burst_frags in *.
  destruct (recv_loop_frags env (wire_header sig) (default [] (Signal.iq_data sig)) _ _ _ _
    (DataArrayPool.m_itemSize (m_pool srv)) Hplan Hwf Hhs Hhc Hht) with
    (ns := ns) (i := 0) (a := initial_asm final) (rest := rest)
    as (a' & j & Hl & Hj & Ha'); try done.
  { by rewrite Hiq. }
  { lia. }
  { rewrite frags_from_length in Hns by lia. lia. }
  { split; [done|]. simpl. lia. }
  { unfold batch_at, BATCH_SIZE. rewrite (proj2 (Z.ltb_ge _ _)) by lia. done. }
  rewrite Z.sub_0_r in Hl, Hj. rewrite Hl.
  eexists _, _, j. split_and!; [reflexivity|rewrite frags_from_length; lia| |done..| |].
  - apply asm_complete in Ha'; done || (rewrite ?Hiq; done || lia).
  - exact Hav'.
  - cbn [m_udpPool]. rewrite release_packets_available, Hup, Hlen. lia.
Qed.

(** ** Streams of bursts *)

(** The bursts of a transmitter, one [Send] after the other. *)
Fixpoint Send_many (bursts : list (SendEnv * Signal.t)) (otw : Z) (p : iqPool_t)
    : outcome send_error (list datagram * iqPool_t) :=
  match bursts with
  | [] => Ok ([], p)
  | (env, s) :: bursts =>
      (do! r <- Send env (Some s) otw p;
       do! q <- Send_many bursts otw r.2;
       Ok (concat r.1 ++ q.1, q.2))%chem
  end.

(** The calls of a receiver, one [Recv] after the other. *)
Fixpoint Recv_many (k : nat) (sched : list rx_event) (srv : UDPServer.t)
    : list recv_result * UDPServer.t :=
  match k with
  | O => ([], srv)
  | S k =>
      let '(r, srv', sched') := Recv sched srv in
      let '(rs, srv'') := Recv_many k sched' srv' in (r :: rs, srv'')
  end.

Definition same_burst (es : SendEnv * Signal.t) (r : recv_result) : Prop :=
  ∃ b, r = RecvOk (wire_header es.2) b ∧
    take (Z.to_nat (Signal.size es.2)) b
    = take (Z.to_nat (Signal.size es.2)) (default [] (Signal.iq_data es.2)).

Definition link_ok (cap : Z) (es : SendEnv * Signal.t) : Prop :=
  burst_ok es.2 ∧ m_port es.1 ≠ 0 ∧ Signal.size es.2 ≤ cap.

Lemma Send_many_frags bursts otw p :
  otw ≠ 0 → Forall (fun es => burst_ok es.2 ∧ m_port es.1 ≠ 0) bursts →
  ∃ p', Send_many bursts otw p
        = Ok (concat ((fun es => burst_frags es.1 es.2) <$> bursts), p').
Proof.
  intros Ho Hf. revert p. induction Hf as [|[env s] bursts [Hok Hp] _ IH]; intros p.
  { by exists p. }
  cbn [Send_many]. destruct (Send_frags env s otw p Hok Hp Ho) as (bs & p1 & -> & Hc & _).
  cbn [obind fst snd]. destruct (IH p1) as [p' ->]. cbn [obind fst snd fmap list_fmap concat].
  rewrite Hc. by eexists.
Qed.

Lemma Recv_many_bursts bursts ns srv rest :
  DataArrayPool.inv (m_pool srv) → DataArrayPool.m_itemSize (m_pool srv) < 2 ^ 62 →
  Forall (link_ok (DataArrayPool.m_itemSize (m_pool srv))) bursts →
  Z.of_nat (length bursts) ≤ DataArrayPool.available (m_pool srv) →
  BATCH_SIZE ≤ DataArrayPool.available (m_udpPool srv) →
  socket srv = concat ((fun es => burst_frags es.1 es.2) <$> bursts) ++ rest →
  (length (concat ((fun es => burst_frags es.1 es.2) <$> bursts)) ≤ length ns)%nat →
  ∃ rs srv', Recv_many (length bursts) (Deliver <$> ns) srv = (rs, srv') ∧
    Forall2 same_burst bursts rs ∧ socket srv' = rest.
Proof.
  revert ns srv. induction bursts as [|[env s] bursts IH];
    intros ns srv Hinv Hcap Hf Hav Hudp Hsock Hns.
  { exists [], srv. split_and!; [done|constructor|done]. }
  apply Forall_cons in Hf as [(Hok & Hp & Hsz) Hf].
  cbn [fmap list_fmap concat length] in *. rewrite <- (assoc_L (++)) in Hsock.
  cbn [fst snd] in *. rewrite length_app in Hns.
  destruct (Recv_burst env s srv ns
    (concat ((fun es => burst_frags es.1 es.2) <$> bursts) ++ rest))
    as (b & srv1 & j & Hr & Hj & Hb & Hs1 & Hi1 & Hz1 & Ha1 & Hu1); try done; try lia.
  destruct (IH (drop j ns) srv1) as (rs & srv' & Hm & Hf2 & Hs');
    rewrite ?Hz1, ?Ha1, ?Hu1, ?length_drop; try done; try lia.
  exists (RecvOk (wire_header s) b :: rs), srv'. cbn [Recv_many]. rewrite Hr, Hm.
  split_and!; [done| |done]. constructor; [|done]. by exists b.
Qed.

(** C1 The UDP link is lossless over back-to-back bursts of a sendable size.
    Take any sequence of bursts whose signals agree with their headers, hold
    their samples and have at least one, on one, two or four channels of whole
    4-byte samples, of at least 148 bytes (37 samples; shorter bursts never
    reach the wire, [send_small_burst]) and no more than [IQ_SIZE] and the
    receiver's buffers; a transmitter with a port and a sample width; and a
    receiver with an IQ buffer free for each burst and four packet buffers.
    Then every [Send] succeeds, and however the kernel splits the queued
    datagrams into [recvmmsg] results (without timeouts), as many [Recv] calls
    return exactly those bursts in order, each with the sender's header (and
    its fragment count) and the sender's samples, and leave whatever is queued
    behind them untouched: the adaptive batch size never swallows datagrams of
    the next burst. *)
Theorem send_recv_stream (bursts : list (SendEnv * Signal.t)) (otw : Z) (p : iqPool_t)
    (srv : UDPServer.t) (rest : list datagram)
    (Hotw : otw ≠ 0)
    (Hinv : DataArrayPool.inv (m_pool srv))
    (Hcap : DataArrayPool.m_itemSize (m_pool srv) < 2 ^ 62)
    (Hlink : Forall (link_ok (DataArrayPool.m_itemSize (m_pool srv))) bursts)
    (Hiq : Z.of_nat (length bursts) ≤ DataArrayPool.available (m_pool srv))
    (Hudp : BATCH_SIZE ≤ DataArrayPool.available (m_udpPool srv)) :
  ∃ wire p', Send_many bursts otw p = Ok (wire, p') ∧
    (socket srv = wire ++ rest →
     ∀ ns : list nat, (length wire ≤ length ns)%nat →
       ∃ rs srv', Recv_many (length bursts) (Deliver <$> ns) srv = (rs, srv') ∧
         Forall2 same_burst bursts rs ∧ socket srv' = rest).
Proof.
  destruct (Send_many_frags bursts otw p Hotw) as [p' Hs].
  { eapply Forall_impl; [exact Hlink|]. by intros [env s] (? & ? & ?). }
  eexists _, p'. split; [exact Hs|]. intros Hsock ns Hns.
  by apply (Recv_many_bursts bursts ns srv rest).
Qed.

(** A 148-byte single-channel burst (37 samples) and a matching server. *)
Definition demo_env : SendEnv := mkSendEnv 5000 (fun i => i) x00 x00.

Definition demo_signal : Signal.t :=
  Signal.mk "node" 148 (F32.of_Z 1000000) (F64.of_Z 0) 1 37 (F32.of_Z 1000) 0 0 0 0
    (mkHeader 148 0 0 0 1000000 37 0 1)
    (Some ((fun i => byte_of_Z i) <$> seqZ 0 148)).

Definition demo_server (sock : list datagram) : UDPServer.t :=
  UDPServer.mk
    (DataArrayPool.mk 2 148 false [replicate 148 x00; replicate 148 x00] "IQ")
    (DataArrayPool.mk 4 1472 true (replicate 4 (replicate 1472 x00)) "SERVER")
    BATCH_SIZE sock.

Definition demo_pool : iqPool_t := DataArrayPool.mk 2 148 false [] "IQ".

Lemma demo_burst_ok : burst_ok demo_signal.
Proof.
  split_and!; [|done|vm_compute; split; [by left|by split]].
  unfold Signal.wf. split_and!; try done.
  eexists. split; [reflexivity|]. by vm_compute.
Qed.

Lemma send_recv_stream_witness :
  ∃ wire p', Send_many [(demo_env, demo_signal); (demo_env, demo_signal)] 4 demo_pool
             = Ok (wire, p') ∧
    (socket (demo_server (burst_frags demo_env demo_signal
                          ++ burst_frags demo_env demo_signal)) = wire ++ [] →
     ∀ ns : list nat, (length wire ≤ length ns)%nat →
       ∃ rs srv', Recv_many 2 (Deliver <$> ns)
           (demo_server (burst_frags demo_env demo_signal
                         ++ burst_frags demo_env demo_signal)) = (rs, srv') ∧
         Forall2 same_burst [(demo_env, demo_signal); (demo_env, demo_signal)] rs ∧
         socket srv' = []).
Proof.
  apply (send_recv_stream [(demo_env, demo_signal); (demo_env, demo_signal)] 4 demo_pool
    (demo_server (burst_frags demo_env demo_signal ++ burst_frags demo_env demo_signal)) []).
  - done.
  - split; [done|]. repeat constructor.
  - done.
  - repeat apply Forall_cons_2; [..|apply Forall_nil_2]; (split_and!; [apply demo_burst_ok|done|done]).
  - done.
  - done.
Defined.

(** C29 What [Send] puts on the wire for a burst of a sendable size: at least one
    sample on one, two or four channels of whole 4-byte samples, between 148
    bytes and [IQ_SIZE], the signal agreeing with its header and holding its
    samples, the port and the sample width not zero. (Up to 144 bytes nothing
    is sent: [send_small_burst].) The datagrams are numbered 0, 1, ..., exactly
    the first carries the start flag and the burst header, exactly the last the
    end flag, each announces the payload it carries, none exceeds the MTU, the
    payloads add up to the burst, and the signal's buffer is back in the
    pool. *)
Theorem send_datagrams (env : SendEnv) (s : Signal.t) (otw : Z) (p : iqPool_t)
    (Hok : burst_ok s) (Hport : m_port env ≠ 0) (Hotw : otw ≠ 0) :
  ∃ bs p', Send env (Some s) otw p = Ok (bs, p') ∧
    DataArrayPool.available p' = DataArrayPool.available p + 1 ∧
    let wire := concat bs in
    let n := length wire in
    Z.of_nat n = (plan (Signal.size s)).2 ∧
    foldr (fun d acc => u_size (decode_UDPHeader d) + acc) 0 wire = Signal.size s ∧
    ∀ (i : nat) d, wire !! i = Some d →
      let uh := decode_UDPHeader d in
      u_seq_number uh = Z.of_nat i ∧
      (Z.land (u_flag uh) 1 ≠ 0 ↔ i = 0%nat) ∧
      (Z.land (u_flag uh) 4 ≠ 0 ↔ S i = n) ∧
      Z.of_nat (length d) = UDP_HEADER_SIZE + (if Nat.eqb i 0 then HEADER_SIZE else 0)
                            + u_size uh ∧
      Z.of_nat (length d) ≤ MTU_SIZE.
Proof.
  destruct (Send_frags env s otw p Hok Hport Hotw) as (bs & p' & Hs & Hc & Hav).
  exists bs, p'. split_and!; [done..|]. cbn zeta. rewrite Hc. clear Hc Hs.
  destruct Hok as ((_ & _ & _ & _ & _ & _ & buf & Hiq & Hb) & _ & Hsend).
  pose proof (plan_sendable _ _ Hsend) as Hplan. unfold burst_frags. rewrite Hiq.
  change (default [] (Some buf)) with buf.
  pose proof (po_tf_range _ _ _ _ Hplan) as Htf. unfold BATCH_SIZE in Htf.
  rewrite frags_from_length by lia. split_and!; [lia| |].
  - apply (frags_sizes env _ buf _ _ _ _ Hplan).
  - intros i d Hd. apply list_lookup_fmap_Some in Hd as (j & -> & [-> Hi]%lookup_seqZ).
    rewrite Z.add_0_l in *.
    rewrite (frag_decode _ _ _ _ _ _ _ Hplan) by lia. cbn [u_seq_number u_flag u_size].
    destruct (frag_flags _ _ _ _ Hplan (Z.of_nat i) ltac:(lia)) as [H1 H4].
    split_and!; [done| | | |apply (frag_mtu env (wire_header s) buf _ _ _ _ Hplan Hb); lia].
    + destruct (Z.eqb_spec (Z.land (frag_flag (plan (Signal.size s)).2 (Z.of_nat i)) 1) 0),
        (Z.eqb_spec (Z.of_nat i) 0); try done; lia.
    + destruct (Z.eqb_spec (Z.land (frag_flag (plan (Signal.size s)).2 (Z.of_nat i)) 4) 0),
        (Z.eqb_spec (Z.of_nat i) ((plan (Signal.size s)).2 - 1)); try done; lia.
    + apply (frag_length env (wire_header s) buf _ _ _ _ Hplan Hb); lia.
Qed.

Lemma send_datagrams_witness :
  ∃ bs p', Send demo_env (Some demo_signal) 4 demo_pool = Ok (bs, p') ∧
    DataArrayPool.available p' = DataArrayPool.available demo_pool + 1 ∧
    let wire := concat bs in
    let n := length wire in
    Z.of_nat n = (plan (Signal.size demo_signal)).2 ∧
    foldr (fun d acc => u_size (decode_UDPHeader d) + acc) 0 wire = Signal.size demo_signal ∧
    ∀ (i : nat) d, wire !! i = Some d →
      let uh := decode_UDPHeader d in
      u_seq_number uh = Z.of_nat i ∧
      (Z.land (u_flag uh) 1 ≠ 0 ↔ i = 0%nat) ∧
      (Z.land (u_flag uh) 4 ≠ 0 ↔ S i = n) ∧
      Z.of_nat (length d) = UDP_HEADER_SIZE + (if Nat.eqb i 0 then HEADER_SIZE else 0)
                            + u_size uh ∧
      Z.of_nat (length d) ≤ MTU_SIZE.
Proof. apply (send_datagrams demo_env demo_signal 4 demo_pool demo_burst_ok); done. Defined.

(** The first fragment of a burst whose per-fragment payload is below the
    burst header: [payload_size -= HEADER_SIZE] wraps around. *)
Lemma plan_small size :
  0 < size ≤ 144 →
  (plan size).1 = (size + 51) / 4 ∧ 1 < (plan size).2 ∧
  (plan size).2 = (size + 48) / ((size + 51) / 4).
Proof.
  intros Hs. unfold plan, HEADER_SIZE, BATCH_SIZE, PAYLOAD_SIZE, MTU_SIZE, UDP_HEADER_SIZE.
  rewrite u64_small by lia. rewrite (Z.div_small (size + 48)), Z.mod_small by lia.
  destruct (Z.eqb_spec (size + 48) 0); [lia|]. cbn [andb Z.ltb Z.compare fst snd].
  replace (size + 48 + 4 - 1) with (size + 51) by lia. split_and!; try done.
  apply (Z.lt_le_trans _ 2); [lia|]. apply Z.div_le_lower_bound; zdiv.
Qed.

(** Bursts too small for the four-fragment minimum are not sent: up to 140
    bytes the first fragment's length wraps around [size_t] and the gather list
    points far outside the sample buffer; from 141 to 144 bytes the first
    fragment is empty, nothing at all is sent and no error is reported. *)
Theorem send_small_burst (env : SendEnv) (s : Signal.t) (otw : Z) (p : iqPool_t)
    (Hwf : Signal.wf s) (Hsamp : Signal.numSamp s ≠ 0)
    (Hch : 0 < Signal.numCh s) (Hport : m_port env ≠ 0) (Hotw : otw ≠ 0)
    (Hmem : Z.of_nat (length (default [] (Signal.iq_data s))) < 2 ^ 48) :
  (0 < Signal.size s ≤ 140 →
     Send env (Some s) otw p = Err ReadOutOfBounds) ∧
  (140 < Signal.size s ≤ 144 →
     ∃ p', Send env (Some s) otw p = Ok ([], p') ∧
       DataArrayPool.available p' = DataArrayPool.available p + 1).
Proof.
  destruct Hwf as (Hw & _ & _ & Hs & Hn & Hns & b & Hiq & Hb).
  assert (Hn256 : Signal.numCh s < 256) by (rewrite Hn; unfold Header_wf in Hw; lia).
  unfold Send. rewrite <- Hns, <- Hn, !(proj2 (Z.eqb_neq _ 0)) by lia. cbn [orb].
  rewrite Hiq in *. change (default [] (Some b)) with b in *.
  assert (Hgo : 0 < Signal.size s ≤ 144 → ∃ n tf, plan (Signal.size s)
      = ((Signal.size s + 51) / 4, tf) ∧ 1 < tf ∧ Z.to_nat tf = S n).
  { intros Hsz. pose proof (plan_small _ Hsz) as (H1 & H2 & _).
    destruct (plan (Signal.size s)) as [cps tf]. cbn [fst snd] in *.
    exists (Z.to_nat (tf - 1)), tf. split_and!; [by rewrite H1|done|lia]. }
  assert (Hmin : 0 < Signal.size s ≤ 144 →
    Z.min (u64 (Signal.size s - 0)) ((Signal.size s + 51) / 4)
    = Z.min (Signal.size s) ((Signal.size s + 51) / 4) ∧
    Z.min (Signal.size s) ((Signal.size s + 51) / 4) ≠ 0).
  { intros. rewrite u64_small by lia. split; [f_equal; lia|zdiv]. }
  split; intros Hsz; destruct Hgo as (n & tf & -> & Htf & Hnt); try lia;
    rewrite (proj2 (Z.eqb_neq tf 0)), Hnt by lia; cbn [send_loop]; unfold send_iter;
    cbn [sent sent_bytes_per_ch pending batches set_total_frags h_number_of_channels];
    destruct Hmin as [-> Hmin]; try lia;
    rewrite (proj2 (Z.eqb_neq _ 0) Hmin), (proj2 (Z.ltb_lt 1 tf) Htf), <- Hn;
    cbn [Z.eqb andb]; set (m := Z.min _ _) in *; unfold HEADER_SIZE.
  - assert (Hm : 0 < m < 48) by (subst m; zdiv).
    assert (u64 (m - 48) = m - 48 + 2 ^ 64) as ->.
    { unfold u64, wrap. symmetry. apply (Z.mod_unique _ _ (-1)); lia. }
    assert (Hbig : 2 ^ 48 < (m - 48 + 2 ^ 64) / Signal.numCh s).
    { apply Z.lt_le_trans with (2 ^ 55); [lia|]. apply Z.div_le_lower_bound; lia. }
    set (k := (m - 48 + 2 ^ 64) / Signal.numCh s) in *.
    rewrite (proj2 (Z.eqb_neq (k * Signal.numCh s) 0)) by nia.
    destruct (Z.to_nat (Signal.numCh s)) as [|c] eqn:Ec; [lia|]. cbn [gather].
    destruct (Signal.getData 0 s) as [off|] eqn:Eo; [|done]. cbn [mbind option_bind].
    unfold mread. rewrite decide_False; [done|].
    intros (Hoff & _ & Hlen). clear -Hlen Hbig Hmem Eo Hb Hoff.
    lia.
  - assert (m = 48) as -> by (subst m; zdiv).
    change (u64 (48 - 48)) with 0. rewrite Z.div_0_l, Z.mul_0_l by lia. cbn [Z.eqb].
    unfold release_sig. rewrite Hiq. cbn [obind]. eexists. split; [done|].
    unfold DataArrayPool.available. simpl. rewrite length_app. simpl. lia.
Qed.

(** A 12-byte burst of three samples, and a 144-byte one. *)
Definition small_signal (n : Z) : Signal.t :=
  Signal.mk "node" (4 * n) (F32.of_Z 1000000) (F64.of_Z 0) 1 n (F32.of_Z 1000) 0 0 0 0
    (mkHeader (4 * n) 0 0 0 1000000 n 0 1)
    (Some (replicate (Z.to_nat (4 * n)) x01)).

Lemma send_small_burst_witness :
  Send demo_env (Some (small_signal 3)) 4 demo_pool = Err ReadOutOfBounds ∧
  ∃ p', Send demo_env (Some (small_signal 36)) 4 demo_pool = Ok ([], p') ∧
    DataArrayPool.available p' = DataArrayPool.available demo_pool + 1.
Proof.
  split.
  - refine (proj1 (send_small_burst demo_env (small_signal 3) 4 demo_pool _ _ _ _ _ _) _);
      try done.
    unfold Signal.wf. split_and!; try done. eexists. split; [reflexivity|]. by vm_compute.
  - refine (proj2 (send_small_burst demo_env (small_signal 36) 4 demo_pool _ _ _ _ _ _) _);
      try done.
    unfold Signal.wf. split_and!; try done. eexists. split; [reflexivity|]. by vm_compute.
Defined.
