(* ===== verification/Receiver.v ===== *)
(** src/src/chem/node/receiver.cpp: the thread that takes bursts off a node's
    UDP socket and hands them to the intermediate (or to a local queue).

    [m_iq_pool] and the pool inside [m_server] are the same shared object, so
    the model keeps it once, in [m_server].  [add2Queue] is a callback: the
    signals passed to it are an output of the operations. *)

From Stdlib Require Import ZArith Lia Strings.Byte.
From stdpp Require Import prelude list strings.
From S2P Require Import Prelude Ieee Common CxxLib DataPool NodeConfig Signal UdpServer.

Module Receiver.

Record t : Type := mk {
  m_node_config : NodeConfig.t;
  m_NodeId : string;
  m_NodeName : string;
  ch_no : Z;                        (* uint8_t *)
  m_ip_address : string;
  m_portNum : Z;                    (* uint16_t *)
  working : bool;                   (** [_working] *)
  m_attached : bool;
  m_sample_rate : Z;                (* uint32_t *)
  m_freq : float;                   (* double *)
  m_numChannels : Z;                (* uint8_t *)
  add2Queue : bool;                 (** whether the callback is set *)
  m_queue : list Signal.t;          (** bounded queue, capacity [QUEUE_CAP] *)
  m_server : UDPServer.t;
}.

#[global] Instance t_eta : Settable t := fun r =>
  mk (m_node_config r) (m_NodeId r) (m_NodeName r) (ch_no r) (m_ip_address r)
    (m_portNum r) (working r) (m_attached r) (m_sample_rate r) (m_freq r)
    (m_numChannels r) (add2Queue r) (m_queue r) (m_server r).

Definition m_iq_pool (r : t) : iqPool_t := UDPServer.m_pool (m_server r).

Definition set_pool (p : iqPool_t) (r : t) : t :=
  r <| m_server := (m_server r) <| UDPServer.m_pool := p |> |>.

Inductive ctor_error : Type :=
  | NoChannels                       (** [getChannels().at(0)] *)
  | PoolError (e : pool_error).

(** The constructor; the server is built from the same pool. *)
Definition ctor (cfg : NodeConfig.t) (pool : iqPool_t) (ch : Z)
    : outcome ctor_error t :=
  match NodeConfig.m_channels cfg with
  | [] => Err NoChannels
  | c :: _ =>
      match UDPServer.ctor pool with
      | Err e => Err (PoolError e)
      | Ok srv =>
          Ok (mk cfg (NodeConfig.m_id cfg) (NodeConfig.m_name cfg) ch
                (NodeConfig.m_ipAddress cfg) (u16 (NodeConfig.m_portTxNum cfg))
                true false
                (double_to_u32 (usrp.m_txRate (NodeConfig.m_sample_rate cfg)))
                (usrp.m_txTuneFreq c) (NodeConfig.m_numChannels cfg) false [] srv)
      end
  end.

(** Gives the buffer of a signal back; a signal without one makes [release]
    throw. *)
Definition release (s : Signal.t) (r : t) : outcome pool_error t :=
  match DataArrayPool.release x00 (Signal.iq_data s) (m_iq_pool r) with
  | Ok p => Ok (set_pool p r)
  | Err e => Err e
  end.

(** [m_queue.try_pop] followed by the release of what was popped. *)
Definition drop_oldest (r : t) : outcome pool_error t :=
  match m_queue r with
  | [] => Ok r
  | s :: q => release s (r <| m_queue := q |>)
  end.

Inductive status : Type :=
  | Running
  | Stopped                          (** the loop was left *)
  | Blocked                          (** still inside [Recv] *)
  | Fault.                           (** write outside the IQ buffer *)

(** One pass of the [while] loop of [Start]: what the callback received, and
    the rest of the socket schedule. *)
Definition Start_iter (junk : Signal.t) (sched : list UDPServer.rx_event) (r : t)
    : outcome pool_error (status * t * option Signal.t * list UDPServer.rx_event) :=
  let '(res, srv, rest) := UDPServer.Recv sched (m_server r) in
  let r := r <| m_server := srv |> in
  match res with
  | UDPServer.RecvThrow _ => Ok (Stopped, r <| working := false |>, None, rest)
  | UDPServer.RecvBlocked => Ok (Blocked, r, None, rest)
  | UDPServer.WriteOutOfBounds => Ok (Fault, r, None, rest)
  | UDPServer.RecvNull => Ok (Running, r, None, rest)
  | UDPServer.RecvOk hdr rx =>
      if h_size hdr =? 0 then Ok (Running, r, None, rest) else
      (do! r <- (if QUEUE_CAP <=? Z.of_nat (length (m_queue r))
                 then drop_oldest r else Ok r);
       let sig := Signal.ctor junk (Some rx) hdr (m_freq r) (m_NodeId r) in
       if add2Queue r then Ok (Running, r, Some sig, rest)
       else if Z.of_nat (length (m_queue r)) <? QUEUE_CAP
       then Ok (Running, r <| m_queue := m_queue r ++ [sig] |>, None, rest)
       else (do! r <- release sig r; Ok (Running, r, None, rest)))%chem
  end.

Definition getSignalFromQueue (r : t) : option Signal.t * t :=
  match m_queue r with
  | [] => (None, r)
  | s :: q => (Some s, r <| m_queue := q |>)
  end.

Definition getQueueSize (r : t) : Z := Z.of_nat (length (m_queue r)).

Definition setAddQueFnc (set : bool) (r : t) : t := r <| add2Queue := set |>.

(** [Add2Buff]: the signal goes to the callback, or into the local queue. *)
Definition Add2Buff (sig : Signal.t) (r : t) : outcome pool_error (t * option Signal.t) :=
  if add2Queue r then Ok (r, Some sig)
  else if QUEUE_CAP - 1 <=? Z.of_nat (length (m_queue r)) then
    (do! r <- drop_oldest r; do! r <- release sig r; Ok (r, None))%chem
  else Ok (r <| m_queue := m_queue r ++ [sig] |>, None).

Definition setAttachState (v : bool) (r : t) : t := r <| m_attached := v |>.

Definition updateFreq (f : float) (r : t) : t := r <| m_freq := f |>.

Definition setSampleRate (rate : Z) (r : t) : t :=
  let sr := usrp.setTxRate (F64.of_Z rate) (NodeConfig.m_sample_rate (m_node_config r)) in
  r <| m_sample_rate := rate |>
    <| m_node_config := NodeConfig.setSampleRate sr (m_node_config r) |>.

(** ** Buffer accounting *)

Definition has_buffer (s : Signal.t) : Prop := ∃ b, Signal.iq_data s = Some b.

(** IQ buffers the receiver answers for: free ones and queued ones. *)
Definition buffers (r : t) : Z :=
  DataArrayPool.available (m_iq_pool r) + Z.of_nat (length (m_queue r)).

Definition inv (r : t) : Prop :=
  Z.of_nat (length (m_queue r)) ≤ QUEUE_CAP ∧ Forall has_buffer (m_queue r).

Lemma rx_release_ok s r :
  has_buffer s → ∃ p, release s r = Ok (set_pool p r) ∧
    DataArrayPool.available p = DataArrayPool.available (m_iq_pool r) + 1.
Proof.
  intros [b Hb]. unfold release. rewrite Hb. cbn [DataArrayPool.release].
  eexists. split; [done|]. unfold DataArrayPool.available. simpl.
  rewrite length_app. simpl. lia.
Qed.

Lemma drop_oldest_ok r :
  inv r → m_queue r ≠ [] →
  ∃ s q p, m_queue r = s :: q ∧ drop_oldest r = Ok (set_pool p (r <| m_queue := q |>)) ∧
    DataArrayPool.available p = DataArrayPool.available (m_iq_pool r) + 1 ∧
    Forall has_buffer q.
Proof.
  intros [_ Hf] Hq. unfold drop_oldest. destruct (m_queue r) as [|s q]; [done|].
  apply Forall_cons in Hf as [Hs Hf].
  destruct (rx_release_ok s (r <| m_queue := q |>) Hs) as (p & -> & Hp). eauto 10.
Qed.

(** The outcome of one pass: nothing is lost and the queue stays bounded. *)
Lemma rx_Start_iter_account junk sched r :
  inv r →
  ∃ st r' fwd rest, Start_iter junk sched r = Ok (st, r', fwd, rest) ∧ inv r' ∧
    (st = Running →
     buffers r' + (match fwd with Some _ => 1 | None => 0 end) = buffers r ∧
     Forall has_buffer (option_list fwd)).
Proof.
  intros Hinv. unfold Start_iter. pose proof (Recv_account sched (m_server r)) as Hacc.
  destruct (UDPServer.Recv sched (m_server r)) as [[res srv] rest] eqn:Er.
  destruct res as [hdr rx| | | |]; try (do 4 eexists; split; [done|]; split; [exact Hinv|];
    intros; try done; unfold buffers, m_iq_pool; simpl in *; (split; [lia|constructor])).
  pose proof (UDPServer.Recv_size _ _ _ _ _ _ Er) as Hsz.
  rewrite (proj2 (Z.eqb_neq _ 0) Hsz). destruct Hacc as [Hiq _].
  set (r1 := r <| m_server := srv |>).
  assert (Hinv1 : inv r1) by exact Hinv.
  assert (Hb1 : buffers r1 + 1 = buffers r) by (unfold buffers, m_iq_pool; simpl in *; lia).
  assert (Hgo : ∃ r2, (if QUEUE_CAP <=? Z.of_nat (length (m_queue r1))
                       then drop_oldest r1 else Ok r1) = Ok r2 ∧
    Forall has_buffer (m_queue r2) ∧ Z.of_nat (length (m_queue r2)) < QUEUE_CAP ∧
    buffers r2 = buffers r1).
  { destruct (Z.leb_spec QUEUE_CAP (Z.of_nat (length (m_queue r1)))) as [Hle|Hlt].
    - destruct (drop_oldest_ok r1 Hinv1) as (s & q & p & Hq & -> & Hp & Hf).
      { intros E. rewrite E in Hle. by unfold QUEUE_CAP in Hle. }
      eexists. split; [done|]. destruct Hinv1 as [Hl _]. rewrite Hq in Hl.
      unfold buffers, m_iq_pool in *. rewrite Hq. simpl in *. split_and!; [done|lia|lia].
    - exists r1. destruct Hinv1. by split_and!. }
  destruct Hgo as (r2 & -> & Hf2 & Hl2 & Hb2). cbn [obind].
  set (sig := Signal.ctor junk (Some rx) hdr (m_freq r2) (m_NodeId r2)).
  assert (Hsig : has_buffer sig).
  { exists rx. unfold sig, Signal.ctor. by rewrite decide_False. }
  destruct (add2Queue r2); [|rewrite (proj2 (Z.ltb_lt _ _) Hl2)];
    do 4 eexists; (split; [done|]).
  - split; [split; [lia|done]|]. intros _. split; [lia|by constructor].
  - split; [split; simpl; [rewrite length_app; simpl; lia|by apply Forall_app_2, Forall_singleton]|].
    intros _. unfold buffers, m_iq_pool in *. simpl. rewrite length_app. simpl.
    split; [lia|constructor].
Qed.

Lemma rx_Add2Buff_account sig r :
  inv r → has_buffer sig →
  ∃ r' fwd, Add2Buff sig r = Ok (r', fwd) ∧ inv r' ∧
    buffers r' + (match fwd with Some _ => 1 | None => 0 end) = buffers r + 1 ∧
    (add2Queue r = false → Z.of_nat (length (m_queue r')) < QUEUE_CAP).
Proof.
  intros Hinv Hsig. unfold Add2Buff.
  destruct (add2Queue r) eqn:Ea. { do 2 eexists. split; [done|]. by split_and!. }
  destruct (Z.leb_spec (QUEUE_CAP - 1) (Z.of_nat (length (m_queue r)))) as [Hle|Hlt].
  - destruct (drop_oldest_ok r Hinv) as (s & q & p & Hq & -> & Hp & Hf).
    { intros E. rewrite E in Hle. by unfold QUEUE_CAP in Hle. }
    cbn [obind]. destruct (rx_release_ok sig (set_pool p (r <| m_queue := q |>)) Hsig)
      as (p' & -> & Hp'). cbn [obind]. do 2 eexists. split; [done|].
    destruct Hinv as [Hl _]. rewrite Hq in *. unfold inv, buffers, m_iq_pool in *.
    rewrite Hq. simpl in *. split_and!; [lia|done|lia|lia].
  - do 2 eexists. split; [done|]. destruct Hinv as [Hl Hf].
    unfold inv, buffers, m_iq_pool in *. simpl. rewrite !length_app. simpl.
    split_and!; [lia|by apply Forall_app_2, Forall_singleton|lia|lia].
Qed.

End Receiver.

(** ** The receiver as a state machine *)

Section ReceiverRuns.
Import Receiver.

(** A receiver and the number of IQ buffers other components hold. *)
Inductive receiver_step : Receiver.t * Z → Receiver.t * Z → Prop :=
  | rs_iter r k junk sched r' fwd rest :
      Start_iter junk sched r = Ok (Running, r', fwd, rest) →
      receiver_step (r, k) (r', k + match fwd with Some _ => 1 | None => 0 end)
  | rs_add r k sig r' fwd :
      0 < k → has_buffer sig → Add2Buff sig r = Ok (r', fwd) →
      receiver_step (r, k) (r', k - 1 + match fwd with Some _ => 1 | None => 0 end)
  | rs_get r k s r' :
      getSignalFromQueue r = (Some s, r') → receiver_step (r, k) (r', k + 1)
  | rs_callback r k b : receiver_step (r, k) (setAddQueFnc b r, k)
  | rs_attach r k b : receiver_step (r, k) (setAttachState b r, k)
  | rs_freq r k f : receiver_step (r, k) (updateFreq f r, k)
  | rs_rate r k n : receiver_step (r, k) (setSampleRate n r, k).

Lemma receiver_step_inv s s' :
  receiver_step s s' → inv s.1 →
  inv s'.1 ∧ buffers s'.1 + s'.2 = buffers s.1 + s.2.
Proof.
  intros Hst Hinv. destruct Hst as [r k junk sched r' fwd rest He|r k sig r' fwd Hk Hs He|
    r k s r' He|r k b|r k b|r k f|r k n]; simpl in *; try done.
  - destruct (rx_Start_iter_account junk sched r Hinv) as (st & r1 & f1 & rest1 & He1 & Hi & Hb).
    rewrite He in He1. simplify_eq/=. destruct (Hb eq_refl). split; [done|lia].
  - destruct (rx_Add2Buff_account sig r Hinv Hs) as (r1 & f1 & He1 & Hi & Hb & _).
    rewrite He in He1. simplify_eq/=. split; [done|lia].
  - unfold getSignalFromQueue in He. destruct Hinv as [Hl Hf].
    destruct (m_queue r) as [|s0 q] eqn:Eq; simplify_eq/=.
    apply Forall_cons in Hf as [_ Hf]. unfold inv, buffers, m_iq_pool. rewrite Eq. simpl.
    split; [split; [lia|done]|lia].
Qed.

End ReceiverRuns.

(** The receive side neither loses nor duplicates IQ buffers: in any
    interleaving of passes of [Start], [Add2Buff], [getSignalFromQueue] and the
    setters, the free buffers, the queued signals and the buffers held
    elsewhere add up to the same number, every queued signal owns a buffer and
    the queue never exceeds [QUEUE_CAP]. *)
Theorem receiver_conserves (r r' : Receiver.t) (k k' : Z)
    (Hinv : Receiver.inv r) (Hrun : rtc receiver_step (r, k) (r', k')) :
  Receiver.inv r' ∧ Receiver.buffers r' + k' = Receiver.buffers r + k.
Proof.
  remember (r, k) as s eqn:Es. remember (r', k') as s' eqn:Es'.
  revert r k Es Hinv. induction Hrun as [s|s s1 s' Hst _ IH]; intros r k Es Hinv.
  - by simplify_eq.
  - subst s. destruct s1 as [r1 k1]. destruct (receiver_step_inv _ _ Hst Hinv) as [Hi Hb].
    simpl in *. destruct (IH Es' r1 k1 eq_refl Hi) as [? Hb']. split; [done|]. lia.
Qed.

(** A receiver on the two-buffer server. *)
Definition sample_receiver (sock : list (list byte)) : Receiver.t :=
  Receiver.mk sample_config "n1" "uav" 0 "10.0.0.2" 4001 true false 2000000
    (F64.of_Z 3500000000) 1 false [] (sample_server sock).

Definition sample_junk : Signal.t :=
  Signal.mk "" 0 fzero fzero 0 0 fzero 0 0 0 0 UDPServer.zero_header None.

Lemma receiver_conserves_witness :
  ∃ r' k', rtc receiver_step (sample_receiver [sample_start; sample_end], 0) (r', k') ∧
    k' = 1 ∧
    Receiver.inv r' ∧
    Receiver.buffers r' + k'
    = Receiver.buffers (sample_receiver [sample_start; sample_end]) + 0.
Proof.
  assert (Hr : ∃ r' k', rtc receiver_step
    (sample_receiver [sample_start; sample_end], 0) (r', k') ∧ k' = 1).
  { eexists _, _. split.
    - eapply rtc_l.
      { eapply (rs_iter _ _ sample_junk [UDPServer.Deliver 4]).
        vm_compute. reflexivity. }
      eapply rtc_l. { by eapply rs_get. }
      apply rtc_refl.
    - done. }
  destruct Hr as (r' & k' & Hr & Hk). exists r', k'.
  split; [done|]. split; [done|].
  apply (receiver_conserves (sample_receiver [sample_start; sample_end]) r' 0 k'); [|done].
  split; [done|constructor].
Defined.
