(* ===== verification/Transmitter.v ===== *)
(** src/src/chem/node/transmitter.cpp: the thread that sends processed bursts
    to a node in order of their timestamps.

    [tbb::concurrent_priority_queue] is not part of the sources: it is the
    class [PriorityQueue], whose laws are its documented behaviour ([try_pop]
    removes an element of highest priority; the order of equal elements is
    unspecified).  [m_iq_pool] is the pool shared with [m_client]. *)

From Stdlib Require Import ZArith Lia Strings.Byte Floats.SpecFloat Sorting.Sorted.
From stdpp Require Import prelude list strings.
From S2P Require Import Prelude Ieee Common CxxLib DataPool NodeConfig Signal UdpClient.

#[local] Arguments UDPClient.Send : simpl never.

(** [SignalTimestampCompare]: whether [a] has lower priority than [b]. *)
Definition SignalTimestampCompare (a b : Signal.t) : bool :=
  h_start (Signal.header b) <? h_start (Signal.header a).

Class PriorityQueue : Type := try_pop : list Signal.t → option (Signal.t * list Signal.t).

Class PriorityQueueLaws `{PriorityQueue} : Prop := {
  try_pop_empty q : try_pop q = None → q = [];
  try_pop_top q x q' : try_pop q = Some (x, q') →
    q ≡ₚ x :: q' ∧ Forall (fun y => SignalTimestampCompare x y = false) q';
}.

Module Transmitter.

Record t : Type := mk {
  m_node_config : NodeConfig.t;
  m_NodeId : string;
  m_NodeName : string;
  m_queue : list Signal.t;          (** contents of the priority queue *)
  m_iq_pool : iqPool_t;
  m_ip_address : string;
  m_portNum : Z;                    (* uint16_t *)
  m_sample_rate : Z;                (* uint32_t *)
  m_numChannels : Z;                (* uint8_t *)
  m_bytes_per_sample : Z;           (* uint8_t *)
  m_freq : float;                   (* double *)
  working : bool;
  m_attached : bool;
}.

#[global] Instance t_eta : Settable t := fun x =>
  mk (m_node_config x) (m_NodeId x) (m_NodeName x) (m_queue x) (m_iq_pool x)
    (m_ip_address x) (m_portNum x) (m_sample_rate x) (m_numChannels x)
    (m_bytes_per_sample x) (m_freq x) (working x) (m_attached x).

(** The constructor; [None] is the exception of [getChannels().at(0)]. *)
Definition ctor (cfg : NodeConfig.t) (pool : iqPool_t) : option t :=
  match NodeConfig.m_channels cfg with
  | [] => None
  | c :: _ =>
      Some (mk cfg (NodeConfig.m_id cfg) (NodeConfig.m_name cfg) [] pool
              (NodeConfig.m_ipAddress cfg) (u16 (NodeConfig.m_portRxNum cfg))
              (double_to_u32 (usrp.m_rxRate (NodeConfig.m_sample_rate cfg)))
              (NodeConfig.m_numChannels cfg) OTW_SIZE (usrp.m_rxTuneFreq c) true false)
  end.

Definition release (s : Signal.t) (x : t) : outcome pool_error t :=
  match DataArrayPool.release x00 (Signal.iq_data s) (m_iq_pool x) with
  | Ok p => Ok (x <| m_iq_pool := p |>)
  | Err e => Err e
  end.

(** [start < send_time - MS_2_NS(5)]: [MS_2_NS] returns a [float], so both
    sides are converted to [float]. *)
Definition too_old (send_time : Z) (s : Signal.t) : bool :=
  flt (F32.of_Z (h_start (Signal.header s)))
      (F32.sub (F32.of_Z send_time) (MS_2_NS (F32.of_Z 5))).

Inductive tx_event : Type :=
  | Waiting                          (** blocked on the condition variable *)
  | Finished                         (** [!_working]: the loop is left *)
  | TooOld (s : Signal.t)
  | Sent (s : Signal.t) (vectors : list (list datagram))
  | SendFault                        (** [Send] reads outside the sample buffer *)
  | NullDeref.                       (** [t_sig->dataArray()] after the move *)

Section Queue.
Context `{PriorityQueueLaws}.

(** One pass of the [while] loop of [Start] at time [now].  When [Send] throws
    it already owns the signal, and the handler dereferences the null pointer
    that is left. *)
Definition Start_iter (env : SendEnv) (now : Z) (x : t)
    : outcome pool_error (tx_event * t) :=
  if negb (working x) then Ok (Finished, x) else
  match m_queue x with
  | [] => Ok (Waiting, x)
  | _ :: _ =>
      match try_pop (m_queue x) with
      | None => Ok (Waiting, x)
      | Some (s, q) =>
          let x := x <| m_queue := q |> in
          if too_old now s then (do! x <- release s x; Ok (TooOld s, x))%chem
          else
            match UDPClient.Send env (Some s) (m_bytes_per_sample x) (m_iq_pool x) with
            | Ok (vs, p) => Ok (Sent s vs, x <| m_iq_pool := p |>)
            | Err ReadOutOfBounds => Ok (SendFault, x)
            | Err (SendPoolError _) => Ok (NullDeref, x)
            end
      end
  end.

(** [Add2Buff]. *)
Definition Add2Buff (sig : Signal.t) (x : t) : outcome pool_error t :=
  if QUEUE_CAP - 1 <=? Z.of_nat (length (m_queue x)) then
    (do! x <- match try_pop (m_queue x) with
              | Some (oldest, q) => release oldest (x <| m_queue := q |>)
              | None => Ok x
              end;
     release sig x)%chem
  else Ok (x <| m_queue := sig :: m_queue x |>).

End Queue.

Definition setSampleRate (rate : Z) (x : t) : t :=
  let sr := usrp.setRxRate (F64.of_Z rate) (NodeConfig.m_sample_rate (m_node_config x)) in
  x <| m_sample_rate := rate |>
    <| m_node_config := NodeConfig.setSampleRate sr (m_node_config x) |>.

Definition setBytesPerSample (n : Z) (x : t) : t := x <| m_bytes_per_sample := n |>.

Definition getQueueSize (x : t) : Z := Z.of_nat (length (m_queue x)).

Definition setAttachState (v : bool) (x : t) : t := x <| m_attached := v |>.

Definition updateFreq (f : float) (x : t) : t := x <| m_freq := f |>.

(** ** Accounting *)

Definition has_buffer (s : Signal.t) : Prop := ∃ b, Signal.iq_data s = Some b.

Definition buffers (x : t) : Z :=
  DataArrayPool.available (m_iq_pool x) + Z.of_nat (length (m_queue x)).

Definition inv (x : t) : Prop :=
  Z.of_nat (length (m_queue x)) < QUEUE_CAP ∧ Forall has_buffer (m_queue x).

Lemma tx_release_ok s x :
  has_buffer s → ∃ p, release s x = Ok (x <| m_iq_pool := p |>) ∧
    DataArrayPool.available p = DataArrayPool.available (m_iq_pool x) + 1.
Proof.
  intros [b Hb]. unfold release. rewrite Hb. cbn [DataArrayPool.release].
  eexists. split; [done|]. unfold DataArrayPool.available. simpl.
  rewrite length_app. simpl. lia.
Qed.

(** Whatever path [Send] takes, a buffer it consumes without error is free
    again. *)
Lemma Send_available env s otw p bs p' :
  UDPClient.Send env (Some s) otw p = Ok (bs, p') →
  DataArrayPool.available p' = DataArrayPool.available p + 1.
Proof.
  assert (Hr : ∀ q q', UDPClient.release_sig s q = Ok q' →
    DataArrayPool.available q' = DataArrayPool.available q + 1).
  { intros q q'. unfold UDPClient.release_sig, DataArrayPool.release,
      DataArrayPool.available. destruct (Signal.iq_data s); [|done].
    intros [= <-]. simpl. rewrite length_app. simpl. lia. }
  unfold UDPClient.Send. destruct (_ || _).
  { destruct (UDPClient.release_sig s p) eqn:E; simpl; [|done]. intros [= <- <-]. auto. }
  destruct (UDPClient.plan _) as [cps tf]. destruct (tf =? 0).
  { destruct (UDPClient.release_sig s p) eqn:E; simpl; [|done]. intros [= <- <-]. auto. }
  destruct (UDPClient.send_loop _ _ _ _ _ _ _ _ _); simpl; [|done].
  destruct (UDPClient.release_sig s p) eqn:E; simpl; [|done]. intros [= <- <-]. auto.
Qed.

(** [Send] does not throw for a signal that owns a buffer. *)
Lemma Send_no_throw env s otw p e :
  has_buffer s → UDPClient.Send env (Some s) otw p ≠ Err (SendPoolError e).
Proof.
  intros [b Hb]. assert (Hr : ∀ q, ∃ q', UDPClient.release_sig s q = Ok q').
  { intros q. unfold UDPClient.release_sig. rewrite Hb. by eexists. }
  destruct (Hr p) as [p' Hp]. unfold UDPClient.Send. rewrite Hp. simpl.
  destruct (_ || _); [done|]. destruct (UDPClient.plan _) as [cps tf].
  destruct (tf =? 0); [done|].
  destruct (UDPClient.send_loop _ _ _ _ _ _ _ _ _) as [|e'] eqn:E; simpl; [done|].
  intros [= ->]. revert E. generalize (UDPClient.mkLoop 0 0 [] []) as st.
  generalize 0 as i. induction (Z.to_nat tf) as [|n IH]; intros i st; simpl; [done|].
  unfold UDPClient.send_iter.
  destruct (Z.min _ _ =? 0); [done|]. destruct (_ * _ =? 0); [done|].
  destruct (UDPClient.gather _ _ _ _ _ _); [apply IH|done].
Qed.

Section Lemmas.
Context `{PriorityQueueLaws}.

Lemma try_pop_some q : q ≠ [] → ∃ s q', try_pop q = Some (s, q').
Proof.
  intros Hq. destruct (try_pop q) as [[s q']|] eqn:E; [eauto|].
  by apply try_pop_empty in E.
Qed.

Lemma try_pop_facts q s q' :
  try_pop q = Some (s, q') → Forall has_buffer q →
  has_buffer s ∧ Forall has_buffer q' ∧ length q = S (length q').
Proof.
  intros E Hf. apply try_pop_top in E as [Hp _].
  rewrite Hp in Hf. apply Forall_cons in Hf as [??]. by rewrite Hp.
Qed.

Lemma tx_Start_iter_account env now x :
  inv x →
  ∃ ev x', Start_iter env now x = Ok (ev, x') ∧ inv x' ∧ ev ≠ NullDeref ∧
    (ev ≠ SendFault → buffers x' = buffers x).
Proof.
  intros [Hl Hf]. unfold Start_iter. destruct (working x) eqn:Ew; cbn [negb].
  2:{ do 2 eexists. split; [done|]. by split_and!. }
  destruct (m_queue x) as [|y q0] eqn:Eq.
  { do 2 eexists. split; [done|]. split_and!; try done. split; rewrite Eq; [done|constructor]. }
  rewrite <- Eq in *.
  destruct (try_pop_some (m_queue x)) as (s & q & Hp); [by rewrite Eq|].
  rewrite Hp. destruct (try_pop_facts _ _ _ Hp Hf) as (Hs & Hfq & Hlen).
  assert (Hi : ∀ p, inv (x <| m_queue := q |> <| m_iq_pool := p |>))
    by (intros p; split; simpl; [lia|done]).
  destruct (too_old now s).
  - destruct (tx_release_ok s (x <| m_queue := q |>) Hs) as (p & -> & Hav). cbn [obind].
    do 2 eexists. split; [done|]. split_and!; [apply Hi..|done|]. intros _.
    unfold buffers. simpl in *. rewrite Hlen. lia.
  - destruct (UDPClient.Send _ _ _ _) as [[vs p]|[|e]] eqn:E.
    + do 2 eexists. split; [done|]. split_and!; [apply Hi..|done|]. intros _.
      apply Send_available in E. unfold buffers. simpl in *. rewrite Hlen. lia.
    + do 2 eexists. split; [done|]. split_and!; try done. apply (Hi (m_iq_pool x)).
    + by apply Send_no_throw in E.
Qed.

Lemma tx_Add2Buff_account sig x :
  inv x → has_buffer sig →
  ∃ x', Add2Buff sig x = Ok x' ∧ inv x' ∧ buffers x' = buffers x + 1.
Proof.
  intros [Hl Hf] Hs. unfold Add2Buff.
  destruct (Z.leb_spec (QUEUE_CAP - 1) (Z.of_nat (length (m_queue x)))) as [Hle|Hlt].
  - destruct (try_pop_some (m_queue x)) as (s & q & Hp).
    { intros E. rewrite E in Hle. by unfold QUEUE_CAP in Hle. }
    rewrite Hp. destruct (try_pop_facts _ _ _ Hp Hf) as (Hs' & Hfq & Hlen).
    destruct (tx_release_ok s (x <| m_queue := q |>) Hs') as (p & -> & Hav). cbn [obind].
    destruct (tx_release_ok sig (x <| m_queue := q |> <| m_iq_pool := p |>) Hs)
      as (p' & -> & Hav').
    eexists. split; [done|]. unfold inv, buffers. simpl in *. rewrite Hlen in *.
    split; [split; [lia|done]|lia].
  - eexists. split; [done|]. unfold inv, buffers. simpl.
    split; [split; [lia|by constructor]|lia].
Qed.

End Lemmas.

End Transmitter.

(** ** Order of transmission *)

Section Order.
Import Transmitter.
Context `{PriorityQueueLaws}.




Definition earlier (a b : Signal.t) : Prop :=
  h_start (Signal.header a) ≤ h_start (Signal.header b).



(** *** The transmitter as a state machine *)

Inductive transmitter_step : Transmitter.t * Z → Transmitter.t * Z → Prop :=
  | xs_iter x k env now ev x' :
      Start_iter env now x = Ok (ev, x') → ev ≠ SendFault →
      transmitter_step (x, k) (x', k)
  | xs_add x k sig x' :
      0 < k → has_buffer sig → Add2Buff sig x = Ok x' →
      transmitter_step (x, k) (x', k - 1)
  | xs_rate x k n : transmitter_step (x, k) (setSampleRate n x, k)
  | xs_bytes x k n : transmitter_step (x, k) (setBytesPerSample n x, k)
  | xs_attach x k b : transmitter_step (x, k) (setAttachState b x, k)
  | xs_freq x k f : transmitter_step (x, k) (updateFreq f x, k).

Lemma transmitter_step_inv s s' :
  transmitter_step s s' → inv s.1 →
  inv s'.1 ∧ buffers s'.1 + s'.2 = buffers s.1 + s.2.
Proof.
  intros Hst Hinv. destruct Hst as [x k env now ev x' He Hn|x k sig x' Hk Hb He| | | |];
    simpl in *; try done.
  - destruct (tx_Start_iter_account env now x Hinv) as (ev1 & x1 & He1 & Hi & _ & Hb).
    rewrite He in He1. simplify_eq. rewrite (Hb Hn). done.
  - destruct (tx_Add2Buff_account sig x Hinv Hb) as (x1 & He1 & Hi & Hc).
    rewrite He in He1. simplify_eq. split; [done|lia].
Qed.

End Order.

(** A priority queue: the oldest among the signals with the least timestamp. *)
Fixpoint pop_least (q : list Signal.t) : option (Signal.t * list Signal.t) :=
  match q with
  | [] => None
  | s :: q =>
      match pop_least q with
      | None => Some (s, q)
      | Some (m, r) => if SignalTimestampCompare s m then Some (m, s :: r) else Some (s, q)
      end
  end.

#[export] Instance least_queue : PriorityQueue := pop_least.

#[export] Instance least_queue_laws : PriorityQueueLaws.
Proof.
  split; unfold try_pop, least_queue.
  - intros [|s q]; [done|]. simpl. destruct (pop_least q) as [[m r]|]; [|done].
    by destruct (SignalTimestampCompare s m).
  - intros q. induction q as [|s q IH]; intros x q'; [done|]. simpl.
    destruct (pop_least q) as [[m r]|] eqn:E.
    + destruct (IH _ _ eq_refl) as [Hp Hm]. rewrite Forall_forall in Hm.
      unfold SignalTimestampCompare in *.
      destruct (Z.ltb_spec (h_start (Signal.header m)) (h_start (Signal.header s)));
        intros [= <- <-]; rewrite Forall_forall.
      * split; [by rewrite Hp, Permutation_swap|]. intros y [->|Hy]%elem_of_cons.
        -- apply Z.ltb_ge. lia.
        -- by apply Hm.
      * split; [done|]. intros y Hy. rewrite Hp in Hy. apply Z.ltb_ge.
        apply elem_of_cons in Hy as [->|Hy]; [done|]. apply Hm, Z.ltb_ge in Hy. lia.
    + intros [= <- <-]. destruct q as [|s' q]; [split; [done|constructor]|].
      simpl in E. destruct (pop_least q) as [[]|]; [by destruct (SignalTimestampCompare _ _)|done].
Qed.

(** ** Properties *)

(** The transmit side neither loses nor duplicates IQ buffers: in any
    interleaving of passes of [Start] (sent, dropped as too old, or idle),
    [Add2Buff] calls and setters, the free buffers, the queued bursts and the
    buffers held elsewhere add up to the same number, and the queue stays below
    [QUEUE_CAP].  It holds for every priority queue with the documented
    behaviour. *)
Theorem transmitter_conserves `{PriorityQueueLaws} (x x' : Transmitter.t) (k k' : Z)
    (Hinv : Transmitter.inv x) (Hrun : rtc transmitter_step (x, k) (x', k')) :
  Transmitter.inv x' ∧ Transmitter.buffers x' + k' = Transmitter.buffers x + k.
Proof.
  remember (x, k) as s eqn:Es. remember (x', k') as s' eqn:Es'.
  revert x k Es Hinv. induction Hrun as [s|s s1 s' Hst _ IH]; intros x k Es Hinv.
  - by simplify_eq.
  - subst s. destruct s1 as [x1 k1]. destruct (transmitter_step_inv _ _ Hst Hinv) as [Hi Hb].
    simpl in *. destruct (IH Es' x1 k1 eq_refl Hi) as [? Hb']. split; [done|]. lia.
Qed.

(** A transmitter with two queued bursts of 148 bytes and no free buffer. *)
Definition tx_signal (start : Z) : Signal.t :=
  Signal.mk "n" 148 (F32.of_Z 1000000) fzero 1 37 (F32.of_Z 1000) 0 0 0 0
    (mkHeader 148 start 0 0 1000000 37 0 1) (Some (replicate 148 x01)).

Definition sample_transmitter : Transmitter.t :=
  Transmitter.mk sample_config "n1" "uav" [tx_signal 900; tx_signal 100]
    (DataArrayPool.mk 2 148 false [] "IQ") "10.0.0.2" 4002 2000000 1 4
    (F64.of_Z 3400000000) true false.

Definition tx_env : SendEnv := mkSendEnv 4002 (fun i => i) x00 x00.

Lemma sample_transmitter_inv : Transmitter.inv sample_transmitter.
Proof. split; [done|]. repeat constructor; by eexists. Qed.

Lemma transmitter_conserves_witness :
  ∃ x', rtc transmitter_step (sample_transmitter, 0) (x', 0) ∧
    x' ≠ sample_transmitter ∧
    Transmitter.inv x' ∧
    Transmitter.buffers x' + 0 = Transmitter.buffers sample_transmitter + 0.
Proof.
  assert (Hr : ∃ x', transmitter_step (sample_transmitter, 0) (x', 0) ∧
                     x' ≠ sample_transmitter).
  { eexists. split.
    - eapply (xs_iter sample_transmitter 0 tx_env 1000); [vm_compute; reflexivity|done].
    - done. }
  destruct Hr as (x' & Hr & Hne). exists x'. split; [by apply rtc_once|]. split; [done|].
  apply (transmitter_conserves sample_transmitter x' 0 0);
    [apply sample_transmitter_inv|by apply rtc_once].
Defined.



(** A full transmit queue loses two bursts, not one: [Add2Buff] discards the
    earliest queued burst "to make room" and then discards the new one as
    well, so the queue shrinks and the new burst is never queued; both buffers
    return to the pool. *)
Theorem add2buff_full_drops_both `{PriorityQueueLaws} (sig : Signal.t) (x : Transmitter.t)
    (Hinv : Transmitter.inv x) (Hsig : Transmitter.has_buffer sig)
    (Hfull : QUEUE_CAP - 1 ≤ Z.of_nat (length (Transmitter.m_queue x))) :
  ∃ oldest x', Transmitter.Add2Buff sig x = Ok x' ∧
    Transmitter.m_queue x ≡ₚ oldest :: Transmitter.m_queue x' ∧
    Forall (earlier oldest) (Transmitter.m_queue x') ∧
    Z.of_nat (length (Transmitter.m_queue x')) = QUEUE_CAP - 2 ∧
    DataArrayPool.available (Transmitter.m_iq_pool x')
    = DataArrayPool.available (Transmitter.m_iq_pool x) + 2.
Proof.
  destruct Hinv as [Hl Hf]. unfold Transmitter.Add2Buff.
  rewrite (proj2 (Z.leb_le _ _) Hfull).
  destruct (Transmitter.try_pop_some (Transmitter.m_queue x)) as (s & q & Hp).
  { intros E. rewrite E in Hfull. by unfold QUEUE_CAP in Hfull. }
  rewrite Hp. destruct (Transmitter.try_pop_facts _ _ _ Hp Hf) as (Hs & _ & Hlen).
  destruct (Transmitter.tx_release_ok s (x <| Transmitter.m_queue := q |>) Hs)
    as (p & -> & Hav). cbn [obind].
  destruct (Transmitter.tx_release_ok sig
    (x <| Transmitter.m_queue := q |> <| Transmitter.m_iq_pool := p |>) Hsig)
    as (p' & -> & Hav').
  destruct (try_pop_top _ _ _ Hp) as [Hperm Hmin].
  exists s. eexists. simpl in *. unfold QUEUE_CAP in *. split_and!; [done|done| |simpl; lia|simpl; lia].
  eapply Forall_impl; [exact Hmin|]. intros y Hy%Z.ltb_ge. exact Hy.
Qed.

Definition full_transmitter : Transmitter.t :=
  sample_transmitter <| Transmitter.m_queue := tx_signal <$> seqZ 0 499 |>.

Lemma add2buff_full_drops_both_witness :
  ∃ oldest x', Transmitter.Add2Buff (tx_signal 1000) full_transmitter = Ok x' ∧
    Transmitter.m_queue full_transmitter ≡ₚ oldest :: Transmitter.m_queue x' ∧
    Forall (earlier oldest) (Transmitter.m_queue x') ∧
    Z.of_nat (length (Transmitter.m_queue x')) = QUEUE_CAP - 2 ∧
    DataArrayPool.available (Transmitter.m_iq_pool x')
    = DataArrayPool.available (Transmitter.m_iq_pool full_transmitter) + 2.
Proof.
  apply (add2buff_full_drops_both (tx_signal 1000) full_transmitter).
  - split; [done|]. apply Forall_fmap, Forall_true. intros i. by eexists.
  - by eexists.
  - done.
Defined.

(** The 5 ms age check is made in single precision.  After ten days of
    uptime a burst one nanosecond old is discarded, and one 38 ms old is
    sent. *)
Theorem age_check_imprecise :
  ∃ now : Z, 0 < now < 11 * 24 * 3600 * 1000000000 ∧
    Transmitter.too_old now (tx_signal (now - 1)) = true ∧
    ∃ now', 0 < now' < 11 * 24 * 3600 * 1000000000 ∧
      Transmitter.too_old now' (tx_signal (now' - 38000000)) = false.
Proof.
  exists (12874546 * 2 ^ 26 + 2 ^ 25 + 1). split; [lia|]. split; [by vm_compute|].
  exists (12874546 * 2 ^ 26 + 2 ^ 25 - 1). split; [lia|]. by vm_compute.
Qed.
