(* ===== verification/Channel.v ===== *)
(** src/src/chem/channel/channel.cpp: one directed link between two nodes, its
    port coefficients, tap lines, propagation model and link budget.

    Sample arithmetic (src/src/chem/dsp) and libm enter [processChannel]
    through the class [Dsp]; the file is about what the channel does with the
    results: which power is used, when it is measured again, how the received
    power is limited, what is remembered. *)

From Stdlib Require Import ZArith Lia Strings.String Floats.SpecFloat.
From stdpp Require Import prelude list strings gmap list_numbers.
From S2P Require Import Prelude Ieee Common CxxLib NodeConfig.

(** [signal_v]: complex single-precision samples. *)
Definition signal_v : Type := list (float * float).

(** [struct chId]. *)
Record chId : Type := mkChId { src : Z; dest : Z }.

#[global] Instance chId_eq_dec : EqDecision chId.
Proof. solve_decision. Defined.

#[global] Instance chId_countable : Countable chId.
Proof.
  refine (inj_countable' (fun c => (src c, dest c)) (fun p => mkChId (fst p) (snd p)) _).
  by intros [].
Defined.

Record LinkBudget : Type := mkLinkBudget {
  tx_gain : float;             (* float *)
  rx_gain : float;             (* float *)
  noise_figure : float;        (* double *)
  tx_ant_gain : float;         (* float *)
  rx_ant_gain : float;         (* float *)
  tx_cable_loss : float;       (* float *)
  rx_cable_loss : float;       (* float *)
  source_power : float;        (* double *)
}.

#[global] Instance LinkBudget_eta : Settable LinkBudget := fun b =>
  mkLinkBudget (tx_gain b) (rx_gain b) (noise_figure b) (tx_ant_gain b) (rx_ant_gain b)
    (tx_cable_loss b) (rx_cable_loss b) (source_power b).

(** [dsp::channel::CIRApplyMethod]. *)
Inductive CIRApplyMethod : Type := CIR_NONE | FIR_CAUSAL | FIR_CENTERED | DIRECT_CONV.

#[global] Instance CIRApplyMethod_eq_dec : EqDecision CIRApplyMethod.
Proof. solve_decision. Defined.

Record ChannelProcessParams : Type := mkParams {
  coeff : float;               (* float *)
  s_perBuff : Z;               (* size_t *)
  sample_ratio : float;        (* float *)
  sample_rate_hz : float;      (* double *)
  src_channel_index : Z;
  dest_channel_index : Z;
  propagationModel : PropagationModel;
  ground_coeff : float;        (* float *)
  src_config : option NodeConfig.t;
  dest_config : option NodeConfig.t;
  freq : float;                (* double *)
}.

#[global] Instance ChannelProcessParams_eta : Settable ChannelProcessParams := fun p =>
  mkParams (coeff p) (s_perBuff p) (sample_ratio p) (sample_rate_hz p)
    (src_channel_index p) (dest_channel_index p) (propagationModel p) (ground_coeff p)
    (src_config p) (dest_config p) (freq p).

(** What a link uses of src/src/chem/dsp and of libm. *)
Class Dsp : Type := {
  resample : signal_v → signal_v → float → Z → signal_v;
  fc32_mul_scalar : signal_v → float → signal_v → Z → signal_v;
  fc32_mul_scalar_sum : signal_v → float → signal_v → signal_v → Z → signal_v;
  fc32_lshift : signal_v → Z → signal_v → Z → signal_v;
  calc_power : signal_v → Z → float;
  apply_cir : signal_v → signal_v → signal_v → Z → CIRApplyMethod → signal_v;
  get_noise : Z → float → NoiseType → float → signal_v;
  apply_frequency_offset : signal_v → Z → float → float → float → signal_v * float;
  compute_antenna_gain_db : NodeConfig.t → bool → float → float → float → float;
  calc_fspl : float → float → float → float;
  calc_2ray : float → float → float → float → float → float → float;
  calc_3gpp_38_901 : float → float → float → float → string → float → float;
  calc_okumura_hata : float → float → float → float → string → float → float;
  calc_longley_rice :
    float → float → float → float → float → float → float → Z → float → float;
  log10f : float → float;
  pow10f : float → float;      (** [std::pow(10.0f, x)] *)
  sqrtf : float → float;
}.

Module Channel.

Record t : Type := mk {
  source : string;
  destination : string;
  txNumCh : Z;                 (* uint8_t *)
  rxNumCh : Z;                 (* uint8_t *)
  chTaps : gmap chId signal_v;
  portChCoeffs : gmap chId float;
  linkInfo : NodeLink;
  txHeight : float;
  rxHeight : float;
  scenario3gpp : string;
  hataEnvironment : string;
  itmRefractivity : float;
  itmGroundConductivity : float;
  itmGroundPermittivity : float;
  itmClimateZone : Z;
  noiseType : NoiseType;
  plType : PathLossType;
  plDb : float;
  snrMeasured : float;
  snrOverride : option float;
  shadowingStd : float;
  powerCounter : Z;            (* uint8_t *)
  cachedSigPower : float;
  freqOffsetHz : float;
  freqOffsetPhase : list float;
  dopplerEnabled : bool;
  dopplerHz : float;
  cirApplyMethod : CIRApplyMethod;
  activeExtension : string;
  bypassesPathLoss : bool;     (** [_extensionBypassesPathLoss] *)
  extensionPathLossDb : float;
}.

#[global] Instance t_eta : Settable t := fun c =>
  mk (source c) (destination c) (txNumCh c) (rxNumCh c) (chTaps c) (portChCoeffs c)
    (linkInfo c) (txHeight c) (rxHeight c) (scenario3gpp c) (hataEnvironment c)
    (itmRefractivity c) (itmGroundConductivity c) (itmGroundPermittivity c)
    (itmClimateZone c) (noiseType c) (plType c) (plDb c) (snrMeasured c) (snrOverride c)
    (shadowingStd c) (powerCounter c) (cachedSigPower c) (freqOffsetHz c)
    (freqOffsetPhase c) (dopplerEnabled c) (dopplerHz c) (cirApplyMethod c)
    (activeExtension c) (bypassesPathLoss c) (extensionPathLossDb c).

(** [createPortCombinations]: [std::map::insert] keeps an existing entry. *)
Definition insert_new (k : chId) (v : float) (m : gmap chId float) : gmap chId float :=
  match m !! k with Some _ => m | None => <[k := v]> m end.

Definition port_row (rx c0 : Z) (m : gmap chId float) : gmap chId float :=
  foldl (fun m c1 => insert_new (mkChId c0 c1) (F32.of_Z 1) m) m (seqZ 0 rx).

Definition createPortCombinations (tx rx : Z) (m : gmap chId float) : gmap chId float :=
  foldl (fun m c0 => port_row rx c0 m) m (seqZ 0 tx).

Definition ctor (src dst : string) (tx rx : Z) : t :=
  mk src dst tx rx ∅ (createPortCombinations tx rx ∅)
    (mkNodeLink NT_UNKNOWN fzero fzero fzero fzero)
    (F32.of_float (F64.lit 15 1)) (F32.of_float (F64.lit 15 1)) "UMa" "URBAN"
    (F32.of_Z 301) (F32.of_float (F64.lit 5 3)) (F32.of_Z 15) 5
    AWGN freeSpace fzero fzero None fzero 0 (F32.of_Z (-100)) fzero
    (replicate (Z.to_nat tx) fzero) false fzero FIR_CAUSAL "" false fzero.

(** *** Link geometry and model configuration *)

Definition set_link (f : NodeLink → NodeLink) (c : t) : t :=
  c <| linkInfo := f (linkInfo c) |>.

Definition updateDistance (d : float) (c : t) : t :=
  set_link (fun l => mkNodeLink (nl_type l) d (h_dist l) (elevation l) (azimuth l)) c.

Definition updateAltitude (a : float) (c : t) : t :=
  set_link (fun l => mkNodeLink (nl_type l) (dist l) a (elevation l) (azimuth l)) c.

Definition updateElevation (e : float) (c : t) : t :=
  set_link (fun l => mkNodeLink (nl_type l) (dist l) (h_dist l) e (azimuth l)) c.

Definition updateAzimuth (a : float) (c : t) : t :=
  set_link (fun l => mkNodeLink (nl_type l) (dist l) (h_dist l) (elevation l) a) c.

Definition getLinkDistance (c : t) : float := dist (linkInfo c).

(** [if (std::isfinite(x)) field = x]. *)
Definition finite_or (x old : float) : float := if isfinite x then x else old.

Definition updateHeights (tx rx : float) (c : t) : t :=
  c <| txHeight := finite_or tx (txHeight c) |>
    <| rxHeight := finite_or rx (rxHeight c) |>.

Definition updateNoiseType (n : NoiseType) (c : t) : t := c <| noiseType := n |>.

Definition updatePlType (p : PathLossType) (c : t) : t := c <| plType := p |>.

Definition setPl (x : float) (c : t) : t := c <| plDb := x |>.

Definition update3gppScenario (s : string) (c : t) : t :=
  if empty_str s then c else c <| scenario3gpp := s |>.

Definition updateHataEnvironment (s : string) (c : t) : t :=
  if empty_str s then c else c <| hataEnvironment := s |>.

Definition updateITMParams (r g p : float) (zone : Z) (c : t) : t :=
  c <| itmRefractivity := finite_or r (itmRefractivity c) |>
    <| itmGroundConductivity := finite_or g (itmGroundConductivity c) |>
    <| itmGroundPermittivity := finite_or p (itmGroundPermittivity c) |>
    <| itmClimateZone := clampZ 1 7 zone |>.

Definition setShadowingSTD (x : float) (c : t) : t := c <| shadowingStd := x |>.

Definition setActiveExtension (name : string) (bypass : bool) (c : t) : t :=
  c <| activeExtension := name |> <| bypassesPathLoss := bypass |>.

Definition clearActiveExtension (c : t) : t :=
  c <| activeExtension := "" |> <| bypassesPathLoss := false |>
    <| extensionPathLossDb := fzero |>.

Definition isExtensionActive (c : t) : bool := negb (empty_str (activeExtension c)).

Definition setExtensionPathLossDb (x : float) (c : t) : t := c <| extensionPathLossDb := x |>.

Definition updateSNR (x : float) (c : t) : t := c <| snrOverride := Some x |>.

Definition clearSNROverride (c : t) : t := c <| snrOverride := None |>.

Definition getSNR (c : t) : float :=
  match snrOverride c with Some x => x | None => snrMeasured c end.

Definition setMeasuredSNRdB (x : float) (c : t) : t := c <| snrMeasured := x |>.

(** *** Port coefficients and taps *)

Definition getChCoeffs (s d : Z) (c : t) : float :=
  match portChCoeffs c !! mkChId s d with Some x => x | None => fzero end.

Definition updateChCoeff (k : chId) (v : float) (c : t) : t :=
  match portChCoeffs c !! k with
  | Some _ => c <| portChCoeffs := <[k := v]> (portChCoeffs c) |>
  | None => c
  end.

Definition setCIRApplyMethod (m : CIRApplyMethod) (c : t) : t := c <| cirApplyMethod := m |>.

Definition updateChTaps (k : chId) (taps : signal_v) (c : t) : t :=
  c <| chTaps := <[k := taps]> (chTaps c) |>.

Definition clearChTaps (k : chId) (c : t) : t := c <| chTaps := delete k (chTaps c) |>.

Definition getChTapCount (k : chId) (c : t) : Z :=
  match chTaps c !! k with Some l => Z.of_nat (length l) | None => 0 end.

Definition setFrequencyOffsetHz (x : float) (c : t) : t :=
  c <| freqOffsetHz := if isfinite x then x else fzero |>.

Definition setDopplerEnabled (b : bool) (c : t) : t := c <| dopplerEnabled := b |>.

Definition setDopplerHz (x : float) (c : t) : t :=
  c <| dopplerHz := if isfinite x then x else fzero |>.

Section Processing.
Context `{Dsp}.

Definition LIN_TO_DB (x : float) : float := F32.mul (F32.of_Z 10) (log10f x).

Definition DB_TO_LIN (x : float) : float := pow10f (F32.div x (F32.of_Z 10)).

(** [applyFrequencyOffset]: the phase of the output port is carried over. *)
Definition applyFrequencyOffset (sig : signal_v) (size : Z) (rate : float) (port : Z)
    (c : t) : signal_v * t :=
  let total := F64.add (freqOffsetHz c) (if dopplerEnabled c then dopplerHz c else fzero) in
  if feq total fzero then (sig, c)
  else match freqOffsetPhase c !! Z.to_nat port with
       | None => (sig, c)
       | Some ph =>
           let '(sig', ph') := apply_frequency_offset sig size rate total ph in
           (sig', c <| freqOffsetPhase := <[Z.to_nat port := ph']> (freqOffsetPhase c) |>)
       end.

(** TX_GAIN and RX_GAIN of common.h. *)
Definition TX_GAIN : float := F64.of_Z 15.

Definition RX_GAIN : float := F64.of_Z 10.

Definition computeLinkBudget (sc dc : NodeConfig.t) (f : float) (c : t) : LinkBudget :=
  let b := mkLinkBudget
    (F32.of_float (if NodeConfig.m_hasDeviceTxGain sc then NodeConfig.m_deviceTxGain sc
                   else TX_GAIN))
    (F32.of_float (if NodeConfig.m_hasDeviceRxGain dc then NodeConfig.m_deviceRxGain dc
                   else RX_GAIN))
    fzero fzero fzero fzero fzero S754_nan in
  let b := match NodeConfig.m_characteristics sc with
    | Some ch =>
        b <| tx_gain := F32.add (tx_gain b) (F32.of_float (tx_pa_gain_db ch)) |>
          <| noise_figure := tx_noise_figure_db ch |>
          <| tx_cable_loss := F32.of_float (cable_loss_db ch) |>
          <| source_power := source_power_dbfs ch |>
    | None => b
    end in
  let b := match NodeConfig.m_characteristics dc with
    | Some ch =>
        b <| rx_gain := F32.add (rx_gain b) (F32.of_float (rx_gain_db ch)) |>
          <| noise_figure := F64.add (noise_figure b) (rx_noise_figure_db ch) |>
          <| rx_cable_loss := F32.of_float (cable_loss_db ch) |>
    | None => b
    end in
  b <| tx_ant_gain := compute_antenna_gain_db sc true f (elevation (linkInfo c))
                        (azimuth (linkInfo c)) |>
    <| rx_ant_gain := compute_antenna_gain_db dc false f (elevation (linkInfo c))
                        (azimuth (linkInfo c)) |>.

Definition computePathLoss (d : float) (p : ChannelProcessParams) (c : t) : float :=
  if bypassesPathLoss c then extensionPathLossDb c else
  let f := F32.of_float (freq p) in
  let floor_cm := F32.of_float (F64.lit 1 2) in
  match propagationModel p with
  | FREE_SPACE => calc_fspl d f (shadowingStd c)
  | TWO_RAY => calc_2ray d f (txHeight c) (rxHeight c) (ground_coeff p) (shadowingStd c)
  | THREE_GPP_38_901 =>
      calc_3gpp_38_901 d f (fmax floor_cm (rxHeight c)) (fmax floor_cm (txHeight c))
        (scenario3gpp c) (shadowingStd c)
  | OKUMURA_HATA =>
      calc_okumura_hata d f (fmax (F32.of_Z 1) (txHeight c)) (fmax (F32.of_Z 1) (rxHeight c))
        (hataEnvironment c) (shadowingStd c)
  | LONGLEY_RICE =>
      calc_longley_rice d f (txHeight c) (rxHeight c) (itmRefractivity c)
        (itmGroundConductivity c) (itmGroundPermittivity c) (itmClimateZone c)
        (shadowingStd c)
  | NONE | UNKNOWN => fzero
  end.

Definition kMinSigPower : float := F32.of_Z (-100).

(** Lines 364-384: the transmit power, measured on the first call and every
    fourth call after it unless the node declares a reference. *)
Definition signal_power (budget : LinkBudget) (dst : signal_v) (n : Z) (c : t)
    : float * t :=
  if isfinite (source_power budget) then (F32.of_float (source_power budget), c)
  else
    let cnt := u8 (powerCounter c + 1) in
    if (4 <=? cnt) || fle (cachedSigPower c) kMinSigPower then
      let p := LIN_TO_DB (F32.of_float (F64.add (calc_power dst n) LOG_SAFE_GUARD)) in
      (p, c <| powerCounter := 0 |> <| cachedSigPower := p |>)
    else (cachedSigPower c, c <| powerCounter := cnt |>).

(** Lines 403-440: the taps of the port pair, applied to [dst]; the loss they
    carry counts only when an extension replaces the path loss model. *)
Definition active_taps (p : ChannelProcessParams) (c : t) : option signal_v :=
  if decide (cirApplyMethod c = CIR_NONE) then None
  else match chTaps c !! mkChId (dest_channel_index p) (src_channel_index p) with
       | Some (x :: l) => Some (x :: l)
       | _ => None
       end.

Definition cir_loss (taps : option signal_v) (c : t) : float :=
  match taps with
  | Some l =>
      if bypassesPathLoss c then
        let n := Z.of_nat (length l) in
        let e := F32.mul (calc_power l n) (F32.of_Z n) in
        if flt fzero e then F32.mul (F32.of_Z 10) (log10f e) else fzero
      else fzero
  | None => fzero
  end.

(** Lines 426-440: direct convolution goes through a thread-local scratch
    buffer (whose old contents are arbitrary), the filters work in place. *)
Definition apply_taps (scratch d l : signal_v) (n : Z) (m : CIRApplyMethod) : signal_v :=
  if decide (m = DIRECT_CONV) then
    let grown := scratch ++ replicate (Z.to_nat n - length scratch) (fzero, fzero) in
    take (Z.to_nat n) (apply_cir d grown l n m) ++ drop (Z.to_nat n) d
  else apply_cir d d l n m.

(** What [processChannel] derives for one port pair. *)
Record link_result : Type := mkLinkResult {
  r_p_rx : float;              (** received power, dBFS *)
  r_rx_scale_db : float;
  r_snr : float;
  r_signal : signal_v;
}.

(** [processChannel]; [None] when a configuration is missing. *)
Definition processChannel (scratch s d : signal_v) (p : ChannelProcessParams) (c : t)
    : option link_result * t :=
  match src_config p, dest_config p with
  | Some sc, Some dc =>
      let budget := computeLinkBudget sc dc (freq p) c in
      let gain := if isfinite (coeff p) then coeff p else fzero in
      let n := s_perBuff p in
      let d1 :=
        if feq (sample_ratio p) (F32.of_Z 1) then fc32_mul_scalar s gain d n
        else
          let m := default 0 (trunc (F32.div (F32.of_Z n) (sample_ratio p))) in
          let r := resample s d (sample_ratio p) m in
          fc32_mul_scalar r gain r n in
      let sc16 := (NodeConfig.m_outputFormat sc =? "sc16")%string
                  || (NodeConfig.m_inputFormat sc =? "sc16")%string in
      let '(sig_power, c) := signal_power budget d1 n c in
      let use_ref := isfinite (source_power budget) in
      let has_signal := isfinite sig_power && flt kMinSigPower sig_power in
      let safe := if has_signal then sig_power else kMinSigPower in
      let sig_ref := if use_ref then F32.of_float (source_power budget) else safe in
      let bw := if isfinite (sample_rate_hz p) && flt fzero (sample_rate_hz p)
                then sample_rate_hz p else F64.of_Z 1 in
      let p_tx := F32.sub (F32.add (F32.add sig_ref (tx_gain budget)) (tx_ant_gain budget))
                    (tx_cable_loss budget) in
      let taps := active_taps p c in
      let loss := cir_loss taps c in
      let d2 := match taps with
                | Some l => apply_taps scratch d1 l n (cirApplyMethod c)
                | None => d1
                end in
      let pl := computePathLoss (getLinkDistance c) p c in
      let c := setPl pl c in
      let p_in := F32.add sig_ref loss in
      let p_rx := F32.sub (F32.add (F32.add (F32.sub (F32.add p_tx loss) pl)
                    (rx_gain budget)) (rx_ant_gain budget)) (rx_cable_loss budget) in
      let p_rx := fmin p_rx fzero in
      let nf := F64.add (noise_figure budget) (rx_gain budget) in
      let noise := get_noise n bw (noiseType c) nf in
      let noise_power := LIN_TO_DB (calc_power noise n) in
      let scale_db := F32.sub p_rx p_in in
      let scale_db := if isfinite scale_db then scale_db else F32.of_Z (-300) in
      let scale := sqrtf (DB_TO_LIN scale_db) in
      let snr := F32.sub p_rx noise_power in
      let d3 := fc32_mul_scalar_sum d2 scale noise d2 n in
      let d4 := if sc16 then fc32_lshift d3 4 d3 n else d3 in
      let '(d5, c) := applyFrequencyOffset d4 n (sample_rate_hz p) (dest_channel_index p) c in
      let c := if has_signal || use_ref then setMeasuredSNRdB snr c else c in
      (Some (mkLinkResult p_rx scale_db snr d5), c)
  | _, _ => (None, c)
  end.

End Processing.

(** *** Ports *)

Lemma insert_new_lookup k v m k' :
  insert_new k v m !! k' = match m !! k' with
                           | Some x => Some x
                           | None => if decide (k = k') then Some v else None
                           end.
Proof.
  unfold insert_new. destruct (decide (k = k')) as [->|Hne].
  - destruct (m !! k') eqn:E; [done|]. by rewrite lookup_insert_eq.
  - destruct (m !! k); [by destruct (m !! k')|].
    rewrite lookup_insert_ne by done. by destruct (m !! k').
Qed.

(** Inserting a default under every key of a list. *)
Lemma foldl_insert_new {A} (f : A → chId) v l m k :
  foldl (fun m a => insert_new (f a) v m) m l !! k =
  match m !! k with
  | Some x => Some x
  | None => if decide (k ∈ f <$> l) then Some v else None
  end.
Proof.
  revert m. induction l as [|a l IH]; intros m; cbn [foldl fmap list_fmap].
  - rewrite decide_False by apply not_elem_of_nil. by destruct (m !! k).
  - rewrite IH, insert_new_lookup. destruct (m !! k); [done|].
    destruct (decide (f a = k)) as [<-|Hne].
    + rewrite decide_True by left. done.
    + destruct (decide (k ∈ f <$> l)).
      * by rewrite decide_True by by right.
      * rewrite decide_False; [done|]. by intros [->|?]%elem_of_cons.
Qed.

Definition ports (tx rx : Z) : list chId :=
  c0 ← seqZ 0 tx; (fun c1 => mkChId c0 c1) <$> seqZ 0 rx.

Lemma createPortCombinations_ports tx rx m k :
  createPortCombinations tx rx m !! k =
  match m !! k with
  | Some x => Some x
  | None => if decide (k ∈ ports tx rx) then Some (F32.of_Z 1) else None
  end.
Proof.
  unfold createPortCombinations, ports. generalize (seqZ 0 tx) as l. intros l. revert m.
  induction l as [|c0 l IH]; intros m; cbn [foldl].
  - rewrite decide_False by apply not_elem_of_nil. by destruct (m !! k).
  - rewrite IH. unfold port_row.
    rewrite (foldl_insert_new (fun c1 => mkChId c0 c1)). destruct (m !! k); [done|].
    cbn [mbind list_bind].
    destruct (decide (k ∈ (fun c1 => mkChId c0 c1) <$> seqZ 0 rx)) as [Hin|Hin].
    + by rewrite decide_True by (apply elem_of_app; by left).
    + destruct (decide (k ∈ l ≫= _)) as [Hl|Hl].
      * by rewrite decide_True by (apply elem_of_app; by right).
      * rewrite decide_False; [done|]. by intros [?|?]%elem_of_app.
Qed.

Lemma elem_of_ports tx rx s d :
  mkChId s d ∈ ports tx rx ↔ 0 ≤ s < tx ∧ 0 ≤ d < rx.
Proof.
  unfold ports. rewrite list_elem_of_bind. split.
  - intros (c0 & (c1 & [= -> ->] & ?%elem_of_seqZ)%list_elem_of_fmap & ?%elem_of_seqZ). lia.
  - intros [??]. exists s. rewrite elem_of_seqZ, list_elem_of_fmap. split; [|lia].
    exists d. rewrite elem_of_seqZ. split; [done|lia].
Qed.

(** *** Results of [processChannel] *)

Section Results.
Context `{Dsp}.

Lemma fmin_zero_not_positive x : flt fzero (fmin x fzero) = false.
Proof. unfold fmin, flt. by destruct (SFltb fzero x) eqn:E. Qed.

Lemma power_measured b d n c :
  isfinite (source_power b) = false →
  (4 <=? u8 (powerCounter c + 1)) || fle (cachedSigPower c) kMinSigPower = true →
  signal_power b d n c =
  (LIN_TO_DB (F32.of_float (F64.add (calc_power d n) LOG_SAFE_GUARD)),
   c <| powerCounter := 0 |>
     <| cachedSigPower :=
          LIN_TO_DB (F32.of_float (F64.add (calc_power d n) LOG_SAFE_GUARD)) |>).
Proof. intros Hb Hc. unfold signal_power. by rewrite Hb, Hc. Qed.

Lemma power_cached b d n c :
  isfinite (source_power b) = false →
  (4 <=? u8 (powerCounter c + 1)) || fle (cachedSigPower c) kMinSigPower = false →
  signal_power b d n c =
  (cachedSigPower c, c <| powerCounter := u8 (powerCounter c + 1) |>).
Proof. intros Hb Hc. unfold signal_power. by rewrite Hb, Hc. Qed.

Lemma applyFrequencyOffset_fields sig n rate port c :
  let '(_, c') := applyFrequencyOffset sig n rate port c in
  ∃ ph, c' = c <| freqOffsetPhase := ph |> ∧
    ∀ i, i ≠ Z.to_nat port → ph !! i = freqOffsetPhase c !! i.
Proof.
  unfold applyFrequencyOffset. destruct (feq _ fzero).
  { exists (freqOffsetPhase c). split; [by destruct c|done]. }
  destruct (freqOffsetPhase c !! Z.to_nat port) as [ph|].
  2:{ exists (freqOffsetPhase c). split; [by destruct c|done]. }
  destruct (apply_frequency_offset _ _ _ _ _) as [sig' ph'].
  eexists. split; [done|]. intros i Hi. by rewrite list_lookup_insert_ne.
Qed.

Lemma processChannel_result scratch s d p c r c' :
  processChannel scratch s d p c = (Some r, c') →
  flt fzero (r_p_rx r) = false ∧ isfinite (r_rx_scale_db r) = true.
Proof.
  unfold processChannel. destruct (src_config p); [|done]. destruct (dest_config p); [|done].
  destruct (signal_power _ _ _ _) as [sp c1].
  destruct (applyFrequencyOffset _ _ _ _ _) as [d5 c2].
  intros [= <- <-]. cbn [r_p_rx r_rx_scale_db]. split; [apply fmin_zero_not_positive|].
  match goal with |- isfinite (if isfinite ?x then _ else _) = _ => destruct (isfinite x) eqn:E end;
    [done|by vm_compute].
Qed.

End Results.

End Channel.

(** ** Properties *)

(** A new link connects every port of the sender to every port of the
    receiver with unit gain, and no others: the coefficient of a port pair is 1
    inside the two port counts and 0 outside, and updating a coefficient never
    creates a port pair. *)
Theorem channel_ports (src dst : string) (tx rx : Z) (s d : Z) :
  let c := Channel.ctor src dst tx rx in
  Channel.getChCoeffs s d c
  = (if decide (0 ≤ s < tx ∧ 0 ≤ d < rx) then F32.of_Z 1 else fzero) ∧
  ∀ k v, Channel.getChCoeffs s d (Channel.updateChCoeff k v c)
         = if decide (k = mkChId s d ∧ 0 ≤ s < tx ∧ 0 ≤ d < rx) then v
           else Channel.getChCoeffs s d c.
Proof.
  assert (Hl : ∀ s d, Channel.portChCoeffs (Channel.ctor src dst tx rx) !! mkChId s d
    = if decide (0 ≤ s < tx ∧ 0 ≤ d < rx) then Some (F32.of_Z 1) else None).
  { intros s' d'. cbn [Channel.portChCoeffs Channel.ctor].
    rewrite Channel.createPortCombinations_ports, lookup_empty.
    destruct (decide (mkChId s' d' ∈ _)) as [Hin|Hin];
      rewrite Channel.elem_of_ports in Hin; by case_decide. }
  cbn zeta. unfold Channel.getChCoeffs, Channel.updateChCoeff. split.
  - rewrite Hl. by case_decide.
  - intros [s' d'] v. rewrite Hl.
    destruct (decide (mkChId s' d' = mkChId s d)) as [[= -> ->]|Hne].
    + destruct (decide (0 ≤ s < tx ∧ 0 ≤ d < rx)) as [Hin|Hin].
      * rewrite decide_True by done. cbn. by rewrite lookup_insert_eq.
      * rewrite decide_False by tauto. done.
    + rewrite (decide_False (P := mkChId s' d' = mkChId s d ∧ _)) by tauto.
      destruct (decide (0 ≤ s' < tx ∧ 0 ≤ d' < rx)); [|done].
      cbn. by rewrite lookup_insert_ne.
Qed.

(** The received power a link reports is never above 0 dBFS, and the scaling it
    reports is a finite number of dB: the power is capped, and a scaling that is
    not finite is replaced by -300 dB. *)
Theorem link_power_limited `{Dsp} (scratch s d : signal_v) (p : ChannelProcessParams)
    (c : Channel.t) :
  match (Channel.processChannel scratch s d p c).1 with
  | Some r => flt fzero (Channel.r_p_rx r) = false ∧
              isfinite (Channel.r_rx_scale_db r) = true
  | None => src_config p = None ∨ dest_config p = None
  end.
Proof.
  destruct (Channel.processChannel scratch s d p c) as [[r|] c'] eqn:E; cbn [fst].
  - by apply Channel.processChannel_result in E.
  - unfold Channel.processChannel in E. destruct (src_config p); [|by left].
    destruct (dest_config p); [|by right].
    destruct (Channel.signal_power _ _ _ _) as [sp c1].
    by destruct (Channel.applyFrequencyOffset _ _ _ _ _) as [d5 c2].
Qed.

(** The transmit power of a node without a declared reference is measured on
    the first burst and on every fourth one after it; the three in between
    reuse the cached value. *)
Theorem power_every_fourth `{Dsp} (b : LinkBudget) (n : Z) (c : Channel.t)
    (d0 d1 d2 d3 d4 : signal_v)
    (Href : isfinite (source_power b) = false)
    (Hfresh : Channel.powerCounter c = 0)
    (Hcache : fle (Channel.cachedSigPower c) Channel.kMinSigPower = true)
    (Haudible : fle (Channel.LIN_TO_DB (F32.of_float
                       (F64.add (calc_power d0 n) LOG_SAFE_GUARD)))
                    Channel.kMinSigPower = false) :
  let measure d :=
    Channel.LIN_TO_DB (F32.of_float (F64.add (calc_power d n) LOG_SAFE_GUARD)) in
  let '(p0, c0) := Channel.signal_power b d0 n c in
  let '(p1, c1) := Channel.signal_power b d1 n c0 in
  let '(p2, c2) := Channel.signal_power b d2 n c1 in
  let '(p3, c3) := Channel.signal_power b d3 n c2 in
  let '(p4, c4) := Channel.signal_power b d4 n c3 in
  p0 = measure d0 ∧ p1 = p0 ∧ p2 = p0 ∧ p3 = p0 ∧ p4 = measure d4 ∧
  Channel.powerCounter c4 = Channel.powerCounter c0.
Proof.
  cbn zeta.
  rewrite (Channel.power_measured b d0 n c Href) by (rewrite Hcache, orb_true_r; done).
  set (m := Channel.LIN_TO_DB _) in *.
  rewrite (Channel.power_cached b d1 n) by (cbn; done).
  rewrite (Channel.power_cached b d2 n) by (cbn; done).
  rewrite (Channel.power_cached b d3 n) by (cbn; done).
  rewrite (Channel.power_measured b d4 n) by (cbn; done). done.
Qed.

(** A sample processing that changes nothing: unit power everywhere. *)
Definition flat_dsp : Dsp := {|
  resample s _ _ _ := s;
  fc32_mul_scalar s _ _ _ := s;
  fc32_mul_scalar_sum s _ _ _ _ := s;
  fc32_lshift s _ _ _ := s;
  calc_power _ _ := F32.of_Z 1;
  apply_cir s _ _ _ _ := s;
  get_noise _ _ _ _ := [];
  apply_frequency_offset s _ _ _ ph := (s, ph);
  compute_antenna_gain_db _ _ _ _ _ := fzero;
  calc_fspl _ _ _ := F32.of_Z 80;
  calc_2ray _ _ _ _ _ _ := F32.of_Z 80;
  calc_3gpp_38_901 _ _ _ _ _ _ := F32.of_Z 80;
  calc_okumura_hata _ _ _ _ _ _ := F32.of_Z 80;
  calc_longley_rice _ _ _ _ _ _ _ _ _ := F32.of_Z 80;
  log10f _ := fzero;
  pow10f _ := F32.of_Z 1;
  sqrtf x := x;
|}.

Lemma power_every_fourth_witness :
  let c := Channel.ctor "a" "b" 1 1 in
  let b := mkLinkBudget fzero fzero fzero fzero fzero fzero fzero S754_nan in
  let measure d := @Channel.LIN_TO_DB flat_dsp (F32.of_float
    (F64.add (@calc_power flat_dsp d 8) LOG_SAFE_GUARD)) in
  let '(p0, c0) := @Channel.signal_power flat_dsp b [] 8 c in
  let '(p1, c1) := @Channel.signal_power flat_dsp b [] 8 c0 in
  let '(p2, c2) := @Channel.signal_power flat_dsp b [] 8 c1 in
  let '(p3, c3) := @Channel.signal_power flat_dsp b [] 8 c2 in
  let '(p4, c4) := @Channel.signal_power flat_dsp b [] 8 c3 in
  p0 = measure [] ∧ p1 = p0 ∧ p2 = p0 ∧ p3 = p0 ∧ p4 = measure [] ∧
  Channel.powerCounter c4 = Channel.powerCounter c0.
Proof.
  intros c b. apply (@power_every_fourth flat_dsp b 8 c [] [] [] [] []);
    vm_compute; reflexivity.
Defined.
