(* ===== verification/Kernels.v ===== *)
(** src/src/chem/dsp/signal.cpp, utils.cpp and the impulse-response part of
    channel.cpp: the filters that run on samples.

    Samples are an abstract type with the operations the loops use ([Sample]);
    VOLK's kernels are a class ([Volk]) whose laws ([VolkExact]) say what
    their documentation says, in exact arithmetic.  Buffers are lists, every
    access is checked, and a call whose input and output are the same vector
    ([InPlace]) is told apart from one with two ([Separate]). *)

From Stdlib Require Import ZArith Lia Floats.SpecFloat.
From stdpp Require Import prelude list list_numbers.
From S2P Require Import Prelude.
From S2P Require Import Ieee.
From S2P Require Import CxxLib.
From S2P Require Import Channel.

(** What a kernel can do wrong. *)
Inductive fault : Type :=
  | OutOfBounds                (** an access outside a vector *)
  | BadConversion              (** a float without an [int] value *)
  | BadLength.                 (** a vector longer than [max_size] *)

#[global] Instance fault_eq_dec : EqDecision fault.
Proof. solve_decision. Defined.

(** Samples, [fc] in the code. *)
Class Sample (A : Type) : Type := {
  zero : A;
  add : A → A → A;
  mul : A → A → A;
}.

(** The laws of exact complex arithmetic that the filters depend on. *)
Class ExactSample (A : Type) `{Sample A} : Prop := {
  add_assoc : ∀ x y z : A, add x (add y z) = add (add x y) z;
  add_comm : ∀ x y : A, add x y = add y x;
  add_zero : ∀ x : A, add x zero = x;
  mul_comm : ∀ x y : A, mul x y = mul y x;
  mul_zero : ∀ x : A, mul zero x = zero;
}.

(** VOLK: [volk_32fc_x2_dot_prod_32fc], [volk_32fc_32f_dot_prod_32fc] and
    [volk_32fc_s32fc_multiply_32fc] on windows of [num_points] samples.
    [overread] is how far past a window the dot products may read. *)
Class Volk (A : Type) : Type := {
  overread : nat;
  dot_prod : list A → list A → A;
  dot_prod_real : list A → list float → A;
  s_multiply : list A → A → list A;
}.

Definition sum_of `{Sample A} : list A → A := foldr add zero.

Class VolkExact (A : Type) `{Sample A, Volk A} : Prop := {
  dot_prod_sum : ∀ xs ts : list A,
    length xs = length ts → dot_prod xs ts = sum_of (zip_with mul xs ts);
  s_multiply_map : ∀ (xs : list A) (s : A), s_multiply xs s = (λ x, mul x s) <$> xs;
}.

(** [fc]: a pair of floats, multiplied and added the way [std::complex] does. *)
#[export] Instance fc_sample : Sample (float * float) := {
  zero := (fzero, fzero);
  add x y := (F32.add x.1 y.1, F32.add x.2 y.2);
  mul x y := (F32.sub (F32.mul x.1 y.1) (F32.mul x.2 y.2),
              F32.add (F32.mul x.1 y.2) (F32.mul x.2 y.1));
}.

(** The input and output arguments of a kernel. *)
Inductive io (A : Type) : Type :=
  | InPlace (buf : list A)
  | Separate (inp out : list A).

Arguments InPlace {A} buf.
Arguments Separate {A} inp out.

Module Kernels.

Section Buffers.
Context {A : Type}.

Definition input (b : io A) : list A :=
  match b with InPlace l => l | Separate i _ => i end.

Definition output (b : io A) : list A :=
  match b with InPlace l => l | Separate _ o => o end.

Definition set_output (l : list A) (b : io A) : io A :=
  match b with InPlace _ => InPlace l | Separate i _ => Separate i l end.

(** [v[i]] and [v[i] = x]. *)
Definition rd (l : list A) (i : nat) : outcome fault A := of_option OutOfBounds (l !! i).

Definition wr (i : nat) (x : A) (l : list A) : outcome fault (list A) :=
  if decide (i < length l)%nat then Ok (<[i := x]> l) else Err OutOfBounds.

(** [std::copy_n(src, n, dst + off)]. *)
Definition copy_n (src : list A) (n off : nat) (dst : list A) : outcome fault (list A) :=
  if decide (n ≤ length src)%nat
  then of_option OutOfBounds (mwrite (Z.of_nat off) (take n src) dst)
  else Err OutOfBounds.

(** [if (output.size() < n) output.resize(n)]. *)
Definition grow (z : A) (n : nat) (l : list A) : list A :=
  l ++ replicate (n - length l) z.

(** The [n] samples from [i] on, which a dot product reads, and the [over]
    samples it may touch behind them. *)
Definition window (over : nat) (l : list A) (i n : nat) : outcome fault (list A) :=
  if decide (i + n + over ≤ length l)%nat
  then Ok (take n (drop i l)) else Err OutOfBounds.

End Buffers.

Section Kernels.
Context {A : Type} `{Sample A, Volk A}.

(** *** channel.cpp: impulse responses *)

Definition copy_through (n : nat) (b : io A) : outcome fault (io A) :=
  match b with
  | InPlace _ => Ok b
  | Separate i o => do! o' <- copy_n i n 0 o; Ok (Separate i o')
  end%chem.

Definition apply_cir_fir_causal (taps : list A) (size : nat) (b : io A)
    : outcome fault (io A) :=
  if decide (size = 0)%nat then Ok b
  else match taps with
  | [] => copy_through size b
  | _ =>
    let in_size := (size `min` length (input b))%nat in
    let b := set_output (grow zero in_size (output b)) b in
    match taps with
    | [t] =>
        do! xs <- window 0 (input b) 0 in_size;
        do! o <- copy_n (s_multiply xs t) in_size 0 (output b);
        Ok (set_output o b)
    | _ =>
        let tap_len := length taps in
        let rev_taps := reverse taps in
        let pad := (tap_len - 1)%nat in
        do! extended <- copy_n (input b) in_size pad (replicate (in_size + pad) zero);
        ofold (fun i b =>
          do! xs <- window overread extended i tap_len;
          do! ts <- window overread rev_taps 0 tap_len;
          do! o <- wr i (dot_prod xs ts) (output b);
          Ok (set_output o b)) (seq 0 in_size) b
    end
  end%chem.

(** The inner loop of [apply_cir_direct_conv]. *)
Definition accumulate (taps inp : list A) (n : nat) : outcome fault A :=
  (ofold (fun k acc =>
    do! t <- rd taps k;
    do! x <- rd inp (n - k);
    Ok (add acc (mul t x))) (seq 0 (S (n `min` (length taps - 1)))) zero)%chem.

Definition direct_conv_step (taps : list A) (n : nat) (b : io A) : outcome fault (io A) :=
  (do! acc <- accumulate taps (input b) n;
   do! o <- wr n acc (output b);
   Ok (set_output o b))%chem.

Definition apply_cir_direct_conv (taps : list A) (size : nat) (b : io A)
    : outcome fault (io A) :=
  if decide (size = 0)%nat then Ok b
  else
    let in_size := (size `min` length (input b))%nat in
    let b := set_output (grow zero in_size (output b)) b in
    match taps with
    | [] => copy_through in_size b
    | _ => ofold (direct_conv_step taps) (seq 0 in_size) b
    end.

(** *** signal.cpp: linear-phase filters *)

Definition kSimdSlack : nat := 16.

(** The padded copy both overloads build: [n] samples of the signal between
    [delay] copies of its first and [right] copies of sample [last]. *)
Definition extend (signal : list A) (signal_len size delay right : nat)
    : outcome fault (list A) :=
  (let buf := replicate (signal_len + delay + right + kSimdSlack) zero in
   do! buf <- ofold (fun i buf => do! x <- rd signal 0; wr i x buf) (seq 0 delay) buf;
   do! buf <- copy_n signal size delay buf;
   ofold (fun i buf => do! x <- rd signal (signal_len - 1); wr (delay + signal_len + i) x buf)
     (seq 0 right) buf)%chem.

(** [fir_filter] with complex taps: filters [signal.size()] samples. *)
Definition fir_filter (coeffs : list A) (size : nat) (b : io A) : outcome fault (io A) :=
  let signal := input b in
  let signal_len := length signal in
  let coeff_len := length coeffs in
  if decide (coeff_len = 0 ∨ signal_len = 0)%nat then Ok b
  else
    let delay := ((coeff_len - 1) / 2)%nat in
    let right := (coeff_len - 1 - delay)%nat in
    (do! extended <- extend signal signal_len size delay right;
     let padded := coeffs ++ replicate kSimdSlack zero in
     ofold (fun i b =>
       do! xs <- window overread extended i coeff_len;
       do! ts <- window overread padded 0 coeff_len;
       do! o <- wr i (dot_prod xs ts) (output b);
       Ok (set_output o b)) (seq 0 signal_len) b)%chem.

(** [fir_filter] with real taps: filters [size] samples. *)
Definition fir_filter_real (coeffs : list float) (size : nat) (b : io A)
    : outcome fault (io A) :=
  let signal := input b in
  let coeff_len := length coeffs in
  if decide (coeff_len = 0 ∨ size = 0)%nat then Ok b
  else
    let delay := ((coeff_len - 1) / 2)%nat in
    let right := (coeff_len - 1 - delay)%nat in
    (do! extended <- extend signal size size delay right;
     let padded := coeffs ++ replicate kSimdSlack fzero in
     ofold (fun i b =>
       do! xs <- window overread extended i coeff_len;
       do! ts <- window overread padded 0 coeff_len;
       do! o <- wr i (dot_prod_real xs ts) (output b);
       Ok (set_output o b)) (seq 0 size) b)%chem.

(** [apply_cir]. *)
Definition apply_cir (taps : list A) (size : nat) (method : CIRApplyMethod) (b : io A)
    : outcome fault (io A) :=
  if decide (size = 0)%nat then Ok b
  else match method with
  | CIR_NONE =>
      match b with
      | InPlace _ => Ok b
      | Separate _ _ =>
          let in_size := (size `min` length (input b))%nat in
          copy_through in_size (set_output (grow zero in_size (output b)) b)
      end
  | FIR_CENTERED => fir_filter taps (size `min` length (input b)) b
  | DIRECT_CONV => apply_cir_direct_conv taps size b
  | FIR_CAUSAL => apply_cir_fir_causal taps size b
  end.

(** [upsample] and [downsample]: [dest = src] replaces the whole vector. *)
Definition upsample (src dst : list A) (up : Z) (size : nat) : outcome fault (list A) :=
  if decide (up = 1) then Ok src
  else ofold (fun i dst => do! x <- rd src i; wr (i * Z.to_nat up) x dst)%chem
         (seq 0 size) dst.

Definition downsample (src dst : list A) (down : Z) (size : nat) : outcome fault (list A) :=
  if decide (down = 1) then Ok src
  else ofold (fun i dst => do! x <- rd src (i * Z.to_nat down); wr i x dst)%chem
         (seq 0 (size / Z.to_nat down)) dst.

End Kernels.

(** *** utils.cpp: filter design

    The elementary functions of libm are parameters; literals are rounded
    once, as the compiler does. *)

Class Libm : Type := {
  expf : float → float;
  sqrtf : float → float;
  sinf : float → float;
}.

Definition flit (n k : Z) : float :=
  SFdiv 24 128 (S754_finite false (Z.to_pos n) 0) (S754_finite false (Z.to_pos (10 ^ k)) 0).

Definition M_PI : float :=
  SFdiv 53 1024 (S754_finite false 314159265358979323846 0)
    (S754_finite false (Z.to_pos (10 ^ 20)) 0).

(** Conversion to [int] and [std::vector(n)] with an [int] argument. *)
Definition to_int (x : option Z) : outcome fault Z :=
  match x with
  | Some z => if decide (- 2 ^ 31 ≤ z < 2 ^ 31) then Ok z else Err BadConversion
  | None => Err BadConversion
  end.

Definition max_size : Z := (2 ^ 63 - 1) / 8.

Definition new_vector {A} (z : A) (n : Z) : outcome fault (list A) :=
  if decide (u64 n ≤ max_size) then Ok (replicate (Z.to_nat (u64 n)) z) else Err BadLength.

(** [y = c0 + x * (c1 + x * (...))]. *)
Definition horner (cs : list float) (x : float) : float :=
  match reverse cs with
  | [] => fzero
  | c :: cs => foldl (fun acc c => F32.add c (F32.mul x acc)) c cs
  end.

Definition bessel_i0 `{Libm} (x : float) : float :=
  let abs_x := SFabs x in
  if flt abs_x (flit 375 2) then
    let y := F32.div x (flit 375 2) in
    let y := F32.mul y y in
    horner [F32.of_Z 1; flit 35156229 7; flit 30899424 7; flit 12067492 7;
            flit 2659732 7; flit 360768 7; flit 45813 7] y
  else
    let y := F32.div (flit 375 2) abs_x in
    F32.mul (F32.div (expf abs_x) (sqrtf abs_x))
      (horner [flit 39894228 8; flit 1328592 8; flit 225319 8; SFopp (flit 157565 8);
               flit 916281 8; SFopp (flit 2057706 8); flit 2635537 8;
               SFopp (flit 1647633 8); flit 392377 8] y).

Definition calcNTaps (sample_rate transition_width beta : float) : outcome fault Z :=
  let attenuation := F32.add (F32.div beta (flit 1102 4)) (flit 87 1) in
  (do! ntaps <- to_int (trunc (F32.div attenuation (F32.mul (F32.of_Z 22) transition_width)));
   Ok (if decide (Z.land ntaps 1 = 0) then ntaps + 1 else ntaps))%chem.

Definition kaiserWin `{Libm} (num_taps : Z) (beta : float) : outcome fault (list float) :=
  let denominator := bessel_i0 beta in
  (do! w <- new_vector fzero num_taps;
   do! w <- wr 0 (F32.div (F32.of_Z 1) denominator) w;
   do! w <- ofold (fun i w =>
     let x := F32.sub (F32.div (F32.mul (F32.of_Z 2) (F32.of_Z (Z.of_nat i)))
                               (F32.of_Z (num_taps - 1))) (F32.of_Z 1) in
     wr i (F32.div (bessel_i0 (F32.mul beta (sqrtf (F32.sub (F32.of_Z 1) (F32.mul x x)))))
             denominator) w) (seq 1 (Z.to_nat num_taps - 1)) w;
   wr (Z.to_nat (num_taps - 1)) (F32.div (F32.of_Z 1) denominator) w)%chem.

(** [fmax], computed at lines 96-99, is not used by the code that follows. *)
Definition lowpassKaiserWin `{Libm} (num_taps : Z) (cutoff beta : float) (up_factor : Z)
    : outcome fault (list float) :=
  let gain := F32.of_Z up_factor in
  (do! taps <- new_vector fzero num_taps;
   do! w <- kaiserWin num_taps beta;
   let half := Z.quot (num_taps - 1) 2 in
   let cutoff := F32.div cutoff (F32.of_Z up_factor) in
   let fwT0 := F64.mul (F64.mul (F64.of_Z 2) M_PI) cutoff in
   do! taps <- ofold (fun i taps =>
     let d := Z.of_nat i - half in
     let tap := if decide (Z.of_nat i = half) then F32.mul (F32.of_Z 2) cutoff
                else F32.div (sinf (F32.of_float (F64.mul fwT0 (F64.of_Z d))))
                       (F32.mul (F32.of_float M_PI) (F32.of_Z d)) in
     do! x <- rd w i;
     wr i (F32.mul tap x) taps) (seq 0 (Z.to_nat num_taps)) taps;
   Ok ((λ tap, F32.mul tap gain) <$> taps))%chem.

Definition computeResamplingFactors (ratio : float) : outcome fault (Z * Z) :=
  (do! num <- to_int (round (F64.mul ratio (F64.of_Z 1000)));
   let common_factor := Z.gcd num 1000 in
   Ok (Z.quot num common_factor, Z.quot 1000 common_factor))%chem.

(** *** signal.cpp: [resample] *)

Definition resample_cutoff (rate : float) : float * float :=
  let halfband := flit 5 1 in
  let fractional_bw := flit 4 1 in
  let two := F64.of_Z 2 in
  if fle (F32.of_Z 1) rate then
    let trans_width := F32.sub halfband fractional_bw in
    (trans_width, F32.of_float (F64.sub halfband (F64.div trans_width two)))
  else
    let trans_width := F32.mul rate (F32.sub halfband fractional_bw) in
    (trans_width, F32.of_float (F64.sub (F32.mul rate halfband) (F64.div trans_width two))).

Definition resample_taps `{Libm} (rate : float) (up : Z) : outcome fault (list float) :=
  let beta := flit 86 1 in
  let '(trans_width, cutoff) := resample_cutoff rate in
  (do! n <- calcNTaps rate trans_width beta;
   let num_taps := Z.quot n 2 in
   let num_taps := if decide (Z.rem num_taps 2 = 0) then num_taps + 1 else num_taps in
   do! taps <- lowpassKaiserWin num_taps cutoff beta up;
   Ok (reverse taps))%chem.

Definition resample `{Libm} {A} `{Sample A, Volk A} (src dst : list A) (rate : float)
    (size : nat) : outcome fault (list A) :=
  (do! (up, down) <- computeResamplingFactors rate;
   let new_size := u64 (Z.of_nat size * up) in
   do! temp_up <- new_vector zero new_size;
   do! taps <- resample_taps rate up;
   do! temp_up <- upsample src temp_up (u16 up) size;
   do! b <- fir_filter_real taps (Z.to_nat new_size) (InPlace temp_up);
   downsample (output b) dst (u16 down) (Z.to_nat new_size))%chem.

(** *** utils.cpp: wrappers around VOLK

    [volk_32f_x2_add_32f] adds float by float.  The product is stored in the
    output before the second operand of the sum is read. *)

Section Wrappers.
Context {A : Type} `{Sample A, Volk A}.

Definition fc32_mul_scalar (inp : list A) (scalar : A) (out : list A) (size : nat)
    : outcome fault (list A) :=
  (do! xs <- window 0 inp 0 size; copy_n (s_multiply xs scalar) size 0 out)%chem.

Definition fc32_sum (input1 input2 out : list A) (size : nat) : outcome fault (list A) :=
  (do! xs <- window 0 input1 0 size;
   do! ys <- window 0 input2 0 size;
   copy_n (zip_with add xs ys) size 0 out)%chem.

(** The output may be the vector of either operand. *)
Inductive sum_output : Type := ToFirst | ToSecond | ToOther (out : list A).

Definition fc32_mul_scalar_sum (input1 : list A) (scalar : A) (input2 : list A)
    (o : sum_output) (size : nat) : outcome fault (list A) :=
  match o with
  | ToFirst => do! p <- fc32_mul_scalar input1 scalar input1 size; fc32_sum p input2 p size
  | ToSecond => do! p <- fc32_mul_scalar input1 scalar input2 size; fc32_sum p p p size
  | ToOther out =>
      do! p <- fc32_mul_scalar input1 scalar out size; fc32_sum p input2 p size
  end%chem.

End Wrappers.

(** The overloads for a real factor, and the shifts by powers of two. *)
Definition fc32_mul_real `{Volk (float * float)} (inp : signal_v) (scalar : float)
    (out : signal_v) (size : nat) : outcome fault signal_v :=
  fc32_mul_scalar inp (scalar, fzero) out size.

Definition fc32_lshift `{Volk (float * float)} (inp : signal_v) (shift : Z)
    (out : signal_v) (size : nat) : outcome fault signal_v :=
  fc32_mul_scalar inp (SFldexp 24 128 (F32.of_Z 1) shift, fzero) out size.

Definition fc32_rshift `{Volk (float * float)} (inp : signal_v) (shift : Z)
    (out : signal_v) (size : nat) : outcome fault signal_v :=
  fc32_mul_scalar inp (SFldexp 24 128 (F32.of_Z 1) (- shift), fzero) out size.

(** [calc_power] and [calc_peak_power] on the squared magnitudes [mag_sq]:
    the accumulator and the index of the maximum are VOLK's. *)
Definition calc_power {A} (mag_sq : A → float) (accumulate : list float → float)
    (in1 : list A) (size : nat) : outcome fault float :=
  if decide (size = 0)%nat then Ok fzero
  else (do! xs <- window 0 in1 0 size;
        Ok (F32.div (accumulate (mag_sq <$> xs)) (F32.of_Z (Z.of_nat size))))%chem.

Definition calc_peak_power {A} (mag_sq : A → float) (index_max : list float → nat)
    (in1 : list A) (size : nat) : outcome fault float :=
  if decide (size = 0)%nat then Ok fzero
  else (do! xs <- window 0 in1 0 size; rd (mag_sq <$> xs) (index_max (mag_sq <$> xs)))%chem.

End Kernels.
