(* ===== verification/Filters.v ===== *)
(** Properties of the filters of [Kernels]: the two impulse-response methods
    compute the same convolution, the centred filters stay inside their padded
    buffers and see a signal continued by its edge samples, resampling is
    zero-stuffing, filtering and picking. *)

From Stdlib Require Import ZArith Lia Floats.SpecFloat.
From stdpp Require Import prelude list list_numbers.
From S2P Require Import Prelude.
From S2P Require Import Ieee.
From S2P Require Import Channel.
From S2P Require Import Kernels.
Import Kernels.

(** ** Loops over indices *)

(** A loop whose [i]-th iteration takes the [i]-th state to the next. *)
Lemma ofold_trace {E B} (f : nat → B → outcome E B) (st : nat → B) (n : nat) :
  (∀ i, (i < n)%nat → f i (st i) = Ok (st (S i))) → ofold f (seq 0 n) (st 0%nat) = Ok (st n).
Proof.
  intros Hf. assert (Hg : ∀ m a, (a + m = n)%nat → ofold f (seq a m) (st a) = Ok (st n)).
  { induction m as [|m IH]; intros a Ha; cbn [seq ofold].
    - f_equal. f_equal. lia.
    - rewrite Hf by lia. apply IH. lia. }
  by apply Hg.
Qed.

Lemma length_pos {A} (l : list A) : l ≠ [] → (0 < length l)%nat.
Proof. destruct l; [done|cbn; lia]. Qed.

Section Fill.
Context {A : Type}.
Implicit Types (g : nat → A) (o : list A).

(** [o] with its first [i] entries replaced by those of [g]. *)
Definition fill g o (i : nat) : list A := (g <$> seq 0 i) ++ drop i o.

Lemma fill_length g o i : (i ≤ length o)%nat → length (fill g o i) = length o.
Proof. unfold fill. rewrite length_app, length_fmap, length_seq, length_drop. lia. Qed.

Lemma fill_lookup g o i j :
  (i ≤ length o)%nat → fill g o i !! j = if decide (j < i)%nat then Some (g j) else o !! j.
Proof.
  intros Hi. unfold fill. case_decide.
  - rewrite lookup_app_l by (rewrite length_fmap, length_seq; lia).
    rewrite list_lookup_fmap, lookup_seq_lt by lia. done.
  - rewrite lookup_app_r; rewrite length_fmap, length_seq; [|lia].
    rewrite lookup_drop. f_equal. lia.
Qed.

Lemma wr_fill g o i :
  (i < length o)%nat → wr i (g i) (fill g o i) = Ok (fill g o (S i)).
Proof.
  intros Hi. unfold wr. rewrite decide_True by (rewrite fill_length; lia). f_equal.
  apply list_eq. intros j. rewrite list_lookup_insert, !fill_lookup, fill_length by lia.
  repeat case_decide; try lia; try done. by replace j with i by lia.
Qed.

Lemma rd_nth (l : list A) i d : (i < length l)%nat → rd l i = Ok (nth i l d).
Proof.
  intros Hi. unfold rd. destruct (lookup_lt_is_Some_2 l i Hi) as [x Hx].
  rewrite Hx. cbn. by rewrite (nth_lookup_Some l i d x Hx).
Qed.

Lemma window_ok over (l : list A) i n :
  (i + n + over ≤ length l)%nat → window over l i n = Ok (take n (drop i l)).
Proof. intros. unfold window. by rewrite decide_True. Qed.

(** A window as a function of its index. *)
Lemma window_seq (l : list A) i n d :
  (i + n ≤ length l)%nat → take n (drop i l) = (λ k, nth (i + k) l d) <$> seq 0 n.
Proof.
  intros Hn. apply list_eq. intros k. rewrite list_lookup_fmap.
  destruct (decide (k < n)%nat) as [Hk|Hk].
  - rewrite lookup_take_lt, lookup_drop, lookup_seq_lt by lia. cbn.
    destruct (lookup_lt_is_Some_2 l (i + k)) as [x Hx]; [lia|].
    rewrite Hx. by rewrite (nth_lookup_Some l _ d x Hx).
  - rewrite lookup_take_ge, lookup_seq_ge by lia. done.
Qed.

Lemma copy_n_ok (src dst : list A) n off :
  (n ≤ length src)%nat → (off + n ≤ length dst)%nat →
  copy_n src n off dst = Ok (take off dst ++ take n src ++ drop (off + n) dst).
Proof.
  intros Hs Hd. unfold copy_n. rewrite decide_True by done.
  unfold mwrite. rewrite length_take, decide_True by lia. cbn.
  rewrite Nat2Z.id, Nat.min_l by lia. done.
Qed.

Lemma output_set_output (l : list A) b : output (set_output l b) = l.
Proof. by destruct b. Qed.

Lemma set_output_twice (l l' : list A) b : set_output l (set_output l' b) = set_output l b.
Proof. by destruct b. Qed.

Lemma length_grow (z : A) n l : length (grow z n l) = (length l `max` n)%nat.
Proof. unfold grow. rewrite length_app, length_replicate. lia. Qed.

Lemma grow_id (z : A) n l : (n ≤ length l)%nat → grow z n l = l.
Proof. intros. unfold grow. by replace (n - length l)%nat with 0%nat by lia; rewrite app_nil_r. Qed.

(** The loop of the filters: [g i] is written at [i]. *)
Lemma filter_loop (body : nat → io A → outcome fault (io A)) g n b :
  (n ≤ length (output b))%nat →
  (∀ i l, (i < n)%nat → body i (set_output l b)
    = (do! o <- wr i (g i) l; Ok (set_output o b))%chem) →
  ofold body (seq 0 n) b = Ok (set_output (fill g (output b) n) b).
Proof.
  intros Hn Hbody.
  assert (E : b = set_output (fill g (output b) 0) b) by by destruct b.
  rewrite E at 1.
  apply (ofold_trace body (λ i, set_output (fill g (output b) i) b)).
  intros i Hi. rewrite Hbody by done. cbn. rewrite wr_fill by lia. done.
Qed.

End Fill.

Lemma foldl_ext_in {A B} (f g : B → A → B) (l : list A) (b : B) :
  (∀ b a, a ∈ l → f b a = g b a) → foldl f b l = foldl g b l.
Proof.
  revert b. induction l as [|a l IH]; intros b Hf; [done|]. cbn [foldl].
  rewrite Hf by set_solver. apply IH. intros. apply Hf. set_solver.
Qed.

(** ** Convolution *)

Section Convolution.
Context {A : Type} `{Sample A}.
Implicit Types (taps x y : list A).

(** The [n]-th sample of the convolution, added in the order of the code. *)
Definition conv_at taps x (n : nat) : A :=
  foldl (λ acc k, add acc (mul (nth k taps zero) (nth (n - k) x zero))) zero
    (seq 0 (S (n `min` (length taps - 1)))).

Lemma accumulate_ok taps x n :
  taps ≠ [] → (n < length x)%nat → accumulate taps x n = Ok (conv_at taps x n).
Proof.
  intros Ht Hn. pose proof (length_pos taps Ht).
  unfold accumulate, conv_at. remember (S (n `min` (length taps - 1))) as m eqn:Em.
  refine (ofold_trace _ (λ i, foldl (λ acc k, add acc
    (mul (nth k taps zero) (nth (n - k) x zero))) zero (seq 0 i)) m _).
  intros k Hk. rewrite (rd_nth taps k zero), (rd_nth x (n - k) zero) by lia.
  cbn [obind]. by rewrite seq_S, foldl_app.
Qed.

Lemma direct_conv_separate taps x o size :
  taps ≠ [] → size ≠ 0%nat →
  let n := (size `min` length x)%nat in
  apply_cir_direct_conv taps size (Separate x o)
  = Ok (Separate x (fill (conv_at taps x) (grow zero n o) n)).
Proof.
  intros Ht Hs n. unfold apply_cir_direct_conv. rewrite decide_False by done.
  cbn [input output set_output]. fold n. destruct taps as [|t taps'] eqn:E; [done|].
  rewrite <- E in *. rewrite (filter_loop _ (conv_at taps x)); [done| |].
  - cbn. rewrite length_grow. lia.
  - intros i l Hi. unfold direct_conv_step. cbn [set_output input output].
    rewrite accumulate_ok by (done || lia). done.
Qed.

(** In place, the loop reads what it has written: [st i] is the buffer before
    iteration [i]. *)
Fixpoint conv_trace taps x (i : nat) : list A :=
  match i with
  | O => x
  | S i => <[i := conv_at taps (conv_trace taps x i) i]> (conv_trace taps x i)
  end.

Lemma conv_trace_length taps x i : length (conv_trace taps x i) = length x.
Proof. induction i as [|i IH]; [done|]. cbn [conv_trace]. by rewrite length_insert. Qed.

Lemma conv_trace_above taps x i j :
  (i ≤ j)%nat → conv_trace taps x i !! j = x !! j.
Proof.
  induction i as [|i IH]; intros Hj; [done|]. cbn [conv_trace].
  rewrite list_lookup_insert_ne by lia. apply IH. lia.
Qed.

Lemma conv_trace_below taps x i j :
  (j < i)%nat → (j < length x)%nat →
  conv_trace taps x i !! j = Some (conv_at taps (conv_trace taps x j) j).
Proof.
  induction i as [|i IH]; intros Hj Hl; [lia|]. cbn [conv_trace].
  destruct (decide (i = j)) as [->|Hne].
  - rewrite list_lookup_insert_eq by (by rewrite conv_trace_length). done.
  - rewrite list_lookup_insert_ne by done. apply IH; lia.
Qed.

Lemma direct_conv_in_place taps x size :
  taps ≠ [] → size ≠ 0%nat →
  apply_cir_direct_conv taps size (InPlace x)
  = Ok (InPlace (conv_trace taps x (size `min` length x))).
Proof.
  intros Ht Hs. unfold apply_cir_direct_conv. rewrite decide_False by done.
  cbn [input output set_output]. rewrite grow_id by lia.
  destruct taps as [|t taps'] eqn:E; [done|]. rewrite <- E in *.
  apply (ofold_trace _ (λ i, InPlace (conv_trace taps x i))). intros i Hi.
  unfold direct_conv_step. cbn [input output set_output].
  rewrite accumulate_ok by (done || rewrite conv_trace_length; lia). cbn [obind].
  unfold wr. rewrite decide_True by (rewrite conv_trace_length; lia). done.
Qed.

End Convolution.

(** ** Exact sums *)

Section Exact.
Context {A : Type} `{ExactSample A}.
Implicit Types (taps x y : list A).

Lemma zero_add (a : A) : add zero a = a.
Proof. by rewrite add_comm, add_zero. Qed.

Lemma sum_of_app (l l' : list A) : sum_of (l ++ l') = add (sum_of l) (sum_of l').
Proof.
  induction l as [|a l IH]; [by rewrite zero_add|].
  change (add a (sum_of (l ++ l')) = add (add a (sum_of l)) (sum_of l')).
  by rewrite IH, add_assoc.
Qed.

Lemma sum_of_foldl {B} (f : B → A) (l : list B) (a : A) :
  foldl (λ acc k, add acc (f k)) a l = add a (sum_of (f <$> l)).
Proof.
  revert a. induction l as [|b l IH]; intros a; [symmetry; apply add_zero|].
  cbn [foldl]. rewrite IH. symmetry. apply add_assoc.
Qed.

Lemma sum_of_zero {B} (f : B → A) (l : list B) :
  (∀ b, b ∈ l → f b = zero) → sum_of (f <$> l) = zero.
Proof.
  induction l as [|b l IH]; intros Hf; [done|].
  change (add (f b) (sum_of (f <$> l)) = zero).
  rewrite IH, Hf by set_solver. apply add_zero.
Qed.

#[export] Instance sum_of_perm : Proper ((≡ₚ) ==> eq) (sum_of (A := A)).
Proof.
  induction 1 as [|a l l' _ IH|a b l|l1 l2 l3 _ IH1 _ IH2]; [done|..].
  - change (add a (sum_of l) = add a (sum_of l')). by rewrite IH.
  - change (add b (add a (sum_of l)) = add a (add b (sum_of l))).
    by rewrite !add_assoc, (add_comm b a).
  - by rewrite IH1.
Qed.

(** Summing from the other end. *)
Lemma sum_of_reverse (f : nat → A) n :
  sum_of (f <$> seq 0 n) = sum_of ((λ k, f (n - 1 - k)%nat) <$> seq 0 n).
Proof.
  rewrite <- (reverse_Permutation (f <$> seq 0 n)). f_equal.
  apply list_eq. intros k. rewrite list_lookup_fmap.
  destruct (decide (k < n)%nat) as [Hk|Hk].
  - rewrite reverse_lookup by (rewrite length_fmap, length_seq; lia).
    rewrite length_fmap, length_seq, list_lookup_fmap, !lookup_seq_lt by lia.
    cbn. do 2 f_equal. lia.
  - rewrite lookup_seq_ge by lia. rewrite lookup_ge_None_2; [done|].
    rewrite length_reverse, length_fmap, length_seq. lia.
Qed.

Lemma conv_at_sum taps x n :
  conv_at taps x n
  = sum_of ((λ k, mul (nth k taps zero) (nth (n - k) x zero))
            <$> seq 0 (S (n `min` (length taps - 1)))).
Proof. unfold conv_at. rewrite sum_of_foldl. apply zero_add. Qed.

Lemma reverse_seq taps :
  reverse taps = (λ k, nth (length taps - 1 - k) taps zero) <$> seq 0 (length taps).
Proof.
  apply list_eq. intros k. rewrite list_lookup_fmap.
  destruct (decide (k < length taps)%nat) as [Hk|Hk].
  - rewrite reverse_lookup, lookup_seq_lt by lia. cbn.
    destruct (lookup_lt_is_Some_2 taps (length taps - S k)) as [t Ht]; [lia|].
    rewrite Ht. f_equal. symmetry. apply nth_lookup_Some.
    by replace (length taps - 1 - k)%nat with (length taps - S k)%nat by lia.
  - rewrite lookup_seq_ge by lia. apply lookup_ge_None_2. rewrite length_reverse. lia.
Qed.

Lemma zip_with_fmap_seq {B} (f g : nat → B) (h : B → B → A) (l : list nat) :
  zip_with h (f <$> l) (g <$> l) = (λ k, h (f k) (g k)) <$> l.
Proof. induction l as [|k l IH]; [done|]. cbn. by f_equal. Qed.

Lemma nth_padded x pad n i :
  (n ≤ length x)%nat → (i < pad + n)%nat →
  nth i (replicate pad zero ++ take n x) zero
  = if decide (i < pad)%nat then zero else nth (i - pad) x zero.
Proof.
  intros Hn Hi. case_decide as Hp.
  - rewrite app_nth1 by (by rewrite length_replicate).
    by apply nth_lookup_Some, lookup_replicate_2.
  - rewrite app_nth2; rewrite length_replicate; [|lia].
    destruct (lookup_lt_is_Some_2 x (i - pad)) as [a Ha]; [lia|].
    rewrite (nth_lookup_Some x _ _ a Ha). apply nth_lookup_Some.
    by rewrite lookup_take_lt by lia.
Qed.

(** The dot product of the reversed taps with the window that ends at sample
    [i], zeros standing before the first sample. *)
Lemma causal_window `{!Volk A, !VolkExact A} taps x n i :
  taps ≠ [] → (i < n)%nat → (n ≤ length x)%nat →
  dot_prod (take (length taps)
              (drop i (replicate (length taps - 1) zero ++ take n x))) (reverse taps)
  = conv_at taps x i.
Proof.
  intros Ht Hi Hn. pose proof (length_pos taps Ht).
  rewrite (window_seq _ i (length taps) zero)
    by (rewrite length_app, length_replicate, length_take; lia).
  rewrite reverse_seq, dot_prod_sum by (by rewrite !length_fmap).
  rewrite zip_with_fmap_seq, sum_of_reverse, conv_at_sum.
  set (m := S (i `min` (length taps - 1))).
  assert (seq 0 (length taps) = seq 0 m ++ seq m (length taps - m)) as ->.
  { rewrite <- seq_app. f_equal. lia. }
  rewrite fmap_app, sum_of_app, (sum_of_zero _ (seq m _)), add_zero.
  - f_equal. apply list_fmap_ext. intros j k Hk%lookup_seq. cbn in Hk.
    rewrite nth_padded, decide_False, mul_comm by lia. f_equal; f_equal; lia.
  - intros k Hk%elem_of_seq. rewrite nth_padded, decide_True by lia. apply mul_zero.
Qed.

End Exact.

(** ** The causal filter *)

Section Causal.
Context {A : Type} `{Sample A, Volk A}.
Implicit Types (taps x o : list A) (b : io A).

Lemma input_grow n b :
  (n ≤ length (input b))%nat → input (set_output (grow zero n (output b)) b) = input b.
Proof. destruct b; cbn; [apply grow_id|done]. Qed.

(** The loop of the filter, for two taps or more. *)
Definition causal_step (extended taps : list A) (i : nat) b : outcome fault (io A) :=
  (do! xs <- window overread extended i (length taps);
   do! ts <- window overread (reverse taps) 0 (length taps);
   do! o <- wr i (dot_prod xs ts) (output b);
   Ok (set_output o b))%chem.

Lemma fir_causal_taps taps size b :
  (2 ≤ length taps)%nat → size ≠ 0%nat →
  let n := (size `min` length (input b))%nat in
  apply_cir_fir_causal taps size b
  = ofold (causal_step (replicate (length taps - 1) zero ++ take n (input b)) taps)
      (seq 0 n) (set_output (grow zero n (output b)) b).
Proof.
  intros Ht Hs n. unfold apply_cir_fir_causal. rewrite decide_False by done.
  destruct taps as [|t [|t' taps']] eqn:E; [cbn in Ht; lia..|]. rewrite <- E in *.
  rewrite input_grow by lia. fold n.
  rewrite copy_n_ok by (rewrite ?length_replicate; lia). cbn [obind].
  rewrite take_replicate, drop_replicate.
  replace ((n + (length taps - 1)) - (length taps - 1 + n))%nat with 0%nat by lia.
  rewrite app_nil_r. by replace ((length taps - 1) `min` (n + (length taps - 1)))%nat
    with (length taps - 1)%nat by lia.
Qed.

Lemma fir_causal_ok `{!ExactSample A, !VolkExact A} taps size b :
  taps ≠ [] → size ≠ 0%nat → (length taps = 1 ∨ overread = 0)%nat →
  let n := (size `min` length (input b))%nat in
  apply_cir_fir_causal taps size b
  = Ok (set_output (fill (conv_at taps (input b)) (grow zero n (output b)) n) b).
Proof.
  intros Ht Hs Ho n. destruct (decide (length taps = 1)%nat) as [E1|Hne].
  - destruct taps as [|t [|]]; [done| |done].
    unfold apply_cir_fir_causal. rewrite decide_False by done. fold n.
    rewrite input_grow by lia. rewrite window_ok by lia. cbn [obind].
    rewrite s_multiply_map, output_set_output.
    rewrite copy_n_ok
      by (rewrite ?length_fmap, ?length_take, ?length_grow, ?length_drop; lia).
    cbn [obind]. rewrite set_output_twice. do 2 f_equal. unfold fill.
    rewrite take_0, app_nil_l. f_equal. apply list_eq. intros i.
    rewrite (take_ge (_ <$> _)) by (rewrite length_fmap, length_take; lia).
    rewrite !list_lookup_fmap. destruct (decide (i < n)%nat) as [Hi|Hi].
    + rewrite lookup_take_lt, lookup_seq_lt by lia. cbn.
      destruct (lookup_lt_is_Some_2 (input b) i) as [x Hx]; [lia|]. rewrite drop_0, Hx.
      cbn. unfold conv_at. rewrite Nat.min_0_r. cbn.
      rewrite Nat.sub_0_r, (nth_lookup_Some _ i zero x Hx), zero_add, mul_comm. done.
    + rewrite lookup_take_ge, lookup_seq_ge by lia. done.
  - destruct Ho as [|Ho]; [lia|].
    pose proof (length_pos taps Ht).
    rewrite fir_causal_taps by lia. fold n.
    rewrite (filter_loop _ (conv_at taps (input b))).
    + rewrite output_set_output, set_output_twice. done.
    + rewrite output_set_output, length_grow. lia.
    + intros i l Hi. unfold causal_step. rewrite Ho, set_output_twice, output_set_output.
      rewrite !window_ok by (rewrite ?length_app, ?length_replicate, ?length_take,
        ?length_reverse; lia). cbn [obind].
      rewrite drop_0, (take_ge (reverse taps)) by (rewrite length_reverse; lia).
      rewrite causal_window by (done || lia).
      destruct (wr _ _ _); [|done]. cbn [obind]. by rewrite !set_output_twice.
Qed.

End Causal.

(** ** The centred filters *)

Section Centred.
Context {A : Type} `{Sample A, Volk A}.
Implicit Types (signal l : list A) (b : io A).

Lemma const_loop signal (a : A) (j off n : nat) l :
  (j < length signal)%nat → nth j signal zero = a → (off + n ≤ length l)%nat →
  ofold (fun i l => do! x <- rd signal j; wr (off + i) x l)%chem (seq 0 n) l
  = Ok (take off l ++ replicate n a ++ drop (off + n) l).
Proof.
  intros Hj Ha Hn.
  assert (E : l = take off l ++ replicate 0 a ++ drop (off + 0) l)
    by (cbn; by rewrite Nat.add_0_r, take_drop).
  rewrite E at 1.
  refine (ofold_trace _ (λ i, take off l ++ replicate i a ++ drop (off + i) l) n _).
  intros i Hi. rewrite (rd_nth signal j zero), Ha by done. cbn [obind]. unfold wr.
  rewrite decide_True
    by (rewrite !length_app, length_take, length_replicate, length_drop; lia).
  f_equal. rewrite insert_app_r_alt by (rewrite length_take; lia).
  f_equal. rewrite length_take, Nat.min_l by lia.
  replace (off + i - off)%nat with (i + 0)%nat by lia.
  rewrite insert_app_r_alt by (rewrite length_replicate; lia).
  rewrite length_replicate, replicate_S_end, <- app_assoc. f_equal.
  replace (i + 0 - i)%nat with 0%nat by lia.
  destruct (lookup_lt_is_Some_2 l (off + i)) as [x Hx]; [lia|].
  rewrite (drop_S l x (off + i)) by done. cbn. by rewrite Nat.add_succ_r.
Qed.

(** What [extend] builds, left to right. *)
Lemma extend_ok signal signal_len size delay right :
  (0 < signal_len)%nat → (signal_len ≤ length signal)%nat → (size ≤ signal_len)%nat →
  extend signal signal_len size delay right
  = Ok (replicate delay (nth 0 signal zero) ++ take size signal
        ++ replicate (signal_len - size) zero
        ++ replicate right (nth (signal_len - 1) signal zero) ++ replicate kSimdSlack zero).
Proof.
  intros Hl Hs Hn. unfold extend.
  rewrite (const_loop signal (nth 0 signal zero) 0 0 delay)
    by (rewrite ?length_replicate; done || lia).
  cbn [obind]. rewrite take_0, app_nil_l, drop_replicate.
  rewrite copy_n_ok
    by (rewrite ?length_app, ?length_replicate; unfold kSimdSlack; lia). cbn [obind].
  rewrite take_app_length' by (by rewrite length_replicate).
  rewrite drop_app_ge, length_replicate, drop_replicate by (rewrite length_replicate; lia).
  rewrite (const_loop signal (nth (signal_len - 1) signal zero)); [|lia|done|].
  2: { rewrite !length_app, !length_replicate, length_take. unfold kSimdSlack. lia. }
  f_equal. rewrite (take_app_add' _ _ delay) by (by rewrite length_replicate).
  rewrite (take_app_ge (take size signal)) by (rewrite length_take; lia).
  rewrite length_take, take_replicate, <- !app_assoc. do 2 f_equal.
  f_equal; [f_equal; unfold kSimdSlack; lia|]. f_equal.
  rewrite drop_app_ge, length_replicate by (rewrite length_replicate; lia).
  rewrite drop_app_ge, length_take by (rewrite length_take; lia).
  rewrite drop_replicate. f_equal. unfold kSimdSlack. lia.
Qed.

(** The window of output sample [i]: the signal continued by its edge
    samples, [delay] samples ahead. *)
Definition edge_window (x : list A) (n delay i len : nat) : list A :=
  (λ k, nth ((i + k - delay) `min` (n - 1)) x zero) <$> seq 0 len.

Lemma edge_window_ok over x n len i :
  (over ≤ kSimdSlack)%nat → (i < n)%nat → (n ≤ length x)%nat → (0 < len)%nat →
  let delay := ((len - 1) / 2)%nat in
  window over (replicate delay (nth 0 x zero) ++ take n x ++ replicate (n - n) zero
    ++ replicate (len - 1 - delay) (nth (n - 1) x zero) ++ replicate kSimdSlack zero) i len
  = Ok (edge_window x n delay i len).
Proof.
  intros Ho Hi Hn Hl delay. assert (delay ≤ len - 1)%nat.
  { unfold delay. apply Nat.div_le_upper_bound; lia. }
  rewrite Nat.sub_diag. cbn [replicate]. rewrite app_nil_l.
  rewrite window_ok by (rewrite !length_app, !length_replicate, length_take; lia).
  f_equal. rewrite (window_seq _ i len zero)
    by (rewrite !length_app, !length_replicate, length_take; lia).
  apply list_fmap_ext. intros j k [-> Hk]%lookup_seq.
  rewrite Nat.add_0_l. clearbody delay. destruct (decide (i + j < delay)%nat).
  - rewrite app_nth1 by (rewrite length_replicate; lia).
    erewrite nth_lookup_Some by (apply lookup_replicate_2; lia). f_equal. lia.
  - rewrite app_nth2; rewrite length_replicate; [|lia].
    destruct (decide (i + j - delay < n)%nat).
    + rewrite app_nth1 by (rewrite length_take; lia). rewrite Nat.min_l by lia.
      destruct (lookup_lt_is_Some_2 x (i + j - delay)) as [a Ha]; [lia|].
      rewrite (nth_lookup_Some x _ _ a Ha). apply nth_lookup_Some.
      by rewrite lookup_take_lt by lia.
    + rewrite app_nth2; rewrite length_take; [|lia].
      rewrite app_nth1 by (rewrite length_replicate; lia). rewrite (Nat.min_r (i + j - delay)) by lia.
      apply nth_lookup_Some, lookup_replicate_2. lia.
Qed.

Lemma tap_window {B} over (z : B) (coeffs : list B) :
  (over ≤ kSimdSlack)%nat →
  window over (coeffs ++ replicate kSimdSlack z) 0 (length coeffs) = Ok coeffs.
Proof.
  intros Ho. rewrite window_ok by (rewrite length_app, length_replicate; lia).
  by rewrite drop_0, take_app_length.
Qed.

Lemma fir_real_ok coeffs size b :
  (overread ≤ kSimdSlack)%nat → coeffs ≠ [] → size ≠ 0%nat →
  (size ≤ length (input b))%nat → (size ≤ length (output b))%nat →
  let len := length coeffs in
  fir_filter_real coeffs size b
  = Ok (set_output (fill (λ i, dot_prod_real
      (edge_window (input b) size ((len - 1) / 2) i len) coeffs) (output b) size) b).
Proof.
  intros Ho Hc Hs Hi Hout len. pose proof (length_pos coeffs Hc).
  unfold fir_filter_real. rewrite decide_False by lia.
  rewrite extend_ok by lia. cbn [obind].
  apply filter_loop; [done|]. intros i l Hi'.
  rewrite edge_window_ok, tap_window by lia. cbn [obind].
  rewrite output_set_output. destruct (wr _ _ _); [|done]. cbn [obind].
  by rewrite set_output_twice.
Qed.

Lemma fir_complex_ok coeffs b :
  (overread ≤ kSimdSlack)%nat → coeffs ≠ [] → input b ≠ [] →
  let n := length (input b) in
  (n ≤ length (output b))%nat →
  let len := length coeffs in
  fir_filter coeffs n b
  = Ok (set_output (fill (λ i, dot_prod
      (edge_window (input b) n ((len - 1) / 2) i len) coeffs) (output b) n) b).
Proof.
  intros Ho Hc Hi n Hout len. pose proof (length_pos coeffs Hc).
  pose proof (length_pos _ Hi). unfold fir_filter. rewrite decide_False by lia.
  rewrite extend_ok by lia. cbn [obind].
  apply filter_loop; [done|]. intros i l Hi'.
  rewrite edge_window_ok, tap_window by lia. cbn [obind].
  rewrite output_set_output. destruct (wr _ _ _); [|done]. cbn [obind].
  by rewrite set_output_twice.
Qed.

End Centred.

(** ** Filter design and resampling *)

Section Resampling.
Context `{Libm}.

Lemma wr_length {A} i (x : A) l l' : wr i x l = Ok l' → length l' = length l.
Proof. unfold wr. case_decide; [|done]. intros [= <-]. apply length_insert. Qed.

Lemma new_vector_length {A} (z : A) n l :
  new_vector z n = Ok l → Z.of_nat (length l) = u64 n.
Proof.
  unfold new_vector. case_decide; [|done]. intros [= <-]. rewrite length_replicate.
  pose proof (wrap_range 64 n). unfold u64 in *. lia.
Qed.

(** A window has at least one tap, or its first write is out of bounds. *)
Lemma kaiserWin_pos n beta w : kaiserWin n beta = Ok w → 0 < u64 n.
Proof.
  unfold kaiserWin. destruct (new_vector fzero n) as [v|] eqn:E; [|done]. cbn [obind].
  apply new_vector_length in E. unfold wr at 1. case_decide; [|done]. lia.
Qed.

Lemma lowpass_length n cutoff beta up taps :
  lowpassKaiserWin n cutoff beta up = Ok taps →
  Z.of_nat (length taps) = u64 n ∧ 0 < u64 n.
Proof.
  unfold lowpassKaiserWin. destruct (new_vector fzero n) as [v|] eqn:E; [|done].
  destruct (kaiserWin n beta) as [w|] eqn:Ew; [|done]. cbn [obind].
  destruct (ofold _ _ v) as [t|] eqn:Et; [|done]. intros [= <-].
  split; [|by eapply kaiserWin_pos]. rewrite length_fmap, <- (new_vector_length _ _ _ E).
  f_equal. apply (ofold_rel (λ l, length l = length v) _ _ _ _ Et); [done|].
  intros i l l' _ Hf Hl. destruct (rd w i); [|done]. cbn [obind] in Hf.
  apply wr_length in Hf. congruence.
Qed.

Lemma resample_taps_nonempty rate up taps : resample_taps rate up = Ok taps → taps ≠ [].
Proof.
  unfold resample_taps. destruct (resample_cutoff rate) as [tw cutoff].
  destruct (calcNTaps _ _ _) as [n|]; [|done]. cbn [obind].
  destruct (lowpassKaiserWin _ _ _ _) as [t|] eqn:E; [|done]. intros [= <-].
  apply lowpass_length in E as [E1 E2]. intros Hr%(f_equal length).
  rewrite length_reverse in Hr. cbn in Hr. lia.
Qed.

Lemma calcNTaps_odd rate width beta n :
  calcNTaps rate width beta = Ok n → Z.odd n = true.
Proof.
  unfold calcNTaps. destruct (to_int _) as [k|]; [|done]. cbn [obind]. intros [= <-].
  pose proof (Z.land_ones k 1) as E. change (Z.ones 1) with 1 in E.
  rewrite E by lia. rewrite Zodd_mod. apply Z.eqb_eq. case_decide; zdiv.
Qed.

Lemma factors_ok ratio up down :
  computeResamplingFactors ratio = Ok (up, down) →
  ∃ num, round (F64.mul ratio (F64.of_Z 1000)) = Some num ∧
    up * 1000 = num * down ∧ Z.gcd up down = 1 ∧ 1 ≤ down ≤ 1000.
Proof.
  unfold computeResamplingFactors, to_int.
  destruct (round _) as [num|]; [|done]. case_decide; [|done]. cbn [obind].
  intros [= <- <-]. exists num. split; [done|].
  set (g := Z.gcd num 1000).
  assert (Hg : 0 < g).
  { pose proof (Z.gcd_nonneg num 1000). destruct (decide (g = 0)) as [E|]; [|lia].
    apply Z.gcd_eq_0_r in E. lia. }
  destruct (Z.gcd_divide_l num 1000) as [a Ha], (Z.gcd_divide_r num 1000) as [c Hc].
  fold g in Ha, Hc.
  assert (E1 : Z.quot num g = a) by (rewrite Ha; apply Z.quot_mul; lia).
  assert (E2 : Z.quot 1000 g = c) by (rewrite Hc; apply Z.quot_mul; lia).
  rewrite E1, E2. split_and!; [|..|nia|nia].
  - rewrite Ha at 1. rewrite Hc. ring.
  - rewrite <- (Z.div_mul a g), <- (Z.div_mul c g), <- Ha, <- Hc by lia.
    apply Z.gcd_div_gcd; [lia|done].
Qed.

Context {A : Type} `{Sample A, Volk A}.
Implicit Types (x dst : list A).

(** A signal with [up - 1] zeros behind every sample. *)
Definition stuffed_at x (up i : nat) : A :=
  if decide (i `mod` up = 0)%nat then nth (i / up) x zero else zero.

Lemma upsample_ok x (up size : nat) :
  (1 < up)%nat → (size ≤ length x)%nat →
  upsample x (replicate (size * up) zero) (Z.of_nat up) size
  = Ok (stuffed_at x up <$> seq 0 (size * up)).
Proof.
  intros Hu Hs. unfold upsample. rewrite decide_False by lia. rewrite Nat2Z.id.
  set (st := λ i, (λ j, if decide (j / up < i)%nat then stuffed_at x up j else zero)
                  <$> seq 0 (size * up)).
  assert (E0 : replicate (size * up) zero = st 0%nat).
  { unfold st. symmetry. apply list_eq. intros j. rewrite list_lookup_fmap.
    destruct (decide (j < size * up)%nat).
    - rewrite lookup_seq_lt, lookup_replicate_2 by lia. done.
    - rewrite lookup_seq_ge by lia. symmetry. apply lookup_ge_None_2.
      rewrite length_replicate. lia. }
  rewrite E0, (ofold_trace _ st).
  - f_equal. apply list_fmap_ext. intros j k [-> Hk]%lookup_seq. rewrite decide_True; [done|].
    apply Nat.Div0.div_lt_upper_bound. lia.
  - intros i Hi. rewrite (rd_nth x i zero) by lia. cbn [obind]. unfold wr, st.
    rewrite decide_True by (rewrite length_fmap, length_seq; nia). f_equal.
    apply list_eq. intros j. rewrite list_lookup_insert, length_fmap, length_seq.
    rewrite !list_lookup_fmap. destruct (decide (j < size * up)%nat) as [Hj|Hj].
    + rewrite lookup_seq_lt by lia. cbn. case_decide as E.
      * destruct E as [<- _]. rewrite Nat.div_mul by lia. rewrite decide_True by lia.
        unfold stuffed_at. rewrite Nat.Div0.mod_mul, decide_True, Nat.div_mul by lia. done.
      * f_equal. destruct (decide (j / up < i)%nat), (decide (j / up < S i)%nat); try lia; try done.
        unfold stuffed_at. case_decide as Em; [|done]. exfalso. apply E.
        pose proof (Nat.div_mod_eq j up). split; nia.
    + rewrite lookup_seq_ge by lia. rewrite decide_False by lia. done.
Qed.

Lemma upsample_stuffed x (up size : nat) :
  (0 < up)%nat → (size ≤ length x)%nat →
  ∃ temp, upsample x (replicate (size * up) zero) (Z.of_nat up) size = Ok temp ∧
    length temp = (if decide (up = 1) then length x else size * up)%nat ∧
    (size * up ≤ length temp)%nat ∧
    ∀ i, (i < size * up)%nat → nth i temp zero = stuffed_at x up i.
Proof.
  intros Hu Hs. destruct (decide (up = 1%nat)) as [->|E].
  - exists x. split_and!; [done|done|lia|]. intros i _. unfold stuffed_at.
    by rewrite Nat.mod_1_r, Nat.div_1_r.
  - exists (stuffed_at x up <$> seq 0 (size * up)). rewrite upsample_ok by lia.
    split_and!; [done|by rewrite length_fmap, length_seq..|].
    intros i Hi. apply nth_lookup_Some. by rewrite list_lookup_fmap, lookup_seq_lt.
Qed.

Lemma downsample_ok x dst (down size : nat) :
  (1 < down)%nat → (size ≤ length x)%nat → (size / down ≤ length dst)%nat →
  downsample x dst (Z.of_nat down) size
  = Ok (fill (λ i, nth (i * down) x zero) dst (size / down)).
Proof.
  intros Hd Hs Hl. unfold downsample. rewrite decide_False by lia. rewrite Nat2Z.id.
  pose proof (Nat.Div0.mul_div_le size down).
  refine (ofold_trace _ (fill (λ i, nth (i * down) x zero) dst) _ _). intros i Hi.
  rewrite (rd_nth x (i * down) zero) by nia. cbn [obind]. apply (wr_fill (λ i, nth (i * down) x zero)). lia.
Qed.

(** Upsampling by zero writes to a vector without elements. *)
Lemma upsample_zero x size : size ≠ 0%nat → ∃ e, upsample x [] 0 size = Err e.
Proof.
  intros Hs. unfold upsample. cbn [decide]. destruct size as [|size]; [done|].
  cbn [seq ofold]. destruct (rd x 0); [|by eexists]. cbn. by eexists.
Qed.

End Resampling.

(** ** Properties *)

Section Claims.
Context {A : Type} `{Sample A, Volk A}.
Implicit Types (taps x o y dst : list A) (b : io A).

(** C8 In exact arithmetic [FIR_CAUSAL] and [DIRECT_CONV] are the same
    convolution with the channel's taps, sample for sample, and [FIR_CAUSAL] may
    work in place. *)
Theorem causal_filter_is_convolution `{!ExactSample A, !VolkExact A} taps x o size
    (Htaps : taps ≠ []) (Hsize : size ≠ 0%nat)
    (Hread : (length taps = 1 ∨ overread (A := A) = 0)%nat) :
  let n := (size `min` length x)%nat in
  ∃ y, apply_cir taps size FIR_CAUSAL (Separate x o) = Ok (Separate x y) ∧
    apply_cir taps size DIRECT_CONV (Separate x o) = Ok (Separate x y) ∧
    apply_cir taps size FIR_CAUSAL (InPlace x) = Ok (InPlace (take n y ++ drop n x)) ∧
    ∀ i, (i < n)%nat → y !! i = Some (sum_of
      ((λ k, mul (nth k taps zero) (nth (i - k) x zero))
       <$> seq 0 (S (i `min` (length taps - 1))))).
Proof.
  intros n. exists (fill (conv_at taps x) (grow zero n o) n).
  unfold apply_cir. rewrite !decide_False by done. split_and!.
  - by rewrite fir_causal_ok.
  - by apply direct_conv_separate.
  - rewrite fir_causal_ok by done. cbn [input output set_output]. fold n.
    rewrite grow_id by lia. unfold fill.
    by rewrite take_app_length' by (by rewrite length_fmap, length_seq).
  - intros i Hi. rewrite fill_lookup by (rewrite length_grow; lia).
    by rewrite decide_True, conv_at_sum.
Qed.

(** Direct convolution of a buffer into itself is a recursive filter: from
    the second tap on it reads the samples it has already overwritten, so every
    echo is echoed again. *)
Theorem direct_conv_in_place_feeds_back taps x size
    (Htaps : taps ≠ []) (Hsize : size ≠ 0%nat) :
  let n := (size `min` length x)%nat in
  ∃ y, apply_cir taps size DIRECT_CONV (InPlace x) = Ok (InPlace y) ∧
    drop n y = drop n x ∧
    ∀ i, (i < n)%nat → y !! i = Some (foldl (λ acc k, add acc (mul (nth k taps zero)
        (if decide (k = 0)%nat then nth i x zero else nth (i - k) y zero)))
      zero (seq 0 (S (i `min` (length taps - 1))))).
Proof.
  intros n. exists (conv_trace taps x n). split_and!.
  - unfold apply_cir. rewrite decide_False by done. by apply direct_conv_in_place.
  - apply list_eq. intros i. rewrite !lookup_drop. apply conv_trace_above. lia.
  - intros i Hi. rewrite conv_trace_below by lia. f_equal. unfold conv_at.
    apply foldl_ext_in. intros acc k Hk%elem_of_seq. do 2 f_equal.
    rewrite !nth_lookup. case_decide as E.
    + rewrite E, Nat.sub_0_r, conv_trace_above by lia. done.
    + by rewrite !conv_trace_below by lia.
Qed.

(** The comment in signal.cpp says that VOLK's dot products may read a
    register past their operands, and the centred filter pads for it.  The causal
    filter does not: with such kernels its very first product with two or more
    taps reads outside the reversed taps. *)
Theorem causal_filter_has_no_slack taps size b
    (Htaps : (2 ≤ length taps)%nat) (Hsize : size ≠ 0%nat) (Hin : input b ≠ [])
    (Hread : (0 < overread (A := A) ≤ kSimdSlack)%nat) :
  apply_cir taps size FIR_CAUSAL b = Err OutOfBounds ∧
  (length (input b) ≤ size → length (input b) ≤ length (output b) →
   ∃ b', apply_cir taps size FIR_CENTERED b = Ok b')%nat.
Proof.
  pose proof (length_pos _ Hin). split.
  - unfold apply_cir. rewrite decide_False, fir_causal_taps by done.
    destruct (size `min` length (input b))%nat as [|n] eqn:En; [lia|].
    cbn [seq ofold]. unfold causal_step.
    destruct (window overread _ 0 (length taps)) as [xs|e] eqn:Ew.
    + cbn [obind]. unfold window. rewrite decide_False by (rewrite length_reverse; lia). done.
    + unfold window in Ew. case_decide; [done|]. by injection Ew as <-.
  - intros Hs Hout. eexists. unfold apply_cir. rewrite decide_False by done.
    rewrite Nat.min_r by lia. apply fir_complex_ok; [lia| |done..].
    intros ->. cbn in Htaps. lia.
Qed.

(** C15 Resampling by [up/down] writes every [down]-th output of the filter
    over the samples with [up - 1] zeros between them, both ends continued by
    their edge values.  It holds when the rate rounds to factors with [up]
    below 65536 (the factors are passed on as [uint16_t]; beyond, see
    [resample_factor_wraps]) and above 0, the filter's taps can be computed, the
    SIMD kernels read at most [kSimdSlack] samples too far, the source has the
    [size > 0] samples announced, the upsampled size is one a vector can have,
    and the destination holds [size * up / down] samples; then no access leaves
    a buffer.  With [down = 1] the destination is replaced: its length becomes
    that of the intermediate buffer. *)
Theorem resample_is_filter_and_pick `{Libm} x dst rate (size up down : nat) (taps : list float)
    (Hfactors : computeResamplingFactors rate = Ok (Z.of_nat up, Z.of_nat down))
    (Hup : (0 < up)%nat ∧ Z.of_nat up < 65536)
    (Htaps : resample_taps rate (Z.of_nat up) = Ok taps)
    (Hread : (overread (A := A) ≤ kSimdSlack)%nat)
    (Hsize : size ≠ 0%nat ∧ (size ≤ length x)%nat ∧ Z.of_nat (size * up) ≤ max_size)
    (Hdst : down ≠ 1%nat → (size * up / down ≤ length dst)%nat) :
  ∃ d, resample x dst rate size = Ok d ∧
    length d = (if decide (down = 1) then if decide (up = 1) then length x else size * up
                else length dst)%nat ∧
    ∀ j, (j < size * up / down)%nat → d !! j = Some (dot_prod_real
      ((λ k, stuffed_at x up ((j * down + k - (length taps - 1) / 2) `min` (size * up - 1)))
       <$> seq 0 (length taps)) taps).
Proof.
  destruct Hup as [Hup Hup16], Hsize as (Hs0 & Hsx & Hmax).
  pose proof (resample_taps_nonempty _ _ _ Htaps) as Hne.
  destruct (factors_ok _ _ _ Hfactors) as (num & _ & _ & _ & Hdown).
  unfold resample. rewrite Hfactors. cbn [obind].
  rewrite <- Nat2Z.inj_mul. unfold new_vector.
  assert (max_size < 2 ^ 63) as Hmax63 by (vm_compute; reflexivity).
  rewrite !(u64_small (Z.of_nat (size * up))) by lia.
  rewrite decide_True, Nat2Z.id, Htaps by lia. cbn [obind].
  rewrite (u16_small (Z.of_nat up)), (u16_small (Z.of_nat down)) by lia.
  destruct (upsample_stuffed x up size) as (temp & Etemp & Hlen & Hge & Hnth); [lia..|].
  rewrite Etemp. cbn [obind].
  rewrite fir_real_ok by (cbn [input output]; done || lia).
  cbn [input output set_output obind].
  set (g := λ i, dot_prod_real _ taps).
  assert (Hg : ∀ i, (i < size * up)%nat → g i = dot_prod_real
    ((λ k, stuffed_at x up ((i + k - (length taps - 1) / 2) `min` (size * up - 1)))
     <$> seq 0 (length taps)) taps).
  { intros i Hi. unfold g, edge_window. f_equal. apply list_fmap_ext.
    intros _ k _. apply Hnth. lia. }
  clearbody g. destruct (decide (down = 1%nat)) as [E|E].
  - rewrite E. eexists. split_and!; [done|by rewrite fill_length|].
    intros j. rewrite Nat.div_1_r, Nat.mul_1_r. intros Hj.
    by rewrite fill_lookup, decide_True, Hg by done.
  - rewrite downsample_ok; [|lia|by rewrite fill_length|auto].
    eexists. split_and!; [done|by rewrite fill_length by auto|].
    intros j Hj. rewrite fill_lookup, decide_True by auto.
    pose proof (Nat.Div0.mul_div_le (size * up) down).
    assert (j * down < size * up)%nat as Hjd by nia.
    f_equal. rewrite <- Hg by done. apply nth_lookup_Some.
    by rewrite fill_lookup, decide_True by done.
Qed.

(** A rate that rounds to zero thousandths is a resampling by zero: the
    intermediate buffer has no element and the first sample is written outside
    it, so no such call returns. *)
Theorem resample_slow_rate_overflows `{Libm} x dst rate (size : nat) down
    (Hfactors : computeResamplingFactors rate = Ok (0, down)) (Hsize : size ≠ 0%nat) :
  ∃ e, resample x dst rate size = Err e.
Proof.
  unfold resample. rewrite Hfactors. cbn [obind]. rewrite Z.mul_0_r.
  change (new_vector zero (u64 0)) with (Ok (E := fault) ([] : list A)). cbn [obind].
  destruct (resample_taps rate 0) as [taps|e]; [|by eexists]. cbn [obind].
  destruct (upsample_zero x size Hsize) as [e Ee].
  change (u16 0) with 0. rewrite Ee. by eexists.
Qed.

Lemma extend_short x n delay right :
  (length x < n)%nat → ∃ e, extend x n n delay right = Err e.
Proof.
  intros Hn. unfold extend. destruct (ofold _ (seq 0 delay) _) as [buf|e]; [|by eexists].
  cbn [obind]. unfold copy_n. rewrite decide_False by lia. by eexists.
Qed.

(** The upsampling factor is narrowed to 16 bits after the buffer and the filter
    were made for the whole of it.  A factor that wraps around to 1 (65537, for
    the rate 65.537) replaces the buffer of [size * up] samples by the source,
    and the filter reads behind it. *)
Theorem resample_factor_wraps `{Libm} x dst rate (size up : nat) down
    (Hfactors : computeResamplingFactors rate = Ok (Z.of_nat up, down))
    (Hwraps : u16 (Z.of_nat up) = 1 ∧ (1 < up)%nat)
    (Hshort : (length x < size * up)%nat ∧ Z.of_nat (size * up) ≤ max_size) :
  ∃ e, resample x dst rate size = Err e.
Proof.
  destruct Hshort as [Hshort Hmax].
  assert (max_size < 2 ^ 63) as Hmax63 by (vm_compute; reflexivity).
  unfold resample. rewrite Hfactors. cbn [obind]. rewrite <- Nat2Z.inj_mul. unfold new_vector.
  rewrite !(u64_small (Z.of_nat (size * up))) by lia. rewrite decide_True by lia. cbn [obind].
  destruct (resample_taps rate (Z.of_nat up)) as [taps|e] eqn:Htaps; [|by eexists]. cbn [obind].
  rewrite (proj1 Hwraps). unfold upsample. rewrite decide_True by done. cbn [obind].
  pose proof (resample_taps_nonempty _ _ _ Htaps) as Hne.
  unfold fir_filter_real. cbn [input]. rewrite Nat2Z.id.
  rewrite decide_False by (destruct taps; cbn; [done|lia]).
  destruct (extend_short x (size * up) ((length taps - 1) / 2)
    (length taps - 1 - (length taps - 1) / 2) Hshort) as [e ->]. by eexists.
Qed.

End Claims.

(** ** Witnesses, over the integers *)

Section Demo.

#[local] Instance Z_sample : Sample Z := { zero := 0; add := Z.add; mul := Z.mul }.

#[local] Instance Z_exact : ExactSample Z.
Proof. split; cbn; lia. Qed.

(** Kernels that read [n] samples too far; the real taps count as ones. *)
Definition Z_volk (n : nat) : Volk Z := {|
  overread := n;
  dot_prod xs ts := sum_of (zip_with mul xs ts);
  dot_prod_real xs ts := sum_of (take (length ts) xs);
  s_multiply xs s := (λ x, mul x s) <$> xs;
|}.

#[local] Instance Z_volk_exact n : @VolkExact Z _ (Z_volk n).
Proof. by split. Qed.

#[local] Instance toy_libm : Libm := {
  expf x := F32.add (F32.of_Z 1) x;
  sqrtf x := SFsqrt 24 128 x;
  sinf x := x;
}.

Lemma causal_filter_is_convolution_witness :
  ∃ y, @apply_cir Z _ (Z_volk 0) [2; 0; 1] 4 FIR_CAUSAL (Separate [1; 2; 3; 4] [])
       = Ok (Separate [1; 2; 3; 4] y).
Proof.
  destruct (@causal_filter_is_convolution Z _ (Z_volk 0) _ _ [2; 0; 1] [1; 2; 3; 4] [] 4)
    as (y & Hy & _); [discriminate|discriminate|right; reflexivity|].
  exists y. exact Hy.
Defined.

Lemma direct_conv_in_place_feeds_back_witness :
  ∃ y, @apply_cir Z _ (Z_volk 0) [1; 1] 4 DIRECT_CONV (InPlace [1; 0; 0; 0])
       = Ok (InPlace y).
Proof.
  destruct (@direct_conv_in_place_feeds_back Z _ (Z_volk 0) [1; 1] [1; 0; 0; 0] 4)
    as (y & Hy & _); [discriminate|discriminate|].
  exists y. exact Hy.
Defined.

(** One echo becomes three. *)
Example in_place_echoes :
  @apply_cir Z _ (Z_volk 0) [1; 1] 4 DIRECT_CONV (InPlace [1; 0; 0; 0])
  = Ok (InPlace [1; 1; 1; 1]) ∧
  @apply_cir Z _ (Z_volk 0) [1; 1] 4 FIR_CAUSAL (InPlace [1; 0; 0; 0])
  = Ok (InPlace [1; 1; 0; 0]).
Proof. by split. Qed.

Lemma causal_filter_has_no_slack_witness :
  @apply_cir Z _ (Z_volk 4) [1; 1] 4 FIR_CAUSAL (InPlace [1; 0; 0; 0]) = Err OutOfBounds.
Proof.
  refine (proj1 (@causal_filter_has_no_slack Z _ (Z_volk 4) [1; 1] 4
    (InPlace [1; 0; 0; 0]) _ _ _ _)); [cbn; lia|discriminate|discriminate|].
  cbn; unfold kSimdSlack; lia.
Defined.

Definition demo_taps : list float :=
  Eval vm_compute in match resample_taps (flit 15 1) 3 with Ok l => l | Err _ => [] end.

Lemma resample_is_filter_and_pick_witness :
  ∃ d, @resample _ Z _ (Z_volk 16) [1; 2] [0; 0; 0] (flit 15 1) 2 = Ok d ∧ length d = 3%nat.
Proof.
  destruct (@resample_is_filter_and_pick Z _ (Z_volk 16) _ [1; 2] [0; 0; 0] (flit 15 1)
    2 3 2 demo_taps) as (d & Hd & Hl & _).
  - vm_compute. reflexivity.
  - split; [lia|reflexivity].
  - vm_compute. reflexivity.
  - cbn; unfold kSimdSlack; lia.
  - split; [discriminate|split; [cbn; lia|discriminate]].
  - intros _. cbn. lia.
  - exists d. split; [exact Hd|exact Hl].
Defined.

(** The rate 65.537. *)
Lemma resample_factor_wraps_witness :
  ∃ e, @resample _ Z _ (Z_volk 0) [1; 2] [0; 0; 0] (flit 65537 3) 2 = Err e.
Proof.
  apply (@resample_factor_wraps Z _ (Z_volk 0) _ [1; 2] [0; 0; 0] (flit 65537 3) 2
    (Z.to_nat 65537) 1000).
  - vm_compute. reflexivity.
  - split; [reflexivity|lia].
  - split; [cbn [length]; lia|]. rewrite Nat2Z.inj_mul, Z2Nat.id by lia. by vm_compute.
Defined.

Lemma resample_slow_rate_overflows_witness :
  ∃ e, @resample _ Z _ (Z_volk 0) [1; 2] [0; 0; 0] (flit 4 4) 2 = Err e.
Proof.
  apply (@resample_slow_rate_overflows Z _ (Z_volk 0) _ [1; 2] [0; 0; 0] (flit 4 4) 2 1).
  - vm_compute. reflexivity.
  - discriminate.
Defined.

End Demo.
