(* ===== verification/Noise.v ===== *)
(** src/src/chem/dsp/channel.cpp, [get_noise]: the noise buffer each worker
    thread keeps and shuffles instead of drawing it again.

    The random number generator is a class: a fill of normally distributed
    samples and a shuffle, which returns a permutation.  The thread-local
    variables of the function are the record [t]. *)

From Stdlib Require Import ZArith Lia Floats.SpecFloat.
From stdpp Require Import prelude list list_numbers sorting.
From S2P Require Import Prelude.
From S2P Require Import Ieee.
From S2P Require Import Common.
From S2P Require Import CxxLib.
From S2P Require Import Channel.

(** [std::mt19937] with [std::normal_distribution] and [std::shuffle]. *)
Class Random (G : Type) : Type := {
  normal_fill : float → nat → G → signal_v * G;
  shuffle : signal_v → G → signal_v * G;
  normal_fill_length : ∀ sigma n g, length (normal_fill sigma n g).1 = n;
  shuffle_perm : ∀ l g, (shuffle l g).1 ≡ₚ l;
}.

(** libm, at the types the function calls it. *)
Class NoiseMath : Type := {
  log10 : float → float;       (** [double] *)
  pow10f : float → float;      (** [std::pow(10.0f, x)] *)
  sqrtf : float → float;
}.

Module Noise.

Definition silence (n : nat) : signal_v := replicate n (fzero, fzero).

Record t : Type := mk {
  noise : option signal_v;     (** [_noise] *)
  cached_bw : float;           (* double *)
  cached_nf : float;           (* double *)
  cached_sigma : float;        (* float *)
  needs_regen : bool;
}.

#[export] Instance t_eta : Settable t := λ s,
  mk (noise s) (cached_bw s) (cached_nf s) (cached_sigma s) (needs_regen s).

(** The state of a thread before its first call. *)
Definition init : t := mk None fzero fzero fzero true.

Definition NOISE_POWER_DBFS : float := F64.of_Z (-174).

Definition NOISE_FIGURE_RX : float := F64.of_Z 6.

Definition safe_noise_bw (bandwidth : float) : float :=
  if negb (isfinite bandwidth) || fle bandwidth fzero then F64.of_Z 1 else bandwidth.

Section Math.
Context `{NoiseMath}.

Definition noise_floor_dbfs (bandwidth noise_figure_db : float) : float :=
  let bw_safe := safe_noise_bw bandwidth in
  let nf := if isfinite noise_figure_db then noise_figure_db else NOISE_FIGURE_RX in
  F32.of_float (F64.add (F64.add NOISE_POWER_DBFS (F64.mul (F64.of_Z 10) (log10 bw_safe))) nf).

(** Lines 247-249. *)
Definition sigma_of (bandwidth nf : float) : float :=
  let power_dbfs := noise_floor_dbfs bandwidth nf in
  let power_lin := pow10f (F32.div power_dbfs (F32.of_Z 10)) in
  sqrtf (F32.div (fmax fzero power_lin) (F32.of_Z 2)).

(** [std::abs(a - b) > 1e-6]. *)
Definition differs (a b : float) : bool :=
  flt (F64.lit 1 6) (SFabs (F64.sub a b)).

Definition finite_nf (noise_figure_db : float) : float :=
  if isfinite noise_figure_db then noise_figure_db else NOISE_FIGURE_RX.

(** Lines 239-251: the standard deviation follows the parameters. *)
Definition retune (bandwidth noise_figure_db : float) (s : t) : t :=
  let nf := finite_nf noise_figure_db in
  if differs bandwidth (cached_bw s) || differs nf (cached_nf s)
  then s <| cached_bw := bandwidth |> <| cached_nf := nf |>
         <| cached_sigma := sigma_of bandwidth nf |> <| needs_regen := true |>
  else s.

(** Lines 253-257: a buffer of the right size. *)
Definition resize (size : nat) (s : t) : t :=
  match noise s with
  | Some l => if decide (length l = size) then s
              else s <| noise := Some (silence size) |> <| needs_regen := true |>
  | None => s <| noise := Some (silence size) |> <| needs_regen := true |>
  end.

Section Generator.
Context {G : Type} `{Random G}.

Definition get_noise (size : nat) (bandwidth : float) (type : NoiseType)
    (noise_figure_db : float) (s : t) (g : G) : signal_v * t * G :=
  let s := resize size (retune bandwidth noise_figure_db s) in
  let l := default [] (noise s) in
  match type with
  | NoiseNONE => (silence size, s <| noise := Some (silence size) |>, g)
  | AWGN =>
      if needs_regen s then
        let '(l, g) := normal_fill (cached_sigma s) size g in
        (l, s <| noise := Some l |> <| needs_regen := false |>, g)
      else
        let '(l, g) := shuffle l g in
        (l, s <| noise := Some l |>, g)
  end.

(** A thread's calls, in order. *)
Record call : Type := mkCall {
  c_size : nat;
  c_bandwidth : float;
  c_type : NoiseType;
  c_noise_figure : float;
}.

Fixpoint run (calls : list call) (s : t) (g : G) : t * G :=
  match calls with
  | [] => (s, g)
  | c :: calls =>
      let '(_, s, g) :=
        get_noise (c_size c) (c_bandwidth c) (c_type c) (c_noise_figure c) s g in
      run calls s g
  end.

(** ** Equal parameters do not differ *)

Lemma fsub_self x : isfinite x = true → is_zero (F64.sub x x) = true.
Proof.
  unfold F64.sub, SFsub. destruct x as [[]|[]| |s m e]; try done. intros _.
  rewrite Z.sub_diag. done.
Qed.

Lemma small_not_above x : is_zero x = true ∨ x = S754_nan → flt (F64.lit 1 6) (SFabs x) = false.
Proof.
  intros [Hx|Hx]; [destruct x; try discriminate Hx|rewrite Hx]; vm_compute; reflexivity.
Qed.

Lemma differs_refl x : differs x x = false.
Proof.
  apply small_not_above. destruct (isfinite x) eqn:E; [left; by apply fsub_self|right].
  destruct x as [s|s| |s m e]; try discriminate E; [|reflexivity].
  destruct s; reflexivity.
Qed.

(** ** The level of the noise *)

(** The buffer is a permutation of samples drawn with the present deviation. *)
Definition drawn (s : t) : Prop :=
  needs_regen s = false →
  ∃ l g, noise s = Some l ∧ l ≡ₚ (normal_fill (cached_sigma s) (length l) g).1.

(** The deviation is that of the remembered parameters, zero before any. *)
Definition tuned (s : t) : Prop :=
  cached_sigma s = sigma_of (cached_bw s) (cached_nf s) ∨
  cached_bw s = fzero ∧ cached_nf s = fzero ∧ cached_sigma s = fzero.

Definition coherent (s : t) : Prop := drawn s ∧ tuned s.

Lemma init_coherent : coherent init.
Proof. split; [done|]. right. done. Qed.

Lemma retune_coherent bw nf s :
  coherent s →
  coherent (retune bw nf s) ∧ differs bw (cached_bw (retune bw nf s)) = false ∧
  differs (finite_nf nf) (cached_nf (retune bw nf s)) = false.
Proof.
  intros [Hd Ht]. unfold retune. destruct (_ || _) eqn:E.
  - split; [split; [done|by left]|]. split; apply differs_refl.
  - apply orb_false_iff in E as [E1 E2]. exact (conj (conj Hd Ht) (conj E1 E2)).
Qed.

Lemma resize_coherent size s :
  coherent s →
  coherent (resize size s) ∧ cached_bw (resize size s) = cached_bw s ∧
  cached_nf (resize size s) = cached_nf s ∧
  ∃ l, noise (resize size s) = Some l ∧ length l = size.
Proof.
  intros [Hd Ht]. unfold resize.
  assert (Hnew : coherent (s <| noise := Some (silence size) |> <| needs_regen := true |>))
    by by split.
  destruct (noise s) as [l|] eqn:E; [case_decide as Hl|]; split_and!; try done.
  - by exists l.
  - exists (silence size). split; [done|]. apply length_replicate.
  - exists (silence size). split; [done|]. apply length_replicate.
Qed.

Lemma awgn_spec size bw nf s g :
  coherent s →
  ∃ l s' g' g0, get_noise size bw AWGN nf s g = (l, s', g') ∧ coherent s' ∧
    noise s' = Some l ∧ needs_regen s' = false ∧
    l ≡ₚ (normal_fill (cached_sigma s') size g0).1 ∧
    differs bw (cached_bw s') = false ∧ differs (finite_nf nf) (cached_nf s') = false.
Proof.
  intros Hs. apply (retune_coherent bw nf) in Hs as (Hs & Hbw & Hnf).
  apply (resize_coherent size) in Hs as (Hs & Ebw & Enf & l0 & El0 & Hl0).
  unfold get_noise. set (s1 := resize size _) in *. rewrite <- Ebw in Hbw.
  rewrite <- Enf in Hnf. destruct Hs as [Hd Ht]. destruct (needs_regen s1) eqn:Er.
  - destruct (normal_fill (cached_sigma s1) size g) as [l g'] eqn:Ef.
    pose proof (normal_fill_length (cached_sigma s1) size g) as Hlen.
    rewrite Ef in Hlen. cbn in Hlen.
    assert (Hp : l ≡ₚ (normal_fill (cached_sigma s1) size g).1) by by rewrite Ef.
    eexists l, _, g', g. split; [reflexivity|].
    refine (conj (conj _ Ht) (conj eq_refl (conj eq_refl (conj Hp (conj Hbw Hnf))))).
    intros _. exists l, g. rewrite Hlen. exact (conj eq_refl Hp).
  - destruct (Hd Er) as (l1 & g1 & El1 & Hl1). rewrite El0 in El1. injection El1 as <-.
    rewrite El0. change (default [] (Some l0)) with l0. pose proof (shuffle_perm l0 g) as Hsh.
    destruct (shuffle l0 g) as [l g'] eqn:Ef. cbn in Hsh. rewrite Hl0 in Hl1.
    assert (Hp : l ≡ₚ (normal_fill (cached_sigma s1) size g1).1) by by rewrite Hsh.
    eexists l, _, g', g1. split; [reflexivity|].
    refine (conj (conj _ Ht) (conj eq_refl (conj Er (conj Hp (conj Hbw Hnf))))).
    intros _. exists l, g1. 
    assert (length l = size) as -> by by rewrite Hsh. exact (conj eq_refl Hp).
Qed.

Lemma run_coherent calls s g :
  Forall (λ c, c_type c = AWGN) calls → coherent s → coherent (run calls s g).1.
Proof.
  intros Hc. revert s g. induction Hc as [|c calls Ec _ IH]; intros s g Hs; [done|].
  cbn [run]. rewrite Ec.
  destruct (awgn_spec (c_size c) (c_bandwidth c) (c_noise_figure c) s g Hs)
    as (l & s' & g' & _ & E & Hs' & _). rewrite E. by apply IH.
Qed.

(** The remembered parameters are those of the last tuning. *)
Lemma get_noise_cached size bw ty nf s g :
  let s' := (get_noise size bw ty nf s g).1.2 in
  cached_bw s' = cached_bw (retune bw nf s) ∧ cached_nf s' = cached_nf (retune bw nf s).
Proof.
  unfold get_noise. set (r := retune bw nf s).
  assert (Hr : cached_bw (resize size r) = cached_bw r ∧ cached_nf (resize size r) = cached_nf r).
  { unfold resize. destruct (noise r) as [l|]; [case_decide|]; done. }
  destruct ty; [done|]. destruct (needs_regen _).
  - destruct (normal_fill _ _ _). exact Hr.
  - destruct (shuffle _ _). exact Hr.
Qed.

Definition finite_params (s : t) : Prop :=
  isfinite (cached_bw s) = true ∧ isfinite (cached_nf s) = true.

Lemma finite_nf_finite nf : isfinite (finite_nf nf) = true.
Proof. unfold finite_nf. by destruct (isfinite nf) eqn:E. Qed.

Lemma get_noise_finite size bw ty nf s g :
  isfinite bw = true → finite_params s → finite_params (get_noise size bw ty nf s g).1.2.
Proof.
  intros Hbw Hs. unfold finite_params. destruct (get_noise_cached size bw ty nf s g) as [-> ->].
  unfold retune. destruct (_ || _); [|exact Hs]. split; [exact Hbw|apply finite_nf_finite].
Qed.

Lemma run_finite calls s g :
  Forall (λ c, c_type c = AWGN ∧ isfinite (c_bandwidth c) = true) calls →
  finite_params s → finite_params (run calls s g).1.
Proof.
  intros Hc. revert s g. induction Hc as [|c calls [_ Ec] _ IH]; intros s g Hs; [done|].
  cbn [run]. pose proof (get_noise_finite (c_size c) (c_bandwidth c) (c_type c)
    (c_noise_figure c) s g Ec Hs) as Hs'.
  destruct (get_noise _ _ _ _ s g) as [[l s'] g']. by apply IH.
Qed.

(** C18 As long as a thread only asks for noise, at finite bandwidths, and the
    bandwidth or the noise figure asked for now is not within 1e-6 of zero,
    the buffer it gets has the size asked and consists of samples drawn with
    exactly the standard deviation of a finite bandwidth and a finite noise
    figure that differ from those asked by no more than the 1e-6 the cache
    tolerates, whatever was drawn and shuffled before. (A noise figure that is
    not finite counts as 6 dB. What the excluded first request gets:
    [fresh_thread_silent].) *)
Theorem noise_has_the_level_asked calls size bw nf g
    (Hcalls : Forall (λ c, c_type c = AWGN ∧ isfinite (c_bandwidth c) = true) calls)
    (Hbw : isfinite bw = true)
    (Hasked : differs bw fzero || differs (finite_nf nf) fzero = true) :
  let '(s, g) := run calls init g in
  ∃ l s' g' g0, get_noise size bw AWGN nf s g = (l, s', g') ∧ length l = size ∧
    l ≡ₚ (normal_fill (sigma_of (cached_bw s') (cached_nf s')) size g0).1 ∧
    isfinite (cached_bw s') = true ∧ isfinite (cached_nf s') = true ∧
    differs bw (cached_bw s') = false ∧ differs (finite_nf nf) (cached_nf s') = false.
Proof.
  assert (Hawgn : Forall (λ c, c_type c = AWGN) calls)
    by (eapply Forall_impl; [exact Hcalls|]; by intros c []).
  pose proof (run_coherent calls init g Hawgn init_coherent) as Hs.
  pose proof (run_finite calls init g Hcalls (conj eq_refl eq_refl)) as Hfin.
  destruct (run calls init g) as [s g1]. cbn [fst] in Hs, Hfin.
  destruct (awgn_spec size bw nf s g1 Hs)
    as (l & s' & g' & g0 & E & [_ Ht] & _ & _ & Hp & Hb & Hn).
  pose proof (get_noise_finite size bw AWGN nf s g1 Hbw Hfin) as [Hf1 Hf2].
  rewrite E in Hf1, Hf2. exists l, s', g', g0.
  destruct Ht as [Ht|(Eb & En & _)].
  - rewrite <- Ht.
    refine (conj E (conj _ (conj Hp (conj Hf1 (conj Hf2 (conj Hb Hn)))))).
    rewrite Hp. apply normal_fill_length.
  - exfalso. rewrite Eb in Hb. rewrite En in Hn. rewrite Hb, Hn in Hasked. discriminate Hasked.
Qed.

(** A thread whose first request is for a bandwidth and a noise figure within
    1e-6 of zero takes them for the ones it remembers and never computes a
    deviation: it draws with deviation 0, silence, where a bandwidth of zero
    counts as 1 Hz otherwise. *)
Theorem fresh_thread_silent size bw nf g
    (Hbw : differs bw fzero = false) (Hnf : differs (finite_nf nf) fzero = false) :
  (get_noise size bw AWGN nf init g).1.1 = (normal_fill fzero size g).1.
Proof.
  unfold get_noise, retune. cbn [init cached_bw cached_nf]. rewrite Hbw, Hnf. cbn [orb].
  unfold resize. cbn [init noise modify needs_regen cached_sigma].
  by destruct (normal_fill fzero size g).
Qed.

(** ** What a noiseless link leaves behind *)

Lemma shuffle_silence n g : (shuffle (silence n) g).1 = silence n.
Proof.
  pose proof (shuffle_perm (silence n) g) as Hp. symmetry in Hp. unfold silence in *.
  symmetry. by apply replicate_Permutation.
Qed.

Lemma retune_same bw nf s :
  differs bw (cached_bw s) = false → differs (finite_nf nf) (cached_nf s) = false →
  retune bw nf s = s.
Proof. intros E1 E2. unfold retune. by rewrite E1, E2. Qed.

Lemma resize_same size s l : noise s = Some l → length l = size → resize size s = s.
Proof. intros E Hl. unfold resize. by rewrite E, decide_True. Qed.

Lemma noiseless_same size bw nf s g l :
  differs bw (cached_bw s) = false → differs (finite_nf nf) (cached_nf s) = false →
  noise s = Some l → length l = size →
  get_noise size bw NoiseNONE nf s g
  = (silence size, s <| noise := Some (silence size) |>, g).
Proof.
  intros Hbw Hnf El Hl. unfold get_noise.
  by rewrite (retune_same bw nf s Hbw Hnf), (resize_same size s l El Hl).
Qed.

Lemma awgn_same size bw nf s g l :
  differs bw (cached_bw s) = false → differs (finite_nf nf) (cached_nf s) = false →
  noise s = Some l → length l = size → needs_regen s = false →
  (get_noise size bw AWGN nf s g).1.1 = (shuffle l g).1.
Proof.
  intros Hbw Hnf El Hl Er. unfold get_noise.
  rewrite (retune_same bw nf s Hbw Hnf), (resize_same size s l El Hl), Er, El.
  change (default [] (Some l)) with l. by destruct (shuffle l g).
Qed.

(** A link without noise clears the buffer it shares with the other links
    its thread serves and does not ask for new samples: the next link that wants
    noise with the same size, bandwidth and noise figure gets silence. *)
Theorem noise_lost_after_noiseless_link calls size bw nf g
    (Hcalls : Forall (λ c, c_type c = AWGN) calls) :
  let '(s, g) := run (calls ++ [mkCall size bw AWGN nf; mkCall size bw NoiseNONE nf]) init g in
  (get_noise size bw AWGN nf s g).1.1 = silence size.
Proof.
  pose proof (run_coherent calls init g Hcalls init_coherent) as Hs.
  assert (Erun : ∀ l s g, run (calls ++ l) s g = let '(s, g) := run calls s g in run l s g).
  { intros l. clear. induction calls as [|c calls IH]; intros s g; [done|].
    cbn [run app]. destruct (get_noise _ _ _ _ s g) as [[? s'] g']. apply IH. }
  rewrite Erun. destruct (run calls init g) as [s g1]. cbn in Hs. cbn [run c_size c_bandwidth
    c_type c_noise_figure].
  destruct (awgn_spec size bw nf s g1 Hs)
    as (l & s' & g' & g0 & E & _ & El & Er & Hp & Hbw & Hnf). rewrite E.
  assert (Hl : length l = size) by (rewrite Hp; apply normal_fill_length).
  rewrite (noiseless_same size bw nf s' g' l Hbw Hnf El Hl).
  etrans; [|apply (shuffle_silence size g')].
  apply awgn_same; [exact Hbw|exact Hnf|reflexivity|apply length_replicate|exact Er].
Qed.

End Generator.
End Math.

(** ** Witnesses *)

Section Demo.

(** A generator that counts its draws and leaves the order alone. *)
#[local] Instance counting : Random nat.
Proof.
  refine {| normal_fill sigma n g := (replicate n (sigma, F32.of_Z (Z.of_nat g)), S g);
            shuffle l g := (l, S g) |}.
  - intros sigma n g. apply length_replicate.
  - intros l g. reflexivity.
Defined.

#[local] Instance flat_math : NoiseMath := {| log10 x := x; pow10f x := x; sqrtf x := x |}.

(** After two samples for 5 Hz and 3 dB and three for 7 Hz and 1 dB, three more
    for 7 Hz and 1 dB: the samples drawn before, at that level. *)
Definition demo_calls : list call :=
  [mkCall 2 (F64.of_Z 5) AWGN (F64.of_Z 3); mkCall 3 (F64.of_Z 7) AWGN (F64.of_Z 1)].

Definition demo_noise : signal_v * t * nat :=
  let '(s, g) := run demo_calls init 0%nat in
  get_noise 3 (F64.of_Z 7) AWGN (F64.of_Z 1) s g.

Lemma noise_has_the_level_asked_witness :
  demo_noise.1.1 = replicate 3 (sigma_of (F64.of_Z 7) (F64.of_Z 1), F32.of_Z 1) ∧
  ∃ g0, demo_noise.1.1 ≡ₚ (normal_fill (sigma_of (F64.of_Z 7) (F64.of_Z 1)) 3 g0).1.
Proof.
  assert (Ec : cached_bw demo_noise.1.2 = F64.of_Z 7 ∧ cached_nf demo_noise.1.2 = F64.of_Z 1)
    by (vm_compute; by split).
  split; [vm_compute; reflexivity|].
  pose proof (noise_has_the_level_asked demo_calls 3 (F64.of_Z 7) (F64.of_Z 1) 0%nat
    ltac:(repeat constructor) eq_refl eq_refl) as Hn.
  revert Ec. unfold demo_noise. destruct (run demo_calls init 0%nat) as [s g].
  destruct Hn as (l & s' & g' & g0 & -> & _ & Hp & _). intros [E1 E2]. cbn [fst snd] in E1, E2.
  rewrite E1, E2 in Hp. exists g0. exact Hp.
Defined.

Lemma fresh_thread_silent_witness :
  (get_noise 2 fzero AWGN fzero init 0%nat).1.1 = (normal_fill fzero 2 0%nat).1.
Proof. exact (fresh_thread_silent 2 fzero fzero 0%nat eq_refl eq_refl). Defined.

Lemma noise_lost_after_noiseless_link_witness :
  let '(s, g) := run ([] ++ [mkCall 2 (F64.of_Z 5) AWGN (F64.of_Z 3);
                             mkCall 2 (F64.of_Z 5) NoiseNONE (F64.of_Z 3)]) init 0%nat in
  (get_noise 2 (F64.of_Z 5) AWGN (F64.of_Z 3) s g).1.1 = silence 2.
Proof.
  exact (@noise_lost_after_noiseless_link flat_math nat counting [] 2 (F64.of_Z 5)
           (F64.of_Z 3) 0%nat (Forall_nil_2 _)).
Defined.

End Demo.

End Noise.
