(* ===== verification/Antenna.v ===== *)
(** src/src/chem/dsp/antenna_prop.cpp and src/include/chem/antennas/: which
    antenna a node uses, its gain in a direction, and the cache of antennas each
    thread keeps.

    The gain tables under antennas/generated hold measured data and enter as
    a parameter ([Patterns]); their layout, the choice of the table and the
    lookup are modelled.  So do the elementary functions of libm. *)

From Stdlib Require Import ZArith Lia Strings.String Strings.Ascii Floats.SpecFloat.
From stdpp Require Import prelude list strings gmap.
From S2P Require Import Prelude.
From S2P Require Import Ieee.
From S2P Require Import Common.
From S2P Require Import CxxLib.
From S2P Require Import NodeConfig.
From S2P Require Import Channel.
From S2P Require Import Kernels.

(** The three generated pattern files. *)
Inductive pattern : Type := SA_1400_5900 | RM_Right_Side_Up | RM_Upside_Down.

#[global] Instance pattern_eq_dec : EqDecision pattern.
Proof. solve_decision. Defined.

(** [kGrid_F<freq>_<pattern>]: 121 rows of 60 gains each. *)
Class Patterns : Type := {
  kGrid : pattern → Z → list float;
  kGrid_length : ∀ p f, length (kGrid p f) = 7260%nat;
}.

Class Trig : Type := {
  sin : float → float;
  cos : float → float;
  log10 : float → float;
}.

Module Antenna.

(** [std::fmod] is exact; [prec] and [emax] give the type. *)
Definition fmod (prec emax : Z) (x y : float) : float :=
  match x, y with
  | S754_finite s m e, S754_finite _ m' e' =>
      let e0 := Z.min e e' in
      let r := Z.rem (Z.shiftl (Zpos m) (e - e0)) (Z.shiftl (Zpos m') (e' - e0)) in
      binary_normalize prec emax (cond_Zopp s r) e0 s
  | S754_finite _ _ _, S754_infinity _ => x
  | S754_zero _, S754_finite _ _ _ => x
  | S754_zero _, S754_infinity _ => x
  | _, _ => S754_nan
  end.

(** [std::clamp]. *)
Definition fclamp (v lo hi : float) : float :=
  if flt v lo then lo else if flt hi v then hi else v.

Definition PI : float :=
  SFdiv 53 1024 (S754_finite false 314159265 0) (S754_finite false (Z.to_pos (10 ^ 8)) 0).

(** *** antennas.h *)

(** Upper-case letters, blanks and dashes. *)
Definition name_char (c : ascii) : ascii :=
  let c := tolower c in
  if Ascii.eqb c " " || Ascii.eqb c "-" then "_"%char else c.

Fixpoint collapse (last_underscore : bool) (s : list ascii) : list ascii :=
  match s with
  | [] => []
  | ch :: s =>
      if Ascii.eqb ch "_" then
        if last_underscore then collapse true s else ch :: collapse true s
      else ch :: collapse false s
  end.

Definition drop_front (s : list ascii) : list ascii :=
  match s with c :: s' => if Ascii.eqb c "_" then s' else s | [] => [] end.

Definition drop_back (s : list ascii) : list ascii :=
  reverse (drop_front (reverse s)).

Definition normalize_name (name : string) : string :=
  let name := name_char <$> list_ascii_of_string name in
  let out := drop_back (drop_front (collapse false name)) in
  string_of_list_ascii (match out with [] => name | _ => out end).

Definition AvailableAntennas : list string :=
  ["dipole"; "sa-1400-5900"; "rm-wb1-dn-blk right side up"; "rm-wb1-dn-blk upside down"]%string.

(** The classes derived from [Antenna]. *)
Inductive t : Type :=
  | Isotropic
  | Dipole (dipole_length freq : float)
  | Generated (p : pattern) (freq_mhz : float).

Definition SPEED_OF_LIGHT : float := F64.of_Z 299792458.

Definition MakeAntenna (name : string) (frequency_hz : float) : option t :=
  let norm := normalize_name name in
  let freq_mhz := F32.of_float (F64.div frequency_hz (F64.of_Z 1000000)) in
  if (norm =? "isotropic")%string then Some Isotropic
  else if (norm =? "dipole")%string then
    Some (Dipole (F64.div SPEED_OF_LIGHT (F64.mul (F64.of_Z 2) frequency_hz)) frequency_hz)
  else if (norm =? "sa_1400_5900")%string then Some (Generated SA_1400_5900 freq_mhz)
  else if (norm =? "rm_wb1_dn_blk_right_side_up")%string
  then Some (Generated RM_Right_Side_Up freq_mhz)
  else if (norm =? "rm_wb1_dn_blk_upside_down")%string
  then Some (Generated RM_Upside_Down freq_mhz)
  else None.

(** *** antennas/generated *)

Record PatternTable : Type := mkTable {
  freq_mhz : float;
  phi_min : float;
  phi_step : float;
  phi_size : Z;
  theta_min : float;
  theta_step : float;
  theta_size : Z;
  gains : list float;
}.

(** The fourteen frequencies are those of each of the three files. *)
Definition kFrequencies : list Z :=
  [902; 915; 928; 960; 1700; 2100; 3300; 3400; 3500; 3800; 5040; 5060; 5080; 5500].

Definition kTable `{Patterns} (p : pattern) (f : Z) : PatternTable :=
  mkTable (F32.of_Z f) fzero (Kernels.flit 5235987756 11) 60
    (SFopp (Kernels.flit 31415926536 10)) (Kernels.flit 5235987760000027 17) 121 (kGrid p f).

Definition kTables `{Patterns} (p : pattern) : list PatternTable :=
  kTable p <$> kFrequencies.

Definition nearest_table `{Patterns} (p : pattern) (f : float) : PatternTable :=
  let start := kTable p 902 in
  (foldl (λ '(best, best_diff) tbl,
      let diff := SFabs (F32.sub f (freq_mhz tbl)) in
      if flt diff best_diff then (tbl, diff) else (best, best_diff))
    (start, SFabs (F32.sub f (freq_mhz start))) (drop 1 (kTables p))).1.

(** [static_cast<size_t>(std::llround(x))]. *)
Definition to_index (x : float) : outcome fault Z :=
  match round x with
  | Some z => if decide (- 2 ^ 63 ≤ z < 2 ^ 63) then Ok (u64 z) else Err BadConversion
  | None => Err BadConversion
  end.

Definition two_pi : float := F32.mul (F32.of_Z 2) (Kernels.flit 3141592654 9).

Definition lookup_gain (tbl : PatternTable) (theta phi : float) : outcome fault float :=
  let rel_phi := fmod 24 128 (F32.sub phi (phi_min tbl)) two_pi in
  let rel_phi := if flt rel_phi fzero then F32.add rel_phi two_pi else rel_phi in
  (do! phi_round <- to_index (F32.div rel_phi (phi_step tbl));
   let phi_idx := phi_round mod phi_size tbl in
   let theta_max := F32.add (theta_min tbl)
     (F32.mul (theta_step tbl) (F32.of_Z (theta_size tbl - 1))) in
   let clamped_theta := fclamp theta (theta_min tbl) theta_max in
   do! theta_idx <- to_index (F32.div (F32.sub clamped_theta (theta_min tbl)) (theta_step tbl));
   Kernels.rd (gains tbl) (Z.to_nat (theta_idx * phi_size tbl + phi_idx)))%chem.

(** *** [get_gain] *)

Section Gain.
Context `{Patterns, Trig}.

Definition dipole_gain (theta : float) : float :=
  let sin_theta := sin theta in
  if flt (SFabs sin_theta) (F64.lit 1 6) then F64.of_Z (-60)
  else
    let pattern := F64.div (cos (F64.mul (F64.div PI (F64.of_Z 2)) (cos theta))) sin_theta in
    let gain_linear := F64.mul pattern pattern in
    F64.mul (F64.of_Z 10) (log10 (F64.mul gain_linear (F64.lit 164 2))).

Definition get_gain (a : t) (theta phi : float) : outcome fault float :=
  match a with
  | Isotropic => Ok fzero
  | Dipole _ _ => Ok (dipole_gain theta)
  | Generated p f =>
      lookup_gain (nearest_table p f) (F32.of_float theta) (F32.of_float phi)
  end.

(** *** antenna_prop.cpp *)

Definition deg_to_rad (deg : float) : float :=
  F64.mul deg (F64.div PI (F64.of_Z 180)).

Definition wrap_degrees (deg : float) : float :=
  let wrapped := fmod 53 1024 deg (F64.of_Z 360) in
  if flt wrapped fzero then F64.add wrapped (F64.of_Z 360) else wrapped.

Definition select_antenna_name (config : NodeConfig.t) (is_tx : bool) : string :=
  let '(has, pattern) :=
    if is_tx then (NodeConfig.m_hasTxAntennaPattern config, NodeConfig.m_txAntennaPattern config)
    else (NodeConfig.m_hasRxAntennaPattern config, NodeConfig.m_rxAntennaPattern config) in
  let from_channels :=
    let name ch := if is_tx then usrp.m_txAnt ch else usrp.m_rxAnt ch in
    match List.find (λ ch, negb (empty_str (name ch))) (NodeConfig.m_channels config) with
    | Some ch => lower (name ch)
    | None => "isotropic"%string
    end in
  if has && negb (empty_str pattern) then lower pattern
  else match NodeConfig.m_characteristics config with
  | Some chars =>
      match (if is_tx then tx_antennas chars else rx_antennas chars) with
      | a :: _ => lower a
      | [] => from_channels
      end
  | None => from_channels
  end.

(** [AntennaCache]: a null pointer is an entry too. *)
Definition cache : Type := gmap (string * Z) (option t).

(** Lines 93-101: the entry of the antenna and frequency, made on first use and
    again as long as it is null. *)
Definition cached_antenna (name : string) (khz : Z) (frequency_hz : float) (m : cache)
    : option t * cache :=
  match m !! (name, khz) with
  | Some (Some a) => (Some a, m)
  | _ => let a := MakeAntenna name frequency_hz in (a, <[(name, khz) := a]> m)
  end.

(** [static_cast<int64_t>(frequency_hz / 1000.0)]. *)
Definition freq_khz (frequency_hz : float) : outcome fault Z :=
  match trunc (F64.div frequency_hz (F64.of_Z 1000)) with
  | Some z => if decide (- 2 ^ 63 ≤ z < 2 ^ 63) then Ok z else Err BadConversion
  | None => Err BadConversion
  end.

(** Lines 103-118: the gain of an antenna in a direction. *)
Definition direction_gain (a : t) (is_tx : bool) (elevation_deg azimuth_deg : float)
    : outcome fault float :=
  let elev_deg := if isfinite elevation_deg then elevation_deg else fzero in
  let az_deg := if isfinite azimuth_deg then azimuth_deg else fzero in
  let theta_deg := fclamp (F64.sub (F64.of_Z 90) elev_deg) fzero (F64.of_Z 180) in
  let phi_rad := deg_to_rad (wrap_degrees
    (F64.add az_deg (if is_tx then fzero else F64.of_Z 180))) in
  (do! g <- get_gain a (deg_to_rad theta_deg) phi_rad; Ok (F32.of_float g))%chem.

Definition compute_antenna_gain_db (config : NodeConfig.t) (is_tx : bool)
    (frequency_hz elevation_deg azimuth_deg : float) (m : cache)
    : outcome fault (float * cache) :=
  if negb (isfinite frequency_hz) || fle frequency_hz fzero then Ok (fzero, m)
  else
    let name := select_antenna_name config is_tx in
    (do! khz <- freq_khz frequency_hz;
     let '(cached, m) := cached_antenna name khz frequency_hz m in
     match cached with
     | None => Ok (fzero, m)
     | Some a =>
         do! g <- direction_gain a is_tx elevation_deg azimuth_deg; Ok (g, m)
     end)%chem.

(** The same computation with a new antenna every time. *)
Definition gain_without_cache (config : NodeConfig.t) (is_tx : bool)
    (frequency_hz elevation_deg azimuth_deg : float) : outcome fault float :=
  if negb (isfinite frequency_hz) || fle frequency_hz fzero then Ok fzero
  else
    (do! _ <- freq_khz frequency_hz;
     match MakeAntenna (select_antenna_name config is_tx) frequency_hz with
     | None => Ok fzero
     | Some a => direction_gain a is_tx elevation_deg azimuth_deg
     end)%chem.

(** A thread's queries, in order. *)
Record query : Type := mkQuery {
  q_config : NodeConfig.t;
  q_is_tx : bool;
  q_frequency : float;
  q_elevation : float;
  q_azimuth : float;
}.

Definition ask (q : query) (m : cache) : outcome fault (float * cache) :=
  compute_antenna_gain_db (q_config q) (q_is_tx q) (q_frequency q) (q_elevation q)
    (q_azimuth q) m.

Fixpoint run (qs : list query) (m : cache) : outcome fault cache :=
  match qs with
  | [] => Ok m
  | q :: qs => do! (_, m) <- ask q m; run qs m
  end%chem.

(** ** The cache *)

Definition asked (qs : list query) (f : float) : Prop := ∃ q, q ∈ qs ∧ q_frequency q = f.

(** Every antenna kept was made for a usable frequency asked before, of the
    same kilohertz. *)
Definition made_for (P : float → Prop) (m : cache) : Prop :=
  ∀ name khz a, m !! (name, khz) = Some (Some a) →
    ∃ f, P f ∧ isfinite f = true ∧ fle f fzero = false ∧ freq_khz f = Ok khz ∧
      MakeAntenna name f = Some a.

Definition usable (f : float) : bool := isfinite f && negb (fle f fzero).

Lemma usable_eq f : negb (isfinite f) || fle f fzero = negb (usable f).
Proof. unfold usable. by destruct (isfinite f), (fle f fzero). Qed.

Lemma made_for_mono (P Q : float → Prop) m :
  (∀ f, P f → Q f) → made_for P m → made_for Q m.
Proof.
  intros HPQ Hm name khz a Ha. destruct (Hm name khz a Ha) as (f & HP & Hf).
  exists f. split; [by apply HPQ|done].
Qed.

(** Whether a name is known does not depend on the frequency. *)
Lemma MakeAntenna_known name f f' : MakeAntenna name f = None → MakeAntenna name f' = None.
Proof. unfold MakeAntenna. by repeat case_match. Qed.

Lemma cached_antenna_spec (P : float → Prop) name khz f m :
  made_for P m → P f → usable f = true → freq_khz f = Ok khz →
  let '(a, m') := cached_antenna name khz f m in
  made_for P m' ∧
  ∃ f0, P f0 ∧ usable f0 = true ∧ freq_khz f0 = Ok khz ∧ MakeAntenna name f0 = a.
Proof.
  intros Hm HP Hf Hk. unfold cached_antenna.
  assert (Hnew : made_for P (<[(name, khz) := MakeAntenna name f]> m)).
  { intros n k a Hl. apply lookup_insert_Some in Hl as [[[= <- <-] Ha]|[_ Ha]]; [|by apply Hm].
    unfold usable in Hf. apply andb_true_iff in Hf as [Hf1 Hf2%negb_true_iff]. by exists f. }
  destruct (m !! (name, khz)) as [[a|]|] eqn:E.
  - split; [done|]. destruct (Hm _ _ _ E) as (f0 & HP0 & Hf1 & Hf2 & Hk0 & Ha).
    exists f0. unfold usable. by rewrite Hf1, Hf2.
  - split; [done|]. by exists f.
  - split; [done|]. by exists f.
Qed.

(** One query against a good cache: the answer is that of a fresh antenna at
    [f0], and the cache stays good. *)
Lemma ask_spec (P : float → Prop) q m :
  made_for P m → P (q_frequency q) →
  (∀ g m', ask q m = Ok (g, m') → made_for P m') ∧
  ∃ f0, P f0 ∧ freq_khz f0 = freq_khz (q_frequency q) ∧
    usable f0 = usable (q_frequency q) ∧
    (do! (g, _) <- ask q m; Ok g)%chem
    = gain_without_cache (q_config q) (q_is_tx q) f0 (q_elevation q) (q_azimuth q).
Proof.
  intros Hm HP. unfold ask, compute_antenna_gain_db, gain_without_cache.
  setoid_rewrite usable_eq. destruct (usable (q_frequency q)) eqn:Hu; cbn [negb].
  2: { split; [by intros g m' [= _ <-]|]. exists (q_frequency q). by rewrite Hu. }
  destruct (freq_khz (q_frequency q)) as [khz|e] eqn:Hk; cbn [obind].
  2: { split; [done|]. exists (q_frequency q). by rewrite Hu, Hk. }
  pose proof (cached_antenna_spec P (select_antenna_name (q_config q) (q_is_tx q)) khz
    (q_frequency q) m Hm HP Hu Hk) as Hc.
  destruct (cached_antenna _ khz _ m) as [a m1].
  destruct Hc as (Hm1 & f0 & HP0 & Hu0 & Hk0 & Ha). split.
  - intros g m'. destruct a as [a|]; [|by intros [= _ <-]].
    destruct (direction_gain _ _ _ _); [|done]. by intros [= _ <-].
  - exists f0. rewrite Hu0, Hk0, Ha. cbn [negb obind]. split_and!; [done..|].
    destruct a as [a|]; [|done]. by destruct (direction_gain _ _ _ _).
Qed.

Lemma run_made_for (P : float → Prop) qs m m' :
  (∀ f, asked qs f → P f) → made_for P m → run qs m = Ok m' → made_for P m'.
Proof.
  revert m. induction qs as [|q qs IH]; intros m HP Hm; [by intros [= <-]|].
  cbn [run]. destruct (ask q m) as [[g m1]|e] eqn:E; [|done]. cbn [obind].
  apply IH.
  - intros f (q' & Hq & <-). apply HP. exists q'. split; [by right|done].
  - assert (HPq : P (q_frequency q)) by (apply HP; exists q; split; [by left|done]).
    destruct (ask_spec P q m Hm HPq) as [Hask _]. by eapply Hask.
Qed.

(** Only generated patterns remember the frequency they were made for. *)
Definition is_generated (a : t) : bool :=
  match a with Generated _ _ => true | _ => false end.

Lemma fixed_gain name f f' a a' tx el az :
  MakeAntenna name f = Some a → MakeAntenna name f' = Some a' → is_generated a = false →
  direction_gain a tx el az = direction_gain a' tx el az.
Proof.
  unfold MakeAntenna. repeat case_match; try done.
  - by intros [= <-] [= <-].
  - by intros [= <-] [= <-].
  - by intros [= <-].
  - by intros [= <-].
  - by intros [= <-].
Qed.

(** C17 The cache of antennas is invisible up to a kilohertz: whatever was asked
    before, an answer is the one a newly made antenna gives at the frequency of
    this or an earlier query that agrees in its kilohertz, and for antennas
    without a frequency-dependent table it is the answer at the very frequency
    asked. *)
Theorem antenna_cache_transparent qs m q (Hrun : run qs ∅ = Ok m) :
  let answer := (do! (g, _) <- ask q m; Ok g)%chem in
  let fresh f :=
    gain_without_cache (q_config q) (q_is_tx q) f (q_elevation q) (q_azimuth q) in
  (∃ f0, asked (qs ++ [q]) f0 ∧ freq_khz f0 = freq_khz (q_frequency q) ∧
     answer = fresh f0) ∧
  ((∀ a, MakeAntenna (select_antenna_name (q_config q) (q_is_tx q)) (q_frequency q) = Some a →
      is_generated a = false) → answer = fresh (q_frequency q)).
Proof.
  set (P := asked (qs ++ [q])). intros answer fresh.
  assert (Hm : made_for P m).
  { apply (run_made_for P qs ∅); [|by intros ? ? ? [=]|done].
    intros f (q' & Hq & <-). exists q'. split; [by apply elem_of_app; left|done]. }
  assert (HP : P (q_frequency q)).
  { exists q. split; [apply elem_of_app; right; by left|done]. }
  destruct (ask_spec P q m Hm HP) as (_ & f0 & HP0 & Hk & Hu & Ha).
  fold answer in Ha. fold (fresh f0) in Ha. split; [by exists f0|].
  intros Hgen. rewrite Ha. unfold fresh, gain_without_cache.
  rewrite !usable_eq, Hu, Hk. destruct (negb _); [done|].
  destruct (freq_khz (q_frequency q)); [|reflexivity]. cbn [obind].
  set (name := select_antenna_name _ _) in *.
  destruct (MakeAntenna name f0) as [a0|] eqn:E0.
  - destruct (MakeAntenna name (q_frequency q)) as [a1|] eqn:E.
    + symmetry. eapply fixed_gain; [exact E|exact E0|]. by apply Hgen.
    + by rewrite (MakeAntenna_known _ _ f0 E) in E0.
  - by rewrite (MakeAntenna_known _ _ (q_frequency q) E0).
Qed.

(** Every antenna the emulator advertises and every antenna of the AERPAW
    node profiles is one it can make, at any frequency and however the name is
    capitalised on the way. *)
Theorem advertised_antennas_exist name f
    (Hname : name ∈ AvailableAntennas ++ tx_antennas fixed_node_characteristics
      ++ rx_antennas fixed_node_characteristics ++ tx_antennas portable_node_characteristics
      ++ rx_antennas portable_node_characteristics) :
  is_Some (MakeAntenna name f) ∧ is_Some (MakeAntenna (lower name) f) ∧
  is_Some (MakeAntenna (upper name) f).
Proof.
  cbn in Hname. repeat (apply elem_of_cons in Hname as [->|Hname]; [by split_and!; eexists|]).
  by apply elem_of_nil in Hname.
Qed.

End Gain.

(** ** Witnesses *)

Section Demo.

#[local] Instance flat_patterns : Patterns := {|
  kGrid p f := replicate 7260 fzero;
  kGrid_length p f := length_replicate 7260 fzero;
|}.

#[local] Instance toy_trig : Trig := {| sin x := x; cos x := x; log10 x := x |}.

Definition demo_query (f : float) : query :=
  mkQuery (NodeConfig.setTxAntennaPattern "Dipole" (NodeConfig.default 0 0)) true f
    (F32.of_Z 10) (F32.of_Z 20).

(** 900 MHz, then 10 Hz more. *)
Lemma antenna_cache_transparent_witness :
  match run [demo_query (F64.of_Z 900000000)] ∅ with
  | Ok m =>
      ∃ f0, freq_khz f0 = freq_khz (F64.of_Z 900000010) ∧
        (do! (g, _) <- ask (demo_query (F64.of_Z 900000010)) m; Ok g)%chem
        = gain_without_cache (q_config (demo_query f0)) true f0 (F32.of_Z 10) (F32.of_Z 20)
  | Err _ => False
  end.
Proof.
  assert (Hok : match run [demo_query (F64.of_Z 900000000)] ∅ with
                | Ok _ => True | Err _ => False end) by (vm_compute; exact I).
  destruct (run [demo_query (F64.of_Z 900000000)] ∅) as [m|e] eqn:E; [|exact Hok].
  destruct (antenna_cache_transparent _ _ (demo_query (F64.of_Z 900000010)) E)
    as [(f0 & _ & Hk & Ha) _].
  exists f0. split; [exact Hk|exact Ha].
Defined.

Lemma advertised_antennas_exist_witness :
  is_Some (MakeAntenna "sa-1400-5900" fzero) ∧
  is_Some (MakeAntenna (lower "sa-1400-5900") fzero) ∧
  is_Some (MakeAntenna (upper "sa-1400-5900") fzero).
Proof.
  apply (advertised_antennas_exist "sa-1400-5900" fzero).
  apply elem_of_cons. right. apply elem_of_cons. left. reflexivity.
Defined.

(** A pattern set at run time wins over the profile, the profile over the
    channels; other names fall back to no gain. *)
Example antenna_priority :
  let c := (NodeConfig.default 0 0)
    <| NodeConfig.m_characteristics := Some portable_node_characteristics |> in
  select_antenna_name c true = "sa-1400-5900"%string ∧
  select_antenna_name (NodeConfig.setTxAntennaPattern "Dipole" c) true = "dipole"%string ∧
  select_antenna_name (NodeConfig.setTxAntennaPattern "Dipole" c) false
    = "sa-1400-5900"%string ∧
  select_antenna_name (NodeConfig.default 0 0) true = "isotropic"%string ∧
  MakeAntenna "yagi" fzero = None.
Proof. by vm_compute. Qed.

End Demo.

End Antenna.
