(* ===== verification/Intermediate.v ===== *)
(** src/src/chem/channel/intermediate.cpp: one emulated radio channel (one
    frequency).  This file has its membership (sources, destinations, sandbox
    nodes), the map of links and its maintenance, and the parameter setters;
    DataPath.v has the processing of bursts.

    Receivers and transmitters are shared objects: a [heap] maps their
    addresses to their state, and the maps of the intermediate hold addresses,
    so that what one component changes the others see.  The nodes of
    [m_channelMap] have addresses too, because [DestInfo] keeps pointers to
    them.  [std::unordered_map]s are finite maps; they are iterated in the
    order of [map_to_list].  Every operation runs under its locks, so it is one
    step. *)

From Stdlib Require Import ZArith Lia Strings.String Floats.SpecFloat.
From stdpp Require Import prelude list strings gmap fin_maps list_numbers.
From S2P Require Import Prelude Ieee Common CxxLib DataPool NodeConfig Signal UdpServer.
From S2P Require Import Receiver Transmitter Channel.

(** ** The shared objects *)

Record heap : Type := mkHeap {
  rxs : gmap positive Receiver.t;
  txs : gmap positive Transmitter.t;
}.

#[global] Instance heap_eta : Settable heap := fun h => mkHeap (rxs h) (txs h).

Definition update_rx (l : positive) (f : Receiver.t → Receiver.t) (h : heap) : heap :=
  h <| rxs := alter f l (rxs h) |>.

Definition update_tx (l : positive) (f : Transmitter.t → Transmitter.t) (h : heap) : heap :=
  h <| txs := alter f l (txs h) |>.

Inductive ierror : Type :=
  | NullDeref            (** [->] on a null [shared_ptr] *)
  | Dangling             (** a pointer to an erased channel *)
  | OutOfBounds          (** a read or write outside a buffer *)
  | BadConversion        (** a floating value outside the integer type *)
  | PoolFailure (e : pool_error).

Module Intermediate.

(** [struct DestInfo]; [config] points into the transmitter. *)
Record DestInfo : Type := mkDestInfo {
  dest_id : string;
  sample_rate : float;          (* float *)
  num_channels : Z;             (* size_t *)
  transmitter : positive;
  channel : positive;           (** address of the map node *)
}.

#[global] Instance DestInfo_eq_dec : EqDecision DestInfo.
Proof. solve_decision. Defined.

(** [struct WorkerContext], without its thread and its scratch buffers;
    [src_config] points into the receiver. *)
Record WorkerContext : Type := mkWorker {
  queue : list Signal.t;        (** bounded queue *)
  running : bool;
  running_flag : bool;
  receiver_id : string;
  src_node_id : string;
  src_config : positive;
  cached_dest_version : Z;      (* uint64_t *)
  cached_destinations : list DestInfo;
  numa_node : Z;
  last_tx_ns : Z;
}.

#[global] Instance WorkerContext_eta : Settable WorkerContext := fun w =>
  mkWorker (queue w) (running w) (running_flag w) (receiver_id w) (src_node_id w)
    (src_config w) (cached_dest_version w) (cached_destinations w) (numa_node w)
    (last_tx_ns w).

Record t : Type := mk {
  work : bool;
  m_freq : float;
  m_max_latency_ns : Z;         (* int64_t *)
  m_propagationModel : PropagationModel;
  grReflection : float;
  m_3gppScenario : string;
  m_hataEnvironment : string;
  m_itmRefractivity : float;
  m_itmGroundConductivity : float;
  m_itmGroundPermittivity : float;
  m_itmClimateZone : Z;
  m_sourceMap : gmap string positive;
  m_destinationMap : gmap string positive;
  m_destCount : Z;
  m_destVersion : Z;            (* uint64_t *)
  m_channelMap : gmap (string * string) (positive * Channel.t);
  next_node : positive;         (** address of the next map node *)
  m_workers : gmap string WorkerContext;
  m_timingEnabled : bool;
  m_signalProcessingEnabled : bool;
  m_poolDropCount : Z;
  m_workerAgeDropCount : Z;
  m_sandboxNodes : gset string;
  m_sandboxNumChannels : gmap string Z;
}.

#[global] Instance t_eta : Settable t := fun i =>
  mk (work i) (m_freq i) (m_max_latency_ns i) (m_propagationModel i) (grReflection i)
    (m_3gppScenario i) (m_hataEnvironment i) (m_itmRefractivity i)
    (m_itmGroundConductivity i) (m_itmGroundPermittivity i) (m_itmClimateZone i)
    (m_sourceMap i) (m_destinationMap i) (m_destCount i) (m_destVersion i)
    (m_channelMap i) (next_node i) (m_workers i) (m_timingEnabled i)
    (m_signalProcessingEnabled i) (m_poolDropCount i) (m_workerAgeDropCount i)
    (m_sandboxNodes i) (m_sandboxNumChannels i).

(** [m_max_latency_ns = MS_2_NS(static_cast<float>(max_latency_ms))]. *)
Definition latency_ns (ms : Z) : Z := cvtt64 (MS_2_NS (F32.of_Z ms)).

Definition ctor (freq : float) (max_latency_ms : Z) : t :=
  mk true freq (latency_ns max_latency_ms) FREE_SPACE (F32.of_Z (-1)) "UMa" "URBAN"
    (F32.of_Z 301) (F32.of_float (F64.lit 5 3)) (F32.of_Z 15) 5 ∅ ∅ 0 0 ∅ 1 ∅
    false false 0 0 ∅ ∅.

Definition setMaxLatency (ms : Z) (i : t) : t := i <| m_max_latency_ns := latency_ns ms |>.

Definition getMaxLatency (i : t) : Z := cvtt64 (NS_2_MS (F32.of_Z (m_max_latency_ns i))).

Definition isEmpty (i : t) : bool :=
  bool_decide (m_destinationMap i = ∅) && bool_decide (m_sourceMap i = ∅)
  && bool_decide (m_sandboxNodes i = ∅).

Definition EmptyChannelChecker (i : t) : t := if isEmpty i then i <| work := false |> else i.

Definition GetDestinationCnt (i : t) : Z := u8 (Z.of_nat (size (m_destinationMap i))).

Definition GetSourceCnt (i : t) : Z := u8 (Z.of_nat (size (m_sourceMap i))).

(** *** The map of links *)

Definition currentPlType (m : PropagationModel) : PathLossType :=
  match m with
  | TWO_RAY => twoRay
  | THREE_GPP_38_901 => threeGPP_38_901
  | OKUMURA_HATA => okumuraHata
  | LONGLEY_RICE => longleyRice
  | _ => freeSpace
  end.

Definition new_channel (src_id dst_id : string) (destNumCh srcNumCh : Z) (i : t)
    : Channel.t :=
  Channel.updateITMParams (m_itmRefractivity i) (m_itmGroundConductivity i)
    (m_itmGroundPermittivity i) (m_itmClimateZone i)
    (Channel.updateHataEnvironment (m_hataEnvironment i)
      (Channel.update3gppScenario (m_3gppScenario i)
        (Channel.updatePlType (currentPlType (m_propagationModel i))
          (Channel.ctor src_id dst_id destNumCh srcNumCh)))).

(** A request to link two nodes: ids and channel counts. *)
Definition link : Type := string * string * Z * Z.

Definition insertChannelIfMissing (r : link) (i : t) : t :=
  let '(src_id, dst_id, destNumCh, srcNumCh) := r in
  match m_channelMap i !! (src_id, dst_id) with
  | Some _ => i
  | None =>
      i <| m_channelMap :=
             <[(src_id, dst_id) :=
                 (next_node i, new_channel src_id dst_id destNumCh srcNumCh i)]>
               (m_channelMap i) |>
        <| next_node := Pos.succ (next_node i) |>
  end.

(** The objects the maps point to. *)
Definition sources (h : heap) (i : t) : list Receiver.t :=
  omap (fun kv => rxs h !! kv.2) (map_to_list (m_sourceMap i)).

Definition destinations (h : heap) (i : t) : list Transmitter.t :=
  omap (fun kv => txs h !! kv.2) (map_to_list (m_destinationMap i)).

Definition sandbox_channels (n : string) (i : t) : Z :=
  u8 (default 1 (m_sandboxNumChannels i !! n)).

(** The links [updateChannelMap] asks for, in its order. *)
Definition wanted (h : heap) (i : t) : list link :=
  let real :=
    s ← sources h i; d ← destinations h i;
    [(Receiver.m_NodeId s, Transmitter.m_NodeId d,
      Transmitter.m_numChannels d, Receiver.m_numChannels s)] in
  let sandbox :=
    a ← elements (m_sandboxNodes i);
    (b ← elements (m_sandboxNodes i);
     if decide (a = b) then [] else [(a, b, sandbox_channels b i, sandbox_channels a i)])
    ++ ((fun d => (a, Transmitter.m_NodeId d, Transmitter.m_numChannels d,
                   sandbox_channels a i)) <$> destinations h i)
    ++ ((fun s => (Receiver.m_NodeId s, a, sandbox_channels a i,
                   Receiver.m_numChannels s)) <$> sources h i) in
  real ++ sandbox.

Definition updateChannelMap (h : heap) (i : t) : t :=
  foldl (fun i r => insertChannelIfMissing r i) i (wanted h i).

Definition removeChannel (nodeId : string) (i : t) : t :=
  i <| m_channelMap :=
         filter (fun kv => ¬ (Channel.source (kv.2.2) = nodeId ∨
                              Channel.destination (kv.2.2) = nodeId)) (m_channelMap i) |>.

Definition getChannel (s d : string) (i : t) : option (positive * Channel.t) :=
  m_channelMap i !! (s, d).

Definition bump (i : t) : t := i <| m_destVersion := u64 (m_destVersion i + 1) |>.

(** [printStatus] looks every endpoint of a link up with [operator[]]: a node
    that is not attached comes back as a null pointer, which is dereferenced. *)
Definition printStatus (i : t) : outcome ierror t :=
  if forallb (fun kv => bool_decide (is_Some (m_sourceMap i !! Channel.source (kv.2.2)))
                     && bool_decide (is_Some (m_destinationMap i !! Channel.destination (kv.2.2))))
       (map_to_list (m_channelMap i))
  then Ok i else Err NullDeref.

(** *** Membership *)

Definition AttachDestination (l : positive) (h : heap) (i : t) : outcome ierror t :=
  match txs h !! l with
  | None => Err NullDeref
  | Some x =>
      let id := NodeConfig.m_id (Transmitter.m_node_config x) in
      match m_destinationMap i !! id with
      | Some _ => Ok i
      | None =>
          let i := i <| m_destinationMap := <[id := l]> (m_destinationMap i) |>
                     <| m_destCount := m_destCount i + 1 |> in
          printStatus (bump (updateChannelMap h i))
      end
  end.

Definition DetachDestination (l : positive) (h : heap) (i : t)
    : outcome ierror (bool * heap * t) :=
  match txs h !! l with
  | None => Err NullDeref
  | Some x =>
      let id := Transmitter.m_NodeId x in
      match m_destinationMap i !! id with
      | None => Ok (false, h, i)
      | Some _ =>
          let h := update_tx l (Transmitter.setAttachState false) h in
          let i := removeChannel id i in
          let i := i <| m_destinationMap := delete id (m_destinationMap i) |>
                     <| m_destCount := m_destCount i - 1 |> in
          Ok (true, h, EmptyChannelChecker (bump i))
      end
  end.

Definition new_worker (id node_id : string) (l : positive) : WorkerContext :=
  mkWorker [] true true id node_id l 0 [] 0 0.

Definition AttachSource (l : positive) (h : heap) (i : t) : outcome ierror (heap * t) :=
  match rxs h !! l with
  | None => Err NullDeref
  | Some r =>
      let id := Receiver.m_NodeId r in
      match m_sourceMap i !! id with
      | Some _ => Ok (h, i)
      | None =>
          let h := update_rx l (fun r => Receiver.setAddQueFnc true
                     (Receiver.setAttachState true r)) h in
          let w := new_worker id (NodeConfig.m_id (Receiver.m_node_config r)) l in
          let i := i <| m_sourceMap := <[id := l]> (m_sourceMap i) |>
                     <| m_workers := <[id := w]> (m_workers i) |> in
          match printStatus (bump (updateChannelMap h i)) with
          | Ok i => Ok (h, i)
          | Err e => Err e
          end
      end
  end.

(** [DetachSource]: the signals left in the worker's queue go to the first
    pool (returned for the caller to release). *)
Definition DetachSource (l : positive) (h : heap) (i : t)
    : outcome ierror (bool * heap * t * list Signal.t) :=
  match rxs h !! l with
  | None => Err NullDeref
  | Some r =>
      let id := Receiver.m_NodeId r in
      match m_sourceMap i !! id with
      | None => Ok (false, h, i, [])
      | Some _ =>
          let h := update_rx l (fun r => Receiver.setAddQueFnc true
                     (Receiver.setAttachState false r)) h in
          let drained := match m_workers i !! id with Some w => queue w | None => [] end in
          let i := i <| m_workers := delete id (m_workers i) |> in
          let i := bump (removeChannel id i) in
          let i := i <| m_sourceMap := delete id (m_sourceMap i) |> in
          Ok (true, h, EmptyChannelChecker i, drained)
      end
  end.

Definition addSandboxNode (n : string) (numCh : Z) (h : heap) (i : t) : t :=
  let i := i <| m_sandboxNodes := {[n]} ∪ m_sandboxNodes i |>
             <| m_sandboxNumChannels := <[n := numCh]> (m_sandboxNumChannels i) |> in
  bump (updateChannelMap h i).

Definition removeSandboxNode (n : string) (i : t) : t :=
  let i := i <| m_sandboxNodes := m_sandboxNodes i ∖ {[n]} |>
             <| m_sandboxNumChannels := delete n (m_sandboxNumChannels i) |> in
  bump (removeChannel n i).

Definition getTxActivity (i : t) : list (string * Z) :=
  (fun kv => (src_node_id kv.2, last_tx_ns kv.2)) <$> map_to_list (m_workers i).

(** *** Parameters *)

(** A setter applied to every link. *)
Definition for_channels (f : Channel.t → Channel.t) (i : t) : t :=
  i <| m_channelMap := (fun ac => (ac.1, f ac.2)) <$> m_channelMap i |>.

(** A setter applied to one link; the result is whether it exists. *)
Definition for_channel (s d : string) (f : Channel.t → Channel.t) (i : t) : bool * t :=
  match m_channelMap i !! (s, d) with
  | Some (a, c) => (true, i <| m_channelMap := <[(s, d) := (a, f c)]> (m_channelMap i) |>)
  | None => (false, i)
  end.

Definition setPathLossMode (m : PropagationModel) (i : t) : t :=
  for_channels (Channel.updatePlType (currentPlType m)) (i <| m_propagationModel := m |>).

Definition setPathLossMode_string (m : string) (i : t) : t :=
  setPathLossMode (PropagationModelFromString m) i.

Definition set3gppScenario (s : string) (i : t) : t :=
  if empty_str s then i
  else for_channels (Channel.update3gppScenario s) (i <| m_3gppScenario := s |>).

Definition setHataEnvironment (s : string) (i : t) : t :=
  if empty_str s then i
  else for_channels (Channel.updateHataEnvironment s) (i <| m_hataEnvironment := s |>).

Definition setITMParams (r g p : float) (zone : Z) (i : t) : t :=
  let z := clampZ 1 7 zone in
  for_channels (Channel.updateITMParams r g p z)
    (i <| m_itmRefractivity := r |> <| m_itmGroundConductivity := g |>
       <| m_itmGroundPermittivity := p |> <| m_itmClimateZone := z |>).

Definition updatePathLoss (m : PropagationModel) (gr : float) (i : t) : t :=
  (setPathLossMode m i) <| grReflection := gr |>.

Definition updateAWGN (s d : string) (enabled : bool) (snr : float) (i : t) : bool * t :=
  for_channel s d
    (fun c => if enabled then Channel.updateSNR snr (Channel.updateNoiseType AWGN c)
              else Channel.clearSNROverride (Channel.updateNoiseType NoiseNONE c)) i.

Definition updateCIR (s d : string) (k : chId) (taps : signal_v) (i : t) : bool * t :=
  for_channel s d
    (match taps with [] => Channel.clearChTaps k | _ => Channel.updateChTaps k taps end) i.

Definition setShadowingSTD (x : float) (i : t) : t :=
  for_channels (Channel.setShadowingSTD x) i.

Definition updateDistance (s d : string) (x : float) (i : t) : bool * t :=
  for_channel s d (Channel.updateDistance x) i.

Definition updateAltitude (s d : string) (x : float) (i : t) : bool * t :=
  for_channel s d (Channel.updateAltitude x) i.

Definition updateElevation (s d : string) (x : float) (i : t) : bool * t :=
  for_channel s d (Channel.updateElevation x) i.

Definition updateAzimuth (s d : string) (x : float) (i : t) : bool * t :=
  for_channel s d (Channel.updateAzimuth x) i.

Definition updateChannelCoeff (s d : string) (k : chId) (x : float) (i : t) : bool * t :=
  for_channel s d (Channel.updateChCoeff k x) i.

Definition updateFrequencyOffset (s d : string) (x : float) (i : t) : bool * t :=
  for_channel s d (Channel.setFrequencyOffsetHz x) i.

Definition updateDopplerEnabled (s d : string) (b : bool) (i : t) : bool * t :=
  for_channel s d (Channel.setDopplerEnabled b) i.

Definition updateDopplerHz (s d : string) (x : float) (i : t) : bool * t :=
  for_channel s d (Channel.setDopplerHz x) i.

(** The pattern arguments of [updateNodeAntenna] applied to one config. *)
Definition set_patterns (pat tx rx : string) (c : NodeConfig.t) : NodeConfig.t :=
  if negb (empty_str pat) then NodeConfig.setAntennaPattern pat c
  else
    let c := if empty_str tx then c else NodeConfig.setTxAntennaPattern tx c in
    if empty_str rx then c else NodeConfig.setRxAntennaPattern rx c.

(** [updateNodeAntenna] changes the configurations inside the shared
    receivers and transmitters. *)
Definition updateNodeAntenna (name pat tx rx : string) (h : heap) (i : t) : bool * heap :=
  let hit_rx l := match rxs h !! l with
                  | Some r => (Receiver.m_NodeName r =? name)%string
                              || (Receiver.m_NodeId r =? name)%string
                  | None => false
                  end in
  let hit_tx l := match txs h !! l with
                  | Some x => (Transmitter.m_NodeName x =? name)%string
                              || (Transmitter.m_NodeId x =? name)%string
                  | None => false
                  end in
  let rs := filter (fun l => hit_rx l = true) ((map_to_list (m_sourceMap i)).*2) in
  let ds := filter (fun l => hit_tx l = true) ((map_to_list (m_destinationMap i)).*2) in
  let h := foldl (fun h l => update_rx l (fun r =>
             r <| Receiver.m_node_config :=
                    set_patterns pat tx rx (Receiver.m_node_config r) |>) h) h rs in
  let h := foldl (fun h l => update_tx l (fun x =>
             x <| Transmitter.m_node_config :=
                    set_patterns pat tx rx (Transmitter.m_node_config x) |>) h) h ds in
  (negb (bool_decide (rs = [])) || negb (bool_decide (ds = [])), h).

Definition setTimingEnabled (b : bool) (i : t) : t := i <| m_timingEnabled := b |>.

Definition setSignalProcessingEnabled (b : bool) (i : t) : t :=
  i <| m_signalProcessingEnabled := b |>.

Definition resetDropCounters (i : t) : t :=
  i <| m_poolDropCount := 0 |> <| m_workerAgeDropCount := 0 |>.

(** ** Lemmas on the map of links *)

Definition key (r : link) : string * string := (r.1.1.1, r.1.1.2).

(** The only fields [updateChannelMap] and [removeChannel] touch. *)
Definition same_but_links (i i' : t) : Prop :=
  ∃ m n, i' = i <| m_channelMap := m |> <| next_node := n |>.

#[global] Instance same_but_links_refl : Reflexive same_but_links.
Proof. intros i. exists (m_channelMap i), (next_node i). by destruct i. Qed.

#[global] Instance same_but_links_trans : Transitive same_but_links.
Proof. intros i1 i2 i3 (m & n & ->) (m' & n' & ->). by exists m', n'. Qed.

(** Every node of the map is filed under its own end points, and node
    addresses are distinct and below [next_node]. *)
Definition nodes_ok (i : t) : Prop :=
  (∀ k a c, m_channelMap i !! k = Some (a, c) →
     k = (Channel.source c, Channel.destination c) ∧ (a < next_node i)%positive) ∧
  (∀ k k' a c c', m_channelMap i !! k = Some (a, c) →
     m_channelMap i !! k' = Some (a, c') → k = k').

(** Every link carries the models in force. *)
Definition models_ok (i : t) : Prop :=
  m_3gppScenario i ≠ "" ∧ m_hataEnvironment i ≠ "" ∧
  ∀ k a c, m_channelMap i !! k = Some (a, c) →
    Channel.plType c = currentPlType (m_propagationModel i) ∧
    Channel.scenario3gpp c = m_3gppScenario i ∧
    Channel.hataEnvironment c = m_hataEnvironment i.

Lemma empty_str_false s : s ≠ "" → empty_str s = false.
Proof. by destruct s. Qed.

Lemma new_channel_ends s d dn sn i :
  Channel.source (new_channel s d dn sn i) = s ∧
  Channel.destination (new_channel s d dn sn i) = d.
Proof.
  unfold new_channel, Channel.updateHataEnvironment, Channel.update3gppScenario.
  by destruct (empty_str (m_hataEnvironment i)), (empty_str (m_3gppScenario i)).
Qed.

Lemma new_channel_models s d dn sn i :
  m_3gppScenario i ≠ "" → m_hataEnvironment i ≠ "" →
  Channel.plType (new_channel s d dn sn i) = currentPlType (m_propagationModel i) ∧
  Channel.scenario3gpp (new_channel s d dn sn i) = m_3gppScenario i ∧
  Channel.hataEnvironment (new_channel s d dn sn i) = m_hataEnvironment i.
Proof.
  intros H3 Hh. unfold new_channel, Channel.updateHataEnvironment, Channel.update3gppScenario.
  by rewrite !empty_str_false.
Qed.

Lemma insert_same r i : same_but_links i (insertChannelIfMissing r i).
Proof.
  destruct r as [[[s d] dn] sn]. unfold insertChannelIfMissing.
  destruct (m_channelMap i !! _); [reflexivity|]. by eexists _, _.
Qed.

Lemma insert_keys r i k :
  is_Some (m_channelMap (insertChannelIfMissing r i) !! k) ↔
  is_Some (m_channelMap i !! k) ∨ k = key r.
Proof.
  destruct r as [[[s d] dn] sn]. unfold insertChannelIfMissing, key. cbn [fst snd].
  destruct (m_channelMap i !! (s, d)) eqn:E.
  - split; [by left|]. intros [?| ->]; [done|]. by rewrite E.
  - cbn [modify m_channelMap]. rewrite lookup_insert_is_Some. split.
    + intros [<-|[_ ?]]; auto.
    + destruct (decide ((s, d) = k)); [by left|]. intros [?| ->]; [by right|done].
Qed.

Lemma insert_old r i k v :
  m_channelMap i !! k = Some v → m_channelMap (insertChannelIfMissing r i) !! k = Some v.
Proof.
  destruct r as [[[s d] dn] sn]. unfold insertChannelIfMissing. intros Hk.
  destruct (m_channelMap i !! (s, d)) eqn:E; [done|]. cbn [modify m_channelMap].
  rewrite lookup_insert_ne; [done|]. intros <-. congruence.
Qed.

Lemma insert_nodes r i : nodes_ok i → nodes_ok (insertChannelIfMissing r i).
Proof.
  destruct r as [[[s d] dn] sn]. unfold insertChannelIfMissing. intros [H1 H2].
  destruct (m_channelMap i !! (s, d)) eqn:E; [by split|].
  split; cbn [modify m_channelMap next_node].
  - intros k a c [[<- [= <- <-]]|[Hne Hk]]%lookup_insert_Some.
    + destruct (new_channel_ends s d dn sn i) as [-> ->]. split; [done|lia].
    + destruct (H1 _ _ _ Hk). split; [done|lia].
  - intros k k' a c c' Hk Hk'.
    apply lookup_insert_Some in Hk as [[<- Heq]|[Hne Hk]],
      Hk' as [[<- Heq']|[Hne' Hk']]; try done.
    + injection Heq as <- Hc. destruct (H1 _ _ _ Hk'). lia.
    + injection Heq' as <- Hc. destruct (H1 _ _ _ Hk). lia.
    + by eapply H2.
Qed.

Lemma insert_models r i : models_ok i → models_ok (insertChannelIfMissing r i).
Proof.
  intros (H3 & Hh & Hm). destruct r as [[[s d] dn] sn]. unfold insertChannelIfMissing.
  destruct (m_channelMap i !! (s, d)) eqn:E; [by split_and!|].
  split_and!; [exact H3|exact Hh|]. intros k a c. cbn [modify m_channelMap].
  intros [[<- [= <- <-]]|[Hne Hk]]%lookup_insert_Some.
  - exact (new_channel_models s d dn sn i H3 Hh).
  - exact (Hm k a c Hk).
Qed.

Section Requests.
Context (reqs : list link).

Let step i := foldl (fun i r => insertChannelIfMissing r i) i reqs.

Lemma requests_same i : same_but_links i (step i).
Proof.
  subst step. revert i. induction reqs as [|r l IH]; intros i; [reflexivity|].
  cbn [foldl]. etrans; [apply insert_same|apply IH].
Qed.

Lemma requests_keys i k :
  is_Some (m_channelMap (step i) !! k) ↔
  is_Some (m_channelMap i !! k) ∨ k ∈ key <$> reqs.
Proof.
  subst step. revert i. induction reqs as [|r l IH]; intros i; cbn [foldl fmap list_fmap].
  - rewrite elem_of_nil. tauto.
  - rewrite IH, insert_keys, elem_of_cons. tauto.
Qed.

Lemma requests_nodes i : nodes_ok i → nodes_ok (step i).
Proof.
  subst step. revert i. induction reqs as [|r l IH]; intros i Hi; [done|].
  apply IH, insert_nodes, Hi.
Qed.

Lemma requests_models i : models_ok i → models_ok (step i).
Proof.
  subst step. revert i. induction reqs as [|r l IH]; intros i Hi; [done|].
  apply IH, insert_models, Hi.
Qed.

End Requests.

End Intermediate.

(** ** The intermediate as a state machine *)

Section Machine.
Import Intermediate.

(** The nodes that may be the sending or receiving end of a link. *)
Definition senders (i : Intermediate.t) : gset string :=
  dom (m_sourceMap i) ∪ m_sandboxNodes i.

Definition listeners (i : Intermediate.t) : gset string :=
  dom (m_destinationMap i) ∪ m_sandboxNodes i.

(** The maps hold pointers to live objects filed under their own ids. *)
Definition heap_ok (h : heap) (i : Intermediate.t) : Prop :=
  (∀ id l, m_sourceMap i !! id = Some l →
     ∃ r, rxs h !! l = Some r ∧ Receiver.m_NodeId r = id) ∧
  (∀ id l, m_destinationMap i !! id = Some l →
     ∃ x, txs h !! l = Some x ∧ Transmitter.m_NodeId x = id ∧
          NodeConfig.m_id (Transmitter.m_node_config x) = id).

Definition membership_inv (hi : heap * Intermediate.t) : Prop :=
  let '(h, i) := hi in
  heap_ok h i ∧ nodes_ok i ∧ models_ok i ∧
  (∀ s d, is_Some (m_channelMap i !! (s, d)) → s ∈ senders i ∧ d ∈ listeners i) ∧
  m_destCount i = Z.of_nat (size (m_destinationMap i)) ∧
  dom (m_workers i) = dom (m_sourceMap i).

(** The setters that act on one link, and those that act on all. *)
Inductive link_setter : Type :=
  | LAwgn (on : bool) (snr : float) | LCir (k : chId) (taps : signal_v)
  | LDistance (x : float) | LAltitude (x : float) | LElevation (x : float)
  | LAzimuth (x : float) | LCoeff (k : chId) (x : float) | LOffset (x : float)
  | LDopplerOn (b : bool) | LDoppler (x : float).

Definition apply_link (f : link_setter) (s d : string) (i : Intermediate.t)
    : bool * Intermediate.t :=
  match f with
  | LAwgn on snr => updateAWGN s d on snr i
  | LCir k taps => updateCIR s d k taps i
  | LDistance x => updateDistance s d x i
  | LAltitude x => updateAltitude s d x i
  | LElevation x => updateElevation s d x i
  | LAzimuth x => updateAzimuth s d x i
  | LCoeff k x => updateChannelCoeff s d k x i
  | LOffset x => updateFrequencyOffset s d x i
  | LDopplerOn b => updateDopplerEnabled s d b i
  | LDoppler x => updateDopplerHz s d x i
  end.

Inductive global_setter : Type :=
  | GModel (m : PropagationModel) (gr : float) | GScenario (s : string) | GHata (s : string)
  | GItm (r g p : float) (zone : Z) | GShadow (x : float) | GLatency (ms : Z)
  | GTiming (b : bool) | GReset.

Definition apply_global (f : global_setter) (i : Intermediate.t) : Intermediate.t :=
  match f with
  | GModel m gr => updatePathLoss m gr i
  | GScenario s => set3gppScenario s i
  | GHata s => setHataEnvironment s i
  | GItm r g p z => setITMParams r g p z i
  | GShadow x => Intermediate.setShadowingSTD x i
  | GLatency ms => setMaxLatency ms i
  | GTiming b => setTimingEnabled b i
  | GReset => resetDropCounters i
  end.

(** What other components may do to the shared objects: anything that keeps
    the ids. *)
Definition same_ids (h h' : heap) : Prop :=
  (∀ l r, rxs h !! l = Some r → ∃ r', rxs h' !! l = Some r' ∧
     Receiver.m_NodeId r' = Receiver.m_NodeId r) ∧
  (∀ l x, txs h !! l = Some x → ∃ x', txs h' !! l = Some x' ∧
     Transmitter.m_NodeId x' = Transmitter.m_NodeId x ∧
     NodeConfig.m_id (Transmitter.m_node_config x')
     = NodeConfig.m_id (Transmitter.m_node_config x)).

Inductive istep : heap * Intermediate.t → heap * Intermediate.t → Prop :=
  | is_attach_dest h i l x i' :
      txs h !! l = Some x →
      Transmitter.m_NodeId x = NodeConfig.m_id (Transmitter.m_node_config x) →
      AttachDestination l h i = Ok i' → istep (h, i) (h, i')
  | is_detach_dest h i l b h' i' :
      DetachDestination l h i = Ok (b, h', i') → istep (h, i) (h', i')
  | is_attach_src h i l h' i' :
      AttachSource l h i = Ok (h', i') → istep (h, i) (h', i')
  | is_detach_src h i l b h' i' q :
      DetachSource l h i = Ok (b, h', i', q) → istep (h, i) (h', i')
  | is_add_sandbox h i n k : istep (h, i) (h, addSandboxNode n k h i)
  | is_rem_sandbox h i n : istep (h, i) (h, removeSandboxNode n i)
  | is_link h i f s d : istep (h, i) (h, (apply_link f s d i).2)
  | is_global h i f : istep (h, i) (h, apply_global f i)
  | is_environment h i h' : same_ids h h' → istep (h, i) (h', i).

(** *** What each operation does to the map of links *)

Lemma heap_ok_ids h h' i : same_ids h h' → heap_ok h i → heap_ok h' i.
Proof.
  intros [Hr Hx] [H1 H2]. split.
  - intros id l Hl. destruct (H1 id l Hl) as (r & E & <-).
    destruct (Hr l r E) as (r' & ? & ?). eauto.
  - intros id l Hl. destruct (H2 id l Hl) as (x & E & <- & E').
    destruct (Hx l x E) as (x' & ? & ? & ?). exists x'. split_and!; congruence.
Qed.

Lemma update_rx_ids l f h :
  (∀ r, Receiver.m_NodeId (f r) = Receiver.m_NodeId r) → same_ids h (update_rx l f h).
Proof.
  intros Hf. split; cbn; [|eauto]. intros l' r Hr. destruct (decide (l = l')) as [->|].
  - exists (f r). rewrite lookup_alter_eq, Hr. by rewrite Hf.
  - exists r. by rewrite lookup_alter_ne.
Qed.

Lemma update_tx_ids l f h :
  (∀ x, Transmitter.m_NodeId (f x) = Transmitter.m_NodeId x) →
  (∀ x, Transmitter.m_node_config (f x) = Transmitter.m_node_config x) →
  same_ids h (update_tx l f h).
Proof.
  intros Hf Hc. split; cbn; [eauto|]. intros l' x Hx. destruct (decide (l = l')) as [->|].
  - exists (f x). rewrite lookup_alter_eq, Hx, Hf, Hc. done.
  - exists x. by rewrite lookup_alter_ne.
Qed.

(** The end points [updateChannelMap] asks for are attached or sandbox nodes. *)
Lemma wanted_ends h i s d :
  heap_ok h i → (s, d) ∈ key <$> wanted h i → s ∈ senders i ∧ d ∈ listeners i.
Proof.
  intros [Hsrc Hdst]. unfold senders, listeners.
  assert (Hs : ∀ r, r ∈ sources h i → Receiver.m_NodeId r ∈ dom (m_sourceMap i)).
  { intros r ([id l] & Hin & Hr)%list_elem_of_omap. apply elem_of_map_to_list in Hin.
    simpl in Hr. destruct (Hsrc id l Hin) as (r' & Hr' & <-). simplify_eq.
    by eapply elem_of_dom_2. }
  assert (Hd : ∀ x, x ∈ destinations h i → Transmitter.m_NodeId x ∈ dom (m_destinationMap i)).
  { intros x ([id l] & Hin & Hx)%list_elem_of_omap. apply elem_of_map_to_list in Hin.
    simpl in Hx. destruct (Hdst id l Hin) as (x' & Hx' & <- & _). simplify_eq.
    by eapply elem_of_dom_2. }
  intros ([[[s' d'] dn] sn] & [= -> ->] & Hw)%list_elem_of_fmap. unfold wanted in Hw.
  apply elem_of_app in Hw as [(r & (x & Hin & Hx)%list_elem_of_bind & Hr)%list_elem_of_bind|
    (a & Ha & Hsb)%list_elem_of_bind].
  - apply list_elem_of_singleton in Hin as [= -> -> _ _]. split; set_solver.
  - apply elem_of_elements in Hsb. apply elem_of_app in Ha as [(b & Hb & Hb')%list_elem_of_bind|Ha].
    + case_decide; [by apply elem_of_nil in Hb|]. apply list_elem_of_singleton in Hb as [= -> -> _ _].
      apply elem_of_elements in Hb'. set_solver.
    + apply elem_of_app in Ha as [(x & [= -> -> _ _] & Hx)%list_elem_of_fmap|
        (r & [= -> -> _ _] & Hr)%list_elem_of_fmap]; set_solver.
Qed.

(** *** Preservation *)

Lemma grow_inv h i :
  membership_inv (h, i) → membership_inv (h, bump (updateChannelMap h i)).
Proof.
  intros (Hh & Hn & Hm & Hc & Hcnt & Hw).
  pose proof (requests_nodes (wanted h i) i Hn) as Hn'.
  pose proof (requests_models (wanted h i) i Hm) as Hm'.
  pose proof (requests_keys (wanted h i) i) as Hk.
  destruct (requests_same (wanted h i) i) as (m & n & E).
  unfold updateChannelMap. cbv beta in *. rewrite E in *. clear E.
  refine (conj Hh (conj Hn' (conj Hm' (conj _ (conj Hcnt Hw))))).
  intros s d [Hold|Hnew]%Hk; [exact (Hc s d Hold)|exact (wanted_ends h i s d Hh Hnew)].
Qed.

Lemma printStatus_same i i' : printStatus i = Ok i' → i' = i.
Proof. unfold printStatus. destruct (forallb _ _); [by intros [= ->]|done]. Qed.

(** Removing the links of a node that leaves. *)
Lemma remove_inv h i i' id :
  membership_inv (h, i) →
  m_channelMap i' = m_channelMap (removeChannel id i) → next_node i' = next_node i →
  m_propagationModel i' = m_propagationModel i → m_3gppScenario i' = m_3gppScenario i →
  m_hataEnvironment i' = m_hataEnvironment i → heap_ok h i' →
  (∀ s, s ∈ senders i → s ≠ id → s ∈ senders i') →
  (∀ d, d ∈ listeners i → d ≠ id → d ∈ listeners i') →
  m_destCount i' = Z.of_nat (size (m_destinationMap i')) →
  dom (m_workers i') = dom (m_sourceMap i') →
  membership_inv (h, i').
Proof.
  intros (Hh & [Hn1 Hn2] & (Hm1 & Hm2 & Hm3) & Hc & _ & _) Em En Ep E3 Eh Hh' Hs Hd Hcnt Hw.
  assert (Hl : ∀ k a c, m_channelMap i' !! k = Some (a, c) →
    m_channelMap i !! k = Some (a, c) ∧ Channel.source c ≠ id ∧ Channel.destination c ≠ id).
  { intros k a c. rewrite Em. intros [Hk Hp]%map_lookup_filter_Some. cbn in Hp.
    split; [done|]. tauto. }
  unfold membership_inv, nodes_ok, models_ok. rewrite En, Ep, E3, Eh.
  refine (conj Hh' (conj _ (conj (conj Hm1 (conj Hm2 _)) (conj _ (conj Hcnt Hw))))).
  - split.
    + intros k a c Hk. destruct (Hl _ _ _ Hk) as [Hk' _]. exact (Hn1 _ _ _ Hk').
    + intros k k' a c c' Hk Hk'. destruct (Hl _ _ _ Hk) as [Hk1 _].
      destruct (Hl _ _ _ Hk') as [Hk2 _]. exact (Hn2 _ _ _ _ _ Hk1 Hk2).
  - intros k a c Hk. destruct (Hl _ _ _ Hk) as [Hk' _]. exact (Hm3 _ _ _ Hk').
  - intros s d [[a c] Hk]. destruct (Hl _ _ _ Hk) as (Hk' & Hsrc & Hdst).
    destruct (Hn1 _ _ _ Hk') as [[= -> ->] _].
    destruct (Hc _ _ (mk_is_Some _ _ Hk')) as [Hs' Hd'].
    split; [exact (Hs _ Hs' Hsrc)|exact (Hd _ Hd' Hdst)].
Qed.

(** A setter that leaves the membership and the end points of links alone. *)
Lemma map_inv h i i' :
  membership_inv (h, i) → next_node i' = next_node i →
  m_sourceMap i' = m_sourceMap i → m_destinationMap i' = m_destinationMap i →
  m_sandboxNodes i' = m_sandboxNodes i → m_destCount i' = m_destCount i →
  dom (m_workers i') = dom (m_workers i) → m_3gppScenario i' ≠ "" →
  m_hataEnvironment i' ≠ "" →
  (∀ k a c', m_channelMap i' !! k = Some (a, c') → ∃ c, m_channelMap i !! k = Some (a, c) ∧
     Channel.source c' = Channel.source c ∧ Channel.destination c' = Channel.destination c ∧
     (Channel.plType c = currentPlType (m_propagationModel i) →
      Channel.plType c' = currentPlType (m_propagationModel i')) ∧
     (Channel.scenario3gpp c = m_3gppScenario i →
      Channel.scenario3gpp c' = m_3gppScenario i') ∧
     (Channel.hataEnvironment c = m_hataEnvironment i →
      Channel.hataEnvironment c' = m_hataEnvironment i')) →
  membership_inv (h, i').
Proof.
  intros (Hh & [Hn1 Hn2] & (Hm1 & Hm2 & Hm3) & Hc & Hcnt & Hw) En Es Ed Eb Ec Ew Hsc Hhata Hl.
  unfold membership_inv, heap_ok, nodes_ok, models_ok, senders, listeners in *.
  rewrite En, Es, Ed, Eb, Ec, Ew.
  refine (conj Hh (conj _ (conj (conj Hsc (conj Hhata _)) (conj _ (conj Hcnt Hw))))).
  - split.
    + intros k a c Hk. destruct (Hl _ _ _ Hk) as (c0 & Hk0 & Es' & Ed' & _).
      rewrite Es', Ed'. exact (Hn1 _ _ _ Hk0).
    + intros k k' a c c' Hk Hk'. destruct (Hl _ _ _ Hk) as (c0 & Hk0 & _).
      destruct (Hl _ _ _ Hk') as (c1 & Hk1 & _). exact (Hn2 _ _ _ _ _ Hk0 Hk1).
  - intros k a c Hk. destruct (Hl _ _ _ Hk) as (c0 & Hk0 & _ & _ & H1 & H2 & H3).
    destruct (Hm3 _ _ _ Hk0) as (E1 & E2 & E3).
    exact (conj (H1 E1) (conj (H2 E2) (H3 E3))).
  - intros s d [[a c] Hk]. destruct (Hl _ _ _ Hk) as (c0 & Hk0 & _).
    exact (Hc s d (mk_is_Some _ _ Hk0)).
Qed.

(** What [apply_link] keeps of a link. *)
Definition keeps (f : Channel.t → Channel.t) : Prop :=
  ∀ c, Channel.source (f c) = Channel.source c ∧
       Channel.destination (f c) = Channel.destination c ∧
       Channel.plType (f c) = Channel.plType c ∧
       Channel.scenario3gpp (f c) = Channel.scenario3gpp c ∧
       Channel.hataEnvironment (f c) = Channel.hataEnvironment c.

Lemma apply_link_for f s d i :
  ∃ g, keeps g ∧ apply_link f s d i = for_channel s d g i.
Proof.
  destruct f as [on snr|k taps|x|x|x|x|k x|x|b|x]; cbn [apply_link];
    (eexists; split; [|reflexivity]); intros c; try (by split_and!).
  - by destruct on.
  - by destruct taps.
  - unfold Channel.updateChCoeff. destruct (Channel.portChCoeffs c !! k); by split_and!.
Qed.

(** A node that joins. *)
Lemma join_inv h i i' :
  membership_inv (h, i) →
  m_channelMap i' = m_channelMap i → next_node i' = next_node i →
  m_propagationModel i' = m_propagationModel i → m_3gppScenario i' = m_3gppScenario i →
  m_hataEnvironment i' = m_hataEnvironment i → heap_ok h i' →
  senders i ⊆ senders i' → listeners i ⊆ listeners i' →
  m_destCount i' = Z.of_nat (size (m_destinationMap i')) →
  dom (m_workers i') = dom (m_sourceMap i') →
  membership_inv (h, i').
Proof.
  intros (_ & Hn & Hm & Hc & _ & _) Em En Ep E3 Eh Hh' Hs Hd Hcnt Hw.
  unfold membership_inv, nodes_ok, models_ok. rewrite Em, En, Ep, E3, Eh.
  refine (conj Hh' (conj Hn (conj Hm (conj _ (conj Hcnt Hw))))).
  intros s d Hk. destruct (Hc s d Hk). set_solver.
Qed.

Lemma inv_ids h h' i : same_ids h h' → membership_inv (h, i) → membership_inv (h', i).
Proof.
  intros Hids (Hh & Hrest). split; [by eapply heap_ok_ids|exact Hrest].
Qed.

Lemma join_destination h i l x id :
  membership_inv (h, i) → txs h !! l = Some x → Transmitter.m_NodeId x = id →
  NodeConfig.m_id (Transmitter.m_node_config x) = id → m_destinationMap i !! id = None →
  membership_inv (h, i <| m_destinationMap := <[id := l]> (m_destinationMap i) |>
                       <| m_destCount := m_destCount i + 1 |>).
Proof.
  intros Hinv Hx Hid Hid' E. pose proof Hinv as ([Hh1 Hh2] & _ & _ & _ & Hcnt & Hw).
  eapply join_inv; [exact Hinv|reflexivity..| |done| | |exact Hw].
  - split; [exact Hh1|]. cbn [modify m_destinationMap].
    intros id' l' [[<- <-]|[_ Hl]]%lookup_insert_Some; [by exists x|by apply Hh2].
  - unfold listeners. cbn [modify m_destinationMap m_sandboxNodes]. set_solver.
  - cbn [modify m_destinationMap m_destCount].
    rewrite map_size_insert_None by done. lia.
Qed.

(** The receiver's callback is set in the same step. *)
Lemma join_source h i l r f w :
  membership_inv (h, i) → rxs h !! l = Some r →
  (∀ r, Receiver.m_NodeId (f r) = Receiver.m_NodeId r) →
  membership_inv (update_rx l f h,
    i <| m_sourceMap := <[Receiver.m_NodeId r := l]> (m_sourceMap i) |>
      <| m_workers := <[Receiver.m_NodeId r := w]> (m_workers i) |>).
Proof.
  intros Hinv Hr Hf.
  assert (Hids : same_ids h (update_rx l f h)) by by apply update_rx_ids.
  pose proof (inv_ids _ _ _ Hids Hinv) as Hinv'.
  pose proof Hinv' as ([H1 H2] & _ & _ & _ & Hcnt & Hw).
  eapply join_inv; [exact Hinv'|reflexivity..| | |done|exact Hcnt|].
  - split; [|exact H2]. cbn [modify m_sourceMap].
    intros id' l' [[<- <-]|[_ Hl]]%lookup_insert_Some; [|by apply H1].
    exists (f r). rewrite Hf. split; [|done]. cbn. by rewrite lookup_alter_eq, Hr.
  - unfold senders. cbn [modify m_sourceMap m_sandboxNodes]. set_solver.
  - cbn [modify m_sourceMap m_workers]. by rewrite !dom_insert_L, Hw.
Qed.

Lemma AttachDestination_inv h i l x i' :
  membership_inv (h, i) → txs h !! l = Some x →
  Transmitter.m_NodeId x = NodeConfig.m_id (Transmitter.m_node_config x) →
  AttachDestination l h i = Ok i' → membership_inv (h, i').
Proof.
  intros Hinv Hx Hid. unfold AttachDestination. rewrite Hx, <- Hid.
  destruct (m_destinationMap i !! _) eqn:E; [by intros [= <-]|].
  intros ->%printStatus_same. apply grow_inv. by eapply join_destination.
Qed.

Lemma AttachSource_inv h i l h' i' :
  membership_inv (h, i) → AttachSource l h i = Ok (h', i') → membership_inv (h', i').
Proof.
  intros Hinv. unfold AttachSource. destruct (rxs h !! l) as [r|] eqn:Hr; [|done].
  destruct (m_sourceMap i !! Receiver.m_NodeId r) eqn:E; [by intros [= <- <-]|].
  destruct (printStatus _) as [i1|] eqn:Ep; [|done]. intros [= <- <-].
  apply printStatus_same in Ep as ->. apply grow_inv. by apply join_source.
Qed.

Lemma size_delete_present (m : gmap string positive) k v :
  m !! k = Some v → Z.of_nat (size m) = Z.of_nat (size (delete k m)) + 1.
Proof.
  intros E. rewrite <- (insert_delete_id m k v E) at 1.
  rewrite map_size_insert_None by apply lookup_delete_eq. lia.
Qed.

Lemma checker_inv h i : membership_inv (h, i) → membership_inv (h, EmptyChannelChecker i).
Proof. unfold EmptyChannelChecker. by destruct (isEmpty i). Qed.

Lemma DetachDestination_inv h i l b h' i' :
  membership_inv (h, i) → DetachDestination l h i = Ok (b, h', i') →
  membership_inv (h', i').
Proof.
  intros Hinv. unfold DetachDestination. destruct (txs h !! l) as [x|] eqn:Hx; [|done].
  set (id := Transmitter.m_NodeId x).
  destruct (m_destinationMap i !! id) eqn:E; [|by intros [= _ <- <-]].
  intros [= _ <- <-]. apply checker_inv. eapply inv_ids.
  { apply update_tx_ids; reflexivity. }
  pose proof Hinv as ([Hh1 Hh2] & _ & _ & _ & Hcnt & Hw).
  eapply (remove_inv h i _ id); [exact Hinv|reflexivity..| | | | |exact Hw].
  - split; [exact Hh1|]. cbn [bump modify m_destinationMap].
    intros id' l' [_ Hl]%lookup_delete_Some. by apply Hh2.
  - done.
  - unfold listeners. cbn [bump modify m_destinationMap m_sandboxNodes]. set_solver.
  - cbn [bump modify m_destinationMap m_destCount removeChannel].
    pose proof (size_delete_present _ _ _ E). lia.
Qed.

Lemma DetachSource_inv h i l b h' i' q :
  membership_inv (h, i) → DetachSource l h i = Ok (b, h', i', q) →
  membership_inv (h', i').
Proof.
  intros Hinv. unfold DetachSource. destruct (rxs h !! l) as [r|] eqn:Hr; [|done].
  set (id := Receiver.m_NodeId r).
  destruct (m_sourceMap i !! id) eqn:E; [|by intros [= _ <- <- _]].
  intros [= _ <- <- _]. apply checker_inv. eapply inv_ids.
  { apply update_rx_ids; reflexivity. }
  pose proof Hinv as ([Hh1 Hh2] & _ & _ & _ & Hcnt & Hw).
  eapply (remove_inv h i _ id); [exact Hinv|reflexivity..| | | |exact Hcnt|].
  - split; [|exact Hh2]. cbn [bump modify m_sourceMap].
    intros id' l' [_ Hl]%lookup_delete_Some. by apply Hh1.
  - unfold senders. cbn [bump modify m_sourceMap m_sandboxNodes]. set_solver.
  - done.
  - cbn [bump modify m_sourceMap m_workers removeChannel]. by rewrite !dom_delete_L, Hw.
Qed.

Lemma sandbox_inv h i n k :
  membership_inv (h, i) →
  membership_inv (h, addSandboxNode n k h i) ∧ membership_inv (h, removeSandboxNode n i).
Proof.
  intros Hinv. pose proof Hinv as (Hh & _ & _ & _ & Hcnt & Hw). split.
  - apply grow_inv. eapply join_inv; [exact Hinv|reflexivity..|exact Hh| | |exact Hcnt|exact Hw].
    + unfold senders. cbn [modify m_sourceMap m_sandboxNodes]. set_solver.
    + unfold listeners. cbn [modify m_destinationMap m_sandboxNodes]. set_solver.
  - eapply (remove_inv h i _ n); [exact Hinv|reflexivity..|exact Hh| | |exact Hcnt|exact Hw].
    + unfold senders. cbn [bump removeChannel modify m_sourceMap m_sandboxNodes]. set_solver.
    + unfold listeners. cbn [bump removeChannel modify m_destinationMap m_sandboxNodes].
      set_solver.
Qed.

Lemma for_channel_inv h i s d g :
  keeps g → membership_inv (h, i) → membership_inv (h, (for_channel s d g i).2).
Proof.
  intros Hg Hinv. unfold for_channel.
  destruct (m_channelMap i !! (s, d)) as [[a c]|] eqn:E; [|done]. cbn [snd].
  pose proof Hinv as (_ & _ & (H3 & Hh & _) & _).
  eapply map_inv; [exact Hinv|reflexivity..|exact H3|exact Hh|].
  intros k a' c'. cbn [modify m_channelMap].
  intros [[<- [= <- <-]]|[_ Hk]]%lookup_insert_Some.
  - exists c. destruct (Hg c) as (-> & -> & -> & -> & ->). by split_and!.
  - exists c'. by split_and!.
Qed.

Lemma for_channels_inv h i i' g :
  membership_inv (h, i) →
  m_channelMap i' = m_channelMap (for_channels g i) → next_node i' = next_node i →
  m_sourceMap i' = m_sourceMap i → m_destinationMap i' = m_destinationMap i →
  m_sandboxNodes i' = m_sandboxNodes i → m_destCount i' = m_destCount i →
  dom (m_workers i') = dom (m_workers i) → m_3gppScenario i' ≠ "" →
  m_hataEnvironment i' ≠ "" →
  (∀ c, Channel.source (g c) = Channel.source c ∧
     Channel.destination (g c) = Channel.destination c ∧
     (Channel.plType c = currentPlType (m_propagationModel i) →
      Channel.plType (g c) = currentPlType (m_propagationModel i')) ∧
     (Channel.scenario3gpp c = m_3gppScenario i →
      Channel.scenario3gpp (g c) = m_3gppScenario i') ∧
     (Channel.hataEnvironment c = m_hataEnvironment i →
      Channel.hataEnvironment (g c) = m_hataEnvironment i')) →
  membership_inv (h, i').
Proof.
  intros Hinv Em En Es Ed Eb Ec Ew H3 Hh Hg.
  eapply map_inv; [exact Hinv|done..|]. intros k a c'. rewrite Em.
  cbn [for_channels modify m_channelMap].
  rewrite lookup_fmap_Some. intros ([a0 c0] & [= <- <-] & Hk). exists c0. split; [done|].
  apply Hg.
Qed.

Lemma global_inv h i f : membership_inv (h, i) → membership_inv (h, apply_global f i).
Proof.
  intros Hinv. pose proof Hinv as (_ & _ & (H3 & Hh & _) & _).
  destruct f as [m gr|sc|sc|r g p z|x|ms|b|]; cbn [apply_global].
  - eapply for_channels_inv; [exact Hinv|reflexivity..|exact H3|exact Hh|].
    intros c. by split_and!.
  - unfold set3gppScenario. destruct (empty_str sc) eqn:E; [done|].
    eapply for_channels_inv; [exact Hinv|reflexivity..|change (sc ≠ ""); by intros ->|exact Hh|].
    intros c. unfold Channel.update3gppScenario. rewrite E. by split_and!.
  - unfold setHataEnvironment. destruct (empty_str sc) eqn:E; [done|].
    eapply for_channels_inv; [exact Hinv|reflexivity..|exact H3|change (sc ≠ ""); by intros ->|].
    intros c. unfold Channel.updateHataEnvironment. rewrite E. by split_and!.
  - eapply for_channels_inv; [exact Hinv|reflexivity..|exact H3|exact Hh|].
    intros c. by split_and!.
  - eapply for_channels_inv; [exact Hinv|reflexivity..|exact H3|exact Hh|].
    intros c. by split_and!.
  - exact Hinv.
  - exact Hinv.
  - exact Hinv.
Qed.

Lemma istep_inv s s' : istep s s' → membership_inv s → membership_inv s'.
Proof.
  intros Hst Hinv. destruct Hst as [h i l x i' Hx Hid He|h i l b h' i' He|h i l h' i' He|
    h i l b h' i' q He|h i n k|h i n|h i f s d|h i f|h i h' Hids].
  - by eapply AttachDestination_inv.
  - by eapply DetachDestination_inv.
  - by eapply AttachSource_inv.
  - by eapply DetachSource_inv.
  - by apply (sandbox_inv h i n k).
  - by apply (sandbox_inv h i n 0).
  - destruct (apply_link_for f s d i) as (g & Hg & ->). by apply for_channel_inv.
  - by apply global_inv.
  - by eapply inv_ids.
Qed.

Lemma ctor_inv h freq ms : membership_inv (h, ctor freq ms).
Proof.
  refine (conj (conj _ _) (conj (conj _ _) (conj (conj _ (conj _ _)) (conj _ (conj _ _)))));
    try done.
  intros s d [v Hk]. change ((∅ : gmap (string * string) (positive * Channel.t)) !! (s, d) = Some v) in Hk.
  by rewrite lookup_empty in Hk.
Qed.

Lemma reachable_inv h freq ms hi :
  rtc istep (h, ctor freq ms) hi → membership_inv hi.
Proof.
  intros Hr. pose proof (ctor_inv h freq ms) as H0. revert H0.
  induction Hr; [done|]. intros H0. by eapply IHHr, istep_inv.
Qed.

(** *** Completeness of the map of links *)

(** Every pair that can be linked is linked. *)
Definition complete (i : Intermediate.t) : Prop :=
  ∀ s d, s ∈ senders i → d ∈ listeners i →
    s ≠ d ∨ (s ∈ dom (m_sourceMap i) ∧ d ∈ dom (m_destinationMap i)) →
    is_Some (getChannel s d i).

Lemma wanted_all h i s d :
  heap_ok h i → s ∈ senders i → d ∈ listeners i →
  s ≠ d ∨ (s ∈ dom (m_sourceMap i) ∧ d ∈ dom (m_destinationMap i)) →
  (s, d) ∈ key <$> wanted h i.
Proof.
  intros [Hsrc Hdst] Hs Hd Hne.
  assert (HS : s ∈ dom (m_sourceMap i) → ∃ r, r ∈ sources h i ∧ Receiver.m_NodeId r = s).
  { intros [l Hl]%elem_of_dom. destruct (Hsrc s l Hl) as (r & Hr & <-). exists r.
    split; [|done]. apply list_elem_of_omap. exists (Receiver.m_NodeId r, l).
    by rewrite elem_of_map_to_list. }
  assert (HD : d ∈ dom (m_destinationMap i) →
               ∃ x, x ∈ destinations h i ∧ Transmitter.m_NodeId x = d).
  { intros [l Hl]%elem_of_dom. destruct (Hdst d l Hl) as (x & Hx & <- & _). exists x.
    split; [|done]. apply list_elem_of_omap. exists (Transmitter.m_NodeId x, l).
    by rewrite elem_of_map_to_list. }
  assert (Hgo : ∀ r, r ∈ wanted h i → key r = (s, d) → (s, d) ∈ key <$> wanted h i).
  { intros r Hr <-. by apply list_elem_of_fmap_2. }
  unfold senders, listeners in *. apply elem_of_union in Hs as [Hs|Hs], Hd as [Hd|Hd].
  - destruct (HS Hs) as (r & Hr & <-), (HD Hd) as (x & Hx & <-).
    eapply (Hgo (_, _, _, _)); [|reflexivity]. apply elem_of_app. left. apply list_elem_of_bind. exists r.
    split; [|done]. apply list_elem_of_bind. exists x. split; [by left|done].
  - destruct (HS Hs) as (r & Hr & <-).
    eapply (Hgo (_, _, _, _)); [|reflexivity]. apply elem_of_app. right. apply list_elem_of_bind. exists d.
    split; [|by apply elem_of_elements]. apply elem_of_app. right. apply elem_of_app. right.
    apply list_elem_of_fmap. by exists r.
  - destruct (HD Hd) as (x & Hx & <-).
    eapply (Hgo (_, _, _, _)); [|reflexivity]. apply elem_of_app. right. apply list_elem_of_bind. exists s.
    split; [|by apply elem_of_elements]. apply elem_of_app. right. apply elem_of_app. left.
    apply list_elem_of_fmap. by exists x.
  - destruct (decide (s = d)) as [->|Hsd].
    { destruct Hne as [|[Hs1 Hd1]]; [done|].
      destruct (HS Hs1) as (r & Hr & Er), (HD Hd1) as (x & Hx & Ex).
      eapply (Hgo (Receiver.m_NodeId r, Transmitter.m_NodeId x, _, _));
        [|unfold key; cbn; by rewrite Er, Ex]. apply elem_of_app. left.
      apply list_elem_of_bind. exists r. split; [|done]. apply list_elem_of_bind. exists x.
      split; [by left|done]. }
    eapply (Hgo (_, _, _, _)); [|reflexivity]. apply elem_of_app. right. apply list_elem_of_bind. exists s.
    split; [|by apply elem_of_elements]. apply elem_of_app. left. apply list_elem_of_bind.
    exists d. rewrite decide_False by done. split; [by left|by apply elem_of_elements].
Qed.

Lemma grow_complete h i : heap_ok h i → complete (bump (updateChannelMap h i)).
Proof.
  intros Hh s d. pose proof (requests_keys (wanted h i) i (s, d)) as Hk.
  destruct (requests_same (wanted h i) i) as (m & n & E).
  unfold updateChannelMap, getChannel. cbv beta in *. rewrite E in *. clear E.
  intros Hs Hd Hne. apply Hk. right. exact (wanted_all h i s d Hh Hs Hd Hne).
Qed.

Lemma printStatus_ok i :
  (∀ s d, is_Some (m_channelMap i !! (s, d)) →
     s ∈ dom (m_sourceMap i) ∧ d ∈ dom (m_destinationMap i)) →
  nodes_ok i → printStatus i = Ok i.
Proof.
  intros Hc [Hn _]. unfold printStatus.
  destruct (forallb _ _) eqn:E; [done|]. exfalso. apply not_true_iff_false in E. apply E.
  apply forallb_forall. intros [k [a c]] Hin%list_elem_of_In%elem_of_map_to_list.
  destruct (Hn _ _ _ Hin) as [-> _].
  destruct (Hc _ _ (mk_is_Some _ _ Hin)) as [H1%elem_of_dom H2%elem_of_dom]. cbn.
  by rewrite !bool_decide_eq_true_2.
Qed.

Lemma printStatus_null i s d :
  is_Some (m_channelMap i !! (s, d)) → nodes_ok i →
  m_sourceMap i !! s = None ∨ m_destinationMap i !! d = None →
  printStatus i = Err NullDeref.
Proof.
  intros [[a c] Hk] [Hn _] Hnone. unfold printStatus.
  destruct (forallb _ _) eqn:E; [|done]. exfalso. rewrite forallb_forall in E.
  specialize (E ((s, d), (a, c))). destruct (Hn _ _ _ Hk) as [[= -> ->] _].
  destruct (andb_prop _ _ (E ltac:(apply list_elem_of_In, elem_of_map_to_list; exact Hk)))
    as [H1%bool_decide_eq_true_1 H2%bool_decide_eq_true_1]. cbn in H1, H2.
  destruct Hnone as [E'|E']; [rewrite E' in H1; by destruct H1|rewrite E' in H2; by destruct H2].
Qed.

(** Without sandbox nodes the status report finds every end of a link. *)
Lemma grow_report h i :
  membership_inv (h, i) → m_sandboxNodes i = ∅ →
  printStatus (bump (updateChannelMap h i)) = Ok (bump (updateChannelMap h i)).
Proof.
  intros Hi Hsb. pose proof (grow_inv _ _ Hi) as (_ & Hn & _ & Hc & _).
  apply printStatus_ok; [|done]. intros s d Hk. destruct (Hc s d Hk) as [H1 H2].
  unfold senders, listeners in *.
  destruct (requests_same (wanted h i) i) as (m & n & E).
  unfold updateChannelMap in *. cbv beta in *. rewrite E in *.
  cbn [bump modify m_sourceMap m_destinationMap m_sandboxNodes] in *. rewrite Hsb in *. set_solver.
Qed.

Lemma AttachDestination_ok h i l x :
  membership_inv (h, i) → m_sandboxNodes i = ∅ → txs h !! l = Some x →
  Transmitter.m_NodeId x = NodeConfig.m_id (Transmitter.m_node_config x) →
  ∃ i', AttachDestination l h i = Ok i'.
Proof.
  intros Hinv Hsb Hx Hid. unfold AttachDestination. rewrite Hx, <- Hid.
  destruct (m_destinationMap i !! _) eqn:E; [by eexists|].
  rewrite grow_report; [by eexists|by eapply join_destination|done].
Qed.

Lemma AttachSource_ok h i l r :
  membership_inv (h, i) → m_sandboxNodes i = ∅ → rxs h !! l = Some r →
  ∃ h' i', AttachSource l h i = Ok (h', i').
Proof.
  intros Hinv Hsb Hr. unfold AttachSource. rewrite Hr.
  destruct (m_sourceMap i !! Receiver.m_NodeId r) eqn:E; [by do 2 eexists|].
  rewrite grow_report; [by do 2 eexists|by apply join_source|done].
Qed.

End Machine.

(** ** Properties *)

(** C11 Consistency of the channel after any history of attaching, detaching,
    adding and removing sandbox nodes and setting parameters: every link joins
    two nodes that are still attached (or sandbox nodes), is filed under its own
    end points and carries the propagation model, 3GPP scenario and Hata
    environment in force; the destination counter is the number of attached
    destinations and exactly the attached sources have a worker. *)
Theorem links_consistent (h0 h : heap) (freq : float) (ms : Z) (i : Intermediate.t)
    (Hrun : rtc istep (h0, Intermediate.ctor freq ms) (h, i)) :
  (∀ s d a c, Intermediate.m_channelMap i !! (s, d) = Some (a, c) →
     s ∈ senders i ∧ d ∈ listeners i ∧
     Channel.source c = s ∧ Channel.destination c = d ∧
     Channel.plType c = Intermediate.currentPlType (Intermediate.m_propagationModel i) ∧
     Channel.scenario3gpp c = Intermediate.m_3gppScenario i ∧
     Channel.hataEnvironment c = Intermediate.m_hataEnvironment i) ∧
  Intermediate.m_destCount i = Z.of_nat (size (Intermediate.m_destinationMap i)) ∧
  dom (Intermediate.m_workers i) = dom (Intermediate.m_sourceMap i).
Proof.
  destruct (reachable_inv _ _ _ _ Hrun) as (_ & [Hn _] & (_ & _ & Hm) & Hc & Hcnt & Hw).
  split; [|done]. intros s d a c Hk. destruct (Hn _ _ _ Hk) as [[= -> ->] _].
  destruct (Hc _ _ (mk_is_Some _ _ Hk)). by destruct (Hm _ _ _ Hk) as (? & ? & ?).
Qed.

(** Two nodes "a" and "b", each with a receiver and a transmitter. *)
Definition demo_config (id : string) : NodeConfig.t :=
  NodeConfig.setId id (NodeConfig.setName id sample_config).

Definition demo_rx (id : string) : Receiver.t :=
  (sample_receiver []) <| Receiver.m_NodeId := id |> <| Receiver.m_NodeName := id |>
    <| Receiver.m_node_config := demo_config id |>.

Definition demo_tx (id : string) : Transmitter.t :=
  sample_transmitter <| Transmitter.m_NodeId := id |> <| Transmitter.m_NodeName := id |>
    <| Transmitter.m_node_config := demo_config id |> <| Transmitter.m_queue := [] |>.

Definition demo_heap : heap :=
  mkHeap (<[1%positive := demo_rx "a"]> (<[2%positive := demo_rx "b"]> ∅))
         (<[1%positive := demo_tx "a"]> (<[2%positive := demo_tx "b"]> ∅)).

Lemma links_consistent_witness :
  ∃ h i, rtc istep (demo_heap, Intermediate.ctor (F64.of_Z 3500000000) 10) (h, i) ∧
    is_Some (Intermediate.m_channelMap i !! ("a", "b")) ∧
    ((∀ s d a c, Intermediate.m_channelMap i !! (s, d) = Some (a, c) →
       s ∈ senders i ∧ d ∈ listeners i ∧
       Channel.source c = s ∧ Channel.destination c = d ∧
       Channel.plType c = Intermediate.currentPlType (Intermediate.m_propagationModel i) ∧
       Channel.scenario3gpp c = Intermediate.m_3gppScenario i ∧
       Channel.hataEnvironment c = Intermediate.m_hataEnvironment i) ∧
     Intermediate.m_destCount i = Z.of_nat (size (Intermediate.m_destinationMap i)) ∧
     dom (Intermediate.m_workers i) = dom (Intermediate.m_sourceMap i)).
Proof.
  assert (Hr : ∃ h i, rtc istep (demo_heap, Intermediate.ctor (F64.of_Z 3500000000) 10) (h, i)
    ∧ is_Some (Intermediate.m_channelMap i !! ("a", "b"))).
  { eexists _, _. split.
    - eapply rtc_l.
      { eapply (is_attach_dest _ _ 2%positive); [reflexivity|reflexivity|].
        vm_compute. reflexivity. }
      eapply rtc_l. { eapply (is_attach_src _ _ 1%positive). vm_compute. reflexivity. }
      apply rtc_refl.
    - vm_compute. by eexists. }
  destruct Hr as (h & i & Hr & Hs). exists h, i. split; [done|]. split; [done|].
  apply (links_consistent demo_heap h (F64.of_Z 3500000000) 10 i Hr).
Defined.



(** Without sandbox nodes, attaching never fails: whatever happened before,
    attaching a valid transmitter or receiver succeeds, status report
    included. *)
Theorem attach_safe_without_sandbox (h0 h : heap) (freq : float) (ms : Z)
    (i : Intermediate.t)
    (Hrun : rtc istep (h0, Intermediate.ctor freq ms) (h, i))
    (Hsb : Intermediate.m_sandboxNodes i = ∅) :
  (∀ l x, txs h !! l = Some x →
     Transmitter.m_NodeId x = NodeConfig.m_id (Transmitter.m_node_config x) →
     ∃ i', Intermediate.AttachDestination l h i = Ok i') ∧
  (∀ l r, rxs h !! l = Some r →
     ∃ h' i', Intermediate.AttachSource l h i = Ok (h', i')).
Proof.
  pose proof (reachable_inv _ _ _ _ Hrun) as Hinv. split.
  - intros l x Hx Hid. by eapply AttachDestination_ok.
  - intros l r Hr. by eapply AttachSource_ok.
Qed.

Lemma attach_safe_without_sandbox_witness :
  (∀ l x, txs demo_heap !! l = Some x →
     Transmitter.m_NodeId x = NodeConfig.m_id (Transmitter.m_node_config x) →
     ∃ i', Intermediate.AttachDestination l demo_heap
             (Intermediate.ctor (F64.of_Z 3500000000) 10) = Ok i') ∧
  (∀ l r, rxs demo_heap !! l = Some r →
     ∃ h' i', Intermediate.AttachSource l demo_heap
                (Intermediate.ctor (F64.of_Z 3500000000) 10) = Ok (h', i')).
Proof.
  apply (attach_safe_without_sandbox demo_heap demo_heap (F64.of_Z 3500000000) 10
    (Intermediate.ctor (F64.of_Z 3500000000) 10) (rtc_refl _ _)). reflexivity.
Defined.

(** C40 Mixed deployments crash: whenever a sandbox node that is not itself attached
    as a source is present, attaching any new destination dereferences a null
    pointer in the status report, because the link from the sandbox node is
    looked up among the attached sources. *)
Theorem mixed_deployment_crashes (h0 h : heap) (freq : float) (ms : Z)
    (i : Intermediate.t) (n : string) (l : positive) (x : Transmitter.t)
    (Hrun : rtc istep (h0, Intermediate.ctor freq ms) (h, i))
    (Hn : n ∈ Intermediate.m_sandboxNodes i)
    (Hsrc : Intermediate.m_sourceMap i !! n = None)
    (Hx : txs h !! l = Some x)
    (Hid : Transmitter.m_NodeId x = NodeConfig.m_id (Transmitter.m_node_config x))
    (Hnew : Intermediate.m_destinationMap i !! Transmitter.m_NodeId x = None)
    (Hother : Transmitter.m_NodeId x ≠ n) :
  Intermediate.AttachDestination l h i = Err NullDeref.
Proof.
  pose proof (reachable_inv _ _ _ _ Hrun) as Hinv.
  unfold Intermediate.AttachDestination. rewrite Hx, <- Hid, Hnew.
  pose proof (join_destination h i l x _ Hinv Hx eq_refl (eq_sym Hid) Hnew) as Hj.
  set (i1 := i <| Intermediate.m_destinationMap := _ |> <| Intermediate.m_destCount := _ |>) in *.
  pose proof (grow_inv _ _ Hj) as (_ & Hnodes & _).
  assert (Hs1 : n ∈ senders i1) by (apply elem_of_union; by right).
  assert (Hd1 : Transmitter.m_NodeId x ∈ listeners i1).
  { apply elem_of_union. left. subst i1. cbn [modify Intermediate.m_destinationMap].
    set_solver. }
  destruct (Intermediate.requests_same (Intermediate.wanted h i1) i1) as (m & nx & E).
  apply (printStatus_null _ n (Transmitter.m_NodeId x)); [|exact Hnodes|left].
  - apply (grow_complete h i1 (proj1 Hj)); [..|by left].
    + unfold senders, Intermediate.updateChannelMap. cbv beta in E. rewrite E. exact Hs1.
    + unfold listeners, Intermediate.updateChannelMap. cbv beta in E. rewrite E. exact Hd1.
  - unfold Intermediate.updateChannelMap. cbv beta in E. rewrite E. exact Hsrc.
Qed.

Definition sandboxed : Intermediate.t :=
  Intermediate.addSandboxNode "s" 1 demo_heap (Intermediate.ctor (F64.of_Z 3500000000) 10).

Lemma mixed_deployment_crashes_witness :
  Intermediate.AttachDestination 1 demo_heap sandboxed = Err NullDeref.
Proof.
  apply (mixed_deployment_crashes demo_heap demo_heap (F64.of_Z 3500000000) 10
    sandboxed "s" 1 (demo_tx "a")).
  - apply rtc_once. apply is_add_sandbox.
  - by vm_compute.
  - reflexivity.
  - reflexivity.
  - reflexivity.
  - reflexivity.
  - done.
Defined.

(** Detaching a node as a destination also cuts it off as a source: all links
    from it disappear although it stays attached, so none of its bursts can
    be delivered until some other node is attached; and symmetrically for
    detaching it as a source. *)
Theorem detach_cuts_both_roles (h : heap) (i : Intermediate.t) (Hn : Intermediate.nodes_ok i) :
  (∀ l x h' i', txs h !! l = Some x →
     Intermediate.DetachDestination l h i = Ok (true, h', i') →
     Intermediate.m_sourceMap i' = Intermediate.m_sourceMap i ∧
     ∀ d, Intermediate.getChannel (Transmitter.m_NodeId x) d i' = None) ∧
  (∀ l r h' i' q, rxs h !! l = Some r →
     Intermediate.DetachSource l h i = Ok (true, h', i', q) →
     Intermediate.m_destinationMap i' = Intermediate.m_destinationMap i ∧
     ∀ s, Intermediate.getChannel s (Receiver.m_NodeId r) i' = None).
Proof.
  assert (Hcut : ∀ id s d, s = id ∨ d = id →
    Intermediate.m_channelMap (Intermediate.removeChannel id i) !! (s, d) = None).
  { intros id s d Hsd. apply eq_None_not_Some. intros [[a c] Hk].
    apply map_lookup_filter_Some in Hk as [Hk Hp]. cbn in Hp.
    destruct Hn as [Hn _]. destruct (Hn _ _ _ Hk) as [[= -> ->] _]. tauto. }
  assert (Hchk : ∀ i, Intermediate.m_sourceMap (Intermediate.EmptyChannelChecker i)
      = Intermediate.m_sourceMap i ∧
    Intermediate.m_destinationMap (Intermediate.EmptyChannelChecker i)
      = Intermediate.m_destinationMap i ∧
    Intermediate.m_channelMap (Intermediate.EmptyChannelChecker i)
      = Intermediate.m_channelMap i).
  { intros i0. unfold Intermediate.EmptyChannelChecker. by destruct (Intermediate.isEmpty i0). }
  split.
  - intros l x h' i' Hx. unfold Intermediate.DetachDestination. rewrite Hx.
    destruct (Intermediate.m_destinationMap i !! _); [|done]. intros [= _ <-].
    split; [exact (proj1 (Hchk _))|]. intros d. unfold Intermediate.getChannel.
    rewrite (proj2 (proj2 (Hchk _))). apply Hcut. by left.
  - intros l r h' i' q Hr. unfold Intermediate.DetachSource. rewrite Hr.
    destruct (Intermediate.m_sourceMap i !! _); [|done]. intros [= _ <- _].
    split; [exact (proj1 (proj2 (Hchk _)))|]. intros s. unfold Intermediate.getChannel.
    rewrite (proj2 (proj2 (Hchk _))). apply Hcut. by right.
Qed.

Lemma detach_cuts_both_roles_witness :
  let i := Intermediate.ctor (F64.of_Z 3500000000) 10 in
  (∀ l x h' i', txs demo_heap !! l = Some x →
     Intermediate.DetachDestination l demo_heap i = Ok (true, h', i') →
     Intermediate.m_sourceMap i' = Intermediate.m_sourceMap i ∧
     ∀ d, Intermediate.getChannel (Transmitter.m_NodeId x) d i' = None) ∧
  (∀ l r h' i' q, rxs demo_heap !! l = Some r →
     Intermediate.DetachSource l demo_heap i = Ok (true, h', i', q) →
     Intermediate.m_destinationMap i' = Intermediate.m_destinationMap i ∧
     ∀ s, Intermediate.getChannel s (Receiver.m_NodeId r) i' = None).
Proof.
  intros i. apply (detach_cuts_both_roles demo_heap i).
  by destruct (ctor_inv demo_heap (F64.of_Z 3500000000) 10) as (_ & ? & _).
Defined.

(** The latency limit is stored through single-precision arithmetic: limits up
    to 1074 ms are stored exactly and read back as they were set, 1077 ms reads
    back as 1076. *)
Theorem latency_roundtrip (ms : Z) (i : Intermediate.t) (Hms : 0 ≤ ms ≤ 1074) :
  Intermediate.m_max_latency_ns (Intermediate.setMaxLatency ms i) = ms * 1000000 ∧
  Intermediate.getMaxLatency (Intermediate.setMaxLatency ms i) = ms ∧
  Intermediate.getMaxLatency (Intermediate.setMaxLatency 1077 i) = 1076.
Proof.
  change (Intermediate.latency_ns ms = ms * 1000000 ∧
    cvtt64 (NS_2_MS (F32.of_Z (Intermediate.latency_ns ms))) = ms ∧
    cvtt64 (NS_2_MS (F32.of_Z (Intermediate.latency_ns 1077))) = 1076).
  assert (Hall : Forall (fun ms => Intermediate.latency_ns ms = ms * 1000000 ∧
    cvtt64 (NS_2_MS (F32.of_Z (Intermediate.latency_ns ms))) = ms) (seqZ 0 1075)).
  { apply (bool_decide_unpack _). vm_compute. exact I. }
  rewrite Forall_forall in Hall. destruct (Hall ms) as [-> ->]; [by apply elem_of_seqZ; lia|].
  by vm_compute.
Qed.

Lemma latency_roundtrip_witness :
  let i := Intermediate.ctor (F64.of_Z 3500000000) 10 in
  Intermediate.m_max_latency_ns (Intermediate.setMaxLatency 10 i) = 10 * 1000000 ∧
  Intermediate.getMaxLatency (Intermediate.setMaxLatency 10 i) = 10 ∧
  Intermediate.getMaxLatency (Intermediate.setMaxLatency 1077 i) = 1076.
Proof. intros i. apply (latency_roundtrip 10 i). lia. Defined.
