(* ===== verification/DataPath.v ===== *)
(** src/src/chem/channel/intermediate.cpp: the processing of bursts.  A burst
    goes from a receiver through the queue of its worker ([AttachSource]'s
    callback, [WorkerLoop]), is converted to samples, passed over the link to
    every destination ([ProcessSignal], [ProcessDestinationSignal]) and handed
    to the transmitters.

    All receivers and transmitters share the pool [home] of the list of NUMA
    pools (Controller's [iq_pool]); it is kept in the [world] and lent to the
    object that runs.  The scratch buffers of the worker and of the TBB threads
    hold what earlier bursts left in them: their old contents, the order in
    which TBB runs the tasks, and the UHD sample converters are parameters. *)

From Stdlib Require Import ZArith Lia Strings.Byte Strings.String Floats.SpecFloat.
From stdpp Require Import prelude list strings gmap fin_maps list_numbers.
From S2P Require Import Prelude Ieee Common CxxLib DataPool NodeConfig Signal UdpClient.
From S2P Require Import UdpServer Receiver Transmitter Channel Intermediate.

#[local] Arguments Transmitter.Start_iter : simpl never.
#[local] Arguments Receiver.Start_iter : simpl never.
#[local] Arguments Channel.processChannel : simpl never.

Record world : Type := mkWorld {
  hp : heap;
  im : Intermediate.t;
  pools : list iqPool_t;        (** [m_iq_pools] *)
  home : nat;                   (** index of [iq_pool] *)
}.

#[global] Instance world_eta : Settable world := fun w =>
  mkWorld (hp w) (im w) (pools w) (home w).

(** [uhd::convert]: "sc16_item32_le" to "fc32" and back. *)
Class Converter : Type := {
  conv_rx : list byte → Z → signal_v;
  conv_tx : signal_v → Z → list byte;
}.

Class ConverterLaws `{Converter} : Prop := {
  conv_rx_length b n : length (conv_rx b n) = Z.to_nat n;
  conv_tx_length s n : length (conv_tx s n) = (4 * Z.to_nat n)%nat;
}.

(** What scratch memory holds when a burst is processed. *)
Record Scratch : Type := mkScratch {
  src_old : Z → signal_v;            (** [src_sig_arr] *)
  dest_old : string → Z → signal_v;  (** [tl_dest_sig_arr] of the task's thread *)
  cir_old : signal_v;
}.

Definition MAX_NUM_SAMPLES : Z := 100000.

Definition SPEED_OF_LIGHT : float := F64.of_Z 299792458.

(** [struct SignalContext]. *)
Record SignalContext : Type := mkSignalContext {
  sig_hdr : Header;
  src_id : string;
  src_n_ch : Z;
  i_sz_ch : Z;
  i_ns_ch : Z;
  sig_srate : float;
}.

Module DataPath.
Import Intermediate.

(** *** Lending the shared pool *)

Definition release_to (k : nat) (s : Signal.t) (w : world) : outcome ierror world :=
  match pools w !! k with
  | None => Err OutOfBounds
  | Some p =>
      match DataArrayPool.release x00 (Signal.iq_data s) p with
      | Err e => Err (PoolFailure e)
      | Ok p => Ok (w <| pools := <[k := p]> (pools w) |>)
      end
  end.

Definition release_buffer (k : nat) (b : list byte) (w : world) : outcome ierror world :=
  match pools w !! k with
  | None => Err OutOfBounds
  | Some p =>
      match DataArrayPool.release x00 (Some b) p with
      | Err e => Err (PoolFailure e)
      | Ok p => Ok (w <| pools := <[k := p]> (pools w) |>)
      end
  end.

(** Runs [f] on transmitter [l], which sees the shared pool. *)
Definition run_tx {A} (l : positive)
    (f : Transmitter.t → outcome pool_error (A * Transmitter.t)) (w : world)
    : outcome ierror (A * world) :=
  match txs (hp w) !! l, pools w !! home w with
  | Some x, Some p =>
      match f (x <| Transmitter.m_iq_pool := p |>) with
      | Err e => Err (PoolFailure e)
      | Ok (a, x) =>
          Ok (a, w <| hp := (hp w) <| txs := <[l := x]> (txs (hp w)) |> |>
                   <| pools := <[home w := Transmitter.m_iq_pool x]> (pools w) |>)
      end
  | _, _ => Err NullDeref
  end.

Definition run_rx {A} (l : positive)
    (f : Receiver.t → outcome pool_error (A * Receiver.t)) (w : world)
    : outcome ierror (A * world) :=
  match rxs (hp w) !! l, pools w !! home w with
  | Some r, Some p =>
      match f (Receiver.set_pool p r) with
      | Err e => Err (PoolFailure e)
      | Ok (a, r) =>
          Ok (a, w <| hp := (hp w) <| rxs := <[l := r]> (rxs (hp w)) |> |>
                   <| pools := <[home w := Receiver.m_iq_pool r]> (pools w) |>)
      end
  | _, _ => Err NullDeref
  end.

(** *** From the receiver into the worker's queue *)

Definition set_worker (id : string) (c : WorkerContext) (w : world) : world :=
  w <| im := (im w) <| m_workers := <[id := c]> (m_workers (im w)) |> |>.

(** The callback [AttachSource] installs; once the source is detached it gives
    every signal back to the first pool. *)
Definition enqueue (id : string) (sig : Signal.t) (w : world) : outcome ierror world :=
  match m_workers (im w) !! id with
  | None => release_to 0 sig w
  | Some c =>
      if negb (running_flag c) then release_to 0 sig w else
      (do! cw <- (if QUEUE_CAP - 1 <=? Z.of_nat (length (queue c)) then
                    match queue c with
                    | [] => Ok (c, w)
                    | s :: q =>
                        do! w <- release_to 0 s w; Ok (c <| queue := q |>, w)
                    end
                  else Ok (c, w));
       let '(c, w) := cw in
       if Z.of_nat (length (queue c)) <? QUEUE_CAP
       then Ok (set_worker id (c <| queue := queue c ++ [sig] |>) w)
       else release_to 0 sig (set_worker id c w))%chem
  end.

(** One pass of a receiver's loop: what its callback is given is enqueued. *)
Definition receive (junk : Signal.t) (sched : list UDPServer.rx_event) (l : positive)
    (w : world) : outcome ierror (Receiver.status * world) :=
  (do! r <- run_rx l (fun r =>
      do! x <- Receiver.Start_iter junk sched r;
      let '(st, r, fwd, _) := x in Ok ((st, fwd, Receiver.m_NodeId r), r)) w;
   let '((st, fwd, id), w) := r in
   match fwd with
   | None => Ok (st, w)
   | Some sig => do! w <- enqueue id sig w; Ok (st, w)
   end)%chem.

(** One pass of a transmitter's loop. *)
Definition transmit `{PriorityQueue} (env : SendEnv) (now : Z) (l : positive) (w : world)
    : outcome ierror (Transmitter.tx_event * world) :=
  run_tx l (Transmitter.Start_iter env now) w.

(** [DetachSource] with the release of what the worker's queue still held. *)
Definition detach_source (l : positive) (w : world) : outcome ierror (bool * world) :=
  (do! r <- DetachSource l (hp w) (im w);
   let '(b, h, i, drained) := r in
   do! w <- ofold (release_to 0) drained (w <| hp := h |> <| im := i |>);
   Ok (b, w))%chem.

(** *** Destinations *)

(** Lines 234-246: the destinations linked to the source. *)
Definition dest_info (h : heap) (i : t) (src : string) (kv : string * positive)
    : option DestInfo :=
  x ← txs h !! kv.2;
  let dest_id := NodeConfig.m_id (Transmitter.m_node_config x) in
  if (dest_id =? src)%string then None
  else
    ac ← getChannel src dest_id i;
    Some (mkDestInfo dest_id (F32.of_Z (Transmitter.m_sample_rate x))
            (u8 (NodeConfig.m_numChannels (Transmitter.m_node_config x))) kv.2 ac.1).

Definition snapshot (h : heap) (i : t) (src : string) : list DestInfo :=
  omap (dest_info h i src) (map_to_list (m_destinationMap i)).

(** Lines 216-251: the cached snapshot while the version is unchanged. *)
Definition pick_destinations (h : heap) (i : t) (c : WorkerContext)
    : list DestInfo * WorkerContext :=
  let current := m_destVersion i in
  if (cached_dest_version c =? current) && negb (current =? 0)
  then (cached_destinations c, c)
  else
    let ds := snapshot h i (src_node_id c) in
    (ds, c <| cached_destinations := ds |> <| cached_dest_version := current |>).

(** Lines 253-279: a batch from the local pool, else from the others in turn. *)
Fixpoint acquire_from (order : list nat) (n : Z) (ps : list iqPool_t)
    : option (list (list byte)) * list iqPool_t :=
  match order with
  | [] => (None, ps)
  | k :: order =>
      match ps !! k with
      | None => acquire_from order n ps
      | Some p =>
          match DataArrayPool.acquireBatch n p with
          | (Ok bs, p) => (Some bs, <[k := p]> ps)
          | (Err _, p) => acquire_from order n (<[k := p]> ps)
          end
      end
  end.

Definition pool_order (local n : nat) : list nat :=
  local :: filter (fun k => k ≠ local) (seq 0 n).

Section Processing.
Context `{Dsp, Converter, PriorityQueue}.

(** *** Conversion of the source samples *)

(** Lines 201-205 for one channel. *)
Definition convert_channel (e : Scratch) (sig : Signal.t) (ch : Z)
    : outcome ierror signal_v :=
  let n := Signal.numSamp sig in
  match Signal.getData ch sig with
  | None => Err NullDeref
  | Some off =>
      match mread off (4 * n) (default [] (Signal.iq_data sig)) with
      | None => Err OutOfBounds
      | Some bytes =>
          if n <=? MAX_NUM_SAMPLES
          then Ok (conv_rx bytes n ++ drop (Z.to_nat n) (src_old e ch))
          else Err OutOfBounds
      end
  end.

Definition convert_sources (e : Scratch) (sig : Signal.t) : outcome ierror (list signal_v) :=
  omap_list (convert_channel e sig) (seqZ 0 (Signal.numCh sig)).

Definition signal_context (c : WorkerContext) (sig : Signal.t) : SignalContext :=
  mkSignalContext (Signal.header sig) (src_node_id c) (Signal.numCh sig)
    (Signal.getSizePerBuff sig) (Signal.numSamp sig) (Signal.srate sig).

(** *** The header of the outgoing burst *)

(** [std::round] stored into a [size_t]. *)
Definition round_size (x : float) : outcome ierror Z :=
  match round x with
  | Some z => if decide (0 ≤ z < 2 ^ 64) then Ok z else Err BadConversion
  | None => Err BadConversion
  end.

Record burst_plan : Type := mkPlan {
  bp_hdr : Header;
  bp_per_buff : Z;
  bp_sz_ch : Z;
  bp_ratio : float;
}.

(** Lines 327-348. *)
Definition plan_burst (sc : SignalContext) (d : DestInfo) : outcome ierror burst_plan :=
  if feq (sample_rate d) (sig_srate sc)
  then Ok (mkPlan (sig_hdr sc) (i_ns_ch sc) (i_sz_ch sc) (F32.of_Z 1))
  else
    let ratio := F32.div (sample_rate d) (sig_srate sc) in
    (do! per <- round_size (F32.mul (F32.of_Z (i_ns_ch sc)) ratio);
     do! sz <- round_size (F32.mul (F32.of_Z (i_sz_ch sc)) ratio);
     let data_sz := u64 (sz * num_channels d + HEADER_SIZE) in
     let h := sig_hdr sc in
     Ok (mkPlan (mkHeader data_sz (h_start h) (h_end h) (h_rt_tx_time h)
                   (u64 (cvtt64 (sample_rate d))) (u32 per) (h_total_frags h)
                   (u8 (src_n_ch sc)))
           per sz ratio))%chem.

(** [apply_propagation_delay]. *)
Definition apply_propagation_delay (h : Header) (delay_s : float) : Header :=
  let ns := cvtt64 (F64.mul delay_s (F64.of_Z 1000000000)) in
  mkHeader (h_size h) (s64 (h_start h + ns)) (s64 (h_end h + ns))
    (u64 (h_rt_tx_time h + ns)) (h_sample_rate h) (h_number_of_samples h)
    (h_total_frags h) (h_number_of_channels h).

(** Lines 356-367: a delay of at least one sample period moves the burst. *)
Definition delay_burst (dest_srate distance : float) (h : Header) : Header :=
  if isfinite dest_srate && flt fzero dest_srate
     && isfinite distance && flt fzero distance
  then
    let delay_s := F64.div distance SPEED_OF_LIGHT in
    let period_s := F64.div (F64.of_Z 1) dest_srate in
    if fle period_s delay_s then apply_propagation_delay h delay_s else h
  else h.

(** *** One destination *)

(** Source samples one call of [processChannel] reads. *)
Definition source_reads (p : burst_plan) : Z :=
  if feq (bp_ratio p) (F32.of_Z 1) then bp_per_buff p
  else default 0 (trunc (F32.div (F32.of_Z (bp_per_buff p)) (bp_ratio p))).

(** Lines 414-444: one pair of ports. *)
Definition process_port (e : Scratch) (srcs : list signal_v) (bp : burst_plan)
    (par : ChannelProcessParams) (c_dest c_src : Z) (st : Channel.t * signal_v)
    : outcome ierror (Channel.t * signal_v) :=
  let '(ch, d) := st in
  let co := Channel.getChCoeffs c_dest c_src ch in
  if feq co fzero then Ok (ch, d)
  else
    match srcs !! Z.to_nat c_src with
    | None => Err OutOfBounds
    | Some s =>
        if (bp_per_buff bp <=? MAX_NUM_SAMPLES) && (source_reads bp <=? MAX_NUM_SAMPLES)
        then
          let par := par <| coeff := co |> <| src_channel_index := c_src |>
                         <| dest_channel_index := c_dest |> in
          match Channel.processChannel (cir_old e) s d par ch with
          | (Some r, ch) => Ok (ch, Channel.r_signal r)
          | (None, ch) => Ok (ch, d)
          end
        else Err OutOfBounds
    end.

(** Lines 412-466: one output port; the thread's buffer starts with what it
    held before. *)
Definition process_output (e : Scratch) (srcs : list signal_v) (bp : burst_plan)
    (par : ChannelProcessParams) (dest : DestInfo) (c_dest : Z)
    (st : Channel.t * list byte) : outcome ierror (Channel.t * list byte) :=
  let '(ch, buf) := st in
  (do! r <- ofold (process_port e srcs bp par c_dest)
              (seqZ 0 (Z.of_nat (length srcs))) (ch, dest_old e (dest_id dest) c_dest);
   let '(ch, d) := r in
   if bp_per_buff bp <=? MAX_NUM_SAMPLES then
     match mwrite (c_dest * bp_sz_ch bp) (conv_tx d (bp_per_buff bp)) buf with
     | Some buf => Ok (ch, buf)
     | None => Err OutOfBounds
     end
   else Err OutOfBounds)%chem.

(** The map node a [DestInfo] points to. *)
Definition deref (a : positive) (i : t) : option ((string * string) * Channel.t) :=
  kv ← list_find (fun kv => kv.2.1 = a) (map_to_list (m_channelMap i));
  Some (kv.2.1, kv.2.2.2).

Definition set_channel (k : string * string) (a : positive) (ch : Channel.t) (w : world)
    : world :=
  w <| im := (im w) <| m_channelMap := <[k := (a, ch)]> (m_channelMap (im w)) |> |>.

(** [ProcessDestinationSignal]; the batch provides a buffer for every
    destination, so the fallback to the first pool is never taken. *)
Definition ProcessDestinationSignal (e : Scratch) (junk : Signal.t) (numa : nat)
    (sc : SignalContext) (srcs : list signal_v) (par : ChannelProcessParams)
    (job : DestInfo * list byte) (w : world) : outcome ierror world :=
  let '(dest, buf) := job in
  match deref (channel dest) (im w), txs (hp w) !! transmitter dest with
  | Some (k, ch), Some x =>
      (do! bp <- plan_burst sc dest;
       if is_zero (bp_ratio bp) then release_buffer numa buf w
       else
         let hdr := delay_burst (sample_rate dest) (Channel.getLinkDistance ch) (bp_hdr bp) in
         let par := par <| s_perBuff := bp_per_buff bp |> <| sample_ratio := bp_ratio bp |>
                        <| sample_rate_hz := sample_rate dest |>
                        <| dest_config := Some (Transmitter.m_node_config x) |> in
         do! r <- ofold (process_output e srcs bp par dest) (seqZ 0 (num_channels dest))
                    (ch, buf);
         let w := set_channel k (channel dest) r.1 w in
         let sig := Signal.ctor junk (Some r.2) hdr (m_freq (im w)) (dest_id dest) in
         do! r <- run_tx (transmitter dest)
                    (fun x => do! x <- Transmitter.Add2Buff sig x; Ok (tt, x)) w;
         Ok r.2)%chem
  | _, _ => Err Dangling
  end.

(** *** One burst *)

Definition base_params (w : world) (c : WorkerContext) (sc : NodeConfig.t)
    : ChannelProcessParams :=
  mkParams fzero 0 (F32.of_Z 1) fzero 0 0 (m_propagationModel (im w)) (grReflection (im w))
    (Some sc) None (m_freq (im w)).

(** [ProcessSignal] for the worker [id]. *)
Definition ProcessSignal (e : Scratch)
    (order : list (DestInfo * list byte) → list (DestInfo * list byte))
    (junk : Signal.t) (now : Z) (id : string) (c : WorkerContext) (sig : Signal.t)
    (w : world) : outcome ierror world :=
  let c := c <| last_tx_ns := now |> in
  let sc := signal_context c sig in
  let numa := Z.to_nat (numa_node c) in
  (do! srcs <- convert_sources e sig;
   do! w <- release_to numa sig w;
   match rxs (hp w) !! Intermediate.src_config c with
   | None => Err NullDeref
   | Some r =>
       let par := base_params w c (Receiver.m_node_config r) in
       let '(ds, c) := pick_destinations (hp w) (im w) c in
       let w := set_worker id c w in
       match ds with
       | [] => Ok w
       | _ :: _ =>
           let n := Z.of_nat (length ds) in
           match acquire_from (pool_order numa (length (pools w))) n (pools w) with
           | (None, ps) =>
               Ok (w <| pools := ps |>
                     <| im := (im w) <| m_poolDropCount := m_poolDropCount (im w) + n |> |>)
           | (Some bs, ps) =>
               ofold (ProcessDestinationSignal e junk numa sc srcs par)
                 (order (zip ds bs)) (w <| pools := ps |>)
           end
       end
   end)%chem.

Inductive worker_event : Type :=
  | WStopped          (** the loop is left *)
  | WIdle             (** no destination: sleeps 1 ms *)
  | WWaiting          (** blocked on the empty queue *)
  | WTooOld (s : Signal.t)
  | WProcessed (s : Signal.t).

(** What [WorkerLoop] does before its loop; [node] is the NUMA node of its
    thread when libnuma is available. *)
Definition WorkerLoop_enter (node : option Z) (id : string) (w : world) : world :=
  match m_workers (im w) !! id with
  | None => w
  | Some c =>
      let k := default (numa_node c) node in
      set_worker id (c <| numa_node := clampZ 0 (Z.of_nat (length (pools w)) - 1) k |>) w
  end.

(** One pass of the [while] loop of [WorkerLoop] at time [now]. *)
Definition WorkerLoop_iter (e : Scratch)
    (order : list (DestInfo * list byte) → list (DestInfo * list byte))
    (junk : Signal.t) (now : Z) (id : string) (w : world)
    : outcome ierror (worker_event * world) :=
  match m_workers (im w) !! id with
  | None => Ok (WStopped, w)
  | Some c =>
      if negb (running c && work (im w)) then Ok (WStopped, w)
      else if m_destCount (im w) =? 0 then Ok (WIdle, w)
      else
        match queue c with
        | [] => Ok (WWaiting, w)
        | sig :: q =>
            let c := c <| queue := q |> in
            let w := set_worker id c w in
            if h_start (Signal.header sig) <? now - m_max_latency_ns (im w) then
              (do! w <- release_to (Z.to_nat (numa_node c)) sig w;
               Ok (WTooOld sig,
                   w <| im := (im w) <| m_workerAgeDropCount :=
                          m_workerAgeDropCount (im w) + 1 |> |>))%chem
            else
              (do! w <- ProcessSignal e order junk now id c sig w;
               Ok (WProcessed sig, w))%chem
        end
  end.

End Processing.

End DataPath.
