(* ===== verification/Controller.v ===== *)
(** src/src/chem/node/controller.cpp: the requests of the nodes.  The
    controller keeps the connected nodes, the ports it hands out and one
    intermediate per frequency; a request creates the node's receiver and
    transmitter and moves them between intermediates.

    All objects behind [shared_ptr]s live in one store: receivers and
    transmitters in the [heap] of Intermediate.v, intermediates in [c_ims].  A
    [std::map<double, ...>] is a list sorted by [operator<], because its keys
    are compared that way and not by equality.  The database, the threads and
    the TCP server are not modelled; the JSON parser and [cos] are parameters.
    Operations are actions of a state monad that keeps the state an exception
    leaves behind. *)

From Stdlib Require Import ZArith Lia Strings.Byte Strings.String Floats.SpecFloat.
From stdpp Require Import prelude list strings gmap fin_maps list_numbers pretty.
From S2P Require Import Prelude Ieee Common CxxLib DataPool Json NodeConfig NodeEntity Signal.
From S2P Require Import UdpServer Receiver Transmitter Channel Intermediate DataPath.

(** ** [std::map<double, intermediateSPtr>] *)

Module FreqMap.

Definition t : Type := list (float * positive).

(** [find]: keys are equal when neither is less. *)
Fixpoint find (f : float) (m : t) : option positive :=
  match m with
  | [] => None
  | (k, a) :: m => if flt k f then find f m else if flt f k then None else Some a
  end.

(** [insert] keeps an existing entry. *)
Fixpoint insert (f : float) (a : positive) (m : t) : t :=
  match m with
  | [] => [(f, a)]
  | (k, b) :: m' =>
      if flt k f then (k, b) :: insert f a m' else if flt f k then (f, a) :: m else m
  end.

(** [erase(key)]. *)
Fixpoint erase (f : float) (m : t) : t :=
  match m with
  | [] => []
  | (k, b) :: m' => if flt k f then (k, b) :: erase f m' else if flt f k then m else m'
  end.

End FreqMap.

(** ** State *)

Inductive cerror : Type :=
  | Throw (e : json_error)       (** a JSON access *)
  | OutOfRange                   (** [std::vector::at] *)
  | PoolThrow (e : pool_error)
  | Crash (e : ierror).          (** undefined behaviour in an intermediate *)

Module Controller.

Record t : Type := mk {
  m_rxPortPool : list Z;
  m_txPortPool : list Z;
  m_nodeMap : gmap string Node.t;
  m_ipAddrMap : gmap string Z;            (* uint8_t *)
  m_intermediateMap : FreqMap.t;
  m_vehicleHandlers : handlers;
  m_propagationDefaults : option PropagationDefaults;
  m_iq_pools : list iqPool_t;
  m_numa_node : nat;
  m_numChannels : Z;                      (* uint16_t *)
  c_heap : heap;
  c_ims : gmap positive Intermediate.t;
  next_obj : positive;                    (** address of the next object *)
}.

#[global] Instance t_eta : Settable t := fun c =>
  mk (m_rxPortPool c) (m_txPortPool c) (m_nodeMap c) (m_ipAddrMap c) (m_intermediateMap c)
    (m_vehicleHandlers c) (m_propagationDefaults c) (m_iq_pools c) (m_numa_node c)
    (m_numChannels c) (c_heap c) (c_ims c) (next_obj c).

(** Actions: a result or an exception, and the state it leaves. *)
Definition ctl (A : Type) : Type := t → outcome cerror A * t.

Definition ret {A} (a : A) : ctl A := fun c => (Ok a, c).

Definition throw {A} (e : cerror) : ctl A := fun c => (Err e, c).

Definition bind {A B} (m : ctl A) (k : A → ctl B) : ctl B := fun c =>
  match m c with
  | (Ok a, c') => k a c'
  | (Err e, c') => (Err e, c')
  end.

Definition gets {A} (f : t → A) : ctl A := fun c => (Ok (f c), c).

Definition modifies (f : t → t) : ctl unit := fun c => (Ok tt, f c).

Definition lift {A} (o : outcome cerror A) : ctl A := fun c => (o, c).

#[local] Notation "'let!' x <- m ; k" := (bind m (fun x => k))
  (at level 100, x pattern, m at next level, right associativity).
#[local] Notation "m ;; k" := (bind m (fun _ => k))
  (at level 100, right associativity).

Fixpoint for_each {A} (f : A → ctl unit) (l : list A) : ctl unit :=
  match l with
  | [] => ret tt
  | a :: l => f a ;; for_each f l
  end.

(** *** Ports *)

(** [GeneratePortPool] over a vector of [n]: [portEnd], [portEnd - 1], ... *)
Fixpoint GeneratePortPool (portEnd : Z) (n : nat) : list Z :=
  match n with
  | O => []
  | S n => u16 portEnd :: GeneratePortPool (portEnd - 1) n
  end.

(** [back()] and [pop_back()]; 0 when the pool is empty. *)
Definition AssignTXPort : ctl Z := fun c =>
  match last (m_txPortPool c) with
  | None => (Ok 0, c)
  | Some p => (Ok p, c <| m_txPortPool := take (pred (length (m_txPortPool c))) (m_txPortPool c) |>)
  end.

Definition AssignRXPort : ctl Z := fun c =>
  match last (m_rxPortPool c) with
  | None => (Ok 0, c)
  | Some p => (Ok p, c <| m_rxPortPool := take (pred (length (m_rxPortPool c))) (m_rxPortPool c) |>)
  end.

Definition RestoreTXPort (ipAddress : string) : ctl unit := modifies (fun c =>
  match m_ipAddrMap c !! ipAddress with
  | None => c
  | Some n =>
      let n := u8 (n - 1) in
      c <| m_ipAddrMap := if n =? 0 then delete ipAddress (m_ipAddrMap c)
                          else <[ipAddress := n]> (m_ipAddrMap c) |>
  end).

(** *** Nodes and objects *)

(** [Node&]: a reference into the node map. *)
Definition node_at (id : string) : ctl Node.t := fun c =>
  match m_nodeMap c !! id with
  | Some n => (Ok n, c)
  | None => (Err (Crash Dangling), c)
  end.

Definition set_node (id : string) (n : Node.t) : ctl unit :=
  modifies (fun c => c <| m_nodeMap := <[id := n]> (m_nodeMap c) |>).

Definition edit_config (id : string) (f : NodeConfig.t → NodeConfig.t) : ctl unit :=
  let! n <- node_at id ; set_node id (Node.set_config f n).

(** [insert] does nothing when the id is known; the result is whether it was
    new. *)
Definition GetOrCreateNode (n : Node.t) : ctl bool := fun c =>
  let id := NodeConfig.m_id (Node.m_config n) in
  match m_nodeMap c !! id with
  | Some _ => (Ok false, c)
  | None => (Ok true, c <| m_nodeMap := <[id := n]> (m_nodeMap c) |>)
  end.

Definition iq_pool : ctl iqPool_t := fun c =>
  match m_iq_pools c !! m_numa_node c with
  | Some p => (Ok p, c)
  | None => (Err (Crash OutOfBounds), c)
  end.

Definition alloc (f : positive → t → t) : ctl positive := fun c =>
  let l := next_obj c in (Ok l, (f l c) <| next_obj := Pos.succ l |>).

Definition CreateReceiver (id : string) : ctl positive :=
  let! p <- AssignTXPort ;
  edit_config id (NodeConfig.setTxPortNumber p) ;;
  let! n <- node_at id ;
  let! pool <- iq_pool ;
  match Receiver.ctor (Node.m_config n) pool 0 with
  | Err Receiver.NoChannels => throw OutOfRange
  | Err (Receiver.PoolError e) => throw (PoolThrow e)
  | Ok r => alloc (fun l c => c <| c_heap := (c_heap c) <| rxs := <[l := r]> (rxs (c_heap c)) |> |>)
  end.

Definition CreateTransmitter (id : string) : ctl positive :=
  let! p <- AssignRXPort ;
  edit_config id (NodeConfig.setRxPortNumber p) ;;
  let! n <- node_at id ;
  let! pool <- iq_pool ;
  match Transmitter.ctor (Node.m_config n) pool with
  | None => throw OutOfRange
  | Some x => alloc (fun l c => c <| c_heap := (c_heap c) <| txs := <[l := x]> (txs (c_heap c)) |> |>)
  end.

(** *** Intermediates *)

Definition FindChannel (freq : float) : ctl (option positive) :=
  gets (fun c => FreqMap.find freq (m_intermediateMap c)).

(** The intermediate a new frequency gets: defaults other than free space are
    applied to it. *)
Definition new_intermediate (freq : float) (d : option PropagationDefaults) : Intermediate.t :=
  let i := Intermediate.ctor freq 10 in
  match d with
  | None => i
  | Some d =>
      match pd_model d with
      | FREE_SPACE | UNKNOWN => i
      | m =>
          let i := Intermediate.updatePathLoss m (groundCoeff d) i in
          match m with
          | THREE_GPP_38_901 => Intermediate.set3gppScenario (scenario d) i
          | _ => i
          end
      end
  end.

Definition CreateChannel (freq : float) : ctl positive :=
  let! found <- FindChannel freq ;
  match found with
  | Some a => ret a
  | None =>
      alloc (fun a c =>
        c <| c_ims := <[a := new_intermediate freq (m_propagationDefaults c)]> (c_ims c) |>
          <| m_intermediateMap := FreqMap.insert freq a (m_intermediateMap c) |>
          <| m_numChannels := u16 (m_numChannels c + 1) |>)
  end.

(** A call on the intermediate at [a], which sees the shared objects and the
    IQ pools. *)
Definition on_channel (a : positive) (f : world → outcome ierror world) : ctl unit := fun c =>
  match c_ims c !! a with
  | None => (Err (Crash NullDeref), c)
  | Some i =>
      match f (mkWorld (c_heap c) i (m_iq_pools c) (m_numa_node c)) with
      | Err e => (Err (Crash e), c)
      | Ok w => (Ok tt, c <| c_heap := hp w |> <| c_ims := <[a := im w]> (c_ims c) |>
                          <| m_iq_pools := pools w |>)
      end
  end.

(** [isChannelEmpty]: an empty intermediate leaves the map (its thread still
    holds it). *)
Definition isChannelEmpty (a : positive) : ctl unit := modifies (fun c =>
  match c_ims c !! a with
  | Some i =>
      if Intermediate.isEmpty i
      then c <| m_intermediateMap := FreqMap.erase (Intermediate.m_freq i) (m_intermediateMap c) |>
      else c
  | None => c
  end).

(** The constructor; [numa] is the number of NUMA nodes when NUMA is enabled
    and available. *)
Definition ctor (nodes : gmap string Node.t) (numa : option nat) (numa_node : nat)
    (d : option PropagationDefaults) : outcome pool_error t :=
  let pools :=
    match numa with
    | Some n =>
        let cap := Z.max 1 (IQ_POOL_CAP / Z.of_nat n) in
        omap_list (fun k => DataArrayPool.ctor_numa x00 IQ_SIZE cap
                              ("IQ-node" ++ pretty.pretty (Z.of_nat k)) (Z.of_nat k) false) (seq 0 n)
    | None => omap_list (fun _ => DataArrayPool.ctor x00 IQ_SIZE IQ_POOL_CAP "IQ" false) [tt]
    end in
  match pools with
  | Err e => Err e
  | Ok ps =>
      Ok (mk (GeneratePortPool (REQ_PORT_NUM 400) 400) (GeneratePortPool (REP_PORT_NUM 400) 400)
            nodes ∅ [] ∅ d ps (if numa is Some _ then numa_node else 0%nat) 0 (mkHeap ∅ ∅) ∅ 1)
  end.

(** *** Assigning channels

    [AssignULChannel] and [AssignDLChannel] are the same code over the two
    sides of a node: what they call on each side is a [side]. *)

Record side : Type := mkSide {
  sd_freq : usrp.Channel → float;
  sd_rate : usrp.SampleRate → float;
  sd_update : float → NodeConfig.t → option NodeConfig.t;
  sd_object : Node.t → option positive;
  sd_create : string → ctl positive;
  sd_store : option positive → Node.t → Node.t;
  sd_formats : positive → string → string → heap → heap;
  sd_set_rate : positive → Z → heap → heap;
  sd_set_freq : positive → float → heap → heap;
  sd_detach : positive → world → outcome ierror world;
  sd_attach : positive → world → outcome ierror world;
}.

Definition set_formats (i o : string) (c : NodeConfig.t) : NodeConfig.t :=
  NodeConfig.setOutputFormat o (NodeConfig.setInputFormat i c).

Definition detach_rx (l : positive) (w : world) : outcome ierror world :=
  match DataPath.detach_source l w with Ok (_, w) => Ok w | Err e => Err e end.

Definition attach_rx (l : positive) (w : world) : outcome ierror world :=
  match Intermediate.AttachSource l (hp w) (im w) with
  | Ok (h, i) => Ok (w <| hp := h |> <| im := i |>)
  | Err e => Err e
  end.

Definition detach_tx (l : positive) (w : world) : outcome ierror world :=
  match Intermediate.DetachDestination l (hp w) (im w) with
  | Ok (_, h, i) => Ok (w <| hp := h |> <| im := i |>)
  | Err e => Err e
  end.

Definition attach_tx (l : positive) (w : world) : outcome ierror world :=
  match Intermediate.AttachDestination l (hp w) (im w) with
  | Ok i => Ok (w <| im := i |>)
  | Err e => Err e
  end.

Definition uplink : side :=
  mkSide usrp.m_txTuneFreq usrp.m_txRate (fun f => NodeConfig.updateTxFreq f 0)
    Node.m_receiver CreateReceiver Node.setReceiver
    (fun l i o => update_rx l (fun r => r <| Receiver.m_node_config :=
                                            set_formats i o (Receiver.m_node_config r) |>))
    (fun l v => update_rx l (Receiver.setSampleRate v))
    (fun l f => update_rx l (Receiver.updateFreq f))
    detach_rx attach_rx.

Definition downlink : side :=
  mkSide usrp.m_rxTuneFreq usrp.m_rxRate (fun f => NodeConfig.updateRxFreq f 0)
    Node.m_transmitter CreateTransmitter Node.setTransmitter
    (fun l i o => update_tx l (fun x => x <| Transmitter.m_node_config :=
                                            set_formats i o (Transmitter.m_node_config x) |>))
    (fun l v => update_tx l (Transmitter.setSampleRate v))
    (fun l f => update_tx l (Transmitter.updateFreq f))
    detach_tx attach_tx.

Definition on_heap (f : heap → heap) : ctl unit :=
  modifies (fun c => c <| c_heap := f (c_heap c) |>).

(** The frequency a side is tuned to; 0 without channels. *)
Definition tuned (sd : side) (n : Node.t) : float :=
  match NodeConfig.m_channels (Node.m_config n) with
  | [] => fzero
  | ch :: _ => sd_freq sd ch
  end.

(** [std::abs(prevFreq - freq) >= 10e3]. *)
Definition retuned (prevFreq freq : float) : bool :=
  fle (F64.of_Z 10000) (SFabs (F64.sub prevFreq freq)).

(** The object of the side, created at need. *)
Definition ensure_object (sd : side) (id : string) : ctl positive :=
  let! n <- node_at id ;
  match sd_object sd n with
  | Some l => ret l
  | None =>
      let! l <- sd_create sd id ;
      let! n <- node_at id ;
      set_node id (sd_store sd (Some l) n) ;; ret l
  end.

(** Lines 331-343 and 405-417: the object and its sample formats; none in
    sandbox mode. *)
Definition side_object (sd : side) (sandbox : bool) (id : string) : ctl (option positive) :=
  if sandbox then ret None
  else
    let! l <- ensure_object sd id ;
    let! n <- node_at id ;
    on_heap (sd_formats sd l (NodeConfig.m_inputFormat (Node.m_config n))
               (NodeConfig.m_outputFormat (Node.m_config n))) ;;
    ret (Some l).

(** Lines 355-365 and 429-439: leaving the previous frequency. *)
Definition leave (sd : side) (obj : option positive) (id : string) (a : positive) : ctl unit :=
  match obj with
  | None => on_channel a (fun w => Ok (w <| im := Intermediate.removeSandboxNode id (im w) |>))
  | Some l => on_channel a (sd_detach sd l)
  end ;;
  isChannelEmpty a.

(** The side's rate in the node's configuration, given to its object. *)
Definition apply_rate (sd : side) (obj : option positive) (id : string) : ctl unit :=
  match obj with
  | None => ret tt
  | Some l =>
      let! n <- node_at id ;
      on_heap (sd_set_rate sd l
                 (double_to_u32 (sd_rate sd (NodeConfig.m_sample_rate (Node.m_config n)))))
  end.

(** Lines 377-384 and 451-459: joining the new one. *)
Definition join (sd : side) (obj : option positive) (id : string) (newConfig : NodeConfig.t)
    (freq : float) (a : positive) : ctl unit :=
  match obj with
  | None =>
      on_channel a (fun w => Ok (w <| im := Intermediate.addSandboxNode id
                                              (NodeConfig.m_numChannels newConfig) (hp w) (im w) |>))
  | Some l =>
      on_heap (sd_set_freq sd l freq) ;;
      apply_rate sd obj id ;;
      on_channel a (sd_attach sd l)
  end.

Definition assign (sd : side) (sandbox : bool) (id : string) (newConfig : NodeConfig.t)
    : ctl bool :=
  match NodeConfig.m_channels newConfig with
  | [] => ret false
  | ch :: _ =>
      let freq := sd_freq sd ch in
      let! n <- node_at id ;
      let prevFreq := tuned sd n in
      let! found <- FindChannel freq ;
      let! prev <- FindChannel prevFreq ;
      let isSame := Node.compare_config newConfig n in
      let! obj <- side_object sd sandbox id ;
      let! a <- match found with Some a => ret a | None => CreateChannel freq end ;
      if isSame && bool_decide (found = None) then ret false
      else
        let freqChanged := retuned prevFreq freq in
        match prev with
        | Some p => if freqChanged then leave sd obj id p else ret tt
        | None => ret tt
        end ;;
        if negb freqChanged then
          edit_config id (NodeConfig.setSampleRate (NodeConfig.m_sample_rate newConfig)) ;;
          apply_rate sd obj id ;;
          ret false
        else
          let! n <- node_at id ;
          match sd_update sd freq (Node.m_config n) with
          | None => throw OutOfRange
          | Some cfg =>
              set_node id (n <| Node.m_config := cfg |>) ;;
              join sd obj id newConfig freq a ;;
              ret true
          end
  end.

Definition AssignULChannel : bool → string → NodeConfig.t → ctl bool := assign uplink.

Definition AssignDLChannel : bool → string → NodeConfig.t → ctl bool := assign downlink.

(** *** Removing nodes *)

(** Lines 130-142 and 251-261: the objects of a node leave every channel. *)
Definition detach_node (n : Node.t) : ctl unit :=
  let! m <- gets m_intermediateMap ;
  match Node.m_transmitter n with
  | Some l => for_each (fun fa => on_channel fa.2 (detach_tx l)) m
  | None => ret tt
  end ;;
  match Node.m_receiver n with
  | Some l => for_each (fun fa => on_channel fa.2 (detach_rx l)) m
  | None => ret tt
  end.

Definition stop_vehicle (n : Node.t) : ctl unit := modifies (fun c =>
  c <| m_vehicleHandlers := delete (Node.vehicle_key (Node.m_config n)) (m_vehicleHandlers c) |>).

(** Lines 153-163 and 263-273. *)
Definition drop_empty : ctl unit := modifies (fun c =>
  c <| m_intermediateMap :=
         filter (fun fa => negb (from_option Intermediate.isEmpty false (c_ims c !! fa.2)))
           (m_intermediateMap c) |>).

Definition erase_node (id : string) : ctl unit :=
  modifies (fun c => c <| m_nodeMap := delete id (m_nodeMap c) |>).

Definition disconnect (id : string) (n : Node.t) : ctl unit :=
  RestoreTXPort (NodeConfig.m_ipAddress (Node.m_config n)) ;;
  detach_node n ;; stop_vehicle n ;; drop_empty ;; erase_node id.

(** The body of the loop of [CheckTimeouts], over the nodes of the map. *)
Definition check_node (now : Z) (kn : string * Node.t) : ctl unit :=
  if Node.isAlive now 10 kn.2 then ret tt
  else detach_node kn.2 ;; drop_empty ;; stop_vehicle kn.2 ;; erase_node kn.1.

Definition CheckTimeouts (now : Z) : ctl unit :=
  let! m <- gets m_nodeMap ; for_each (check_node now) (map_to_list m).

(** *** Requests *)

(** What a request finds outside: the clock, the peer's address, the mode, and
    the indeterminate ports of a default-constructed configuration. *)
Record request_env : Type := mkEnv {
  now : Z;
  remoteIp : string;
  sandbox_enabled : bool;
  tx_junk : Z;
  rx_junk : Z;
}.

Definition status (s : string) : json := of_pairs [("status", JString s)].

Definition accepted (n : Node.t) : json :=
  of_pairs [("txPort", JInt (NodeConfig.m_portTxNum (Node.m_config n)));
            ("rxPort", JInt (NodeConfig.m_portRxNum (Node.m_config n)));
            ("status", JString "success")].

(** [std::string s = j[k]]: a missing member becomes null, which is no string. *)
Definition string_member (k : string) (j : json) : outcome cerror string :=
  match obind (at_key k j) get_string with
  | Ok s => Ok s
  | Err _ => Err (Throw TypeError)
  end.

Section Requests.
Context (parse : string → option json) (cos : float → float).

Definition heartbeat (e : request_env) (j : json) : ctl json :=
  let! id <- lift (string_member "id" j) ;
  let! m <- gets m_nodeMap ;
  match m !! id with
  | None => ret (status "fail")
  | Some n => set_node id (Node.updateHeartbeat (now e) n) ;; ret (status "success")
  end.

Definition disconnect_request (j : json) : ctl json :=
  let! id <- lift (string_member "id" j) ;
  let! m <- gets m_nodeMap ;
  match m !! id with
  | None => ret (status "fail")
  | Some n => disconnect id n ;; ret (status "success")
  end.

(** Lines 179-238: configuration requests. *)
Definition configure (e : request_env) (j : json) : ctl json :=
  let nc := NodeConfig.from_json j (NodeConfig.default (tx_junk e) (rx_junk e)) in
  let n := Node.set_config (NodeConfig.setIpAddress (remoteIp e)) (Node.ctor (now e) nc) in
  let nc := NodeConfig.setIpAddress (remoteIp e) nc in
  let id := NodeConfig.m_id nc in
  let! newly_inserted <- GetOrCreateNode n ;
  let! n <- node_at id ;
  let! vh <- gets m_vehicleHandlers ;
  let '(n, nc, vh) := Node.refreshFromConfig cos (now e) nc vh n in
  set_node id n ;;
  modifies (fun c => c <| m_vehicleHandlers := vh |>) ;;
  let! ul <- AssignULChannel (sandbox_enabled e) id nc ;
  let! dl <- AssignDLChannel (sandbox_enabled e) id nc ;
  let! n <- node_at id ;
  if (ul || dl) || (newly_inserted : bool) || Node.compare_config nc n
  then ret (accepted n) else ret (status "fail").

Definition requestHandler (e : request_env) (request : string) : ctl json :=
  match parse request with
  | None => ret (status "fail")
  | Some j =>
      if contains "type" j then
        let! ty <- lift (string_member "type" j) ;
        if (ty =? "heartbeat")%string then heartbeat e j
        else if (ty =? "disconnect")%string then disconnect_request j
        else configure e j
      else configure e j
  end.

End Requests.

End Controller.
