(* ===== verification/Accounting.v ===== *)
(** Where the IQ buffers of one channel are: in a pool, in the queue of a
    worker, a receiver or a transmitter.  The steps of the data path (DataPath.v)
    and the membership operations move buffers between these places and lose
    none. *)

From Stdlib Require Import ZArith Lia Strings.Byte Strings.String Floats.SpecFloat.
From stdpp Require Import prelude list strings gmap fin_maps list_numbers.
From S2P Require Import Prelude Ieee Common CxxLib DataPool NodeConfig Signal UdpClient.
From S2P Require Import UdpServer Receiver Transmitter Channel Intermediate DataPath.

#[local] Arguments Transmitter.Start_iter : simpl never.
#[local] Arguments Transmitter.Add2Buff : simpl never.
#[local] Arguments Receiver.Start_iter : simpl never.
#[local] Arguments Channel.processChannel : simpl never.

Section Accounting.
Import Intermediate DataPath.

(** ** Counting *)

Definition pools_free (ps : list iqPool_t) : Z :=
  foldr (fun p n => DataArrayPool.available p + n) 0 ps.

Definition worker_load (c : WorkerContext) : Z := Z.of_nat (length (queue c)).

Definition rx_load (r : Receiver.t) : Z := Z.of_nat (length (Receiver.m_queue r)).

Definition tx_load (x : Transmitter.t) : Z := Z.of_nat (length (Transmitter.m_queue x)).

Definition in_flight (w : world) : Z :=
  map_sum worker_load (m_workers (im w)) + map_sum rx_load (rxs (hp w))
  + map_sum tx_load (txs (hp w)).

Definition buffers_total (w : world) : Z := pools_free (pools w) + in_flight w.

(** A queued burst owns a buffer and declares a size. *)
Definition good (s : Signal.t) : Prop :=
  Transmitter.has_buffer s ∧ h_size (Signal.header s) ≠ 0.

Definition worker_ok (c : WorkerContext) : Prop :=
  Z.of_nat (length (queue c)) ≤ QUEUE_CAP - 1 ∧ Forall good (queue c) ∧
  Forall (fun d => 0 ≤ num_channels d < 256) (cached_destinations c).

Definition world_ok (w : world) : Prop :=
  map_Forall (fun _ => worker_ok) (m_workers (im w)) ∧
  map_Forall (fun _ => Receiver.inv) (rxs (hp w)) ∧
  map_Forall (fun _ => Transmitter.inv) (txs (hp w)).

(** [w'] is a good world with [k] buffers more than [w]. *)
Definition moved (k : Z) (w w' : world) : Prop :=
  world_ok w' ∧ buffers_total w' = buffers_total w + k.

Lemma pools_free_insert ps k p p' :
  ps !! k = Some p →
  pools_free (<[k := p']> ps)
  = pools_free ps - DataArrayPool.available p + DataArrayPool.available p'.
Proof.
  revert k. induction ps as [|q ps IH]; intros [|k] Hk; [done..| |].
  - injection Hk as ->. cbn. lia.
  - change (DataArrayPool.available q + pools_free (<[k := p']> ps)
      = DataArrayPool.available q + pools_free ps - DataArrayPool.available p
        + DataArrayPool.available p'). rewrite (IH k Hk). lia.
Qed.

(** Worlds that differ in their pools only. *)
Lemma moved_pools k w ps :
  world_ok w → pools_free ps = pools_free (pools w) + k → moved k w (w <| pools := ps |>).
Proof.
  intros Hw Hp. split; [exact Hw|]. unfold buffers_total.
  change (in_flight (w <| pools := ps |>)) with (in_flight w). cbn [modify pools]. lia.
Qed.

Lemma moved_trans j k w1 w2 w3 :
  moved j w1 w2 → moved k w2 w3 → moved (j + k) w1 w3.
Proof. intros [_ H1] [? H2]. split; [done|]. lia. Qed.

Lemma moved_refl w : world_ok w → moved 0 w w.
Proof. intros Hw. split; [done|]. lia. Qed.

Lemma release_available b p p' :
  DataArrayPool.release x00 b p = Ok p' →
  DataArrayPool.available p' = DataArrayPool.available p + 1.
Proof.
  unfold DataArrayPool.release, DataArrayPool.available. destruct b; [|done].
  intros [= <-]. cbn. rewrite length_app. cbn. lia.
Qed.

Lemma release_to_moved k s w w' :
  world_ok w → release_to k s w = Ok w' → moved 1 w w' ∧ hp w' = hp w ∧ im w' = im w.
Proof.
  intros Hw. unfold release_to. destruct (pools w !! k) as [p|] eqn:Ep; [|done].
  destruct (DataArrayPool.release _ _ p) as [p'|] eqn:Er; [|done]. intros [= <-].
  split; [|done]. apply moved_pools; [done|]. rewrite (pools_free_insert _ _ _ _ Ep).
  rewrite (release_available _ _ _ Er). lia.
Qed.

Lemma release_buffer_moved k b w w' :
  world_ok w → release_buffer k b w = Ok w' → moved 1 w w'.
Proof.
  intros Hw. unfold release_buffer. destruct (pools w !! k) as [p|] eqn:Ep; [|done].
  destruct (DataArrayPool.release _ _ p) as [p'|] eqn:Er; [|done]. intros [= <-].
  apply moved_pools; [done|]. rewrite (pools_free_insert _ _ _ _ Ep).
  rewrite (release_available _ _ _ Er). lia.
Qed.

(** ** Running a shared object *)

Lemma run_tx_moved {A} l (f : Transmitter.t → outcome pool_error (A * Transmitter.t))
    (k : A → Z) w a w' :
  (∀ x x', Transmitter.inv x → f x = Ok (a, x') →
     Transmitter.inv x' ∧ Transmitter.buffers x' = Transmitter.buffers x + k a) →
  world_ok w → run_tx l f w = Ok (a, w') → moved (k a) w w'.
Proof.
  intros Hf (Hws & Hrs & Hxs). unfold run_tx.
  destruct (txs (hp w) !! l) as [x|] eqn:El; [|done].
  destruct (pools w !! home w) as [p|] eqn:Ep; [|done].
  destruct (f _) as [[a' x']|] eqn:Ef; [|done]. intros [= <- <-].
  assert (H0 : Transmitter.inv (x <| Transmitter.m_iq_pool := p |>)) by exact (Hxs _ _ El).
  destruct (Hf _ _ H0 Ef) as [Hi Hb]. split.
  - refine (conj Hws (conj Hrs _)). cbn [modify hp txs].
    apply map_Forall_insert_2; [done|exact Hxs].
  - unfold buffers_total, in_flight. cbn [modify hp im pools txs rxs].
    rewrite (pools_free_insert _ _ _ _ Ep), (map_sum_insert _ _ _ _ _ El).
    unfold Transmitter.buffers, tx_load in *. cbn in Hb. lia.
Qed.

Lemma run_rx_moved {A} l (f : Receiver.t → outcome pool_error (A * Receiver.t))
    (k : A → Z) w a w' :
  (∀ r r', Receiver.inv r → f r = Ok (a, r') →
     Receiver.inv r' ∧ Receiver.buffers r' = Receiver.buffers r + k a) →
  world_ok w → run_rx l f w = Ok (a, w') → moved (k a) w w'.
Proof.
  intros Hf (Hws & Hrs & Hxs). unfold run_rx.
  destruct (rxs (hp w) !! l) as [r|] eqn:El; [|done].
  destruct (pools w !! home w) as [p|] eqn:Ep; [|done].
  destruct (f _) as [[a' r']|] eqn:Ef; [|done]. intros [= <- <-].
  assert (H0 : Receiver.inv (Receiver.set_pool p r)) by exact (Hrs _ _ El).
  destruct (Hf _ _ H0 Ef) as [Hi Hb]. split.
  - refine (conj Hws (conj _ Hxs)). cbn [modify hp rxs].
    apply map_Forall_insert_2; [done|exact Hrs].
  - unfold buffers_total, in_flight. cbn [modify hp im pools txs rxs].
    rewrite (pools_free_insert _ _ _ _ Ep), (map_sum_insert _ _ _ _ _ El).
    unfold Receiver.buffers, Receiver.m_iq_pool, rx_load in *. cbn in Hb. lia.
Qed.

(** Replacing the state of a worker. *)
Lemma set_worker_moved id c c' w :
  world_ok w → m_workers (im w) !! id = Some c → worker_ok c' →
  moved (worker_load c' - worker_load c) w (set_worker id c' w).
Proof.
  intros (Hws & Hrs & Hxs) Hc Hc'. split.
  - refine (conj _ (conj Hrs Hxs)). cbn [set_worker modify im m_workers].
    by apply map_Forall_insert_2.
  - unfold buffers_total, in_flight. cbn [set_worker modify hp im pools m_workers].
    rewrite (map_sum_insert _ _ _ _ _ Hc). lia.
Qed.

(** ** The receive side *)

Lemma forwarded_good junk sched r st r' sig rest :
  Receiver.Start_iter junk sched r = Ok (st, r', Some sig, rest) →
  st = Receiver.Running ∧ good sig.
Proof.
  unfold Receiver.Start_iter. destruct (UDPServer.Recv sched _) as [[res srv] rest0].
  destruct res as [hdr rx| | | |]; try done.
  destruct (Z.eqb_spec (h_size hdr) 0) as [|Hsz]; [done|].
  destruct (if _ <=? _ then _ else _) as [r1|]; [|done]. cbn [obind].
  destruct (Receiver.add2Queue r1).
  - intros [= <- <- <- <-]. split; [done|]. unfold Signal.ctor.
    rewrite decide_False by done. split; [by eexists|done].
  - destruct (_ <? _); [done|]. by destruct (Receiver.release _ r1).
Qed.

Lemma enqueue_moved id sig w w' :
  world_ok w → good sig → enqueue id sig w = Ok w' → moved 1 w w'.
Proof.
  intros Hw Hsig. unfold enqueue. destruct (m_workers (im w) !! id) as [c|] eqn:Ec;
    [|by intros (? & _)%release_to_moved].
  destruct (running_flag c); cbn [negb]; [|by intros (? & _)%release_to_moved].
  destruct (proj1 Hw _ _ Ec) as (Hl & Hq & Hd).
  destruct (Z.leb_spec (QUEUE_CAP - 1) (Z.of_nat (length (queue c)))) as [Hle|Hlt].
  - destruct (queue c) as [|s q] eqn:Eq; [cbn in Hle; unfold QUEUE_CAP in Hle; lia|].
    destruct (release_to 0 s w) as [w1|] eqn:Er; [|done]. cbn [obind].
    apply release_to_moved in Er as (Hm & Hh & Hi); [|done].
    apply Forall_cons in Hq as [_ Hq]. cbn [modify queue length] in *.
    destruct (Z.ltb_spec (Z.of_nat (length q)) QUEUE_CAP); [|unfold QUEUE_CAP in *; lia].
    intros [= <-]. rewrite <- Hi in Ec. replace 1 with (1 + 0) by done.
    eapply moved_trans; [exact Hm|]. replace 0 with
      (worker_load (c <| queue := q ++ [sig] |>) - worker_load c)
      by (unfold worker_load; cbn [modify queue]; rewrite Eq, length_app; cbn; lia).
    apply set_worker_moved; [by destruct Hm|done|]. split_and!; cbn [modify queue].
    + rewrite length_app. cbn. lia.
    + apply Forall_app. by split; [|apply Forall_singleton].
    + exact Hd.
  - cbn [obind]. destruct (Z.ltb_spec (Z.of_nat (length (queue c))) QUEUE_CAP);
      [|unfold QUEUE_CAP in *; lia]. intros [= <-]. replace 1 with
      (worker_load (c <| queue := queue c ++ [sig] |>) - worker_load c)
      by (unfold worker_load; cbn [modify queue]; rewrite length_app; cbn; lia).
    apply set_worker_moved; [done..|]. split_and!; cbn [modify queue].
    + rewrite length_app. cbn. lia.
    + apply Forall_app. by split; [|apply Forall_singleton].
    + exact Hd.
Qed.

Lemma receive_moved junk sched l w w' :
  world_ok w → receive junk sched l w = Ok (Receiver.Running, w') → moved 0 w w'.
Proof.
  intros Hw. unfold receive.
  destruct (run_rx l _ w) as [[[[st fwd] id] w1]|] eqn:Er; [|done]. cbn [obind].
  set (k := fun a : Receiver.status * option Signal.t * string =>
    match a.1.2 with Some _ => -1 | None => 0 end).
  intros Hres. assert (Hst : st = Receiver.Running).
  { destruct fwd as [sig|]; [|by injection Hres].
    by destruct (enqueue id sig w1); [injection Hres|]. }
  assert (Hm : moved (k (st, fwd, id)) w w1 ∧ ∀ sig, fwd = Some sig → good sig).
  { split.
    - eapply (run_rx_moved l _ k); [|done|exact Er]. intros r r' Hi.
      destruct (Receiver.rx_Start_iter_account junk sched r Hi)
        as (st' & r'' & fwd' & rest & -> & Hi' & Hb). cbn [obind].
      intros [= -> -> <- <-]. split; [done|]. destruct (Hb Hst) as [Hb' _].
      unfold k. cbn. destruct fwd; lia.
    - unfold run_rx in Er. destruct (rxs (hp w) !! l) as [r|]; [|done].
      destruct (pools w !! home w); [|done].
      destruct (Receiver.Start_iter _ _ _) as [[[[st' r'] fwd'] rest]|] eqn:Es; [|done].
      cbn [obind] in Er. injection Er as -> -> _ _.
      intros sig ->. exact (proj2 (forwarded_good _ _ _ _ _ _ _ Es)). }
  destruct Hm as [Hm Hg]. destruct fwd as [sig|]; cbn in Hres, Hm.
  - specialize (Hg sig eq_refl). destruct (enqueue id sig w1) as [w2|] eqn:Ee; [|done].
    injection Hres as _ <-.
    exact (moved_trans _ _ _ _ _ Hm (enqueue_moved id sig w1 w2 (proj1 Hm) Hg Ee)).
  - by injection Hres as _ <-.
Qed.

(** ** The processing side *)

Lemma acquireBatch_free n (p : iqPool_t) r p' :
  0 ≤ n → DataArrayPool.acquireBatch n p = (r, p') →
  match r with
  | Ok bs => Z.of_nat (length bs) = n ∧
             DataArrayPool.available p' = DataArrayPool.available p - n
  | Err _ => DataArrayPool.available p' = DataArrayPool.available p
  end.
Proof.
  intros Hn. unfold DataArrayPool.acquireBatch, DataArrayPool.available.
  rewrite DataArrayPool.acquire_loop_spec. case_decide as Hd; intros [= <- <-].
  - cbn. rewrite length_take, length_drop. lia.
  - done.
Qed.

Lemma acquire_from_free order n ps r ps' :
  0 ≤ n → acquire_from order n ps = (r, ps') →
  pools_free ps' = pools_free ps - (match r with Some _ => n | None => 0 end) ∧
  match r with Some bs => Z.of_nat (length bs) = n | None => True end.
Proof.
  intros Hn. revert ps. induction order as [|k order IH]; intros ps; cbn [acquire_from].
  { intros [= <- <-]. split; [lia|done]. }
  destruct (ps !! k) as [p|] eqn:Ek; [|apply IH].
  destruct (DataArrayPool.acquireBatch n p) as [[bs|e] p1] eqn:Ea;
    apply acquireBatch_free in Ea; [|done| |done].
  - intros [= <- <-]. rewrite (pools_free_insert _ _ _ _ Ek). split; lia.
  - intros Hr. destruct (IH _ Hr) as [Hf Hb]. rewrite (pools_free_insert _ _ _ _ Ek) in Hf.
    split; [lia|done].
Qed.

(** A rounded product is small or a multiple of 32. *)
Lemma round_size_shape x y z :
  round_size (F32.mul x y) = Ok z → 0 ≤ z < 2 ^ 29 ∨ (32 | z).
Proof.
  unfold round_size. destruct (F32.mul x y) as [s| | |s m e] eqn:Em; cbn [round]; try done.
  { case_decide; intros [= <-]; lia. }
  apply F32_mul_mantissa in Em. case_decide as He.
  - case_decide as Hz; intros [= <-]. rewrite Z.shiftl_mul_pow2 in * by done.
    destruct (Z.le_gt_cases 5 e) as [He5|He5].
    + right. exists (cond_Zopp s (Zpos m) * 2 ^ (e - 5)).
      replace (2 ^ e) with (2 ^ (e - 5) * 2 ^ 5) by (rewrite <- Z.pow_add_r by lia; f_equal; lia).
      destruct s; cbn [cond_Zopp]; change (2 ^ 5) with 32; ring.
    + left. assert (2 ^ e ≤ 2 ^ 4) by (apply Z.pow_le_mono_r; lia).
      destruct s; cbn [cond_Zopp] in *; nia.
  - case_decide as Hz; intros [= <-]. left.
    assert (0 < 2 ^ (- e - 1)) by (apply Z.pow_pos_nonneg; lia).
    assert (2 ^ (- e) = 2 * 2 ^ (- e - 1)) as Hp
      by (rewrite <- Z.pow_succ_r by lia; f_equal; lia).
    assert (0 ≤ (Zpos m + 2 ^ (- e - 1)) / 2 ^ (- e) < 2 ^ 24) as Hq.
    { split; [apply Z.div_pos; lia|]. apply Z.div_lt_upper_bound; [lia|]. rewrite Hp. nia. }
    revert Hq Hz. generalize ((Zpos m + 2 ^ (- e - 1)) / 2 ^ (- e)) as q. intros q Hq Hz.
    destruct s; cbn [cond_Zopp] in *; lia.
Qed.

Lemma plan_size sc d bp :
  0 ≤ num_channels d < 256 → h_size (sig_hdr sc) ≠ 0 →
  plan_burst sc d = Ok bp → h_size (bp_hdr bp) ≠ 0.
Proof.
  intros Hn H0. unfold plan_burst. destruct (feq _ _); [by intros [= <-]|].
  destruct (round_size _) as [per|]; [|done]. cbn [obind].
  destruct (round_size (F32.mul (F32.of_Z (i_sz_ch sc)) _)) as [sz|] eqn:Es; [|done].
  cbn [obind]. intros [= <-]. cbn [bp_hdr h_size]. unfold u64, wrap, HEADER_SIZE.
  apply round_size_shape in Es as [Hz|[q ->]].
  - rewrite Z.mod_small; nia.
  - intros Hm. apply Z.mod_divide in Hm as [t Ht]; [|done].
    change (2 ^ 64) with (32 * 2 ^ 59) in Ht. lia.
Qed.

Lemma delay_size r d h : h_size (delay_burst r d h) = h_size h.
Proof. unfold delay_burst. by repeat case_match. Qed.

Section Processing.
Context `{Dsp, Converter, PriorityQueueLaws}.

Lemma transmit_moved env now l w ev w' :
  world_ok w → transmit env now l w = Ok (ev, w') → ev ≠ Transmitter.SendFault →
  moved 0 w w'.
Proof.
  intros Hw Ht Hev. apply (run_tx_moved l (Transmitter.Start_iter env now) (fun _ => 0) w ev w');
    [|done|exact Ht].
  intros x x' Hi Hs. destruct (Transmitter.tx_Start_iter_account env now x Hi)
    as (ev' & x1 & Hs' & Hi' & _ & Hb). rewrite Hs in Hs'. injection Hs' as <- <-.
  split; [done|]. rewrite Hb by done. lia.
Qed.

Lemma process_destination_moved e junk numa sc srcs par dest buf w w' :
  world_ok w → 0 ≤ num_channels dest < 256 → h_size (sig_hdr sc) ≠ 0 →
  ProcessDestinationSignal e junk numa sc srcs par (dest, buf) w = Ok w' →
  moved 1 w w'.
Proof.
  intros Hw Hn Hsz. unfold ProcessDestinationSignal.
  destruct (deref _ _) as [[k ch]|]; [|done]. destruct (txs _ !! _) as [x|]; [|done].
  destruct (plan_burst sc dest) as [bp|] eqn:Ep; [|done]. cbn [obind].
  apply plan_size in Ep; [|done..]. destruct (is_zero _).
  { by intros ?%release_buffer_moved. }
  destruct (ofold _ _ _) as [[ch' buf']|]; [|done]. cbn [obind fst snd].
  set (w1 := set_channel _ _ _ w). assert (Hm : moved 0 w w1) by (by split; [|apply eq_sym, Z.add_0_r]).
  destruct (run_tx _ _ w1) as [[[] w2]|] eqn:Er; [|done]. cbn [obind snd]. intros [= <-].
  replace 1 with (0 + 1) by done. eapply moved_trans; [exact Hm|].
  eapply (run_tx_moved _ _ (fun _ => 1)); [|by destruct Hm|exact Er].
  intros y y' Hi. unfold Signal.ctor. rewrite decide_False by (rewrite delay_size; done).
  edestruct (Transmitter.tx_Add2Buff_account) as (y1 & -> & Hi' & Hb); [exact Hi| |].
  2:{ cbn [obind]. intros [= <-]. by split. }
  by eexists.
Qed.

(** A loop each pass of which adds one buffer. *)
Lemma ofold_moved {A} (f : A → world → outcome ierror world) l w w' :
  world_ok w →
  (∀ a w w', a ∈ l → world_ok w → f a w = Ok w' → moved 1 w w') →
  ofold f l w = Ok w' → moved (Z.of_nat (length l)) w w'.
Proof.
  revert w. induction l as [|a l IH]; intros w Hw Hf; cbn [ofold length].
  { intros [= <-]. by apply moved_refl. }
  destruct (f a w) as [w1|] eqn:E1; [|done]. apply Hf in E1 as Hm; [|by left|done].
  intros Hr. apply IH in Hr; [|by destruct Hm|].
  - replace (Z.of_nat (S (length l))) with (1 + Z.of_nat (length l)) by lia.
    by eapply moved_trans.
  - intros b v v' Hb. apply Hf. by right.
Qed.

Lemma snapshot_range h i src : Forall (fun d => 0 ≤ num_channels d < 256) (snapshot h i src).
Proof.
  apply Forall_forall. intros d (kv & _ & Hd)%list_elem_of_omap. unfold dest_info in Hd.
  destruct (txs h !! kv.2) as [x|]; [|done]. cbn in Hd.
  destruct (_ =? _)%string; [done|]. destruct (getChannel _ _ _); [|done]. cbn in Hd.
  injection Hd as <-. apply wrap_range. done.
Qed.

Lemma pick_destinations_ok h i c ds c' :
  worker_ok c → pick_destinations h i c = (ds, c') →
  worker_ok c' ∧ worker_load c' = worker_load c ∧
  Forall (fun d => 0 ≤ num_channels d < 256) ds.
Proof.
  intros (Hl & Hq & Hd). unfold pick_destinations.
  destruct (_ && _); intros [= <- <-]; [done|].
  pose proof (snapshot_range h i (src_node_id c)). by split_and!.
Qed.

Lemma process_signal_moved e order junk now id c sig w w' :
  (∀ l, order l ≡ₚ l) → world_ok w → m_workers (im w) !! id = Some c → good sig →
  ProcessSignal e order junk now id c sig w = Ok w' → moved 1 w w'.
Proof.
  intros Hord Hw Hc [Hbuf Hsz]. unfold ProcessSignal.
  destruct (convert_sources e sig) as [srcs|]; [|done]. cbn [obind].
  destruct (release_to _ sig w) as [w1|] eqn:Er; [|done]. cbn [obind].
  apply release_to_moved in Er as (Hm & Hh & Hi); [|done]. rewrite <- Hi in Hc.
  destruct (rxs (hp w1) !! _) as [r|]; [|done].
  destruct (pick_destinations _ _ _) as [ds c'] eqn:Ep.
  apply pick_destinations_ok in Ep as (Hok & Hl & Hds); [|exact (proj1 (proj1 Hm) _ _ Hc)].
  assert (Hm2 : moved 0 w1 (set_worker id c' w1)).
  { replace 0 with (worker_load c' - worker_load c) by (rewrite Hl; unfold worker_load; cbn; lia).
    apply set_worker_moved; [by destruct Hm|done..]. }
  set (w2 := set_worker id c' w1) in *. clearbody w2.
  replace 1 with (1 + (0 + 0)) by done. intros Hres. eapply moved_trans; [exact Hm|].
  eapply moved_trans; [exact Hm2|]. destruct Hm2 as [Hw2 _].
  destruct ds as [|d0 ds0] eqn:Eds; [injection Hres as <-; by apply moved_refl|].
  rewrite <- Eds in *. clear Eds.
  destruct (acquire_from _ _ _) as [[bs|] ps] eqn:Ea;
    apply acquire_from_free in Ea as [Hf Hlen]; try lia.
  - assert (Hm3 : moved (- Z.of_nat (length ds)) w2 (w2 <| pools := ps |>))
      by (apply moved_pools; [done|lia]).
    apply ofold_moved in Hres; [|by destruct Hm3|].
    + rewrite Hord, length_zip_with_l_eq in Hres by lia.
      replace 0 with (- Z.of_nat (length ds) + Z.of_nat (length ds)) by lia.
      by eapply moved_trans.
    + intros [d b] v v' Hin Hv. rewrite Hord in Hin. apply elem_of_zip_l in Hin.
      rewrite Forall_forall in Hds. apply process_destination_moved; [done|auto|done].
  - injection Hres as <-. split; [exact Hw2|]. unfold buffers_total.
    cbn [modify pools]. rewrite Hf. unfold in_flight. cbn [modify im hp m_workers]. lia.
Qed.

Lemma worker_moved e order junk now id w ev w' :
  (∀ l, order l ≡ₚ l) → world_ok w →
  WorkerLoop_iter e order junk now id w = Ok (ev, w') → moved 0 w w'.
Proof.
  intros Hord Hw. unfold WorkerLoop_iter.
  destruct (m_workers (im w) !! id) as [c|] eqn:Ec;
    [|intros [= _ <-]; by apply moved_refl].
  destruct (negb _); [intros [= _ <-]; by apply moved_refl|].
  destruct (_ =? 0); [intros [= _ <-]; by apply moved_refl|].
  destruct (queue c) as [|sig q] eqn:Eq; [intros [= _ <-]; by apply moved_refl|].
  destruct (proj1 Hw _ _ Ec) as (Hl & Hq & Hd). rewrite Eq in Hl, Hq.
  apply Forall_cons in Hq as [Hsig Hq]. cbn [length] in Hl.
  assert (Hm : moved (-1) w (set_worker id (c <| queue := q |>) w)).
  { replace (-1) with (worker_load (c <| queue := q |>) - worker_load c)
      by (unfold worker_load; cbn [modify queue]; rewrite Eq; cbn; lia).
    apply set_worker_moved; [done..|]. refine (conj _ (conj Hq Hd)). cbn [modify queue]. lia. }
  assert (Hc1 : m_workers (im (set_worker id (c <| queue := q |>) w)) !! id
    = Some (c <| queue := q |>)) by apply lookup_insert_eq.
  set (w1 := set_worker _ _ w) in *. clearbody w1. replace 0 with (-1 + 1) by done.
  destruct (_ <? _).
  - destruct (release_to _ sig w1) as [w2|] eqn:Er; [|done]. cbn [obind]. intros [= _ <-].
    apply release_to_moved in Er as [Hr _]; [|by destruct Hm].
    exact (moved_trans _ _ _ _ _ Hm Hr).
  - destruct (ProcessSignal _ _ _ _ _ _ _ _) as [w2|] eqn:Er; [|done]. cbn [obind].
    intros [= _ <-]. eapply moved_trans; [exact Hm|].
    apply process_signal_moved in Er; [done|done|by destruct Hm|done|done].
Qed.

End Processing.

End Accounting.
