(* ===== verification/Pipeline.v ===== *)
(** One emulated channel at work: receivers, workers, transmitters and the
    membership operations as one state machine.  Its invariant has the buffer
    accounting (Accounting.v), the consistency of the link map (Intermediate.v)
    and the coherence of the destination lists the workers cache. *)

From Stdlib Require Import ZArith Lia Strings.Byte Strings.String Floats.SpecFloat.
From stdpp Require Import prelude list strings gmap fin_maps list_numbers.
From S2P Require Import Prelude Ieee Common CxxLib DataPool NodeConfig Signal UdpClient.
From S2P Require Import UdpServer Receiver Transmitter Channel Intermediate DataPath Accounting.

#[local] Arguments Transmitter.Start_iter : simpl never.
#[local] Arguments Transmitter.Add2Buff : simpl never.
#[local] Arguments Receiver.Start_iter : simpl never.
#[local] Arguments Channel.processChannel : simpl never.

Section Skeleton.
Import Intermediate DataPath.

(** ** What processing bursts leaves alone *)

Definition link_core (ac : positive * Channel.t)
    : positive * string * string * PathLossType * string * string :=
  (ac.1, Channel.source ac.2, Channel.destination ac.2, Channel.plType ac.2,
   Channel.scenario3gpp ac.2, Channel.hataEnvironment ac.2).

Definition tx_core (x : Transmitter.t) : string * string * Z :=
  (Transmitter.m_NodeId x, NodeConfig.m_id (Transmitter.m_node_config x),
   u8 (NodeConfig.m_numChannels (Transmitter.m_node_config x))).

Record skeleton : Type := mkSkeleton {
  sk_sources : gmap string positive;
  sk_dests : gmap string positive;
  sk_sandbox : gset string;
  sk_count : Z;
  sk_version : Z;
  sk_next : positive;
  sk_model : PropagationModel;
  sk_scenario : string;
  sk_hata : string;
  sk_workers : gset string;
  sk_links : gmap (string * string) (positive * string * string * PathLossType * string * string);
  sk_rxs : gmap positive string;
  sk_txs : gmap positive (string * string * Z);
  sk_freq : float;
}.

Definition skeleton_of (w : world) : skeleton :=
  mkSkeleton (m_sourceMap (im w)) (m_destinationMap (im w)) (m_sandboxNodes (im w))
    (m_destCount (im w)) (m_destVersion (im w)) (next_node (im w))
    (m_propagationModel (im w)) (m_3gppScenario (im w)) (m_hataEnvironment (im w))
    (dom (m_workers (im w))) (link_core <$> m_channelMap (im w))
    (Receiver.m_NodeId <$> rxs (hp w)) (tx_core <$> txs (hp w)) (m_freq (im w)).

(** The caches of the workers. *)
Definition cache_of (c : WorkerContext) : string * Z * list DestInfo :=
  (src_node_id c, cached_dest_version c, cached_destinations c).

Definition caches (w : world) : gmap string (string * Z * list DestInfo) :=
  cache_of <$> m_workers (im w).

Definition quiet (w w' : world) : Prop :=
  skeleton_of w' = skeleton_of w ∧ caches w' = caches w.

#[global] Instance quiet_refl : Reflexive quiet.
Proof. done. Qed.

#[global] Instance quiet_trans : Transitive quiet.
Proof. intros w1 w2 w3 [? ?] [? ?]. split; congruence. Qed.

(** Replacing an entry by one with the same image. *)
Lemma fmap_insert_same {K A B} `{Countable K} (f : A → B) (m : gmap K A) k a a' :
  m !! k = Some a → f a' = f a → f <$> <[k := a']> m = f <$> m.
Proof.
  intros Hk Hf. rewrite fmap_insert, Hf. apply insert_id. by rewrite lookup_fmap, Hk.
Qed.

Lemma release_to_quiet k s w w' : release_to k s w = Ok w' → quiet w w'.
Proof.
  unfold release_to. destruct (pools w !! k); [|done].
  destruct (DataArrayPool.release _ _ _); [|done]. by intros [= <-].
Qed.

Lemma release_buffer_quiet k b w w' : release_buffer k b w = Ok w' → quiet w w'.
Proof.
  unfold release_buffer. destruct (pools w !! k); [|done].
  destruct (DataArrayPool.release _ _ _); [|done]. by intros [= <-].
Qed.

Lemma run_tx_quiet {A} l (f : Transmitter.t → outcome pool_error (A * Transmitter.t)) w a w' :
  (∀ x a x', f x = Ok (a, x') → tx_core x' = tx_core x) →
  run_tx l f w = Ok (a, w') → quiet w w'.
Proof.
  intros Hf. unfold run_tx. destruct (txs (hp w) !! l) as [x|] eqn:El; [|done].
  destruct (pools w !! home w) as [p|]; [|done].
  destruct (f _) as [[a' x']|] eqn:Ef; [|done]. intros [= <- <-]. split; [|done].
  apply Hf in Ef. unfold skeleton_of. cbn [modify hp im txs rxs].
  f_equal. by apply (fmap_insert_same _ _ _ x).
Qed.

Lemma run_rx_quiet {A} l (f : Receiver.t → outcome pool_error (A * Receiver.t)) w a w' :
  (∀ r a r', f r = Ok (a, r') → Receiver.m_NodeId r' = Receiver.m_NodeId r) →
  run_rx l f w = Ok (a, w') → quiet w w'.
Proof.
  intros Hf. unfold run_rx. destruct (rxs (hp w) !! l) as [r|] eqn:El; [|done].
  destruct (pools w !! home w) as [p|]; [|done].
  destruct (f _) as [[a' r']|] eqn:Ef; [|done]. intros [= <- <-]. split; [|done].
  apply Hf in Ef. unfold skeleton_of. cbn [modify hp im txs rxs].
  f_equal. by apply (fmap_insert_same _ _ _ r).
Qed.

Lemma set_worker_skeleton id c c' w :
  m_workers (im w) !! id = Some c → skeleton_of (set_worker id c' w) = skeleton_of w.
Proof.
  intros Hc. unfold skeleton_of. cbn [set_worker modify hp im].
  f_equal. cbn [m_workers]. rewrite dom_insert_L. apply elem_of_dom_2 in Hc. set_solver.
Qed.

Lemma set_worker_quiet id c c' w :
  m_workers (im w) !! id = Some c → cache_of c' = cache_of c → quiet w (set_worker id c' w).
Proof.
  intros Hc Hk. split; [by eapply set_worker_skeleton|].
  unfold caches. cbn [set_worker modify im m_workers]. by eapply fmap_insert_same.
Qed.

Lemma set_channel_quiet k a ch ch' w :
  m_channelMap (im w) !! k = Some (a, ch) → link_core (a, ch') = link_core (a, ch) →
  quiet w (set_channel k a ch' w).
Proof.
  intros Hk Hc. split; [|done]. unfold skeleton_of. cbn [set_channel modify hp im].
  f_equal. cbn [m_channelMap]. by eapply fmap_insert_same.
Qed.

(** ** The objects keep their identity *)

Lemma tx_release_core s x x' : Transmitter.release s x = Ok x' → tx_core x' = tx_core x.
Proof.
  unfold Transmitter.release. destruct (DataArrayPool.release _ _ _); [|done].
  by intros [= <-].
Qed.

Lemma rx_release_id s r r' :
  Receiver.release s r = Ok r' → Receiver.m_NodeId r' = Receiver.m_NodeId r.
Proof.
  unfold Receiver.release. destruct (DataArrayPool.release _ _ _); [|done].
  by intros [= <-].
Qed.

Lemma rx_drop_oldest_id r r' :
  Receiver.drop_oldest r = Ok r' → Receiver.m_NodeId r' = Receiver.m_NodeId r.
Proof.
  unfold Receiver.drop_oldest. destruct (Receiver.m_queue r); [by intros [= <-]|].
  intros ->%rx_release_id. done.
Qed.

Lemma rx_iter_id junk sched r st r' fwd rest :
  Receiver.Start_iter junk sched r = Ok (st, r', fwd, rest) →
  Receiver.m_NodeId r' = Receiver.m_NodeId r.
Proof.
  unfold Receiver.Start_iter. destruct (UDPServer.Recv sched _) as [[res srv] rest0].
  destruct res as [hdr rx| | | |]; try (by intros [= _ <- _ _]).
  destruct (_ =? 0); [by intros [= _ <- _ _]|].
  destruct (if _ <=? _ then _ else _) as [r1|] eqn:E1; [|done]. cbn [obind].
  assert (Hid : Receiver.m_NodeId r1 = Receiver.m_NodeId r).
  { destruct (_ <=? _); [by apply rx_drop_oldest_id in E1|by injection E1 as <-]. }
  destruct (Receiver.add2Queue r1); [by intros [= _ <- _ _]|].
  destruct (_ <? _); [by intros [= _ <- _ _]|].
  destruct (Receiver.release _ r1) as [r2|] eqn:E2; [|done]. cbn [obind].
  intros [= _ <- _ _]. apply rx_release_id in E2. congruence.
Qed.

Lemma power_core `{Dsp} b d n c p c' :
  Channel.signal_power b d n c = (p, c') → ∀ a, link_core (a, c') = link_core (a, c).
Proof.
  unfold Channel.signal_power. destruct (isfinite _); [by intros [= _ <-]|].
  destruct (_ || _); by intros [= _ <-].
Qed.

Lemma offset_core `{Dsp} s n f port c s' c' :
  Channel.applyFrequencyOffset s n f port c = (s', c') →
  ∀ a, link_core (a, c') = link_core (a, c).
Proof.
  unfold Channel.applyFrequencyOffset. destruct (feq _ _); [by intros [= _ <-]|].
  destruct (Channel.freqOffsetPhase c !! _); [|by intros [= _ <-]].
  destruct (apply_frequency_offset _ _ _ _ _). by intros [= _ <-].
Qed.

Lemma process_core `{Dsp} scr s d p c r c' :
  Channel.processChannel scr s d p c = (r, c') → ∀ a, link_core (a, c') = link_core (a, c).
Proof.
  unfold Channel.processChannel.
  destruct (Channel.src_config p) as [sc|]; [|by intros [= _ <-]].
  destruct (Channel.dest_config p) as [dc|]; [|by intros [= _ <-]].
  destruct (Channel.signal_power _ _ _ c) as [pw c1] eqn:E1.
  pose proof (power_core _ _ _ _ _ _ E1) as H1.
  destruct (Channel.applyFrequencyOffset _ _ _ _ _) as [s2 c2] eqn:E2.
  pose proof (offset_core _ _ _ _ _ _ _ E2) as H2. intros [= _ <-] a.
  rewrite <- (H1 a). change (link_core (a, c1)) with (link_core (a, Channel.setPl fzero c1)).
  etrans; [|exact (H2 a)].
  match goal with |- context [if ?b then Channel.setMeasuredSNRdB _ _ else _] =>
    by destruct b end.
Qed.

Section Processing.
Context `{Dsp, Converter, PriorityQueue}.

Lemma tx_iter_core env now x ev x' :
  Transmitter.Start_iter env now x = Ok (ev, x') → tx_core x' = tx_core x.
Proof.
  unfold Transmitter.Start_iter. destruct (Transmitter.working x); cbn [negb];
    [|by intros [= _ <-]].
  destruct (Transmitter.m_queue x); [by intros [= _ <-]|].
  destruct (try_pop _) as [[s q]|]; [|by intros [= _ <-]].
  destruct (Transmitter.too_old now s).
  - destruct (Transmitter.release s _) as [x1|] eqn:E; [|done]. cbn [obind].
    intros [= _ <-]. by apply tx_release_core in E.
  - destruct (UDPClient.Send _ _ _ _) as [[vs p]|[|e]]; by intros [= _ <-].
Qed.

Lemma tx_add_core s x x' : Transmitter.Add2Buff s x = Ok x' → tx_core x' = tx_core x.
Proof.
  unfold Transmitter.Add2Buff. destruct (_ <=? _); [|by intros [= <-]].
  destruct (match try_pop _ with Some _ => _ | None => _ end) as [x1|] eqn:E1; [|done].
  cbn [obind]. intros E2%tx_release_core. rewrite E2.
  destruct (try_pop _) as [[o q]|]; [by apply tx_release_core in E1|by injection E1 as <-].
Qed.

(** Processing the ports of a link keeps the link's identity. *)
Lemma ports_core e srcs bp par dest ns ch buf ch' buf' a :
  ofold (process_output e srcs bp par dest) ns (ch, buf) = Ok (ch', buf') →
  link_core (a, ch') = link_core (a, ch).
Proof.
  intros Hf. change (link_core (a, (ch', buf').1) = link_core (a, ch)).
  eapply (ofold_rel (fun st => link_core (a, st.1) = link_core (a, ch))); [exact Hf|done|].
  clear. intros c [c1 b1] [c2 b2] _. unfold process_output.
  destruct (ofold _ _ _) as [[c3 d3]|] eqn:E; [|done]. cbn [obind fst snd].
  destruct (_ <=? _); [|done]. destruct (mwrite _ _ _); [|done].
  intros [= <- <-] Hc. cbn [fst]. rewrite <- Hc.
  change (link_core (a, (c3, d3).1) = link_core (a, c1)).
  eapply (ofold_rel (fun st => link_core (a, st.1) = link_core (a, c1))); [exact E|done|].
  clear. intros k [c4 d4] [c5 d5] _. unfold process_port.
  destruct (feq _ _); [by intros [= <- <-]|]. destruct (srcs !! _) as [sg|]; [|done].
  destruct (_ && _); [|done].
  destruct (Channel.processChannel _ _ _ _ _) as [r c6] eqn:Ep.
  apply process_core with (a := a) in Ep. destruct r; intros [= <- <-] Hc; cbn [fst] in *; congruence.
Qed.

Lemma deref_Some a i k ch :
  deref a i = Some (k, ch) → m_channelMap i !! k = Some (a, ch).
Proof.
  unfold deref. destruct (list_find _ _) as [[n [k' [a' ch']]]|] eqn:E; [|done].
  cbn. intros [= <- <-]. apply list_find_Some in E as (El & Ha & _). cbn in Ha. subst a'.
  apply elem_of_map_to_list. by eapply list_elem_of_lookup_2.
Qed.

Lemma process_destination_quiet e junk numa sc srcs par job w w' :
  ProcessDestinationSignal e junk numa sc srcs par job w = Ok w' → quiet w w'.
Proof.
  destruct job as [dest buf]. unfold ProcessDestinationSignal.
  destruct (deref _ _) as [[k ch]|] eqn:Ed; [|done]. apply deref_Some in Ed.
  destruct (txs _ !! _) as [x|]; [|done].
  destruct (plan_burst sc dest) as [bp|]; [|done]. cbn [obind]. destruct (is_zero _).
  { apply release_buffer_quiet. }
  destruct (ofold _ _ _) as [[ch' buf']|] eqn:Ef; [|done]. cbn [obind fst snd].
  apply ports_core with (a := channel dest) in Ef.
  destruct (run_tx _ _ _) as [[[] w2]|] eqn:Er; [|done]. cbn [obind snd]. intros [= <-].
  etrans; [by eapply (set_channel_quiet _ _ _ _ w)|].
  eapply run_tx_quiet; [|exact Er]. intros y [] y'.
  destruct (Transmitter.Add2Buff _ y) as [y1|] eqn:Ea; [|done]. cbn [obind].
  intros [= <-]. by apply tx_add_core in Ea.
Qed.

Lemma process_all_quiet e junk numa sc srcs par jobs w w' :
  ofold (ProcessDestinationSignal e junk numa sc srcs par) jobs w = Ok w' → quiet w w'.
Proof.
  intros Hf. eapply (ofold_rel (quiet w)); [exact Hf|reflexivity|].
  intros a v v' _ Hp Hq. etrans; [exact Hq|]. by eapply process_destination_quiet.
Qed.

End Processing.

End Skeleton.

(** ** Coherence of the cached destinations *)

Section Coherence.
Import Intermediate DataPath.

(** What identifies a destination: everything but its sample rate. *)
Definition dest_core (d : DestInfo) : string * Z * positive * positive :=
  (dest_id d, num_channels d, transmitter d, channel d).

Definition coherent (w : world) : Prop :=
  ∀ id c, m_workers (im w) !! id = Some c →
    0 ≤ cached_dest_version c ≤ m_destVersion (im w) ∧
    (cached_dest_version c = m_destVersion (im w) → m_destVersion (im w) ≠ 0 →
     dest_core <$> cached_destinations c
     = dest_core <$> snapshot (hp w) (im w) (src_node_id c)).

(** What the identity of the destinations depends on. *)
Definition routes (w : world)
    : gmap string positive * gmap (string * string) positive * gmap positive (string * string * Z) :=
  (m_destinationMap (im w), fst <$> m_channelMap (im w), tx_core <$> txs (hp w)).

Lemma routes_skeleton w w' : skeleton_of w' = skeleton_of w → routes w' = routes w.
Proof.
  intros [= _ Ed _ _ _ _ _ _ _ _ El _ Ex]. unfold routes. rewrite Ed, Ex. f_equal. f_equal.
  assert (Hf : ∀ m : gmap (string * string) (positive * Channel.t),
    fst <$> m = (fun c => c.1.1.1.1.1) <$> (link_core <$> m)).
  { intros m. by rewrite <- map_fmap_compose. }
  by rewrite !Hf, El.
Qed.

Lemma snapshot_routes w w' src :
  routes w' = routes w →
  dest_core <$> snapshot (hp w') (im w') src = dest_core <$> snapshot (hp w) (im w) src.
Proof.
  intros [= Ed El Ex]. unfold snapshot. rewrite Ed.
  generalize (map_to_list (m_destinationMap (im w))) as l.
  induction l as [|[id p] l IH]; [done|]. cbn [omap list_omap].
  assert (Hx : tx_core <$> (txs (hp w') !! p) = tx_core <$> (txs (hp w) !! p))
    by by rewrite <- !lookup_fmap, Ex.
  assert (Hh : dest_core <$> dest_info (hp w') (im w') src (id, p)
    = dest_core <$> dest_info (hp w) (im w) src (id, p)).
  { unfold dest_info. cbn [snd]. destruct (txs (hp w') !! p) as [x'|],
      (txs (hp w) !! p) as [x|]; try done. cbn in Hx |- *. injection Hx as _ Hid Hn.
    rewrite Hid. destruct (_ =? src)%string; [done|]. unfold getChannel.
    set (k := (src, NodeConfig.m_id (Transmitter.m_node_config x))).
    assert (Hl : fst <$> (m_channelMap (im w') !! k) = fst <$> (m_channelMap (im w) !! k))
      by by rewrite <- !lookup_fmap, El.
    destruct (m_channelMap (im w') !! k) as [[a' c']|],
      (m_channelMap (im w) !! k) as [[a c]|]; try done.
    cbn in Hl |- *. injection Hl as ->. unfold dest_core. cbn. by rewrite Hn. }
  destruct (dest_info (hp w') _ _ _), (dest_info (hp w) _ _ _); cbn in Hh |- *; try done.
  injection Hh as Hh1 Hh2 Hh3 Hh4. unfold dest_core in *. rewrite Hh1, Hh2, Hh3, Hh4.
  f_equal. exact IH.
Qed.

Lemma coherent_routes w w' :
  routes w' = routes w → caches w' = caches w → m_destVersion (im w') = m_destVersion (im w) →
  coherent w → coherent w'.
Proof.
  intros Hr Hca Ever Hc id c' Hc'.
  assert (Hl : cache_of <$> (m_workers (im w) !! id) = Some (cache_of c')).
  { unfold caches in Hca. rewrite <- lookup_fmap, <- Hca, lookup_fmap, Hc'. done. }
  destruct (m_workers (im w) !! id) as [c|] eqn:Ec; [|done].
  cbn in Hl. injection Hl as Hs Hv Hd.
  destruct (Hc id c Ec) as [Hle Heq]. rewrite Ever, <- Hv, <- Hd, <- Hs.
  rewrite (snapshot_routes _ _ _ Hr). by split.
Qed.

Lemma coherent_quiet w w' : quiet w w' → coherent w → coherent w'.
Proof.
  intros [Hsk Hca]. apply coherent_routes; [by apply routes_skeleton|done|].
  by injection Hsk.
Qed.

(** After a change of the version no cache is current. *)
Lemma coherent_bump w w' :
  coherent w →
  (∀ id c', m_workers (im w') !! id = Some c' →
     cached_dest_version c' = 0 ∨
     ∃ c, m_workers (im w) !! id = Some c ∧ cached_dest_version c' = cached_dest_version c) →
  0 ≤ m_destVersion (im w) → m_destVersion (im w') = m_destVersion (im w) + 1 → coherent w'.
Proof.
  intros Hc Hw H0 Hv id c' Hc'. rewrite Hv. destruct (Hw _ _ Hc') as [->|(c & Ec & ->)].
  - split; lia.
  - destruct (Hc _ _ Ec) as [Hle _]. split; lia.
Qed.

(** A worker that looks its destinations up. *)
Lemma pick_coherent w id c0 c ds c' :
  coherent w → m_workers (im w) !! id = Some c0 → cache_of c = cache_of c0 →
  0 ≤ m_destVersion (im w) →
  pick_destinations (hp w) (im w) c = (ds, c') →
  dest_core <$> ds = dest_core <$> snapshot (hp w) (im w) (src_node_id c) ∧
  coherent (set_worker id c' w).
Proof.
  intros Hc Hid Hca H0. unfold pick_destinations. pose proof Hca as [= Hs Hver Hds].
  destruct (Z.eqb_spec (cached_dest_version c) (m_destVersion (im w))) as [Hv|Hv];
    [destruct (Z.eqb_spec (m_destVersion (im w)) 0) as [Hz|Hz]|]; cbn [negb andb];
    intros [= <- <-].
  2:{ split; [|eapply coherent_quiet; [|exact Hc]; by eapply set_worker_quiet].
      rewrite Hds, Hs. apply (Hc id c0 Hid); [by rewrite <- Hver|done]. }
  all: split; [done|]; intros j cj; cbn [set_worker modify im m_workers];
    intros [[<- <-]|[Hne Hj]]%lookup_insert_Some.
  all: change (m_destVersion (im (set_worker ?i ?x ?v))) with (m_destVersion (im v)) in *.
  all: cbn [modify cached_dest_version cached_destinations src_node_id m_destVersion];
    try exact (Hc j cj Hj); (split; [lia|done]).
Qed.

(** ** Membership *)

Lemma skeleton_ids w w' : skeleton_of w' = skeleton_of w → same_ids (hp w) (hp w').
Proof.
  intros [= _ _ _ _ _ _ _ _ _ _ _ Er Ex _]. split.
  - intros l r Hr. assert (Hl : Receiver.m_NodeId <$> (rxs (hp w') !! l)
      = Receiver.m_NodeId <$> (rxs (hp w) !! l)) by by rewrite <- !lookup_fmap, Er.
    rewrite Hr in Hl. destruct (rxs (hp w') !! l) as [r'|]; [|done].
    cbn in Hl. injection Hl as Hl. eauto.
  - intros l x Hx. assert (Hl : tx_core <$> (txs (hp w') !! l)
      = tx_core <$> (txs (hp w) !! l)) by by rewrite <- !lookup_fmap, Ex.
    rewrite Hx in Hl. destruct (txs (hp w') !! l) as [x'|]; [|done].
    cbn in Hl. injection Hl as H1 H2 _. eauto.
Qed.

Lemma skeleton_membership w w' :
  skeleton_of w' = skeleton_of w → membership_inv (hp w, im w) → membership_inv (hp w', im w').
Proof.
  intros Hsk Hinv. apply (inv_ids (hp w)); [by apply skeleton_ids|].
  pose proof Hsk as [= Es Ed Eb Ec Ev En Em E3 Eh Ew El Er Ex _].
  pose proof Hinv as (_ & _ & (H3 & Hh & _) & _).
  eapply map_inv; [exact Hinv|done..|by rewrite E3|by rewrite Eh|].
  intros k a c' Hk. assert (Hl : link_core <$> (m_channelMap (im w') !! k)
    = link_core <$> (m_channelMap (im w) !! k)) by by rewrite <- !lookup_fmap, El.
  rewrite Hk in Hl. destruct (m_channelMap (im w) !! k) as [[a0 c]|] eqn:Ek; [|done].
  cbn in Hl. injection Hl as -> -> -> -> -> ->. exists c. rewrite Em, E3, Eh.
  by split_and!.
Qed.

End Coherence.

(** ** The machine *)

Section Machine.
Import Intermediate DataPath.
Context `{Dsp, Converter, PriorityQueueLaws}.

(** One step of any thread.  A pass that ends in a fault (an error value, a
    write outside a buffer inside [Recv] or [Send]) is not a step. *)
Inductive dstep : world → world → Prop :=
  | d_receive junk sched l w w' :
      receive junk sched l w = Ok (Receiver.Running, w') → dstep w w'
  | d_enter node id w : dstep w (WorkerLoop_enter node id w)
  | d_worker e order junk now id w ev w' :
      (∀ l, order l ≡ₚ l) →
      WorkerLoop_iter e order junk now id w = Ok (ev, w') → dstep w w'
  | d_transmit env now l w ev w' :
      transmit env now l w = Ok (ev, w') → ev ≠ Transmitter.SendFault → dstep w w'
  | d_attach_dest l x w i' :
      txs (hp w) !! l = Some x →
      Transmitter.m_NodeId x = NodeConfig.m_id (Transmitter.m_node_config x) →
      AttachDestination l (hp w) (im w) = Ok i' → dstep w (w <| im := i' |>)
  | d_detach_dest l w b h' i' :
      DetachDestination l (hp w) (im w) = Ok (b, h', i') →
      dstep w (w <| hp := h' |> <| im := i' |>)
  | d_attach_src l w h' i' :
      AttachSource l (hp w) (im w) = Ok (h', i') →
      dstep w (w <| hp := h' |> <| im := i' |>)
  | d_detach_src l w b w' : detach_source l w = Ok (b, w') → dstep w w'
  | d_add_sandbox n k w : dstep w (w <| im := addSandboxNode n k (hp w) (im w) |>)
  | d_rem_sandbox n w : dstep w (w <| im := removeSandboxNode n (im w) |>)
  | d_link f s d w : dstep w (w <| im := (apply_link f s d (im w)).2 |>)
  | d_global f w : dstep w (w <| im := apply_global f (im w) |>)
  | d_transmitter l f w :
      (∀ x, tx_core (f x) = tx_core x ∧ Transmitter.m_queue (f x) = Transmitter.m_queue x) →
      dstep w (w <| hp := update_tx l f (hp w) |>)
  | d_receiver l f w :
      (∀ r, Receiver.m_NodeId (f r) = Receiver.m_NodeId r ∧
            Receiver.m_queue (f r) = Receiver.m_queue r) →
      dstep w (w <| hp := update_rx l f (hp w) |>).

Definition world_inv (w : world) : Prop :=
  world_ok w ∧ membership_inv (hp w, im w) ∧ coherent w ∧ 0 ≤ m_destVersion (im w).

(** What a step does to the version. *)
Definition version_step (w w' : world) : Prop :=
  m_destVersion (im w') = m_destVersion (im w) ∨
  m_destVersion (im w') = m_destVersion (im w) + 1.

Definition sound (w w' : world) : Prop :=
  world_inv w' ∧ buffers_total w' = buffers_total w ∧ version_step w w'.

(** A quiet step that moves no buffer out of the system. *)
Lemma quiet_sound w w' : world_inv w → quiet w w' → moved 0 w w' → sound w w'.
Proof.
  intros (Hok & Hmem & Hco & Hge) Hq [Hok' Ht]. pose proof Hq as [Hsk _].
  pose proof Hsk as [= _ _ _ _ Ever _ _ _ _ _ _ _ _ _].
  refine (conj (conj Hok' (conj _ (conj _ _))) (conj _ (or_introl Ever))).
  - by eapply skeleton_membership.
  - by eapply coherent_quiet.
  - by rewrite Ever.
  - lia.
Qed.

Lemma enqueue_quiet id sig w w' : enqueue id sig w = Ok w' → quiet w w'.
Proof.
  unfold enqueue. destruct (m_workers (im w) !! id) as [c|] eqn:Ec; [|apply release_to_quiet].
  destruct (running_flag c); cbn [negb]; [|apply release_to_quiet].
  destruct (if _ <=? _ then _ else _) as [[c1 w1]|] eqn:E1; [|done]. cbn [obind].
  assert (Hq : quiet w w1 ∧ cache_of c1 = cache_of c ∧ m_workers (im w1) !! id = Some c).
  { destruct (_ <=? _); [|by injection E1 as <- <-].
    destruct (queue c) as [|s q]; [by injection E1 as <- <-|].
    destruct (release_to 0 s w) as [w2|] eqn:E2; [|done]. cbn [obind] in E1.
    injection E1 as <- <-. split; [by eapply release_to_quiet|]. split; [done|].
    unfold release_to in E2. destruct (pools w !! 0%nat); [|done].
    destruct (DataArrayPool.release _ _ _); [|done]. by injection E2 as <-. }
  destruct Hq as (Hq & Hca & Hc1). destruct (_ <? _).
  - intros [= <-]. etrans; [exact Hq|]. by eapply set_worker_quiet.
  - intros Hr%release_to_quiet. etrans; [exact Hq|]. etrans; [|exact Hr].
    by eapply set_worker_quiet.
Qed.

Lemma receive_quiet junk sched l w st w' : receive junk sched l w = Ok (st, w') → quiet w w'.
Proof.
  unfold receive. destruct (run_rx l _ w) as [[[[st0 fwd] id] w1]|] eqn:Er; [|done].
  cbn [obind]. apply run_rx_quiet in Er.
  - destruct fwd as [sig|]; [|by intros [= _ <-]].
    destruct (enqueue id sig w1) as [w2|] eqn:Ee; [|done]. cbn [obind]. intros [= _ <-].
    etrans; [exact Er|]. by eapply enqueue_quiet.
  - intros r a r'. destruct (Receiver.Start_iter _ _ r) as [[[[s1 r1] f1] t1]|] eqn:Es; [|done].
    cbn [obind]. intros [= _ <-]. by apply rx_iter_id in Es.
Qed.

Lemma enter_sound node id w : world_inv w → sound w (WorkerLoop_enter node id w).
Proof.
  intros Hinv. unfold WorkerLoop_enter. destruct (m_workers (im w) !! id) as [c|] eqn:Ec.
  - apply quiet_sound; [done|by eapply set_worker_quiet|].
    destruct Hinv as [Hok _]. set (c' := c <| numa_node := _ |>).
    replace 0 with (worker_load c' - worker_load c)
      by (subst c'; unfold worker_load; cbn [modify queue]; lia).
    apply set_worker_moved; [done..|]. exact (proj1 Hok _ _ Ec).
  - apply quiet_sound; [done|reflexivity|]. apply moved_refl. by destruct Hinv.
Qed.

(** What every step of the membership keeps, for a step that is quiet but for
    the cache of the running worker. *)
Definition cache_step (w w' : world) : Prop :=
  skeleton_of w' = skeleton_of w ∧ (coherent w → 0 ≤ m_destVersion (im w) → coherent w').

Lemma quiet_cache_step w w' : quiet w w' → cache_step w w'.
Proof. intros Hq. split; [by destruct Hq|]. intros Hc _. by eapply coherent_quiet. Qed.

#[local] Instance cache_step_trans : Transitive cache_step.
Proof.
  intros w1 w2 w3 [S1 C1] [S2 C2]. split; [congruence|]. intros Hc Hv. apply C2; [by apply C1|].
  injection S1 as _ _ _ _ -> _ _ _ _ _ _ _ _ _. done.
Qed.

Lemma process_signal_step e order junk now id c sig w w' :
  m_workers (im w) !! id = Some c →
  ProcessSignal e order junk now id c sig w = Ok w' → cache_step w w'.
Proof.
  intros Hc. unfold ProcessSignal.
  destruct (convert_sources e sig) as [srcs|]; [|done]. cbn [obind].
  destruct (release_to _ sig w) as [w1|] eqn:Er; [|done]. cbn [obind].
  assert (Hi : im w1 = im w).
  { unfold release_to in Er. destruct (pools w !! _); [|done].
    destruct (DataArrayPool.release _ _ _); [|done]. by injection Er as <-. }
  apply release_to_quiet, quiet_cache_step in Er as Hq. rewrite <- Hi in Hc.
  destruct (rxs (hp w1) !! _) as [r|]; [|done].
  destruct (pick_destinations _ _ _) as [ds c'] eqn:Ep.
  assert (Hq2 : cache_step w (set_worker id c' w1)).
  { etrans; [exact Hq|]. split; [by eapply set_worker_skeleton|]. intros Hco Hge.
    by apply (pick_coherent w1 id c) in Ep as [_ ?]. }
  set (w2 := set_worker id c' w1) in *. clearbody w2.
  destruct ds as [|d0 ds0] eqn:Eds; [by intros [= <-]|]. rewrite <- Eds. clear Eds.
  destruct (acquire_from _ _ _) as [[bs|] ps]; intros Hres; (etrans; [exact Hq2|]);
    apply quiet_cache_step.
  - apply process_all_quiet in Hres. etrans; [|exact Hres]; done.
  - by injection Hres as <-.
Qed.

Lemma worker_step e order junk now id w ev w' :
  WorkerLoop_iter e order junk now id w = Ok (ev, w') → cache_step w w'.
Proof.
  unfold WorkerLoop_iter. destruct (m_workers (im w) !! id) as [c|] eqn:Ec;
    [|intros [= _ <-]; by apply quiet_cache_step].
  destruct (negb _); [intros [= _ <-]; by apply quiet_cache_step|].
  destruct (_ =? 0); [intros [= _ <-]; by apply quiet_cache_step|].
  destruct (queue c) as [|sig q] eqn:Eq; [intros [= _ <-]; by apply quiet_cache_step|].
  assert (Hq1 : quiet w (set_worker id (c <| queue := q |>) w)) by by eapply set_worker_quiet.
  assert (Hc1 : m_workers (im (set_worker id (c <| queue := q |>) w)) !! id
    = Some (c <| queue := q |>)) by apply lookup_insert_eq.
  set (w1 := set_worker _ _ w) in *. clearbody w1. apply quiet_cache_step in Hq1.
  destruct (_ <? _).
  - destruct (release_to _ sig w1) as [w2|] eqn:Er; [|done]. cbn [obind]. intros [= _ <-].
    etrans; [exact Hq1|]. apply quiet_cache_step. etrans; [by eapply release_to_quiet|]. done.
  - destruct (ProcessSignal _ _ _ _ _ _ _ _) as [w2|] eqn:Er; [|done]. cbn [obind].
    intros [= _ <-]. etrans; [exact Hq1|]. by eapply process_signal_step.
Qed.

Lemma worker_sound e order junk now id w ev w' :
  (∀ l, order l ≡ₚ l) → world_inv w →
  WorkerLoop_iter e order junk now id w = Ok (ev, w') → sound w w'.
Proof.
  intros Hord (Hok & Hmem & Hco & Hge) Hres.
  pose proof (worker_moved _ _ _ _ _ _ _ _ Hord Hok Hres) as [Hok' Ht].
  apply worker_step in Hres as [Hsk Hco']. pose proof Hsk as [= _ _ _ _ Ever _ _ _ _ _ _ _ _ _].
  refine (conj (conj Hok' (conj _ (conj (Hco' Hco Hge) _))) (conj _ (or_introl Ever))).
  - by eapply skeleton_membership.
  - by rewrite Ever.
  - lia.
Qed.

(** *** Membership operations *)

Lemma world_same w : w <| hp := hp w |> <| im := im w |> = w.
Proof. by destruct w. Qed.

Lemma sound_refl w : world_inv w → sound w w.
Proof. intros Hinv. apply quiet_sound; [done|done|]. apply moved_refl. by destruct Hinv. Qed.

(** The version never wraps in the histories considered. *)
Definition fresh_version (w : world) : Prop := m_destVersion (im w) + 1 < 2 ^ 64.

Lemma bump_sound w w' :
  world_inv w → fresh_version w → membership_inv (hp w', im w') → moved 0 w w' →
  (∀ id c', m_workers (im w') !! id = Some c' →
     cached_dest_version c' = 0 ∨
     ∃ c, m_workers (im w) !! id = Some c ∧ cached_dest_version c' = cached_dest_version c) →
  m_destVersion (im w') = u64 (m_destVersion (im w) + 1) → sound w w'.
Proof.
  intros (Hok & Hmem & Hco & Hge) Hf Hmem' [Hok' Ht] Hw Hv. unfold fresh_version in Hf.
  rewrite u64_small in Hv by lia.
  refine (conj (conj Hok' (conj Hmem' (conj _ _))) (conj _ (or_intror Hv))).
  - by eapply coherent_bump.
  - lia.
  - lia.
Qed.

(** A step that changes the channel only, not its workers. *)
Lemma channel_moved w i' :
  world_ok w → m_workers i' = m_workers (im w) → moved 0 w (w <| im := i' |>).
Proof.
  intros Hok Hw. split.
  - destruct Hok as (H1' & H2' & H3'). refine (conj _ (conj H2' H3')).
    cbn [modify im]. by rewrite Hw.
  - unfold buffers_total, in_flight. cbn [modify im hp pools]. rewrite Hw. lia.
Qed.

Lemma update_tx_moved l f w :
  world_ok w → (∀ x, Transmitter.m_queue (f x) = Transmitter.m_queue x) →
  moved 0 w (w <| hp := update_tx l f (hp w) |>).
Proof.
  intros (H1' & H2' & H3') Hf. split.
  - refine (conj H1' (conj H2' _)). cbn [modify hp update_tx txs].
    intros k x. rewrite lookup_alter_Some. intros [(-> & y & Hy & ->)|[_ Hx]].
    + specialize (H3' _ _ Hy). unfold Transmitter.inv in *. by rewrite Hf.
    + exact (H3' _ _ Hx).
  - unfold buffers_total, in_flight. cbn [modify hp im pools update_tx txs rxs].
    rewrite map_sum_alter_same; [lia|]. intros x. unfold tx_load. by rewrite Hf.
Qed.

Lemma update_rx_moved l f w :
  world_ok w → (∀ r, Receiver.m_queue (f r) = Receiver.m_queue r) →
  moved 0 w (w <| hp := update_rx l f (hp w) |>).
Proof.
  intros (H1' & H2' & H3') Hf. split.
  - refine (conj H1' (conj _ H3')). cbn [modify hp update_rx rxs].
    intros k x. rewrite lookup_alter_Some. intros [(-> & y & Hy & ->)|[_ Hx]].
    + specialize (H2' _ _ Hy). unfold Receiver.inv in *. by rewrite Hf.
    + exact (H2' _ _ Hx).
  - unfold buffers_total, in_flight. cbn [modify hp im pools update_rx txs rxs].
    rewrite map_sum_alter_same; [lia|]. intros x. unfold rx_load. by rewrite Hf.
Qed.

Lemma grow_fields h i :
  m_workers (bump (updateChannelMap h i)) = m_workers i ∧
  m_destVersion (bump (updateChannelMap h i)) = u64 (m_destVersion i + 1).
Proof.
  destruct (requests_same (wanted h i) i) as (m & n & E).
  unfold updateChannelMap. cbv beta in E. by rewrite E.
Qed.

Lemma checker_fields i :
  m_workers (EmptyChannelChecker i) = m_workers i ∧
  m_destVersion (EmptyChannelChecker i) = m_destVersion i.
Proof. unfold EmptyChannelChecker. by destruct (isEmpty i). Qed.

(** Every cache of an unchanged worker map has its old version. *)
Lemma same_workers_versions i i' :
  m_workers i' = m_workers i →
  ∀ id c', m_workers i' !! id = Some c' →
    cached_dest_version c' = 0 ∨
    ∃ c, m_workers i !! id = Some c ∧ cached_dest_version c' = cached_dest_version c.
Proof. intros -> id c' Hc. right. by exists c'. Qed.

Lemma attach_dest_sound l x w i' :
  world_inv w → fresh_version w → txs (hp w) !! l = Some x →
  Transmitter.m_NodeId x = NodeConfig.m_id (Transmitter.m_node_config x) →
  AttachDestination l (hp w) (im w) = Ok i' → sound w (w <| im := i' |>).
Proof.
  intros Hinv Hf Hx Hid He. pose proof Hinv as (Hok & Hmem & _).
  pose proof (AttachDestination_inv _ _ _ _ _ Hmem Hx Hid He) as Hmem'. revert He.
  unfold AttachDestination. rewrite Hx.
  destruct (m_destinationMap (im w) !! _).
  { intros [= <-]. apply quiet_sound; [done|done|]. by apply channel_moved. }
  intros ->%printStatus_same. set (i1 := _ <| m_destCount := _ |>) in *.
  destruct (grow_fields (hp w) i1) as [Hw Hv].
  apply bump_sound; [done|done|exact Hmem'|by apply channel_moved| |exact Hv].
  by apply (same_workers_versions (im w)).
Qed.

Lemma detach_dest_sound l w b h' i' :
  world_inv w → fresh_version w → DetachDestination l (hp w) (im w) = Ok (b, h', i') →
  sound w (w <| hp := h' |> <| im := i' |>).
Proof.
  intros Hinv Hf He. pose proof Hinv as (Hok & Hmem & _).
  pose proof (DetachDestination_inv _ _ _ _ _ _ Hmem He) as Hmem'. revert He.
  unfold DetachDestination. destruct (txs (hp w) !! l) as [x|] eqn:Hx; [|done].
  destruct (m_destinationMap (im w) !! _).
  2:{ intros [= _ <- <-]. rewrite world_same. by apply sound_refl. }
  set (i1 := bump _). destruct (checker_fields i1) as [Hw Hv]. intros [= _ <- <-].
  apply bump_sound; [done|done|exact Hmem'| | |exact Hv].
  - assert (Hm : moved 0 w (w <| hp := update_tx l (Transmitter.setAttachState false) (hp w) |>))
      by by apply update_tx_moved.
    change 0 with (0 + 0). eapply moved_trans; [exact Hm|].
    apply (channel_moved (w <| hp := _ |>)); [by destruct Hm|exact Hw].
  - by apply (same_workers_versions (im w)).
Qed.

Lemma attach_src_sound l w h' i' :
  world_inv w → fresh_version w → AttachSource l (hp w) (im w) = Ok (h', i') →
  sound w (w <| hp := h' |> <| im := i' |>).
Proof.
  intros Hinv Hf He. pose proof Hinv as (Hok & Hmem & _).
  pose proof (AttachSource_inv _ _ _ _ _ Hmem He) as Hmem'. revert He.
  unfold AttachSource. destruct (rxs (hp w) !! l) as [r|] eqn:Hr; [|done].
  set (id := Receiver.m_NodeId r).
  destruct (m_sourceMap (im w) !! id) eqn:Es.
  { intros [= <- <-]. rewrite world_same. by apply sound_refl. }
  set (g := fun r => Receiver.setAddQueFnc true _).
  set (nw := new_worker _ _ l). set (i1 := (im w) <| m_sourceMap := _ |> <| m_workers := _ |>).
  destruct (printStatus _) as [i2|] eqn:Ep; [|done]. intros [= <- <-].
  apply printStatus_same in Ep as ->.
  destruct (grow_fields (update_rx l g (hp w)) i1) as [Hw Hv].
  assert (Hnew : m_workers (im w) !! id = None).
  { destruct Hmem as (_ & _ & _ & _ & _ & Hdom). apply not_elem_of_dom.
    rewrite Hdom. by apply not_elem_of_dom. }
  apply bump_sound; [done|done|exact Hmem'| | |exact Hv].
  - change 0 with (0 + 0). eapply moved_trans; [by apply (update_rx_moved l g)|].
    destruct (update_rx_moved l g w Hok) as [(Hok1 & Hok2 & Hok3) _]; [done|]. split.
    + refine (conj _ (conj Hok2 Hok3)). cbn [modify im]. rewrite Hw. subst i1.
      cbn [modify m_workers]. apply map_Forall_insert_2; [|exact Hok1].
      split_and!; [done|constructor|constructor].
    + unfold buffers_total, in_flight. cbn [modify im hp pools]. rewrite Hw. subst i1.
      cbn [modify m_workers]. rewrite map_sum_insert_new by done.
      change (worker_load nw) with 0. lia.
  - intros j c'. cbn [modify im]. rewrite Hw. subst i1. cbn [modify m_workers].
    intros [[<- <-]|[_ Hj]]%lookup_insert_Some; [by left|right; by exists c'].
Qed.

(** Releasing a list of signals into the first pool. *)
Lemma drain_moved q w w' :
  world_ok w → ofold (release_to 0) q w = Ok w' →
  moved (Z.of_nat (length q)) w w' ∧ hp w' = hp w ∧ im w' = im w.
Proof.
  intros Hok Hq. split.
  - eapply ofold_moved; [done| |exact Hq]. intros s v v' _ Hv Hr.
    by apply release_to_moved in Hr as [? _].
  - eapply (ofold_rel (fun v => hp v = hp w ∧ im v = im w)); [exact Hq|done|].
    intros s v v' _ Hr [E1 E2]. rewrite <- E1, <- E2. unfold release_to in Hr.
    destruct (pools v !! 0%nat); [|done]. destruct (DataArrayPool.release _ _ _); [|done].
    by injection Hr as <-.
Qed.

Lemma detach_src_sound l w b w' :
  world_inv w → fresh_version w → detach_source l w = Ok (b, w') → sound w w'.
Proof.
  intros Hinv Hf. pose proof Hinv as (Hok & Hmem & _). unfold detach_source.
  destruct (DetachSource l (hp w) (im w)) as [[[[b' h'] i'] q]|] eqn:He; [|done].
  pose proof (DetachSource_inv _ _ _ _ _ _ _ Hmem He) as Hmem'. cbn [obind].
  destruct (ofold _ q _) as [w2|] eqn:Eo; [|done]. cbn [obind]. intros [= _ <-].
  revert He. unfold DetachSource. destruct (rxs (hp w) !! l) as [r|] eqn:Hr; [|done].
  set (id := Receiver.m_NodeId r). destruct (m_sourceMap (im w) !! id) as [ls|] eqn:Es.
  2:{ intros [= _ <- <- <-]. assert (w2 = w) as ->; [|by apply sound_refl].
      rewrite <- (world_same w). by injection Eo. }
  assert (Hdom : is_Some (m_workers (im w) !! id)).
  { destruct Hmem as (_ & _ & _ & _ & _ & Hdom). apply elem_of_dom. rewrite Hdom.
    by eapply elem_of_dom_2. }
  destruct Hdom as [c Ec]. rewrite Ec. set (g := fun r => Receiver.setAddQueFnc true _).
  set (i1 := _ <| m_sourceMap := _ |>). destruct (checker_fields i1) as [Hw Hv].
  intros [= _ <- <- <-].
  assert (Hm : moved (- worker_load c) w
    (w <| hp := update_rx l g (hp w) |> <| im := EmptyChannelChecker i1 |>)).
  { change (- worker_load c) with (0 + - worker_load c).
    eapply moved_trans; [by apply (update_rx_moved l g)|].
    destruct (update_rx_moved l g w Hok) as [(Hok1 & Hok2 & Hok3) _]; [done|]. split.
    - refine (conj _ (conj Hok2 Hok3)). cbn [modify im]. rewrite Hw. subst i1.
      cbn [bump removeChannel modify m_workers]. by apply map_Forall_delete.
    - unfold buffers_total, in_flight. cbn [modify im hp pools]. rewrite Hw. subst i1.
      cbn [bump removeChannel modify m_workers].
      rewrite (map_sum_delete worker_load (m_workers (im w)) id c Ec). lia. }
  apply drain_moved in Eo as (Hm2 & Eh & Ei); [|by destruct Hm].
  apply bump_sound; [done|done|by rewrite Eh, Ei| | |].
  - replace 0 with (- worker_load c + Z.of_nat (length (queue c)))
      by (unfold worker_load; lia). by eapply moved_trans.
  - rewrite Ei. cbn [modify im]. rewrite Hw. subst i1.
    cbn [bump removeChannel modify m_workers]. intros j c' [_ Hj]%lookup_delete_Some.
    right. by exists c'.
  - rewrite Ei. exact Hv.
Qed.

Lemma sandbox_sound w i' :
  world_inv w → fresh_version w → membership_inv (hp w, i') →
  m_workers i' = m_workers (im w) → m_destVersion i' = u64 (m_destVersion (im w) + 1) →
  sound w (w <| im := i' |>).
Proof.
  intros Hinv Hf Hmem Hw Hv. destruct (Hinv) as [Hok _].
  apply bump_sound; [done|done|exact Hmem|by apply channel_moved| |exact Hv].
  by apply (same_workers_versions (im w)).
Qed.

(** *** Parameters *)

Lemma link_sound f s d w : world_inv w → sound w (w <| im := (apply_link f s d (im w)).2 |>).
Proof.
  intros Hinv. pose proof Hinv as (Hok & _). destruct (apply_link_for f s d (im w)) as (g & Hg & ->).
  unfold for_channel. destruct (m_channelMap (im w) !! (s, d)) as [[a c]|] eqn:Ek; cbn [snd].
  - apply quiet_sound; [done| |by apply channel_moved].
    apply (set_channel_quiet _ _ c); [done|]. unfold link_core. cbn [fst snd].
    by destruct (Hg c) as (-> & -> & -> & -> & ->).
  - apply quiet_sound; [done|done|by apply channel_moved].
Qed.

Lemma addresses_kept (g : Channel.t → Channel.t)
    (m : gmap (string * string) (positive * Channel.t)) :
  fst <$> ((fun ac => (ac.1, g ac.2)) <$> m) = fst <$> m.
Proof. by rewrite <- map_fmap_compose. Qed.

(** What no setter of the whole channel changes. *)
Lemma global_fields f i :
  m_workers (apply_global f i) = m_workers i ∧
  m_destinationMap (apply_global f i) = m_destinationMap i ∧
  m_destVersion (apply_global f i) = m_destVersion i ∧
  fst <$> m_channelMap (apply_global f i) = fst <$> m_channelMap i.
Proof.
  destruct f as [m gr|sc|sc|r g p z|x|ms|b|]; cbn [apply_global]; try done.
  - refine (conj _ (conj _ (conj _ _))); [reflexivity..|].
    exact (addresses_kept (Channel.updatePlType (currentPlType m)) (m_channelMap i)).
  - unfold set3gppScenario. destruct (empty_str sc); [done|].
    refine (conj _ (conj _ (conj _ _))); [reflexivity..|].
    exact (addresses_kept (Channel.update3gppScenario sc) (m_channelMap i)).
  - unfold setHataEnvironment. destruct (empty_str sc); [done|].
    refine (conj _ (conj _ (conj _ _))); [reflexivity..|].
    exact (addresses_kept (Channel.updateHataEnvironment sc) (m_channelMap i)).
  - refine (conj _ (conj _ (conj _ _))); [reflexivity..|].
    exact (addresses_kept (Channel.updateITMParams r g p (clampZ 1 7 z)) (m_channelMap i)).
  - refine (conj _ (conj _ (conj _ _))); [reflexivity..|].
    exact (addresses_kept (Channel.setShadowingSTD x) (m_channelMap i)).
Qed.

Lemma global_sound f w : world_inv w → sound w (w <| im := apply_global f (im w) |>).
Proof.
  intros (Hok & Hmem & Hco & Hge). destruct (global_fields f (im w)) as (Hw & Hd & Hv & Ha).
  destruct (channel_moved w _ Hok Hw) as [Hok' Ht].
  refine (conj (conj Hok' (conj _ (conj _ _))) (conj _ (or_introl Hv))).
  - by apply (global_inv (hp w) (im w) f).
  - eapply coherent_routes; [| |exact Hv|exact Hco].
    + unfold routes. cbn [modify im hp]. by rewrite Hd, Ha.
    + unfold caches. cbn [modify im]. by rewrite Hw.
  - cbn [modify im]. by rewrite Hv.
  - lia.
Qed.

Lemma fmap_alter_same {K A B} `{Countable K} (g : A → B) (f : A → A) (m : gmap K A) k :
  (∀ a, g (f a) = g a) → g <$> alter f k m = g <$> m.
Proof.
  intros Hg. apply map_eq. intros j. rewrite !lookup_fmap.
  destruct (decide (k = j)) as [<-|]; [rewrite lookup_alter_eq|by rewrite lookup_alter_ne].
  destruct (m !! k); cbn; [by rewrite Hg|done].
Qed.

Lemma transmitter_sound l f w :
  world_inv w →
  (∀ x, tx_core (f x) = tx_core x ∧ Transmitter.m_queue (f x) = Transmitter.m_queue x) →
  sound w (w <| hp := update_tx l f (hp w) |>).
Proof.
  intros Hinv Hf. pose proof Hinv as (Hok & _). apply quiet_sound; [done| |].
  - split; [|done]. unfold skeleton_of. cbn [modify hp im update_tx rxs txs]. f_equal.
    apply fmap_alter_same. apply Hf.
  - apply update_tx_moved; [done|]. apply Hf.
Qed.

Lemma receiver_sound l f w :
  world_inv w →
  (∀ r, Receiver.m_NodeId (f r) = Receiver.m_NodeId r ∧
        Receiver.m_queue (f r) = Receiver.m_queue r) →
  sound w (w <| hp := update_rx l f (hp w) |>).
Proof.
  intros Hinv Hf. pose proof Hinv as (Hok & _). apply quiet_sound; [done| |].
  - split; [|done]. unfold skeleton_of. cbn [modify hp im update_rx rxs txs]. f_equal.
    apply fmap_alter_same. apply Hf.
  - apply update_rx_moved; [done|]. apply Hf.
Qed.

(** *** Every step *)

Lemma step_sound w w' : dstep w w' → world_inv w → fresh_version w → sound w w'.
Proof.
  intros Hst Hinv Hf. pose proof Hinv as (Hok & Hmem & _).
  destruct Hst as [junk sched l w w' Hr|node id w|e order junk now id w ev w' Hord Hr|
    env now l w ev w' Hr Hev|l x w i' Hx Hid Hr|l w b h' i' Hr|l w h' i' Hr|l w b w' Hr|
    n k w|n w|f s d w|f w|l f w Hfx|l f w Hfr].
  - apply quiet_sound; [done|by eapply receive_quiet|by eapply receive_moved].
  - by apply enter_sound.
  - by eapply worker_sound.
  - apply quiet_sound; [done| |by eapply transmit_moved].
    eapply run_tx_quiet; [|exact Hr]. intros x a x'. apply tx_iter_core.
  - by eapply attach_dest_sound.
  - by eapply detach_dest_sound.
  - by apply (attach_src_sound l).
  - by eapply detach_src_sound.
  - destruct (sandbox_inv _ _ n k Hmem) as [Hm _].
    destruct (grow_fields (hp w) ((im w) <| m_sandboxNodes := {[n]} ∪ m_sandboxNodes (im w) |>
      <| m_sandboxNumChannels := <[n := k]> (m_sandboxNumChannels (im w)) |>)) as [Hw Hv].
    by apply sandbox_sound.
  - destruct (sandbox_inv _ _ n 0 Hmem) as [_ Hm]. by apply sandbox_sound.
  - by apply link_sound.
  - by apply global_sound.
  - by apply transmitter_sound.
  - by apply receiver_sound.
Qed.

(** [n] steps change the version by at most [n]. *)
Lemma run_sound n w w' :
  nsteps dstep n w w' → world_inv w → m_destVersion (im w) + Z.of_nat n < 2 ^ 64 →
  world_inv w' ∧ buffers_total w' = buffers_total w.
Proof.
  induction 1 as [w|n w1 w2 w3 Hs Hn IH]; intros Hinv Hv; [done|].
  destruct (step_sound _ _ Hs Hinv) as (Hinv2 & Ht & Hver); [unfold fresh_version; lia|].
  destruct IH as [? Ht2]; [done|destruct Hver as [->| ->]; lia|]. split; [done|]. lia.
Qed.

End Machine.
