(* ===== verification/Routing.v ===== *)
(** Where a burst goes: [ProcessSignal] puts exactly one burst into the queue of
    every destination linked to its source, with the header the destination is
    to see, and touches no other transmitter. *)

From Stdlib Require Import ZArith Lia Strings.Byte Strings.String Floats.SpecFloat.
From stdpp Require Import prelude list strings gmap fin_maps list_numbers.
From S2P Require Import Prelude Ieee Common CxxLib DataPool NodeConfig Signal UdpClient.
From S2P Require Import UdpServer Receiver Transmitter Channel Intermediate DataPath Accounting.
From S2P Require Import Pipeline.

#[local] Arguments Transmitter.Start_iter : simpl never.
#[local] Arguments Transmitter.Add2Buff : simpl never.
#[local] Arguments Receiver.Start_iter : simpl never.
#[local] Arguments Channel.processChannel : simpl never.

Section Snapshot.
Import Intermediate DataPath.

(** ** The destinations of a source *)

Lemma snapshot_elem h i src d :
  heap_ok h i → d ∈ snapshot h i src →
  dest_id d ≠ src ∧ m_destinationMap i !! dest_id d = Some (transmitter d) ∧
  ∃ x c, txs h !! transmitter d = Some x ∧ getChannel src (dest_id d) i = Some (channel d, c).
Proof.
  intros [_ Hd] ([id l] & Hl & Hi)%list_elem_of_omap. apply elem_of_map_to_list in Hl.
  destruct (Hd _ _ Hl) as (x & Hx & _ & Hid). unfold dest_info in Hi. cbn [snd] in Hi.
  rewrite Hx in Hi. cbn in Hi. rewrite Hid in Hi.
  destruct (String.eqb_spec id src); [done|].
  destruct (getChannel src id i) as [[a c]|] eqn:Ec; [|done]. cbn in Hi.
  injection Hi as <-. cbn. eauto 10.
Qed.

Lemma snapshot_complete h i src id l ac :
  heap_ok h i → m_destinationMap i !! id = Some l → id ≠ src →
  getChannel src id i = Some ac → ∃ d, d ∈ snapshot h i src ∧ dest_id d = id.
Proof.
  intros [_ Hd] Hl Hne Hc. destruct (Hd _ _ Hl) as (x & Hx & _ & Hid).
  eexists. split.
  - apply list_elem_of_omap. exists (id, l). split; [by apply elem_of_map_to_list|].
    unfold dest_info. cbn [snd]. rewrite Hx. cbn. rewrite Hid.
    destruct (String.eqb_spec id src); [done|]. rewrite Hc. reflexivity.
  - done.
Qed.

Lemma snapshot_nodup h i src : heap_ok h i → NoDup (dest_id <$> snapshot h i src).
Proof.
  intros Hok. unfold snapshot.
  pose proof (NoDup_fst_map_to_list (m_destinationMap i)) as Hnd.
  assert (Hin : ∀ kv, kv ∈ map_to_list (m_destinationMap i) →
    ∀ d, dest_info h i src kv = Some d → dest_id d = kv.1).
  { intros [id l] Hl d. apply elem_of_map_to_list in Hl. destruct Hok as [_ Hd].
    destruct (Hd _ _ Hl) as (x & Hx & _ & Hid). unfold dest_info. cbn [fst snd]. rewrite Hx. cbn.
    rewrite Hid. destruct (_ =? src)%string; [done|]. destruct (getChannel _ _ _); [|done].
    cbn. by intros [= <-]. }
  revert Hnd Hin. generalize (map_to_list (m_destinationMap i)) as l. clear Hok.
  induction l as [|kv l IH]; intros Hnd Hin; [constructor|].
  cbn [fmap list_fmap] in Hnd. apply NoDup_cons in Hnd as [Hk Hnd].
  assert (Htl : NoDup (dest_id <$> omap (dest_info h i src) l)).
  { apply IH; [done|]. intros kv' Hkv'. apply Hin. by right. }
  cbn [omap list_omap]. destruct (dest_info h i src kv) as [d|] eqn:Ed; [|exact Htl].
  cbn [fmap list_fmap]. apply NoDup_cons. split; [|exact Htl].
  rewrite (Hin kv (list_elem_of_here _ _) d Ed).
  intros (d' & Hd' & (kv' & Hkv' & Ed')%list_elem_of_omap)%list_elem_of_fmap.
  apply Hk. rewrite Hd', (Hin kv' (list_elem_of_further _ _ _ Hkv') d' Ed').
  by apply list_elem_of_fmap_2.
Qed.

(** An address leads back to its link. *)
Lemma deref_link i k a c : nodes_ok i → m_channelMap i !! k = Some (a, c) → deref a i = Some (k, c).
Proof.
  intros [_ Hinj] Hk. unfold deref.
  destruct (list_find _ _) as [[n [k' [a' c']]]|] eqn:E.
  - apply list_find_Some in E as (El & Ha & _). cbn in Ha. subst a'.
    apply list_elem_of_lookup_2, elem_of_map_to_list in El.
    pose proof (Hinj _ _ _ _ _ Hk El) as <-. rewrite Hk in El. injection El as <-. done.
  - apply list_find_None in E. rewrite Forall_forall in E.
    apply elem_of_map_to_list in Hk. by destruct (E _ Hk).
Qed.

(** What a coherent worker knows of a destination. *)
Definition live_dest (w : world) (src : string) (d : DestInfo) : Prop :=
  dest_id d ≠ src ∧ m_destinationMap (im w) !! dest_id d = Some (transmitter d) ∧
  ∃ x c, txs (hp w) !! transmitter d = Some x ∧
         deref (channel d) (im w) = Some ((src, dest_id d), c).

Lemma core_live w src ds :
  membership_inv (hp w, im w) →
  dest_core <$> ds = dest_core <$> snapshot (hp w) (im w) src →
  Forall (live_dest w src) ds ∧ NoDup (dest_id <$> ds) ∧
  ∀ id, id ∈ dest_id <$> ds ↔
    id ≠ src ∧ is_Some (m_destinationMap (im w) !! id) ∧ is_Some (getChannel src id (im w)).
Proof.
  intros (Hh & Hn & _) Hcore.
  assert (Hids : dest_id <$> ds = dest_id <$> snapshot (hp w) (im w) src).
  { assert (Hf : ∀ l : list DestInfo,
      dest_id <$> l = (fun c => c.1.1.1) <$> (dest_core <$> l))
      by (intros l; by rewrite <- list_fmap_compose).
    by rewrite !Hf, Hcore. }
  split; [|split].
  - apply Forall_forall. intros d Hd.
    assert (Hc : dest_core d ∈ dest_core <$> snapshot (hp w) (im w) src)
      by (rewrite <- Hcore; by apply list_elem_of_fmap_2).
    apply list_elem_of_fmap in Hc as (d' & [= E1 E2 E3 E4] & Hd').
    destruct (snapshot_elem _ _ _ _ Hh Hd') as (H1 & H2 & x & c & Hx & Hc).
    unfold live_dest. rewrite E1, E3, E4. refine (conj H1 (conj H2 _)). exists x, c.
    split; [done|]. by apply deref_link.
  - rewrite Hids. by apply snapshot_nodup.
  - intros id. rewrite Hids, list_elem_of_fmap. split.
    + intros (d & -> & Hd). destruct (snapshot_elem _ _ _ _ Hh Hd) as (H1 & H2 & x & c & _ & Hc).
      split; [done|]. split; by eexists.
    + intros (H1 & [l Hl] & [ac Hc]).
      destruct (snapshot_complete _ _ _ _ _ _ Hh Hl H1 Hc) as (d & Hd & <-). eauto.
Qed.

End Snapshot.

Section Delivery.
Import Intermediate DataPath.
Context `{Dsp, ConverterLaws, PriorityQueueLaws}.

(** ** One destination *)

(** The burst a destination is to get stays inside every buffer involved: the
    sample arrays and an IQ buffer of [len] bytes. *)
Definition fits (bp : burst_plan) (nch len : Z) : Prop :=
  is_zero (bp_ratio bp) = false ∧ 0 ≤ bp_per_buff bp ≤ MAX_NUM_SAMPLES ∧
  source_reads bp ≤ MAX_NUM_SAMPLES ∧ 0 ≤ bp_sz_ch bp ∧
  (nch - 1) * bp_sz_ch bp + 4 * bp_per_buff bp ≤ len.

Lemma port_ok e srcs bp par c_dest c_src st :
  bp_per_buff bp ≤ MAX_NUM_SAMPLES → source_reads bp ≤ MAX_NUM_SAMPLES →
  c_src ∈ seqZ 0 (Z.of_nat (length srcs)) →
  ∃ st', process_port e srcs bp par c_dest c_src st = Ok st'.
Proof.
  intros Hp Hs Hc. destruct st as [ch d]. unfold process_port.
  destruct (feq _ _); [by eexists|]. apply elem_of_seqZ in Hc.
  destruct (lookup_lt_is_Some_2 srcs (Z.to_nat c_src)) as [s ->]; [lia|].
  rewrite (proj2 (Z.leb_le _ _) Hp), (proj2 (Z.leb_le _ _) Hs). cbn [andb].
  destruct (Channel.processChannel _ _ _ _ _) as [[r|] ch']; by eexists.
Qed.

Lemma outputs_ok e srcs bp par dest ch buf :
  fits bp (num_channels dest) (Z.of_nat (length buf)) →
  ∃ st, ofold (process_output e srcs bp par dest) (seqZ 0 (num_channels dest)) (ch, buf) = Ok st ∧
        length st.2 = length buf.
Proof.
  intros (_ & Hp & Hs & Hsz & Hlen).
  apply (ofold_inv (fun st : Channel.t * list byte => length st.2 = length buf)); [done|].
  intros c [c1 b1] Hc Hb. apply elem_of_seqZ in Hc. cbn [snd] in Hb. unfold process_output.
  destruct (ofold_inv (fun _ : Channel.t * signal_v => True)
    (process_port e srcs bp par c) (seqZ 0 (Z.of_nat (length srcs)))
    (c1, dest_old e (dest_id dest) c)) as ([c2 d2] & -> & _); [done| |].
  { intros a st Ha _. destruct (port_ok e srcs bp par c a st) as [st' ->]; [lia|lia|done|]. eauto. }
  cbn [obind]. rewrite (proj2 (Z.leb_le _ _) (proj2 Hp)).
  destruct (proj2 (mwrite_is_Some (c * bp_sz_ch bp) (conv_tx d2 (bp_per_buff bp)) b1))
    as [b2 E]; [rewrite conv_tx_length, Hb; nia|].
  rewrite E. eexists. split; [done|]. cbn [snd]. by rewrite (mwrite_length _ _ _ _ E).
Qed.

(** The burst destination [d] gets when its link is [ch]. *)
Definition delivers (sc : SignalContext) (d : DestInfo) (ch : Channel.t) (s : Signal.t) : Prop :=
  ∃ bp, plan_burst sc d = Ok bp ∧ Signal.srcId s = dest_id d ∧
    Signal.header s = delay_burst (sample_rate d) (Channel.getLinkDistance ch) (bp_hdr bp).

Lemma ctor_header junk b hdr f id :
  Signal.header (Signal.ctor junk b hdr f id) = hdr ∧
  Signal.srcId (Signal.ctor junk b hdr f id) = id.
Proof. unfold Signal.ctor. by case_decide. Qed.

(** What adding burst [s] does to a transmitter's queue: it joins the queue, or,
    when that holds [QUEUE_CAP - 1] bursts, it is dropped and so is the burst
    with the earliest start time. *)
Definition takes (s : Signal.t) (x x' : Transmitter.t) : Prop :=
  if bool_decide (Z.of_nat (length (Transmitter.m_queue x)) < QUEUE_CAP - 1)
  then Transmitter.m_queue x' = s :: Transmitter.m_queue x
  else ∃ oldest, Transmitter.m_queue x ≡ₚ oldest :: Transmitter.m_queue x' ∧
                 Forall (earlier oldest) (Transmitter.m_queue x').

Lemma add2buff_takes s x :
  Transmitter.inv x → Transmitter.has_buffer s →
  ∃ x', Transmitter.Add2Buff s x = Ok x' ∧
    Transmitter.inv x' ∧ takes s x x'.
Proof.
  intros [Hl Hf] Hs. unfold Transmitter.Add2Buff, takes.
  destruct (Z.leb_spec (QUEUE_CAP - 1) (Z.of_nat (length (Transmitter.m_queue x)))).
  - rewrite bool_decide_false by lia.
    destruct (Transmitter.try_pop_some (Transmitter.m_queue x)) as (s0 & q & Hp).
    { intros E. rewrite E in *. unfold QUEUE_CAP in *. cbn [length] in *. lia. }
    rewrite Hp. destruct (Transmitter.try_pop_facts _ _ _ Hp Hf) as (Hs0 & Hfq & Hlen).
    destruct (Transmitter.tx_release_ok s0 (x <| Transmitter.m_queue := q |>) Hs0) as (p1 & -> & _). cbn [obind].
    destruct (Transmitter.tx_release_ok s
      (x <| Transmitter.m_queue := q |> <| Transmitter.m_iq_pool := p1 |>) Hs)
      as (p2 & -> & _).
    destruct (try_pop_top _ _ _ Hp) as [Hperm Hmin].
    eexists. split; [reflexivity|]. split.
    + split; [|exact Hfq]. simpl. lia.
    + exists s0. split; [exact Hperm|]. eapply Forall_impl; [exact Hmin|].
      intros z Hz%Z.ltb_ge. exact Hz.
  - rewrite bool_decide_true by lia. eexists. split; [reflexivity|].
    split; [|reflexivity]. split; [simpl; lia|]. by constructor.
Qed.

Lemma destination_ok e junk numa sc srcs par d buf w k ch x p bp :
  deref (channel d) (im w) = Some (k, ch) → txs (hp w) !! transmitter d = Some x →
  pools w !! home w = Some p → plan_burst sc d = Ok bp →
  fits bp (num_channels d) (Z.of_nat (length buf)) →
  Transmitter.inv x → h_size (bp_hdr bp) ≠ 0 →
  ∃ w' s x' ch', ProcessDestinationSignal e junk numa sc srcs par (d, buf) w = Ok w' ∧
    delivers sc d ch s ∧
    txs (hp w') = <[transmitter d := x']> (txs (hp w)) ∧
    (takes s x x' ∧ Transmitter.inv x') ∧
    m_channelMap (im w') = <[k := (channel d, ch')]> (m_channelMap (im w)) ∧
    is_Some (pools w' !! home w') .
Proof.
  intros Hd Hx Hp Hbp Hfit Hinv Hsz. unfold ProcessDestinationSignal. rewrite Hd, Hx, Hbp.
  cbn [obind]. rewrite (proj1 Hfit).
  set (par' := _ <| dest_config := _ |>).
  destruct (outputs_ok e srcs bp par' d ch buf Hfit) as ([ch' buf'] & -> & _).
  cbn [obind fst snd]. set (s := Signal.ctor _ _ _ _ _). unfold run_tx.
  change (txs (hp (set_channel k (channel d) ch' w))) with (txs (hp w)).
  change (pools (set_channel k (channel d) ch' w)) with (pools w).
  change (home (set_channel k (channel d) ch' w)) with (home w). rewrite Hx, Hp.
  assert (Hb : Transmitter.has_buffer s).
  { subst s. unfold Signal.ctor. rewrite decide_False by by rewrite delay_size. by eexists. }
  match goal with |- context [Transmitter.Add2Buff s ?y] =>
    destruct (add2buff_takes s y Hinv Hb) as (x' & -> & Hinv' & Htk) end.
  cbn [obind snd]. eexists _, s, x', ch'. split; [reflexivity|].
  destruct (ctor_header junk (Some buf')
    (delay_burst (sample_rate d) (Channel.getLinkDistance ch) (bp_hdr bp))
    (m_freq (im (set_channel k (channel d) ch' w))) (dest_id d)) as [Hh Hi].
  refine (conj _ (conj _ (conj (conj Htk Hinv') (conj _ _))));
    [exists bp; by split_and!|reflexivity..|].
  cbn [modify pools home]. apply lookup_lt_is_Some. rewrite length_insert.
  by eapply lookup_lt_Some.
Qed.

(** ** All destinations *)

(** A job that can be carried out in [w]. *)
Definition ready (sc : SignalContext) (w : world) (d : DestInfo) (len : Z) : Prop :=
  ∃ k ch x bp, m_channelMap (im w) !! k = Some (channel d, ch) ∧
    txs (hp w) !! transmitter d = Some x ∧ plan_burst sc d = Ok bp ∧
    fits bp (num_channels d) len.

(** [w'] differs from [w] by one burst given to [d]'s transmitter. *)
Definition delivered (sc : SignalContext) (w w' : world) (d : DestInfo) : Prop :=
  ∃ k ch x x' s, m_channelMap (im w) !! k = Some (channel d, ch) ∧
    txs (hp w) !! transmitter d = Some x ∧ txs (hp w') !! transmitter d = Some x' ∧
    takes s x x' ∧ delivers sc d ch s.

Lemma deliver_all e junk numa sc srcs par jobs w :
  membership_inv (hp w, im w) → is_Some (pools w !! home w) →
  map_Forall (fun _ => Transmitter.inv) (txs (hp w)) → h_size (sig_hdr sc) ≠ 0 →
  (∀ d b, (d, b) ∈ jobs → 0 ≤ num_channels d < 256) →
  NoDup ((fun j => transmitter j.1) <$> jobs) → NoDup ((fun j => channel j.1) <$> jobs) →
  (∀ d b, (d, b) ∈ jobs → ready sc w d (Z.of_nat (length b))) →
  ∃ w', ofold (ProcessDestinationSignal e junk numa sc srcs par) jobs w = Ok w' ∧
    (∀ d b, (d, b) ∈ jobs → delivered sc w w' d) ∧
    (∀ l, l ∉ (fun j => transmitter j.1) <$> jobs → txs (hp w') !! l = txs (hp w) !! l).
Proof.
  revert w. induction jobs as [|[d b] jobs IH]; intros w Hmem [p Hp] Htx0 Hsz Hnc Ht Hc Hr.
  { exists w. split; [done|]. split; [|done]. by intros d b Hn%elem_of_nil. }
  cbn [fmap list_fmap fst] in Ht, Hc. apply NoDup_cons in Ht as [Ht Hts], Hc as [Hc Hcs].
  destruct (Hr d b) as (k & ch & x & bp & Hk & Hx & Hbp & Hf); [by left|].
  destruct (destination_ok e junk numa sc srcs par d b w k ch x p bp)
    as (w1 & s & x' & ch' & Hw1 & Hdel & Htx & [Hq' Hi'] & Hm1 & Hp1); try done.
  { apply deref_link; [|done]. by destruct Hmem as (_ & ? & _). }
  { exact (Htx0 _ _ Hx). }
  { eapply plan_size; [|exact Hsz|exact Hbp]. apply (Hnc d b). by left. }
  pose proof (process_destination_quiet _ _ _ _ _ _ _ _ _ Hw1) as [Hsk _].
  assert (Hold : ∀ d' b', (d', b') ∈ jobs →
    transmitter d' ≠ transmitter d ∧ channel d' ≠ channel d).
  { intros d' b' Hin. split; intros E; [apply Ht|apply Hc]; rewrite <- E;
      exact (list_elem_of_fmap_2 (fun j => _ j.1) _ (d', b') Hin). }
  assert (Hlink : ∀ d' b' k' ch'', (d', b') ∈ jobs →
    m_channelMap (im w1) !! k' = Some (channel d', ch'') ↔
    m_channelMap (im w) !! k' = Some (channel d', ch'')).
  { intros d' b' k' ch'' Hin. rewrite Hm1. destruct (Hold _ _ Hin) as [_ Hne].
    destruct (decide (k = k')) as [<-|Hkk]; [|by rewrite lookup_insert_ne].
    rewrite lookup_insert_eq, Hk. split; intros [= E]; congruence. }
  assert (Htx1 : map_Forall (fun _ => Transmitter.inv) (txs (hp w1)))
    by (rewrite Htx; by apply map_Forall_insert_2).
  assert (Hnc1 : ∀ d' b', (d', b') ∈ jobs → 0 ≤ num_channels d' < 256)
    by (intros d' b' Hin; apply (Hnc d' b'); by right).
  destruct (IH w1 (skeleton_membership w w1 Hsk Hmem) Hp1 Htx1 Hsz Hnc1 Hts Hcs)
    as (w' & Hw' & Hall & Hrest).
  - intros d' b' Hin. destruct (Hr d' b') as (k' & c2 & x2 & bp2 & Hk2 & Hx2 & Hrest); [by right|].
    exists k', c2, x2, bp2. split; [by apply (Hlink d' b')|]. split; [|done].
    rewrite Htx, lookup_insert_ne; [done|]. apply not_eq_sym. by eapply Hold.
  - exists w'. cbn [ofold]. rewrite Hw1. split; [done|]. split.
    + intros d' b' [[= -> ->]|Hin]%elem_of_cons.
      * exists k, ch, x, x', s. refine (conj Hk (conj Hx (conj _ (conj Hq' Hdel)))).
        rewrite Hrest by done. by rewrite Htx, lookup_insert_eq.
      * destruct (Hall _ _ Hin) as (k' & c2 & x2 & x3 & s' & Hk2 & Hx2 & Hx3 & Hqq & Hd2).
        exists k', c2, x2, x3, s'.
        refine (conj _ (conj _ (conj Hx3 (conj Hqq Hd2)))); [by apply (Hlink d' b')|].
        rewrite Htx, lookup_insert_ne in Hx2; [done|]. apply not_eq_sym. by eapply Hold.
    + cbn [fmap list_fmap fst]. intros l Hl. rewrite Hrest by set_solver.
      rewrite Htx, lookup_insert_ne; [done|]. set_solver.
Qed.

(** ** The whole pass *)

Lemma NoDup_fmap_on {A B C} (f : A → B) (g : A → C) l :
  NoDup (g <$> l) → (∀ a b, a ∈ l → b ∈ l → f a = f b → g a = g b) → NoDup (f <$> l).
Proof.
  induction l as [|a l IH]; cbn [fmap list_fmap]; [constructor|].
  intros [Ha Hl]%NoDup_cons Hfg. apply NoDup_cons. split.
  - intros (b & Hb & Hin)%list_elem_of_fmap. apply Ha.
    rewrite (Hfg a b); [by apply list_elem_of_fmap_2|by left|by right|done].
  - apply IH; [done|]. intros b c Hb Hc. apply Hfg; by right.
Qed.

(** The members agree with each other and with the buffer. *)
Definition burst_fits (sig : Signal.t) (len : Z) : Prop :=
  (∃ b, Signal.iq_data sig = Some b ∧ Z.of_nat (length b) = len) ∧
  0 < Signal.numCh sig ∧ 0 ≤ Signal.size sig ≤ len ∧
  0 ≤ Signal.numSamp sig ≤ MAX_NUM_SAMPLES ∧
  4 * Signal.numSamp sig ≤ Signal.getSizePerBuff sig.

Lemma convert_ok e sig len :
  burst_fits sig len → ∃ srcs, convert_sources e sig = Ok srcs.
Proof.
  intros ((b & Hb & Hl) & Hn & Hs & Hm & H4). unfold convert_sources.
  edestruct (omap_list_ok (convert_channel e sig) (fun _ _ => True)) as (bs & -> & _); [|by eexists].
  intros c Hc%elem_of_seqZ. unfold convert_channel.
  destruct (Signal.getData c sig) as [off|] eqn:Eg.
  - assert (Hoff : 0 ≤ off ∧ off + Signal.getSizePerBuff sig ≤ Signal.size sig)
      by (apply (Signal.getData_in_bounds sig c); [lia..|done]).
    rewrite Hb. change (default [] (Some b)) with b. unfold mread. rewrite decide_True by lia.
    rewrite (proj2 (Z.leb_le _ _) (proj2 Hm)). by eexists.
  - unfold Signal.getData in Eg. destruct (Z.leb_spec (Signal.numCh sig) c); [lia|done].
Qed.

(** A batch out of one pool. *)
Lemma local_batch n (ps : list iqPool_t) local p m len :
  ps !! local = Some p → 0 ≤ n ≤ DataArrayPool.available p →
  Forall (fun b => Z.of_nat (length b) = len) (DataArrayPool.pool p) →
  ∃ bs ps', acquire_from (pool_order local m) n ps = (Some bs, ps') ∧
    length bs = Z.to_nat n ∧ Forall (fun b => Z.of_nat (length b) = len) bs ∧
    length ps' = length ps.
Proof.
  intros Hp Hn Hlen. cbn [pool_order acquire_from]. rewrite Hp.
  unfold DataArrayPool.acquireBatch. rewrite DataArrayPool.acquire_loop_spec.
  unfold DataArrayPool.available in Hn. rewrite decide_True by lia.
  eexists _, _. split; [reflexivity|]. cbn [app]. rewrite length_take, length_insert.
  split_and!; [lia|by apply Forall_take|done].
Qed.

Lemma live_unique w src ds :
  membership_inv (hp w, im w) → Forall (live_dest w src) ds → NoDup (dest_id <$> ds) →
  NoDup (transmitter <$> ds) ∧ NoDup (channel <$> ds).
Proof.
  intros ((_ & Hd) & _) Hl Hnd. rewrite Forall_forall in Hl. split.
  - apply (NoDup_fmap_on _ dest_id); [done|]. intros a b Ha Hb E.
    destruct (Hl a Ha) as (_ & Ea & _), (Hl b Hb) as (_ & Eb & _). rewrite E in Ea.
    destruct (Hd _ _ Ea) as (x & Hx & <- & _), (Hd _ _ Eb) as (y & Hy & <- & _). congruence.
  - apply (NoDup_fmap_on _ dest_id); [done|]. intros a b Ha Hb E.
    destruct (Hl a Ha) as (_ & _ & x & c & _ & Ec), (Hl b Hb) as (_ & _ & y & c' & _ & Ec').
    rewrite E, Ec' in Ec. congruence.
Qed.

(** The destinations the worker's next burst goes to. *)
Definition targets (w : world) (c : WorkerContext) : list DestInfo :=
  (pick_destinations (hp w) (im w) c).1.

Lemma targets_live w id c :
  world_inv w → m_workers (im w) !! id = Some c →
  Forall (live_dest w (src_node_id c)) (targets w c) ∧ NoDup (dest_id <$> targets w c) ∧
  ∀ dst, dst ∈ dest_id <$> targets w c ↔
    dst ≠ src_node_id c ∧ is_Some (m_destinationMap (im w) !! dst) ∧
    is_Some (getChannel (src_node_id c) dst (im w)).
Proof.
  intros (_ & Hmem & Hco & Hge) Hc. unfold targets.
  destruct (pick_destinations (hp w) (im w) c) as [ds c'] eqn:Ep. cbn [fst].
  destruct (pick_coherent w id c c ds c' Hco Hc eq_refl Hge Ep) as [Hcore _].
  exact (core_live w (src_node_id c) ds Hmem Hcore).
Qed.

(** [ProcessSignal] after the buffer of the source was released: the batch and
    the deliveries. *)
Lemma fan_out e order junk numa sc srcs par ds w p len :
  (∀ l, order l ≡ₚ l) → membership_inv (hp w, im w) →
  Forall (live_dest w (src_id sc)) ds → NoDup (dest_id <$> ds) →
  map_Forall (fun _ => Transmitter.inv) (txs (hp w)) → h_size (sig_hdr sc) ≠ 0 →
  Forall (fun d => 0 ≤ num_channels d < 256) ds →
  pools w !! numa = Some p → Z.of_nat (length ds) ≤ DataArrayPool.available p →
  Forall (fun b => Z.of_nat (length b) = len) (DataArrayPool.pool p) →
  is_Some (pools w !! home w) →
  (∀ d, d ∈ ds → ready sc w d len) →
  ∃ bs ps w', acquire_from (pool_order numa (length (pools w))) (Z.of_nat (length ds))
      (pools w) = (Some bs, ps) ∧
    ofold (ProcessDestinationSignal e junk numa sc srcs par) (order (zip ds bs))
      (w <| pools := ps |>) = Ok w' ∧
    (∀ d, d ∈ ds → delivered sc w w' d) ∧
    (∀ l, l ∉ transmitter <$> ds → txs (hp w') !! l = txs (hp w) !! l).
Proof.
  intros Hord Hmem Hlive Hnd Htx0 Hsz Hnc Hp Hn Hlen Hhome Hready.
  destruct (local_batch (Z.of_nat (length ds)) (pools w) numa p (length (pools w)) len)
    as (bs & ps & Ha & Hbl & Hbf & Hpl); [done|lia|done|]. rewrite Nat2Z.id in Hbl.
  destruct (live_unique w (src_id sc) ds Hmem Hlive Hnd) as [Ht Hc].
  assert (Hfst : ∀ {B} (f : DestInfo → B), (fun j => f j.1) <$> order (zip ds bs) ≡ₚ f <$> ds).
  { intros B f. rewrite Hord. rewrite <- (fst_zip ds bs) at 2 by lia.
    by rewrite <- list_fmap_compose. }
  destruct (deliver_all e junk numa sc srcs par (order (zip ds bs)) (w <| pools := ps |>))
    as (w' & Hw' & Hall & Hrest).
  - exact Hmem.
  - cbn [modify pools home]. apply lookup_lt_is_Some. rewrite Hpl. by apply lookup_lt_is_Some.
  - exact Htx0.
  - exact Hsz.
  - intros d b Hin. rewrite Hord in Hin. apply elem_of_zip_l in Hin.
    rewrite Forall_forall in Hnc. by apply Hnc.
  - by rewrite Hfst.
  - by rewrite Hfst.
  - intros d b Hin. rewrite Hord in Hin. pose proof (elem_of_zip_r _ _ _ _ Hin) as Hb.
    apply elem_of_zip_l in Hin. rewrite Forall_forall in Hbf. rewrite (Hbf b Hb).
    exact (Hready d Hin).
  - exists bs, ps, w'. split; [done|]. split; [done|]. split.
    + intros d Hd. assert (Hin : d ∈ (fun j => j.1) <$> order (zip ds bs)).
      { rewrite (Hfst _ id). by rewrite list_fmap_id. }
      apply list_elem_of_fmap in Hin as ([d' b] & -> & Hin). exact (Hall _ _ Hin).
    + intros l Hl. apply Hrest. by rewrite Hfst.
Qed.

Lemma pick_stamp h i c now :
  (pick_destinations h i (c <| last_tx_ns := now |>)).1 = (pick_destinations h i c).1.
Proof. unfold pick_destinations. cbn. by destruct (_ && _). Qed.

(** A whole burst, given the invariant of the channel. *)
Lemma process_signal_ok e order junk now id w c sig p len :
  (∀ l, order l ≡ₚ l) → membership_inv (hp w, im w) → is_Some (m_workers (im w) !! id) →
  map_Forall (fun _ => Transmitter.inv) (txs (hp w)) → good sig →
  Forall (fun d => 0 ≤ num_channels d < 256) (targets w c) →
  Forall (live_dest w (src_node_id c)) (targets w c) → NoDup (dest_id <$> targets w c) →
  burst_fits sig len → is_Some (rxs (hp w) !! Intermediate.src_config c) →
  pools w !! Z.to_nat (numa_node c) = Some p →
  Forall (fun b => Z.of_nat (length b) = len) (DataArrayPool.pool p) →
  Z.of_nat (length (targets w c)) ≤ DataArrayPool.available p + 1 →
  is_Some (pools w !! home w) →
  (∀ d, d ∈ targets w c → ready (signal_context c sig) w d len) →
  ∃ w', ProcessSignal e order junk now id c sig w = Ok w' ∧
    (∀ d, d ∈ targets w c → delivered (signal_context c sig) w w' d) ∧
    (∀ l, l ∉ transmitter <$> targets w c → txs (hp w') !! l = txs (hp w) !! l).
Proof.
  intros Hord Hmem [c0 Hc0] Htx0 [_ Hsz] Hnc Hlive Hnd Hfit [r Hr] Hp Hlen Hfree Hhome Hready.
  destruct (convert_ok e sig len Hfit) as [srcs Hconv]. destruct Hfit as ((b & Hb & Hbl) & _).
  unfold ProcessSignal. rewrite Hconv. cbn [obind]. unfold release_to.
  cbn [modify numa_node Intermediate.src_config]. rewrite Hp, Hb.
  cbn [DataArrayPool.release obind modify hp im pools]. rewrite Hr.
  set (p1 := DataArrayPool.set_pool p _).
  pose proof (pick_stamp (hp w) (im w) c now) as Hpick. fold (targets w c) in Hpick.
  cbn [modify] in Hpick.
  destruct (pick_destinations _ _ _) as [ds c2]. cbn [fst] in Hpick. subst ds.
  destruct (targets w c) as [|d0 ds0] eqn:Et.
  { eexists. split; [reflexivity|]. split; [by intros d Hn%elem_of_nil|done]. }
  rewrite <- Et in *. clear Et.
  set (w2 := set_worker id c2 _).
  assert (Hp2 : pools w2 !! Z.to_nat (numa_node c) = Some p1).
  { subst w2. cbn [set_worker modify pools]. apply list_lookup_insert_eq.
    by eapply lookup_lt_Some. }
  assert (Hmem2 : membership_inv (hp w2, im w2)).
  { apply (skeleton_membership w); [|exact Hmem].
    exact (set_worker_skeleton id c0 c2 (mkWorld (hp w) (im w) _ (home w)) Hc0). }
  assert (Hh2 : is_Some (pools w2 !! home w2)).
  { subst w2. cbn [set_worker modify pools home]. apply lookup_lt_is_Some.
    rewrite length_insert. by apply lookup_lt_is_Some. }
  assert (Hl1 : Forall (fun b => Z.of_nat (length b) = len) (DataArrayPool.pool p1)).
  { subst p1. cbn [DataArrayPool.set_pool DataArrayPool.pool]. apply Forall_app.
    split; [exact Hlen|]. apply Forall_singleton.
    destruct (DataArrayPool.zeroOnRelease p); [by rewrite DataArrayPool.zeroed_length|done]. }
  assert (Hav : Z.of_nat (length (targets w c)) ≤ DataArrayPool.available p1).
  { subst p1. unfold DataArrayPool.available in *.
    cbn [DataArrayPool.set_pool DataArrayPool.pool]. rewrite length_app. cbn [length]. lia. }
  set (par := base_params _ _ _).
  destruct (fan_out e order junk (Z.to_nat (numa_node c)) (signal_context c sig) srcs par
    (targets w c) w2 p1 len Hord Hmem2 Hlive Hnd Htx0 Hsz Hnc Hp2 Hav Hl1 Hh2 Hready)
    as (bs & ps & w' & Ha & Ho & Hall & Hrest).
  rewrite Ha. exists w'. split; [exact Ho|]. split; [exact Hall|exact Hrest].
Qed.

End Delivery.

(** ** Properties *)

Section Properties.
Import Intermediate DataPath.
Context `{Dsp, ConverterLaws, PriorityQueueLaws}.

(** C2 A burst reaches every listener exactly once.  In any state the
    channel can be in, suppose a worker takes a burst that is recent enough and
    whose samples stay inside its buffer and the sample arrays, that the
    worker's pool has a buffer for each listener, and that the burst each
    listener is to get (at the listener's sample rate) stays inside that buffer
    and the sample arrays. Then the pass succeeds: the transmitter of every
    other attached node that is linked to the source is given one new burst,
    with the planned header delayed by the propagation time of the link, and no
    other transmitter changes. The new burst joins the transmitter's queue
    unless that already holds [QUEUE_CAP - 1] bursts: then the new burst and the
    oldest queued one are both dropped. *)
Theorem burst_reaches_every_listener (e : Scratch)
    (order : list (DestInfo * list byte) → list (DestInfo * list byte))
    (junk : Signal.t) (now : Z) (id : string) (w : world) (c : WorkerContext)
    (sig : Signal.t) (q : list Signal.t) (p : iqPool_t) (len : Z)
    (Hord : ∀ l, order l ≡ₚ l) (Hinv : world_inv w)
    (Hc : m_workers (im w) !! id = Some c)
    (Hrun : running c = true) (Hwork : work (im w) = true) (Hq : queue c = sig :: q)
    (Hdest : m_destCount (im w) ≠ 0)
    (Hage : now - m_max_latency_ns (im w) ≤ h_start (Signal.header sig))
    (Hfit : burst_fits sig len)
    (Hsrc : is_Some (rxs (hp w) !! Intermediate.src_config c))
    (Hp : pools w !! Z.to_nat (numa_node c) = Some p)
    (Hlen : Forall (fun b => Z.of_nat (length b) = len) (DataArrayPool.pool p))
    (Hfree : Z.of_nat (length (targets w c)) ≤ DataArrayPool.available p + 1)
    (Hhome : is_Some (pools w !! home w))
    (Hready : ∀ d, d ∈ targets w c → ready (signal_context c sig) w d len) :
  ∃ w', WorkerLoop_iter e order junk now id w = Ok (WProcessed sig, w') ∧
    (∀ dst l a ch, m_destinationMap (im w) !! dst = Some l → dst ≠ src_node_id c →
       getChannel (src_node_id c) dst (im w) = Some (a, ch) →
       ∃ x x' s d, txs (hp w) !! l = Some x ∧ txs (hp w') !! l = Some x' ∧
         takes s x x' ∧ d ∈ targets w c ∧ dest_id d = dst ∧ delivers (signal_context c sig) d ch s) ∧
    (∀ l, (∀ dst, m_destinationMap (im w) !! dst = Some l →
             dst = src_node_id c ∨ getChannel (src_node_id c) dst (im w) = None) →
       txs (hp w') !! l = txs (hp w) !! l).
Proof.
  destruct (targets_live w id c Hinv Hc) as (Hlive & Hnd & Hall).
  destruct Hinv as ((Hws & _ & Hxs) & Hmem & _).
  assert (Hgood : good sig).
  { destruct (Hws _ _ Hc) as (_ & Hg & _). rewrite Hq in Hg.
    by apply Forall_cons in Hg as [? _]. }
  assert (Hnc : Forall (fun d => 0 ≤ num_channels d < 256) (targets w c)).
  { unfold targets. destruct (pick_destinations (hp w) (im w) c) as [ds c'] eqn:Ep.
    by apply pick_destinations_ok in Ep as (_ & _ & ?); [|exact (Hws _ _ Hc)]. }
  set (c1 := c <| queue := q |>). set (w1 := set_worker id c1 w).
  assert (Hmem1 : membership_inv (hp w1, im w1)).
  { apply (skeleton_membership w); [|exact Hmem]. by eapply set_worker_skeleton. }
  assert (Hc1 : is_Some (m_workers (im w1) !! id)).
  { subst w1. cbn [set_worker modify im m_workers]. rewrite lookup_insert_eq. by eexists. }
  assert (Ht : targets w1 c1 = targets w c).
  { unfold targets, pick_destinations. cbn. by destruct (_ && _). }
  destruct (process_signal_ok e order junk now id w1 c1 sig p len)
    as (w' & Hw' & Hdel & Hrest); rewrite ?Ht; try done.
  exists w'. unfold WorkerLoop_iter. rewrite Hc, Hrun, Hwork, Hq. cbn [andb negb].
  rewrite (proj2 (Z.eqb_neq _ _) Hdest).
  fold c1 w1. change (m_max_latency_ns (im w1)) with (m_max_latency_ns (im w)).
  rewrite (proj2 (Z.ltb_ge _ _) Hage). rewrite Hw'. split; [done|].
  rewrite Ht in Hdel, Hrest. rewrite Forall_forall in Hlive. split.
  - intros dst l a ch Hl Hne Hch.
    assert (Hin : dst ∈ dest_id <$> targets w c).
    { apply Hall. split; [done|]. split; by eexists. }
    apply list_elem_of_fmap in Hin as (d & -> & Hd).
    destruct (Hdel d Hd) as (k & ch2 & x & x' & s & Hk & Hx & Hx' & Hqq & Hs).
    destruct (Hlive d Hd) as (_ & Hl' & y & c3 & _ & Hc3). rewrite Hl' in Hl.
    injection Hl as <-. apply deref_Some in Hc3. unfold getChannel in Hch.
    assert (k = (src_node_id c, dest_id d)) as ->.
    { destruct Hmem as (_ & [_ Hinj] & _). by eapply Hinj. }
    rewrite Hch in Hc3. injection Hc3 as -> ->. cbn in Hk. rewrite Hch in Hk.
    injection Hk as <-. exists x, x', s, d. by split_and!.
  - intros l Hl. rewrite Hrest; [done|]. intros (d & -> & Hd)%list_elem_of_fmap.
    destruct (Hlive d Hd) as (Hne & Hl' & y & c3 & _ & Hc3). apply deref_Some in Hc3.
    destruct (Hl _ Hl') as [?|Hn]; [done|]. unfold getChannel in Hn. congruence.
Qed.

End Properties.

(** ** A channel with a sender "a" and a listener "b" *)

#[export] Instance silent_converter : Converter := {|
  conv_rx _ n := replicate (Z.to_nat n) (fzero, fzero);
  conv_tx _ n := replicate (4 * Z.to_nat n) x00;
|}.

#[export] Instance silent_converter_laws : ConverterLaws.
Proof. split; intros; apply length_replicate. Qed.

Lemma init_inv h freq ms ps k :
  map_Forall (fun _ => Receiver.inv) (rxs h) → map_Forall (fun _ => Transmitter.inv) (txs h) →
  world_inv (mkWorld h (Intermediate.ctor freq ms) ps k).
Proof.
  intros Hr Hx. refine (conj (conj _ (conj Hr Hx)) (conj (ctor_inv h freq ms) (conj _ _))).
  - intros j c Hc. change ((∅ : gmap string Intermediate.WorkerContext) !! j = Some c) in Hc.
    by rewrite lookup_empty in Hc.
  - intros j c Hc. change ((∅ : gmap string Intermediate.WorkerContext) !! j = Some c) in Hc.
    by rewrite lookup_empty in Hc.
  - done.
Qed.

Definition demo_pool : iqPool_t :=
  DataArrayPool.mk 2 8 false [replicate 8 x00; replicate 8 x00] "IQ".

Definition demo_world : world :=
  mkWorld demo_heap (Intermediate.ctor (F64.of_Z 3500000000) 10) [demo_pool] 0.

Lemma demo_world_inv : world_inv demo_world.
Proof.
  apply init_inv.
  - repeat (apply map_Forall_insert_2; [split; [done|constructor]|]). apply map_Forall_empty.
  - repeat (apply map_Forall_insert_2; [split; [done|constructor]|]). apply map_Forall_empty.
Qed.

Definition demo_attached : world :=
  match Intermediate.AttachDestination 2 demo_heap (im demo_world) with
  | Ok i =>
      match Intermediate.AttachSource 1 demo_heap i with
      | Ok (h, i) => mkWorld h i [demo_pool] 0
      | Err _ => demo_world
      end
  | Err _ => demo_world
  end.

Lemma demo_run `{Dsp} : nsteps dstep 2 demo_world demo_attached.
Proof.
  unfold demo_attached.
  destruct (Intermediate.AttachDestination 2 demo_heap (im demo_world)) as [i1|] eqn:E1;
    [|by vm_compute in E1].
  destruct (Intermediate.AttachSource 1 demo_heap i1) as [[h i2]|] eqn:E2.
  - eapply nsteps_l; [by apply (d_attach_dest 2 (demo_tx "b") demo_world i1)|].
    apply nsteps_once.
    exact (d_attach_src 1 (demo_world <| im := i1 |>) h i2 E2).
  - exfalso. vm_compute in E1. injection E1 as <-. by vm_compute in E2.
Qed.

Definition demo_signal : Signal.t :=
  Signal.ctor sample_junk (Some (replicate 8 x01))
    (mkHeader 8 5000 6000 0 2000000 2 1 1) (F64.of_Z 3500000000) "a".

(** ** Properties of the channel at work *)

Section Runs.
Import Intermediate DataPath.
Context `{Dsp, ConverterLaws, PriorityQueueLaws}.

(** C3 The channel as a whole neither loses nor duplicates IQ buffers: in any
    interleaving of receiver, worker and transmitter passes, attaching,
    detaching (which drains the worker's queue), sandbox changes and parameter
    updates, the free buffers of all pools and the bursts in all queues add up
    to the same number, and no queue grows beyond its capacity. *)
Theorem pipeline_conserves_buffers (n : nat) (w w' : world)
    (Hrun : nsteps dstep n w w') (Hinv : world_inv w)
    (Hver : m_destVersion (im w) + Z.of_nat n < 2 ^ 64) :
  buffers_total w' = buffers_total w ∧
  (∀ id c, m_workers (im w') !! id = Some c → worker_load c < QUEUE_CAP) ∧
  (∀ l r, rxs (hp w') !! l = Some r → rx_load r ≤ QUEUE_CAP) ∧
  (∀ l x, txs (hp w') !! l = Some x → tx_load x < QUEUE_CAP).
Proof.
  destruct (run_sound n w w' Hrun Hinv Hver) as (((Hws & Hrs & Hxs) & _) & Ht).
  split; [done|]. split; [|split].
  - intros id c Hc. destruct (Hws _ _ Hc) as [Hl _]. unfold worker_load. lia.
  - intros l r Hr. apply (Hrs _ _ Hr).
  - intros l x Hx. apply (Hxs _ _ Hx).
Qed.

(** C21 The destination list a worker caches is never out of date: after any
    history of a channel, the destinations of a worker's next burst are exactly
    the attached nodes other than its own that are linked to it, each once, and
    the pointers it kept lead to the transmitter attached under that id and to
    the live link between the two nodes. *)
Theorem workers_see_current_destinations (n : nat) (h : heap) (freq : float) (ms : Z)
    (ps : list iqPool_t) (k : nat) (w : world) (id : string) (c : WorkerContext)
    (Hr : map_Forall (fun _ => Receiver.inv) (rxs h))
    (Hx : map_Forall (fun _ => Transmitter.inv) (txs h))
    (Hrun : nsteps dstep n (mkWorld h (Intermediate.ctor freq ms) ps k) w)
    (Hn : Z.of_nat n < 2 ^ 64) (Hc : m_workers (im w) !! id = Some c) :
  NoDup (dest_id <$> targets w c) ∧
  (∀ dst, dst ∈ dest_id <$> targets w c ↔
     dst ≠ src_node_id c ∧ is_Some (m_destinationMap (im w) !! dst) ∧
     is_Some (getChannel (src_node_id c) dst (im w))) ∧
  (∀ d, d ∈ targets w c →
     m_destinationMap (im w) !! dest_id d = Some (transmitter d) ∧
     is_Some (txs (hp w) !! transmitter d) ∧
     ∃ ch, deref (channel d) (im w) = Some ((src_node_id c, dest_id d), ch)).
Proof.
  destruct (run_sound _ _ _ Hrun (init_inv h freq ms ps k Hr Hx)) as [Hinv _]; [done|].
  destruct (targets_live w id c Hinv Hc) as (Hl & Hnd & Hall).
  split; [done|]. split; [done|]. intros d Hd. rewrite Forall_forall in Hl.
  destruct (Hl d Hd) as (_ & Hm & x & ch & Ex & Ech). eauto.
Qed.

(** The sample rate in that list, however, is out of date: changing the
    rate of an attached transmitter does not change the version, so a worker
    with a current cache goes on resampling to the old rate, while a new
    snapshot would have the new one. *)
Theorem cached_rate_is_stale (w : world) (c : WorkerContext) (l : positive) (rate : Z)
    (Hv : cached_dest_version c = m_destVersion (im w)) (Hnz : m_destVersion (im w) ≠ 0) :
  let w' := w <| hp := update_tx l (Transmitter.setSampleRate rate) (hp w) |> in
  targets w' c = cached_destinations c ∧
  ∀ d, d ∈ snapshot (hp w') (im w') (src_node_id c) → transmitter d = l →
    sample_rate d = F32.of_Z rate.
Proof.
  intros w'. split.
  - unfold targets, pick_destinations. subst w'. cbn [modify im].
    rewrite Hv, Z.eqb_refl, (proj2 (Z.eqb_neq _ _) Hnz). done.
  - intros d ([id p] & _ & Hd)%list_elem_of_omap Ht. revert Hd.
    unfold dest_info. cbn [snd]. destruct (txs (hp w') !! p) as [x|] eqn:Ex; [|done].
    cbn. destruct (_ =? _)%string; [done|]. destruct (getChannel _ _ _) as [ac|]; [|done].
    cbn. intros [= <-]. cbn in Ht |- *. subst p. revert Ex. subst w'.
    cbn [modify hp update_tx txs]. rewrite lookup_alter_eq.
    destruct (txs (hp w) !! l); [|done]. by intros [= <-].
Qed.

(** C33 The worker's queue keeps the newest bursts. A running worker always takes
    a burst it is given, at the end of its queue. While the queue is shorter
    than [QUEUE_CAP - 1] nothing else changes; when it holds that many, exactly
    its oldest burst leaves, and that burst's buffer (zeroed if the pool zeroes)
    goes to the end of the first pool. No other worker, pool or object
    changes. *)
Theorem enqueue_keeps_newest (id : string) (sig : Signal.t) (w : world) (c : WorkerContext)
    (p : iqPool_t) (Hok : world_ok w) (Hc : m_workers (im w) !! id = Some c)
    (Hrun : running_flag c = true) (Hp : pools w !! 0%nat = Some p) :
  (worker_load c < QUEUE_CAP - 1 ∧
   enqueue id sig w = Ok (set_worker id (c <| queue := queue c ++ [sig] |>) w)) ∨
  (worker_load c = QUEUE_CAP - 1 ∧
   ∃ oldest rest b,
     queue c = oldest :: rest ∧ Signal.iq_data oldest = Some b ∧
     let b' := if DataArrayPool.zeroOnRelease p
               then DataArrayPool.zeroed x00 (DataArrayPool.m_itemSize p) b else b in
     enqueue id sig w =
       Ok (set_worker id (c <| queue := rest ++ [sig] |>)
             (w <| pools :=
                <[0%nat := DataArrayPool.set_pool p (DataArrayPool.pool p ++ [b'])]> (pools w) |>))).
Proof.
  destruct (proj1 Hok _ _ Hc) as (Hl & Hq & _). unfold enqueue. rewrite Hc, Hrun. cbn [negb].
  unfold worker_load. destruct (Z.leb_spec (QUEUE_CAP - 1) (Z.of_nat (length (queue c)))).
  - right. split; [lia|].
    destruct (queue c) as [|s q] eqn:Eq; [cbn in *; unfold QUEUE_CAP in *; lia|].
    apply Forall_cons in Hq as [[[b Hb] _] _]. exists s, q, b. split; [done|].
    split; [exact Hb|]. unfold release_to. rewrite Hp, Hb.
    cbn [DataArrayPool.release obind modify queue length] in *.
    destruct (Z.ltb_spec (Z.of_nat (length q)) QUEUE_CAP); [done|lia].
  - left. split; [lia|]. cbn [obind].
    destruct (Z.ltb_spec (Z.of_nat (length (queue c))) QUEUE_CAP);
      [done|unfold QUEUE_CAP in *; lia].
Qed.

(** A burst that fits the receive buffers may be too long for the sample
    arrays: a worker that takes a burst of more than [MAX_NUM_SAMPLES] samples
    per channel writes outside [src_sig_arr]. *)
Theorem long_burst_overflows (e : Scratch)
    (order : list (DestInfo * list byte) → list (DestInfo * list byte))
    (junk : Signal.t) (now : Z) (id : string) (w : world) (c : WorkerContext)
    (sig : Signal.t) (q : list Signal.t) (b : list byte)
    (Hc : m_workers (im w) !! id = Some c)
    (Hrun : running c = true) (Hwork : work (im w) = true) (Hq : queue c = sig :: q)
    (Hdest : m_destCount (im w) ≠ 0)
    (Hage : now - m_max_latency_ns (im w) ≤ h_start (Signal.header sig))
    (Hb : Signal.iq_data sig = Some b) (Hch : 0 < Signal.numCh sig)
    (Hlen : 4 * Signal.numSamp sig ≤ Z.of_nat (length b))
    (Hbig : MAX_NUM_SAMPLES < Signal.numSamp sig) :
  WorkerLoop_iter e order junk now id w = Err OutOfBounds.
Proof.
  unfold WorkerLoop_iter. rewrite Hc, Hrun, Hwork, Hq. cbn [andb negb].
  rewrite (proj2 (Z.eqb_neq _ _) Hdest). cbn [set_worker modify im m_max_latency_ns].
  rewrite (proj2 (Z.ltb_ge _ _) Hage). unfold ProcessSignal.
  assert (Hs : convert_sources e sig = Err OutOfBounds).
  { unfold convert_sources. rewrite seqZ_cons by lia. cbn [omap_list].
    unfold convert_channel, Signal.getData. rewrite (proj2 (Z.leb_gt _ _) Hch), Hb.
    change (default [] (Some b)) with b. unfold mread, MAX_NUM_SAMPLES in *.
    rewrite Z.mul_0_l, decide_True by lia. by rewrite (proj2 (Z.leb_gt _ _) Hbig). }
  by rewrite Hs.
Qed.

(** After resampling a burst of several channels is read where it was
    not written: the new header's size includes [HEADER_SIZE], so the sender
    looks for channel [ch] at [ch * 48 / n] bytes beyond its samples. *)
Theorem resampled_channels_shift (sc : SignalContext) (d : DestInfo) (bp : burst_plan)
    (junk : Signal.t) (buf : list byte) (f dist : float) (ch : Z)
    (Hplan : plan_burst sc d = Ok bp) (Hrate : feq (sample_rate d) (sig_srate sc) = false)
    (Hn : src_n_ch sc = num_channels d) (Hrange : 2 ≤ num_channels d ≤ 48)
    (Hsz : bp_sz_ch bp * num_channels d + HEADER_SIZE < 2 ^ 32) (Hch : 0 < ch < num_channels d) :
  let s := Signal.ctor junk (Some buf) (delay_burst (sample_rate d) dist (bp_hdr bp)) f
             (dest_id d) in
  Signal.getData ch s = Some (ch * bp_sz_ch bp + ch * (HEADER_SIZE / num_channels d)) ∧
  ch * bp_sz_ch bp < ch * bp_sz_ch bp + ch * (HEADER_SIZE / num_channels d).
Proof.
  intros s. revert Hplan. unfold plan_burst. rewrite Hrate.
  destruct (round_size _) as [per|]; [|done]. cbn [obind].
  destruct (round_size (F32.mul (F32.of_Z (i_sz_ch sc)) _)) as [sz|] eqn:Es; [|done].
  cbn [obind]. intros Hbp. assert (Hz : 0 ≤ sz).
  { unfold round_size in Es. destruct (round _); [|done]. case_decide; [|done].
    injection Es as <-. lia. }
  injection Hbp as Ebp. rewrite <- Ebp in Hsz. cbn [bp_sz_ch] in Hsz.
  assert (H48 : 0 < HEADER_SIZE / num_channels d)
    by (apply Z.div_str_pos; unfold HEADER_SIZE; lia).
  split; [|subst bp; cbn [bp_sz_ch]; nia].
  assert (Hhdr : h_size (delay_burst (sample_rate d) dist (bp_hdr bp)) = sz * num_channels d + HEADER_SIZE
    ∧ h_number_of_channels (delay_burst (sample_rate d) dist (bp_hdr bp)) = num_channels d).
  { rewrite delay_size. assert (Hdc : ∀ r x h, h_number_of_channels (delay_burst r x h)
      = h_number_of_channels h) by (intros; unfold delay_burst; by repeat case_match).
    rewrite Hdc, <- Ebp. cbn [bp_hdr h_size h_number_of_channels].
    rewrite u64_small, u8_small by (unfold HEADER_SIZE in *; nia). by rewrite Hn. }
  destruct Hhdr as [Hhs Hhn]. subst s. unfold Signal.ctor.
  rewrite decide_False by (rewrite Hhs; unfold HEADER_SIZE; nia).
  unfold Signal.getData, Signal.getSizePerBuff. cbn [Signal.numCh Signal.size].
  rewrite Hhn, Hhs, u32_small by (unfold HEADER_SIZE in *; nia).
  rewrite (proj2 (Z.leb_gt _ _)), (proj2 (Z.eqb_neq _ _)) by lia.
  subst bp. cbn [bp_sz_ch]. f_equal. rewrite Z.add_comm, Z.div_add by lia. ring.
Qed.

End Runs.

(** ** Concrete runs *)

Lemma enqueue_inv id sig w w' :
  world_inv w → good sig → DataPath.enqueue id sig w = Ok w' → world_inv w'.
Proof.
  intros (Hok & Hmem & Hco & Hge) Hg He. destruct (enqueue_moved id sig w w' Hok Hg He) as [Hok' _].
  apply enqueue_quiet in He as Hq. pose proof Hq as [Hsk _].
  refine (conj Hok' (conj _ (conj _ _))).
  - by eapply skeleton_membership.
  - by eapply coherent_quiet.
  - injection Hsk as _ _ _ _ -> _ _ _ _ _ _ _ _. done.
Qed.

Definition demo_ready : world :=
  match DataPath.enqueue "a" demo_signal demo_attached with
  | Ok w => w
  | Err _ => demo_attached
  end.

Lemma demo_ready_inv `{Dsp} : world_inv demo_ready.
Proof.
  destruct (run_sound _ _ _ demo_run demo_world_inv) as [Hinv _]; [by vm_compute|].
  unfold demo_ready. destruct (DataPath.enqueue _ _ _) as [w|] eqn:E; [|done].
  eapply enqueue_inv; [exact Hinv| |exact E]. by split; [eexists|].
Qed.

Definition demo_worker : Intermediate.WorkerContext :=
  default (Intermediate.new_worker "" "" 1) (Intermediate.m_workers (im demo_ready) !! "a").

Definition demo_scratch : Scratch := mkScratch (fun _ => []) (fun _ _ => []) [].

Definition demo_link : Channel.t := Eval vm_compute in
  match Intermediate.m_channelMap (im demo_ready) !! ("a", "b") with
  | Some (_, ch) => ch
  | None => Channel.ctor "" "" 0 0
  end.

Definition demo_plan : DataPath.burst_plan :=
  DataPath.mkPlan (mkHeader 8 5000 6000 0 2000000 2 1 1) 2 8 (F32.of_Z 1).

Lemma burst_reaches_every_listener_witness :
  ∃ w', @DataPath.WorkerLoop_iter flat_dsp _ _ demo_scratch (fun l => l) sample_junk 6000 "a"
          demo_ready = Ok (DataPath.WProcessed demo_signal, w') ∧
    (∀ dst l a ch, Intermediate.m_destinationMap (im demo_ready) !! dst = Some l →
       dst ≠ Intermediate.src_node_id demo_worker →
       Intermediate.getChannel (Intermediate.src_node_id demo_worker) dst (im demo_ready)
         = Some (a, ch) →
       ∃ x x' s d, txs (hp demo_ready) !! l = Some x ∧ txs (hp w') !! l = Some x' ∧
         takes s x x' ∧ d ∈ targets demo_ready demo_worker ∧ Intermediate.dest_id d = dst ∧
         delivers (DataPath.signal_context demo_worker demo_signal) d ch s) ∧
    (∀ l, (∀ dst, Intermediate.m_destinationMap (im demo_ready) !! dst = Some l →
             dst = Intermediate.src_node_id demo_worker ∨
             Intermediate.getChannel (Intermediate.src_node_id demo_worker) dst (im demo_ready)
               = None) →
       txs (hp w') !! l = txs (hp demo_ready) !! l).
Proof.
  apply (@burst_reaches_every_listener flat_dsp _ _ _ _ demo_scratch (fun l => l) sample_junk
    6000 "a" demo_ready demo_worker demo_signal [] demo_pool 8).
  - done.
  - exact (@demo_ready_inv flat_dsp).
  - vm_cast_no_check (eq_refl (Some demo_worker)).
  - vm_cast_no_check (eq_refl true).
  - vm_cast_no_check (eq_refl true).
  - vm_cast_no_check (eq_refl [demo_signal]).
  - by vm_compute.
  - by vm_compute.
  - split; [by eexists|]. by vm_compute.
  - vm_compute. by eexists.
  - vm_cast_no_check (eq_refl (Some demo_pool)).
  - repeat constructor.
  - by vm_compute.
  - vm_compute. by eexists.
  - intros d Hd. assert (Ht : targets demo_ready demo_worker
      = [Intermediate.mkDestInfo "b" (F32.of_Z 2000000) 1 2 1]) by (by vm_compute).
    rewrite Ht in Hd. clear Ht. apply list_elem_of_singleton in Hd as ->.
    exists ("a", "b"), demo_link, (demo_tx "b"), demo_plan.
    refine (conj _ (conj _ (conj _ _))).
    + vm_cast_no_check (eq_refl (Some (1%positive, demo_link))).
    + vm_cast_no_check (eq_refl (Some (demo_tx "b"))).
    + vm_cast_no_check (eq_refl (Ok demo_plan : outcome ierror DataPath.burst_plan)).
    + by vm_compute.
Defined.

Lemma pipeline_conserves_buffers_witness :
  demo_attached ≠ demo_world ∧
  (buffers_total demo_attached = buffers_total demo_world ∧
   (∀ id c, Intermediate.m_workers (im demo_attached) !! id = Some c →
      worker_load c < QUEUE_CAP) ∧
   (∀ l r, rxs (hp demo_attached) !! l = Some r → rx_load r ≤ QUEUE_CAP) ∧
   (∀ l x, txs (hp demo_attached) !! l = Some x → tx_load x < QUEUE_CAP)).
Proof.
  split.
  - intros E. apply (f_equal (fun w => Intermediate.m_destCount (im w))) in E.
    by vm_compute in E.
  - apply (@pipeline_conserves_buffers flat_dsp _ _ _ 2 demo_world demo_attached).
    + exact (@demo_run flat_dsp).
    + exact demo_world_inv.
    + by vm_compute.
Defined.

Lemma workers_see_current_destinations_witness :
  ∃ c, Intermediate.m_workers (im demo_attached) !! "a" = Some c ∧
    (NoDup (Intermediate.dest_id <$> targets demo_attached c) ∧
     (∀ dst, dst ∈ Intermediate.dest_id <$> targets demo_attached c ↔
        dst ≠ Intermediate.src_node_id c ∧
        is_Some (Intermediate.m_destinationMap (im demo_attached) !! dst) ∧
        is_Some (Intermediate.getChannel (Intermediate.src_node_id c) dst (im demo_attached))) ∧
     (∀ d, d ∈ targets demo_attached c →
        Intermediate.m_destinationMap (im demo_attached) !! Intermediate.dest_id d
          = Some (Intermediate.transmitter d) ∧
        is_Some (txs (hp demo_attached) !! Intermediate.transmitter d) ∧
        ∃ ch, DataPath.deref (Intermediate.channel d) (im demo_attached)
          = Some ((Intermediate.src_node_id c, Intermediate.dest_id d), ch))).
Proof.
  exists (Intermediate.new_worker "a" "a" 1).
  assert (Hc : Intermediate.m_workers (im demo_attached) !! "a"
    = Some (Intermediate.new_worker "a" "a" 1))
    by vm_cast_no_check (eq_refl (Some (Intermediate.new_worker "a" "a" 1))).
  split; [exact Hc|].
  apply (@workers_see_current_destinations flat_dsp _ _ _ 2 demo_heap (F64.of_Z 3500000000) 10
    [demo_pool] 0 demo_attached "a" (Intermediate.new_worker "a" "a" 1)).
  - apply demo_world_inv.
  - apply demo_world_inv.
  - exact (@demo_run flat_dsp).
  - done.
  - exact Hc.
Defined.

Lemma cached_rate_is_stale_witness :
  let c := (Intermediate.new_worker "a" "a" 1) <| Intermediate.cached_dest_version := 2 |> in
  let w' := demo_ready <| hp := update_tx 2 (Transmitter.setSampleRate 1000000) (hp demo_ready) |> in
  targets w' c = Intermediate.cached_destinations c ∧
  ∀ d, d ∈ DataPath.snapshot (hp w') (im w') (Intermediate.src_node_id c) →
    Intermediate.transmitter d = 2%positive → Intermediate.sample_rate d = F32.of_Z 1000000.
Proof.
  intros c. apply (cached_rate_is_stale demo_ready c 2 1000000).
  - by vm_compute.
  - by vm_compute.
Defined.

(** The same channel when worker "a" has a full queue of bursts numbered by
    their start times. *)
Definition numbered_signal (k : Z) : Signal.t :=
  Signal.ctor sample_junk (Some (replicate 8 x01))
    (mkHeader 8 k 6000 0 2000000 2 1 1) (F64.of_Z 3500000000) "a".

Definition full_worker : Intermediate.WorkerContext :=
  demo_worker <| Intermediate.queue := numbered_signal <$> seqZ 0 (QUEUE_CAP - 1) |>.

Definition full_world : world := DataPath.set_worker "a" full_worker demo_ready.

Lemma full_world_ok : world_ok full_world.
Proof.
  pose proof (proj1 (@demo_ready_inv flat_dsp)) as Hok.
  assert (Hd : Intermediate.m_workers (im demo_ready) !! "a" = Some demo_worker)
    by vm_cast_no_check (eq_refl (Some demo_worker)).
  destruct (proj1 Hok _ _ Hd) as (_ & _ & Hdest).
  apply (set_worker_moved "a" demo_worker full_worker demo_ready Hok Hd).
  refine (conj _ (conj _ Hdest)).
  - by vm_compute.
  - apply Forall_fmap, Forall_true. intros k. split; [by eexists|done].
Qed.

Lemma enqueue_keeps_newest_witness :
  DataPath.enqueue "a" demo_signal full_world =
  Ok (DataPath.set_worker "a"
        (full_worker <| Intermediate.queue :=
           (numbered_signal <$> seqZ 1 (QUEUE_CAP - 2)) ++ [demo_signal] |>)
        (full_world <| pools := [DataArrayPool.set_pool demo_pool
           (DataArrayPool.pool demo_pool ++ [replicate 8 x01])] |>)).
Proof.
  destruct (enqueue_keeps_newest "a" demo_signal full_world full_worker demo_pool)
    as [[Hlt _]|(_ & oldest & rest & b & Hq & Hb & He)].
  - exact full_world_ok.
  - apply lookup_insert_eq.
  - vm_cast_no_check (eq_refl true).
  - vm_cast_no_check (eq_refl (Some demo_pool)).
  - exfalso. revert Hlt. by vm_compute.
  - rewrite He. change (Intermediate.queue full_worker)
      with (numbered_signal <$> seqZ 0 (QUEUE_CAP - 1)) in Hq.
    rewrite seqZ_cons in Hq by done. rewrite fmap_cons in Hq.
    apply (inj2 cons) in Hq as [<- <-].
    change (Z.succ 0) with 1. change (Z.pred (QUEUE_CAP - 1)) with (QUEUE_CAP - 2).
    apply (inj Some) in Hb as <-. reflexivity.
Defined.

(** A burst of 100001 samples; the receive buffers hold 185344. *)
Definition long_signal : Signal.t :=
  Signal.mk "a" 400004 (F32.of_Z 2000000) (F64.of_Z 3500000000) 1 100001 (F32.of_Z 500)
    0 0 0 0 (mkHeader 400004 5000 6000 0 2000000 100001 1 1)
    (Some (replicate (Z.to_nat IQ_SIZE) x01)).

Definition long_world : world :=
  DataPath.set_worker "a"
    (demo_worker <| Intermediate.queue := [long_signal] |>) demo_ready.

Lemma long_burst_overflows_witness :
  h_size (Signal.header long_signal) ≤ IQ_SIZE ∧
  @DataPath.WorkerLoop_iter flat_dsp _ _ demo_scratch (fun l => l) sample_junk 6000 "a" long_world
    = Err OutOfBounds.
Proof.
  split; [by vm_compute|].
  apply (@long_burst_overflows flat_dsp _ _ demo_scratch (fun l => l) sample_junk 6000 "a"
    long_world (demo_worker <| Intermediate.queue := [long_signal] |>) long_signal []
    (replicate (Z.to_nat IQ_SIZE) x01)).
  - apply lookup_insert_eq.
  - vm_cast_no_check (eq_refl true).
  - vm_cast_no_check (eq_refl true).
  - reflexivity.
  - by vm_compute.
  - by vm_compute.
  - reflexivity.
  - done.
  - rewrite length_replicate. by vm_compute.
  - by vm_compute.
Defined.

Definition stereo_context : SignalContext :=
  mkSignalContext (mkHeader 2000 5000 6000 0 1000000 250 1 2) "a" 2 1000 250 (F32.of_Z 1000000).

Definition fast_dest : Intermediate.DestInfo :=
  Intermediate.mkDestInfo "b" (F32.of_Z 2000000) 2 2 1.

Lemma resampled_channels_shift_witness :
  let bp := DataPath.mkPlan (mkHeader 4048 5000 6000 0 2000000 500 1 2) 500 2000 (F32.of_Z 2) in
  let s := Signal.ctor sample_junk (Some [])
             (DataPath.delay_burst (F32.of_Z 2000000) fzero (DataPath.bp_hdr bp)) fzero "b" in
  Signal.getData 1 s = Some (1 * 2000 + 1 * (HEADER_SIZE / 2)) ∧
  1 * 2000 < 1 * 2000 + 1 * (HEADER_SIZE / 2).
Proof.
  intros bp. apply (resampled_channels_shift stereo_context fast_dest bp sample_junk [] fzero fzero 1).
  - by vm_compute.
  - by vm_compute.
  - reflexivity.
  - done.
  - by vm_compute.
  - done.
Defined.

(** ** Detaching while a burst is processed *)

Section Race.
Import Intermediate DataPath.
Context `{Dsp, Converter, PriorityQueue}.

(** C36 A worker uses the links of its destinations after it has released the
    lock under which it looked them up.  If a destination is detached between
    the lookup and the processing of its share, its link is gone: the pointer
    the worker holds is dangling. *)
Theorem detach_during_burst_dangles (w : world) (src : string) (d : DestInfo)
    (h' : heap) (i' : Intermediate.t) (e : Scratch) (junk : Signal.t) (numa : nat)
    (sc : SignalContext) (srcs : list signal_v) (par : ChannelProcessParams) (buf : list byte)
    (Hinv : world_inv w) (Hlive : live_dest w src d)
    (Hdet : DetachDestination (transmitter d) (hp w) (im w) = Ok (true, h', i')) :
  ProcessDestinationSignal e junk numa sc srcs par (d, buf)
    (w <| hp := h' |> <| im := i' |>) = Err Dangling.
Proof.
  destruct Hinv as (_ & Hmem & _). destruct Hmem as ([_ Hd] & Hn & _).
  destruct Hlive as (_ & Hm & x & c & Hx & Hc). apply deref_Some in Hc as Hk.
  destruct (Hd _ _ Hm) as (x' & Hx' & Hid & _). rewrite Hx in Hx'. injection Hx' as <-.
  unfold ProcessDestinationSignal. cbn [modify hp im].
  assert (Hnone : deref (channel d) i' = None); [|by rewrite Hnone].
  destruct (deref (channel d) i') as [[k' c']|] eqn:E; [|done]. apply deref_Some in E.
  exfalso. revert Hdet. unfold DetachDestination. rewrite Hx, Hid, Hm. intros [= _ <-].
  destruct Hn as [Hn1 Hn2].
  assert (E' : m_channelMap (removeChannel (dest_id d) (im w)) !! k' = Some (channel d, c')).
  { revert E. unfold EmptyChannelChecker. by destruct (isEmpty _). }
  apply map_lookup_filter_Some in E' as [E1 E2]. cbn in E2.
  pose proof (Hn2 _ _ _ _ _ Hk E1) as <-. destruct (Hn1 _ _ _ E1) as [[= _ Hdst] _].
  rewrite <- Hdst in E2. tauto.
Qed.

End Race.

Definition demo_dest : Intermediate.DestInfo :=
  Intermediate.mkDestInfo "b" (F32.of_Z 2000000) 1 2 1.

Definition demo_detached : heap * Intermediate.t := Eval vm_compute in
  match Intermediate.DetachDestination 2 (hp demo_ready) (im demo_ready) with
  | Ok (_, h, i) => (h, i)
  | Err _ => (hp demo_ready, im demo_ready)
  end.

Lemma detach_during_burst_dangles_witness :
  @DataPath.ProcessDestinationSignal flat_dsp _ _ demo_scratch sample_junk 0
    (DataPath.signal_context demo_worker demo_signal) [] (DataPath.base_params demo_ready demo_worker
      sample_config) (demo_dest, replicate 8 x00)
    (demo_ready <| hp := demo_detached.1 |> <| im := demo_detached.2 |>) = Err Dangling.
Proof.
  apply (@detach_during_burst_dangles flat_dsp _ _ demo_ready "a" demo_dest).
  - exact (@demo_ready_inv flat_dsp).
  - refine (conj _ (conj _ _)); [done|vm_cast_no_check (eq_refl (Some 2%positive))|].
    exists (demo_tx "b"), demo_link. split.
    + vm_cast_no_check (eq_refl (Some (demo_tx "b"))).
    + vm_cast_no_check (eq_refl (Some (("a", "b"), demo_link))).
  - vm_cast_no_check (eq_refl (Ok (true, demo_detached.1, demo_detached.2)
      : outcome ierror (bool * heap * Intermediate.t))).
Defined.
