(* ===== verification/ControllerInv.v ===== *)
(** The invariant of the controller (Controller.v): which node may be attached
    where, which ports are in use, and how the calls that change nodes, shared
    objects and intermediates preserve it; with the program logic for its
    actions that Tuning.v uses. *)

From Stdlib Require Import ZArith Lia Strings.String Floats.SpecFloat Sorting.Sorted.
From stdpp Require Import prelude list strings gmap fin_maps list_numbers relations.
From S2P Require Import Prelude Ieee Common CxxLib DataPool Json NodeConfig NodeEntity Signal.
From S2P Require Import UdpClient UdpServer Receiver Transmitter Channel Intermediate DataPath.
From S2P Require Import Controller Accounting Pipeline.

(** ** The order of frequencies *)

Definition plain (x : float) : Prop := x ≠ S754_nan.

(** Comparison of numbers is comparison of ranks. *)
Definition rank (x : float) : Z * (Z * Z) :=
  match x with
  | S754_infinity true => (-2, (0, 0))
  | S754_finite true m e => (-1, (- e, Z.neg m))
  | S754_zero _ | S754_nan => (0, (0, 0))
  | S754_finite false m e => (1, (e, Z.pos m))
  | S754_infinity false => (2, (0, 0))
  end.

Definition rank_lt (p q : Z * (Z * Z)) : Prop :=
  p.1 < q.1 ∨ p.1 = q.1 ∧ (p.2.1 < q.2.1 ∨ p.2.1 = q.2.1 ∧ p.2.2 < q.2.2).

Lemma pos_compare_cont m m' : Pos.compare_cont Eq m m' = (m ?= m')%positive.
Proof. done. Qed.

Lemma flt_rank x y : plain x → plain y → flt x y = true ↔ rank_lt (rank x) (rank y).
Proof.
  unfold plain, rank_lt, SFltb.
  destruct x as [[]|[]| |[] m e], y as [[]|[]| |[] m' e']; intros Hx Hy; try done;
    cbn -[Pos.compare_cont]; rewrite ?pos_compare_cont; try (split; [done|lia]);
    try (split; [lia|done]);
    destruct (Z.compare_spec e e'), (Pos.compare_spec m m'); cbn; split; try done; lia.
Qed.

(** Keys a [std::map] takes for the same. *)
Definition same_key (x y : float) : Prop := flt x y = false ∧ flt y x = false.

Lemma same_key_rank x y : plain x → plain y → same_key x y ↔ rank x = rank y.
Proof.
  intros Hx Hy. unfold same_key. rewrite <- !not_true_iff_false, !flt_rank by done.
  unfold rank_lt. destruct (rank x) as [a [b d]], (rank y) as [a' [b' d']]. cbn.
  split; [intros [??]; repeat f_equal; lia|intros [= -> -> ->]; lia].
Qed.

Lemma sub_self s m e : F64.sub (S754_finite s m e) (S754_finite s m e) = S754_zero false.
Proof.
  unfold F64.sub, SFsub. rewrite Z.min_id. unfold shl_align. rewrite Z.sub_diag. cbn [fst].
  done.
Qed.

(** A frequency is never 10 kHz away from itself. *)
Lemma same_not_retuned x y : same_key x y → Controller.retuned x y = false.
Proof.
  unfold Controller.retuned. destruct (decide (x = S754_nan)) as [->|Hx]; [by destruct y as [[]|[]| |[]]|].
  destruct (decide (y = S754_nan)) as [->|Hy]; [by destruct x as [[]|[]| |[]]|].
  rewrite same_key_rank by done.
  destruct x as [[]|[]| |[] m e], y as [[]|[]| |[] m' e']; cbn [rank]; intros [=]; try done; simplify_eq;
    try by vm_compute.
  - replace e' with e by lia. by rewrite sub_self.
  - by rewrite sub_self.
Qed.

Module FreqOrder.
Import FreqMap.

Definition key_lt (p q : float * positive) : Prop := flt p.1 q.1 = true.

Definition sorted (m : FreqMap.t) : Prop :=
  StronglySorted key_lt m ∧ Forall (fun p => plain p.1) m.

Lemma find_member f m a : find f m = Some a → ∃ k, (k, a) ∈ m ∧ same_key k f.
Proof.
  induction m as [|[k b] m IH]; cbn; [done|].
  destruct (flt k f) eqn:E1.
  - intros (k' & ? & ?)%IH. exists k'. split; [by right|done].
  - destruct (flt f k) eqn:E2; [done|]. intros [= <-]. exists k. split; [by left|done].
Qed.

Lemma key_lt_trans p q r :
  plain p.1 → plain q.1 → plain r.1 → key_lt p q → key_lt q r → key_lt p r.
Proof.
  unfold key_lt. intros Hp Hq Hr. rewrite !flt_rank by done. unfold rank_lt. lia.
Qed.

(** Entries whose keys are the same are one entry. *)
Lemma find_entry f m k a :
  sorted m → plain f → (k, a) ∈ m → same_key k f → find f m = Some a.
Proof.
  intros [Hs Hp] Hf Hin Hk. induction m as [|[k' b] m IH]; [by apply elem_of_nil in Hin|].
  apply StronglySorted_inv in Hs as [Hs Hlt]. apply Forall_cons in Hp as [Hk' Hp].
  cbn. apply elem_of_cons in Hin as [[= <- <-]|Hin].
  - destruct Hk as [-> ->]. done.
  - rewrite Forall_forall in Hlt. pose proof (Hlt _ Hin) as Hlt'. unfold key_lt in Hlt'.
    cbn in Hlt', Hk'. rewrite Forall_forall in Hp. pose proof (Hp _ Hin) as Hk1. cbn in Hk1.
    assert (Hlf : flt k' f = true).
    { apply flt_rank in Hlt'; [|done..]. apply same_key_rank in Hk; [|done..].
      apply flt_rank; [done..|]. by rewrite <- Hk. }
    rewrite Hlf. apply IH; [done| |done]. by rewrite Forall_forall.
Qed.

Lemma insert_elem f a m p :
  find f m = None → p ∈ insert f a m ↔ p = (f, a) ∨ p ∈ m.
Proof.
  induction m as [|[k b] m IH]; cbn.
  - intros _. rewrite list_elem_of_singleton, elem_of_nil. tauto.
  - destruct (flt k f); [|destruct (flt f k); [|done]]; intros Hf; rewrite !elem_of_cons.
    + rewrite IH by done. tauto.
    + tauto.
Qed.

Lemma insert_sorted f a m : sorted m → plain f → find f m = None → sorted (insert f a m).
Proof.
  intros [Hs Hp] Hf Hn. split; cycle 1.
  { rewrite Forall_forall in Hp |- *. intros p [->|Hin]%insert_elem; [done|by apply Hp|done]. }
  induction m as [|[k b] m IH]; cbn in *; [repeat constructor|].
  pose proof (Forall_cons_1 _ _ _ Hp) as [Hk Hp'].
  pose proof (StronglySorted_inv Hs) as [Hs' Hlt].
  destruct (flt k f) eqn:E1.
  - constructor; [by apply IH|]. rewrite Forall_forall in Hlt |- *.
    intros p [->|Hin]%insert_elem; [done|by apply Hlt|done].
  - destruct (flt f k) eqn:E2; [|done]. constructor; [done|].
    rewrite Forall_forall in Hp' , Hlt |- *. intros p [->|Hin]%elem_of_cons; [done|].
    eapply (key_lt_trans (f, a) (k, b) p); [done|done|by apply Hp'|done|by apply Hlt].
Qed.

Lemma sublist_sorted m m' : sublist m' m → sorted m → sorted m'.
Proof.
  intros Hsub [Hs Hp]. split.
  - induction Hsub as [|p m1 m2 Hsub IH|p m1 m2 Hsub IH]; [done| |].
    + apply StronglySorted_inv in Hs as [Hs Hlt]. apply Forall_cons in Hp as [_ Hp].
      constructor; [by apply IH|]. rewrite Forall_forall in Hlt |- *. intros q Hq.
      apply Hlt. by eapply elem_of_submseteq, sublist_submseteq.
    + apply StronglySorted_inv in Hs as [Hs _]. apply Forall_cons in Hp as [_ Hp]. by apply IH.
  - rewrite Forall_forall in Hp |- *. intros q Hq. apply Hp.
    by eapply elem_of_submseteq, sublist_submseteq.
Qed.

Lemma erase_sublist f m : sublist (erase f m) m.
Proof.
  induction m as [|[k b] m IH]; cbn; [done|].
  destruct (flt k f); [by apply sublist_skip|].
  destruct (flt f k); [done|by apply sublist_cons].
Qed.

Lemma erase_other f m k a :
  (k, a) ∈ m → ¬ same_key k f → (k, a) ∈ erase f m.
Proof.
  intros Hin Hk. induction m as [|[k' b] m IH]; cbn; [done|].
  apply elem_of_cons in Hin as [[= <- <-]|Hin].
  - destruct (flt k f) eqn:E1; [by left|]. destruct (flt f k) eqn:E2; [by left|].
    by destruct Hk.
  - destruct (flt k' f); [right; by apply IH|]. destruct (flt f k'); [by right|done].
Qed.

End FreqOrder.

(** ** The invariant *)

Section Invariant.
Import Controller.

(** The two sides of a node, by a boolean: [true] is the uplink. *)
Definition side_of (b : bool) : side := if b then uplink else downlink.

Definition members (b : bool) (i : Intermediate.t) : gmap string positive :=
  if b then Intermediate.m_sourceMap i else Intermediate.m_destinationMap i.

Definition owns (b : bool) (h : heap) (l : positive) (id : string) : Prop :=
  if b then ∃ r, rxs h !! l = Some r ∧ Receiver.m_NodeId r = id
  else ∃ x, txs h !! l = Some x ∧ Transmitter.m_NodeId x = id ∧
            NodeConfig.m_id (Transmitter.m_node_config x) = id.

Definition object (b : bool) (n : Node.t) : option positive := sd_object (side_of b) n.

Definition tuning (b : bool) (n : Node.t) : float := tuned (side_of b) n.

Definition port (b : bool) (n : Node.t) : Z :=
  if b then NodeConfig.m_portTxNum (Node.m_config n) else NodeConfig.m_portRxNum (Node.m_config n).

Definition free_ports (b : bool) (c : t) : list Z :=
  if b then m_txPortPool c else m_rxPortPool c.

Definition all_ports (b : bool) : list Z :=
  GeneratePortPool (if b then REP_PORT_NUM 400 else REQ_PORT_NUM 400) 400.

(** Node [id] is attached on side [b] of the intermediate of frequency [k]. *)
Definition attached (c : t) (b : bool) (k : float) (id : string) (l : positive) : Prop :=
  ∃ a i, (k, a) ∈ m_intermediateMap c ∧ c_ims c !! a = Some i ∧ members b i !! id = Some l.

Record inv (c : t) : Prop := mkInv {
  i_objects : ∀ l, is_Some (rxs (c_heap c) !! l) ∨ is_Some (txs (c_heap c) !! l) →
    (l < next_obj c)%positive;
  i_ims : ∀ l, is_Some (c_ims c !! l) → (l < next_obj c)%positive;
  i_nodes : ∀ id n, m_nodeMap c !! id = Some n →
    NodeConfig.m_id (Node.m_config n) = id ∧
    ∀ b, plain (tuning b n) ∧ ∀ l, object b n = Some l → owns b (c_heap c) l id;
  i_sorted : FreqOrder.sorted (m_intermediateMap c);
  i_channels : ∀ k a, (k, a) ∈ m_intermediateMap c →
    ∃ i, c_ims c !! a = Some i ∧ Intermediate.m_freq i = k ∧
         Intermediate.m_sandboxNodes i = ∅ ∧ membership_inv (c_heap c, i);
  i_tuned : ∀ b k id l, attached c b k id l →
    ∃ n, m_nodeMap c !! id = Some n ∧ object b n = Some l ∧ same_key k (tuning b n);
  i_ports : ∀ b, ∃ k, free_ports b c = take k (all_ports b) ∧
    ∀ id n l, m_nodeMap c !! id = Some n → object b n = Some l →
      port b n = 0 ∨ port b n ∈ drop k (all_ports b);
  i_distinct : ∀ b id id' n n' l l', id ≠ id' →
    m_nodeMap c !! id = Some n → m_nodeMap c !! id' = Some n' →
    object b n = Some l → object b n' = Some l' → port b n = port b n' → port b n = 0;
}.

(** A port that node [id] may hold. *)
Definition usable_port (b : bool) (id : string) (p : Z) (c : t) : Prop :=
  p = 0 ∨
  (∃ k, free_ports b c = take k (all_ports b) ∧ p ∈ drop k (all_ports b) ∧
        ∀ id' n l, m_nodeMap c !! id' = Some n → object b n = Some l →
          port b n = 0 ∨ port b n ∈ drop k (all_ports b)) ∧
  ∀ id' n l, id' ≠ id → m_nodeMap c !! id' = Some n → object b n = Some l → port b n ≠ p.

Lemma owned_port c b id n l :
  inv c → m_nodeMap c !! id = Some n → object b n = Some l → usable_port b id (port b n) c.
Proof.
  intros Hc Hn Hl. destruct (i_ports c Hc b) as (k & Hk & Hp).
  destruct (Hp _ _ _ Hn Hl) as [?|Hin]; [by left|].
  destruct (decide (port b n = 0)) as [|Hz]; [by left|]. right. split; [eauto|].
  intros id' n' l' Hne Hn' Hl' Heq. apply Hz. symmetry in Heq.
  exact (i_distinct c Hc b id id' n n' l l' (not_eq_sym Hne) Hn Hn' Hl Hl' Heq).
Qed.

(** *** Changing a node *)

Lemma inv_set_node c id n :
  inv c → NodeConfig.m_id (Node.m_config n) = id →
  (∀ b, plain (tuning b n)) →
  (∀ b l, object b n = Some l → owns b (c_heap c) l id ∧ usable_port b id (port b n) c) →
  (∀ b k l, attached c b k id l → object b n = Some l ∧ same_key k (tuning b n)) →
  inv (c <| m_nodeMap := <[id := n]> (m_nodeMap c) |>).
Proof.
  intros Hc Hid Hp Hown Hatt. constructor; cbn [modify m_nodeMap c_heap c_ims next_obj
    m_intermediateMap free_ports]; try apply Hc.
  - intros id' n' [[<- <-]|[Hne Hn]]%lookup_insert_Some; [|by apply Hc].
    split; [done|]. intros b. split; [done|]. by intros l []%Hown.
  - intros b k id' l Ha. destruct (decide (id = id')) as [<-|Hne].
    + exists n. rewrite lookup_insert_eq. split; [done|]. exact (Hatt b k l Ha).
    + destruct (i_tuned c Hc b k id' l Ha) as (n' & ? & ?). exists n'.
      by rewrite lookup_insert_ne.
  - intros b. destruct (i_ports c Hc b) as (k & Hk & Hold).
    destruct (object b n) as [l|] eqn:El.
    + destruct (Hown b l El) as [_ [Hz|((k' & Hk' & Hin & Hold') & _)]].
      * exists k. split; [by destruct b|].
        intros id' n' l' [[<- <-]|[_ Hn]]%lookup_insert_Some; [by left|by eapply Hold].
      * exists k'. split; [by destruct b|].
        intros id' n' l' [[<- <-]|[_ Hn]]%lookup_insert_Some; [by right|by eapply Hold'].
    + exists k. split; [by destruct b|].
      intros id' n' l' [[<- <-]|[_ Hn]]%lookup_insert_Some; [congruence|by eapply Hold].
  - intros b id1 id2 n1 n2 l1 l2 Hne H1 H2 Ho1 Ho2 Heq.
    apply lookup_insert_Some in H1 as [[<- <-]|[Hn1 H1]], H2 as [[<- <-]|[Hn2 H2]]; try done.
    + destruct (Hown b l1 Ho1) as [_ [?|[_ Hu]]]; [done|].
      by destruct (Hu id2 n2 l2 ltac:(done) H2 Ho2).
    + destruct (Hown b l2 Ho2) as [_ [?|[_ Hu]]]; [congruence|].
      by destruct (Hu id1 n1 l1 ltac:(done) H1 Ho1).
    + exact (i_distinct c Hc b id1 id2 n1 n2 l1 l2 Hne H1 H2 Ho1 Ho2 Heq).
Qed.

(** A change that keeps what the invariant sees of the node. *)
Definition same_node (n n' : Node.t) : Prop :=
  NodeConfig.m_id (Node.m_config n') = NodeConfig.m_id (Node.m_config n) ∧
  ∀ b, tuning b n' = tuning b n ∧ object b n' = object b n ∧
       (port b n' = port b n ∨ object b n = None).

Lemma inv_edit_node c id n n' :
  inv c → m_nodeMap c !! id = Some n → same_node n n' →
  inv (c <| m_nodeMap := <[id := n']> (m_nodeMap c) |>).
Proof.
  intros Hc Hn [Hid Hs]. destruct (i_nodes c Hc id n Hn) as [Hid0 H0].
  apply inv_set_node; [done|congruence| | |].
  - intros b. destruct (Hs b) as (-> & _). apply H0.
  - intros b l Hl. destruct (Hs b) as (_ & Eo & Ep). rewrite Eo in Hl.
    split; [by apply H0|]. destruct Ep as [->|]; [by eapply owned_port|congruence].
  - intros b k l Ha. destruct (Hs b) as (-> & -> & _).
    destruct (i_tuned c Hc b k id l Ha) as (n1 & E & ?). congruence.
Qed.

Lemma inv_delete_node c id :
  inv c → (∀ b k l, ¬ attached c b k id l) →
  inv (c <| m_nodeMap := delete id (m_nodeMap c) |>).
Proof.
  intros Hc Hno. constructor; cbn [modify m_nodeMap c_heap c_ims next_obj m_intermediateMap];
    try apply Hc.
  - intros id' n' [_ Hn]%lookup_delete_Some. by apply Hc.
  - intros b k id' l Ha. destruct (decide (id = id')) as [<-|Hne]; [by destruct (Hno b k l)|].
    destruct (i_tuned c Hc b k id' l Ha) as (n' & ? & ?). exists n'. by rewrite lookup_delete_ne.
  - intros b. destruct (i_ports c Hc b) as (k & Hk & Hold). exists k.
    split; [by destruct b|]. intros id' n' l' [_ Hn]%lookup_delete_Some. by eapply Hold.
  - intros b id1 id2 n1 n2 l1 l2 Hne [_ H1]%lookup_delete_Some [_ H2]%lookup_delete_Some Ho1 Ho2 Heq.
    exact (i_distinct c Hc b id1 id2 n1 n2 l1 l2 Hne H1 H2 Ho1 Ho2 Heq).
Qed.

(** *** Objects *)

Lemma owns_ids b h h' l id : same_ids h h' → owns b h l id → owns b h' l id.
Proof.
  intros [Hr Hx]. destruct b.
  - intros (r & E & <-). destruct (Hr l r E) as (r' & ? & ?). by exists r'.
  - intros (x & E & <- & E'). destruct (Hx l x E) as (x' & ? & ? & ?). exists x'.
    split_and!; congruence.
Qed.

Lemma inv_heap c h nx :
  inv c → same_ids (c_heap c) h → (next_obj c ≤ nx)%positive →
  (∀ l, is_Some (rxs h !! l) ∨ is_Some (txs h !! l) → (l < nx)%positive) →
  inv (c <| c_heap := h |> <| next_obj := nx |>).
Proof.
  intros Hc Hids Hle Hnew. constructor; cbn [modify m_nodeMap c_heap c_ims next_obj
    m_intermediateMap]; try apply Hc.
  - exact Hnew.
  - intros l Hl%(i_ims c Hc). lia.
  - intros id n Hn. destruct (i_nodes c Hc id n Hn) as [? H0]. split; [done|].
    intros b. destruct (H0 b) as [? Ho]. split; [done|]. intros l Hl.
    by eapply owns_ids, Ho.
  - intros k a Hin. destruct (i_channels c Hc k a Hin) as (i & ? & ? & ? & ?).
    exists i. split_and!; try done. by eapply inv_ids.
Qed.

(** *** Intermediates *)

Lemma inv_shrink c m :
  inv c → sublist m (m_intermediateMap c) → inv (c <| m_intermediateMap := m |>).
Proof.
  intros Hc Hsub. assert (Hin : ∀ p, p ∈ m → p ∈ m_intermediateMap c).
  { intros p Hp. by eapply elem_of_submseteq, sublist_submseteq. }
  constructor; cbn [modify m_nodeMap c_heap c_ims next_obj m_intermediateMap]; try apply Hc.
  - eapply FreqOrder.sublist_sorted; [done|apply Hc].
  - intros k a Hka. apply Hc. by apply Hin.
  - intros b k id l (a & i & Hka & Hi & Hl). apply (i_tuned c Hc). exists a, i.
    split_and!; [by apply Hin|done|done].
Qed.

Lemma inv_new_channel c f i :
  inv c → plain f → FreqMap.find f (m_intermediateMap c) = None →
  Intermediate.m_freq i = f → Intermediate.m_sandboxNodes i = ∅ →
  (∀ b, members b i = ∅) → membership_inv (c_heap c, i) →
  inv (c <| c_ims := <[next_obj c := i]> (c_ims c) |>
         <| m_intermediateMap := FreqMap.insert f (next_obj c) (m_intermediateMap c) |>
         <| next_obj := Pos.succ (next_obj c) |>).
Proof.
  intros Hc Hf Hnone Hfi Hsb Hmem Hinv. constructor; cbn [modify m_nodeMap c_heap c_ims next_obj
    m_intermediateMap]; try apply Hc.
  - intros l Hl%(i_objects c Hc). lia.
  - intros l. destruct (decide (l = next_obj c)) as [|Hne]; [lia|].
    rewrite lookup_insert_ne by done. intros Hl%(i_ims c Hc). lia.
  - apply FreqOrder.insert_sorted; [apply Hc|done|done].
  - intros k a. rewrite FreqOrder.insert_elem by done. intros [[= -> ->]|Hin].
    + exists i. by rewrite lookup_insert_eq.
    + destruct (i_channels c Hc k a Hin) as (i' & Hi' & ?). exists i'.
      rewrite lookup_insert_ne; [done|]. intros <-.
      assert (next_obj c < next_obj c)%positive; [|lia]. apply (i_ims c Hc). by eexists.
  - intros b k id l (a & i' & Hka & Hi' & Hl). cbn [modify c_ims m_intermediateMap] in Hka, Hi'.
    apply FreqOrder.insert_elem in Hka as [[= -> ->]|Hin]; [|..|done].
    + rewrite lookup_insert_eq in Hi'. injection Hi' as <-. by rewrite Hmem in Hl.
    + apply (i_tuned c Hc). exists a, i'. split_and!; try done.
      apply lookup_insert_Some in Hi' as [[<- _]|[_ ?]]; [|done].
      destruct (i_channels c Hc _ _ Hin) as (i2 & Hi2 & _).
      assert (next_obj c < next_obj c)%positive; [|lia]. apply (i_ims c Hc). by eexists.
Qed.

(** A call on one intermediate: nobody joins but, perhaps, a node tuned to it. *)
Lemma inv_channel c a i w :
  inv c → c_ims c !! a = Some i → same_ids (c_heap c) (hp w) →
  (∀ l, is_Some (rxs (hp w) !! l) ∨ is_Some (txs (hp w) !! l) → (l < next_obj c)%positive) →
  Intermediate.m_freq (im w) = Intermediate.m_freq i →
  Intermediate.m_sandboxNodes (im w) = Intermediate.m_sandboxNodes i →
  (membership_inv (c_heap c, i) → membership_inv (hp w, im w)) →
  (∀ b id l, members b (im w) !! id = Some l → members b i !! id = Some l ∨
     ∃ n, m_nodeMap c !! id = Some n ∧ object b n = Some l ∧
          same_key (Intermediate.m_freq i) (tuning b n)) →
  inv (c <| c_heap := hp w |> <| c_ims := <[a := im w]> (c_ims c) |> <| m_iq_pools := pools w |>).
Proof.
  intros Hc Hi Hids Hold Hf Hsb Hinv Hmem.
  pose proof (inv_heap c (hp w) (next_obj c) Hc Hids ltac:(lia) Hold) as Hc'.
  constructor; cbn [modify m_nodeMap c_heap c_ims next_obj m_intermediateMap]; try apply Hc'.
  - intros l. destruct (decide (a = l)) as [<-|Hne]; [intros _; apply (i_ims c Hc); by eexists|].
    rewrite lookup_insert_ne by done. apply (i_ims c Hc).
  - intros k' a' Hin. destruct (decide (a = a')) as [<-|Hne].
    + exists (im w). rewrite lookup_insert_eq.
      destruct (i_channels c Hc k' a Hin) as (i' & Ei & ? & ? & ?).
      assert (i' = i) as -> by congruence. split_and!; [done|congruence|congruence|by apply Hinv].
    + rewrite lookup_insert_ne by done. apply (i_channels _ Hc' k' a' Hin).
  - intros b k' id l (a' & i' & Hin & Hi' & Hl). cbn [modify c_ims m_intermediateMap] in Hin, Hi'.
    apply lookup_insert_Some in Hi' as [[<- <-]|[Hne Hi']].
    + destruct (Hmem b id l Hl) as [Hl'|(n & ? & ? & Hk)].
      * apply (i_tuned c Hc). by exists a, i.
      * destruct (i_channels c Hc k' a Hin) as (i' & Ei & <- & _).
        assert (i' = i) as -> by congruence. by exists n.
    + apply (i_tuned c Hc). by exists a', i'.
Qed.

End Invariant.

(** ** Effects of the calls on an intermediate *)

Section Effects.
Import Controller.

(** What a call on one intermediate leaves alone. *)
Record tame (w w' : world) : Prop := mkTame {
  t_ids : same_ids (hp w) (hp w');
  t_old : ∀ l, is_Some (rxs (hp w') !! l) ∨ is_Some (txs (hp w') !! l) →
               is_Some (rxs (hp w) !! l) ∨ is_Some (txs (hp w) !! l);
  t_freq : Intermediate.m_freq (im w') = Intermediate.m_freq (im w);
  t_sandbox : Intermediate.m_sandboxNodes (im w') = Intermediate.m_sandboxNodes (im w);
  t_inv : membership_inv (hp w, im w) → membership_inv (hp w', im w');
}.

#[export] Instance same_ids_refl : Reflexive same_ids.
Proof. intros h. split; eauto. Qed.

Lemma update_rx_old l f h l' : is_Some (rxs (update_rx l f h) !! l') ↔ is_Some (rxs h !! l').
Proof. unfold update_rx. cbn [modify rxs]. apply lookup_alter_is_Some. Qed.

Lemma update_tx_old l f h l' : is_Some (txs (update_tx l f h) !! l') ↔ is_Some (txs h !! l').
Proof. unfold update_tx. cbn [modify txs]. apply lookup_alter_is_Some. Qed.

Lemma checker_same i :
  let i' := Intermediate.EmptyChannelChecker i in
  (∀ b, members b i' = members b i) ∧ Intermediate.m_freq i' = Intermediate.m_freq i ∧
  Intermediate.m_sandboxNodes i' = Intermediate.m_sandboxNodes i ∧
  Intermediate.m_workers i' = Intermediate.m_workers i.
Proof. unfold Intermediate.EmptyChannelChecker. destruct (Intermediate.isEmpty i); by split; [intros []|]. Qed.

Lemma detach_effect b l id w w' :
  owns b (hp w) l id → sd_detach (side_of b) l w = Ok w' →
  tame w w' ∧ members b (im w') = delete id (members b (im w)) ∧
  members (negb b) (im w') = members (negb b) (im w) ∧
  Intermediate.m_workers (im w') ⊆ Intermediate.m_workers (im w).
Proof.
  destruct b; cbn [side_of sd_detach uplink downlink negb].
  - intros (r & Hr & Hid). unfold detach_rx, DataPath.detach_source.
    destruct (Intermediate.DetachSource l (hp w) (im w)) as [[[[b h] i] q]|] eqn:E; [|done].
    cbn [obind]. destruct (ofold _ q _) as [w1|] eqn:Eq; [|done]. cbn [obind]. intros [= <-].
    assert (Hw : hp w1 = h ∧ im w1 = i).
    { eapply (ofold_rel (fun v => hp v = h ∧ im v = i)); [exact Eq|done|].
      intros s v v' _ Hr' [E1 E2]. rewrite <- E1, <- E2. unfold DataPath.release_to in Hr'.
      destruct (pools v !! 0%nat); [|done]. destruct (DataArrayPool.release _ _ _); [|done].
      by injection Hr' as <-. }
    destruct Hw as [E1 E2]. pose proof (fun H => DetachSource_inv _ _ _ _ _ _ _ H E) as Hinv.
    unfold Intermediate.DetachSource in E. rewrite Hr, Hid in E.
    destruct (Intermediate.m_sourceMap (im w) !! id) eqn:Es.
    + injection E as <- Eh Ei <-. match type of Ei with _ ?x = _ =>
        destruct (checker_same x) as (Hm & Hf & Hs & Hwk) end.
      cbn zeta in Hm, Hf, Hs, Hwk. rewrite Ei in Hm, Hf, Hs, Hwk.
      rewrite E2. split; [|split; [exact (Hm true)|split; [exact (Hm false)|rewrite Hwk; apply delete_subseteq]]].
      constructor; rewrite ?E1, ?E2; try done.
      * rewrite <- Eh. by apply update_rx_ids.
      * rewrite <- Eh. intros l'. by rewrite update_rx_old.
    + injection E as <- <- <- <-. rewrite E2. split.
      * constructor; rewrite ?E1, ?E2; try done.
      * cbn [members]. by rewrite delete_id by done.
  - intros (x & Hx & Hid & _). unfold detach_tx.
    destruct (Intermediate.DetachDestination l (hp w) (im w)) as [[[b h] i]|] eqn:E; [|done].
    intros [= <-]. pose proof (fun H => DetachDestination_inv _ _ _ _ _ _ H E) as Hinv.
    unfold Intermediate.DetachDestination in E. rewrite Hx, Hid in E.
    destruct (Intermediate.m_destinationMap (im w) !! id) eqn:Es.
    + injection E as <- Eh Ei. match type of Ei with _ ?x = _ =>
        destruct (checker_same x) as (Hm & Hf & Hs & Hwk) end.
      cbn zeta in Hm, Hf, Hs, Hwk. rewrite Ei in Hm, Hf, Hs, Hwk.
      cbn [modify hp im]. split; [|split; [exact (Hm false)|split; [exact (Hm true)|by rewrite Hwk]]].
      constructor; cbn [modify hp im]; try done.
      * rewrite <- Eh. by apply update_tx_ids.
      * rewrite <- Eh. intros l'. by rewrite update_tx_old.
    + injection E as <- <- <-. cbn [modify hp im]. split; [by constructor|].
      cbn [members]. by rewrite delete_id by done.
Qed.

Lemma grow_members h i :
  let i' := Intermediate.bump (Intermediate.updateChannelMap h i) in
  (∀ b, members b i' = members b i) ∧ Intermediate.m_freq i' = Intermediate.m_freq i ∧
  Intermediate.m_sandboxNodes i' = Intermediate.m_sandboxNodes i.
Proof.
  destruct (Intermediate.requests_same (Intermediate.wanted h i) i) as (m & n & E).
  unfold Intermediate.updateChannelMap. cbv beta in *. rewrite E. by split; [intros []|].
Qed.

Lemma attach_effect b l id w w' :
  owns b (hp w) l id → sd_attach (side_of b) l w = Ok w' →
  tame w w' ∧
  members b (im w') = (if members b (im w) !! id is Some _ then members b (im w)
                       else <[id := l]> (members b (im w))) ∧
  members (negb b) (im w') = members (negb b) (im w).
Proof.
  destruct b; cbn [side_of sd_attach uplink downlink negb].
  - intros (r & Hr & Hid). unfold attach_rx.
    destruct (Intermediate.AttachSource l (hp w) (im w)) as [[h i]|] eqn:E; [|done].
    intros [= <-]. pose proof (fun H => AttachSource_inv _ _ _ _ _ H E) as Hinv.
    unfold Intermediate.AttachSource in E. rewrite Hr, Hid in E. cbn [modify hp im members].
    destruct (Intermediate.m_sourceMap (im w) !! id) eqn:Es.
    + injection E as <- <-. by split; [constructor|].
    + destruct (Intermediate.printStatus _) as [i1|] eqn:Ep; [|done]. injection E as Eh <-.
      apply printStatus_same in Ep. rewrite Ep in *. clear Ep.
      match goal with |- context [Intermediate.updateChannelMap ?h1 ?i1] =>
        destruct (grow_members h1 i1) as (Hm & Hf & Hs) end.
      split; [|split; [exact (Hm true)|exact (Hm false)]].
      constructor; cbn [modify hp im]; try done.
      * rewrite <- Eh. by apply update_rx_ids.
      * rewrite <- Eh. intros l'. by rewrite update_rx_old.
  - intros (x & Hx & Hid & Hid'). unfold attach_tx.
    destruct (Intermediate.AttachDestination l (hp w) (im w)) as [i|] eqn:E; [|done].
    intros [= <-].
    assert (Hinv : membership_inv (hp w, im w) → membership_inv (hp w, i)).
    { intros Hi. eapply AttachDestination_inv; [exact Hi|exact Hx|congruence|exact E]. }
    unfold Intermediate.AttachDestination in E. rewrite Hx, Hid' in E. cbn [modify hp im members].
    destruct (Intermediate.m_destinationMap (im w) !! id) eqn:Es.
    + injection E as <-. by split; [constructor|].
    + apply printStatus_same in E. rewrite E in *. clear E.
      match goal with |- context [Intermediate.updateChannelMap ?h1 ?i1] =>
        destruct (grow_members h1 i1) as (Hm & Hf & Hs) end.
      split; [|split; [exact (Hm false)|exact (Hm true)]].
      by constructor.
Qed.

End Effects.

(** ** A program logic for actions *)

Section Logic.
Import Controller.

(** [safe m Q c]: [m] run from [c] establishes [Q]; an exception leaves the
    invariant; crashes of an intermediate are excluded elsewhere. *)
Definition safe {A} (m : ctl A) (Q : A → t → Prop) (c : t) : Prop :=
  match m c with
  | (Ok a, c') => Q a c'
  | (Err (Crash _), _) => True
  | (Err _, c') => inv c'
  end.

Lemma safe_bind {A B} (m : ctl A) (k : A → ctl B) Q c :
  safe m (fun a => safe (k a) Q) c → safe (bind m k) Q c.
Proof.
  unfold safe, bind. destruct (m c) as [[a|e] c']; [done|]. by destruct e.
Qed.

Lemma safe_mono {A} (m : ctl A) (Q Q' : A → t → Prop) c :
  safe m Q c → (∀ a c', Q a c' → Q' a c') → safe m Q' c.
Proof. unfold safe. destruct (m c) as [[a|[| | |]] c']; eauto. Qed.

Lemma safe_then {A B} (m : ctl A) (k : A → ctl B) P Q c :
  safe m P c → (∀ a c', P a c' → safe (k a) Q c') → safe (bind m k) Q c.
Proof. intros Hm Hk. by eapply safe_bind, safe_mono. Qed.

Lemma safe_ok {A} (m : ctl A) Q c a c' : m c = (Ok a, c') → Q a c' → safe m Q c.
Proof. unfold safe. by intros ->. Qed.

(** The exception and crash cases of the definition, for a result in hand. *)
Lemma safe_inv {A} (m : ctl A) Q c r c' :
  safe m Q c → m c = (r, c') → (∀ e, r ≠ Err (Crash e)) → (∀ a, Q a c' → inv c') → inv c'.
Proof.
  unfold safe. intros Hs Hm Hr HQ. rewrite Hm in Hs. destruct r as [a|[| | |e]]; try done; [eauto|by destruct (Hr e)].
Qed.

Lemma bind_ok {A B} (m : ctl A) (k : A → ctl B) c a c' : m c = (Ok a, c') → bind m k c = k a c'.
Proof. unfold bind. by intros ->. Qed.

Lemma node_at_ok id c n : m_nodeMap c !! id = Some n → node_at id c = (Ok n, c).
Proof. unfold node_at. by intros ->. Qed.

Lemma edit_config_ok id f c n :
  m_nodeMap c !! id = Some n →
  edit_config id f c = (Ok tt, c <| m_nodeMap := <[id := Node.set_config f n]> (m_nodeMap c) |>).
Proof. intros Hn. unfold edit_config. by rewrite (bind_ok _ _ _ _ _ (node_at_ok _ _ _ Hn)). Qed.

(** What an action on one node leaves of the rest. *)
Record frame (c c' : t) : Prop := mkFrame {
  f_map : m_intermediateMap c' = m_intermediateMap c;
  f_ims : c_ims c' = c_ims c;
  f_pools : m_iq_pools c' = m_iq_pools c;
}.

#[export] Instance frame_refl : Reflexive frame.
Proof. done. Qed.

#[export] Instance frame_trans : Transitive frame.
Proof. intros c1 c2 c3 [] []. constructor; congruence. Qed.

Lemma frame_attached c c' b k id l : frame c c' → attached c b k id l ↔ attached c' b k id l.
Proof. intros [E1 E2 _]. unfold attached. by rewrite E1, E2. Qed.

(** *** Ports *)

Definition take_port (b : bool) : ctl Z := if b then AssignTXPort else AssignRXPort.

Definition set_port (b : bool) : Z → NodeConfig.t → NodeConfig.t :=
  if b then NodeConfig.setTxPortNumber else NodeConfig.setRxPortNumber.

Lemma all_ports_range b : Forall (fun p => 10001 ≤ p ≤ 11400) (all_ports b).
Proof. apply Forall_forall. destruct b; intros p Hp; vm_compute in Hp;
  revert p Hp; apply Forall_forall; repeat constructor; done. Qed.

Lemma all_ports_nodup b : NoDup (all_ports b).
Proof. apply (bool_decide_unpack _). by destruct b; vm_compute. Qed.

Lemma take_port_spec c b id :
  inv c → (∀ n, m_nodeMap c !! id = Some n → object b n = None) →
  ∃ p c', take_port b c = (Ok p, c') ∧ inv c' ∧ frame c c' ∧
    m_nodeMap c' = m_nodeMap c ∧ c_heap c' = c_heap c ∧ usable_port b id p c' ∧ s16 p = p.
Proof.
  intros Hc Hno. destruct (i_ports c Hc b) as (k & Hk & Hp).
  pose proof (all_ports_range b) as Hrange. pose proof (all_ports_nodup b) as Hnd.
  assert (Hcase : last (free_ports b c) = None ∧ take_port b c = (Ok 0, c) ∨
    ∃ p c', last (free_ports b c) = Some p ∧ take_port b c = (Ok p, c') ∧
      c' = (if b then c <| m_txPortPool := take (pred (length (free_ports b c))) (free_ports b c) |>
            else c <| m_rxPortPool := take (pred (length (free_ports b c))) (free_ports b c) |>)).
  { destruct b; cbn [take_port free_ports]; unfold AssignTXPort, AssignRXPort;
      (destruct (last _) as [p|]; [right; by exists p; eexists|by left]). }
  destruct Hcase as [[_ ->]|(p & c' & Hlast & -> & Hc')].
  { exists 0, c. split_and!; try done. by left. }
  exists p, c'. set (len := length (free_ports b c)) in *.
  assert (Hlen : len = (k `min` length (all_ports b))%nat) by (subst len; by rewrite Hk, length_take).
  rewrite last_lookup in Hlast. fold len in Hlast. rewrite Hk in Hlast.
  apply lookup_take_Some in Hlast as [Hlast Hlt].
  assert (Hpos : (pred len < len)%nat).
  { apply lookup_lt_Some in Hlast. lia. }
  assert (Hfree : ∀ b', free_ports b' c' =
    if Bool.eqb b' b then take (pred len) (all_ports b) else free_ports b' c).
  { intros b'. rewrite Hc', Hk, take_take. replace (pred len `min` k)%nat with (pred len) by lia.
    by destruct b, b'. }
  assert (Hsub : ∀ q, q ∈ drop k (all_ports b) → q ∈ drop (pred len) (all_ports b)).
  { intros q. replace k with (pred len + (k - pred len))%nat at 1 by lia.
    rewrite <- drop_drop. intros Hq. eapply elem_of_submseteq; [exact Hq|].
    apply sublist_submseteq, sublist_drop. }
  assert (Hview : m_nodeMap c' = m_nodeMap c ∧ c_heap c' = c_heap c ∧ c_ims c' = c_ims c ∧
    next_obj c' = next_obj c ∧ m_intermediateMap c' = m_intermediateMap c ∧
    m_iq_pools c' = m_iq_pools c) by (rewrite Hc'; by destruct b).
  destruct Hview as (En & Eh & Ei & Eo & Em & Ep).
  assert (Hold : ∀ id' n l, m_nodeMap c !! id' = Some n → object b n = Some l →
    port b n = 0 ∨ port b n ∈ drop (pred len) (all_ports b)).
  { intros id' n l Hn Hl. destruct (Hp id' n l Hn Hl) as [|?%Hsub]; auto. }
  assert (Hin : p ∈ drop (pred len) (all_ports b)).
  { eapply (list_elem_of_lookup_2 _ 0). by rewrite lookup_drop, Nat.add_0_r. }
  split_and!; try done.
  - constructor; unfold attached; rewrite ?En, ?Eh, ?Ei, ?Eo, ?Em; try apply Hc.
    intros b'. rewrite Hfree. destruct (Bool.eqb_spec b' b) as [->|Hne]; [by exists (pred len)|].
    apply Hc.
  - right. split.
    + exists (pred len). rewrite Hfree, Bool.eqb_reflx, En. done.
    + rewrite En. intros id' n l _ Hn Hl Heq. destruct (Hp id' n l Hn Hl) as [Hz|Hd].
      * rewrite Forall_forall in Hrange. apply list_elem_of_lookup_2 in Hlast.
        specialize (Hrange _ Hlast). lia.
      * rewrite Heq in Hd. apply list_elem_of_lookup in Hd as [j Hj]. rewrite lookup_drop in Hj.
        pose proof (NoDup_lookup _ _ _ _ Hnd Hlast Hj). lia.
  - rewrite Forall_forall in Hrange. apply list_elem_of_lookup_2 in Hlast.
    specialize (Hrange _ Hlast). unfold s16, swrap. rewrite Z.mod_small; lia.
Qed.

End Logic.
