(* ===== verification/Sides.v ===== *)
(** One side of a node, seen by the controller (Controller.v): creating its
    object and handing it a port, the channel of a frequency, leaving the
    previous frequency and joining the new one.  Each action is shown to keep
    the invariant of ControllerInv.v whatever happens ([_spec]) and to succeed
    where it must ([_ok]). *)

From Stdlib Require Import ZArith Lia Strings.String Floats.SpecFloat.
From stdpp Require Import prelude list strings gmap fin_maps list_numbers relations.
From S2P Require Import Prelude Ieee Common CxxLib DataPool Json NodeConfig NodeEntity Signal.
From S2P Require Import UdpClient UdpServer Receiver Transmitter Channel Intermediate DataPath.
From S2P Require Import Controller Accounting Pipeline ControllerInv.

(** ** One side of a node *)

Section Sides.
Import Controller.

(** What happens to the other nodes and to the other side of a node. *)
Definition same_side (b : bool) (n n' : Node.t) : Prop :=
  NodeConfig.m_id (Node.m_config n') = NodeConfig.m_id (Node.m_config n) ∧
  NodeConfig.m_channels (Node.m_config n') = NodeConfig.m_channels (Node.m_config n) ∧
  NodeConfig.m_sample_rate (Node.m_config n') = NodeConfig.m_sample_rate (Node.m_config n) ∧
  object (negb b) n' = object (negb b) n ∧ port (negb b) n' = port (negb b) n.

Lemma channels_tuning n n' b :
  NodeConfig.m_channels (Node.m_config n') = NodeConfig.m_channels (Node.m_config n) →
  tuning b n' = tuning b n.
Proof. unfold tuning, tuned. by intros ->. Qed.

Lemma set_port_side b p n :
  same_side b n (Node.set_config (set_port b p) n) ∧ object b (Node.set_config (set_port b p) n) = object b n ∧
  port b (Node.set_config (set_port b p) n) = s16 p.
Proof. by destruct b. Qed.

Lemma store_side b o n :
  same_side b n (sd_store (side_of b) o n) ∧ object b (sd_store (side_of b) o n) = o ∧
  port b (sd_store (side_of b) o n) = port b n.
Proof. by destruct b. Qed.

Lemma same_side_node b n n' :
  same_side b n n' → object b n = None → object b n' = None → same_node n n'.
Proof.
  intros (Hid & Hch & _ & Ho & Hp) E E'. split; [done|]. intros b'.
  split; [by apply channels_tuning|]. destruct (decide (b' = b)) as [->|Hne].
  - split; [congruence|by right].
  - assert (b' = negb b) as -> by by destruct b, b'. split; [done|by left].
Qed.

(** A node whose port is set keeps it usable while the object is created. *)
Lemma usable_edit b id p n c :
  usable_port b id p c → object b n = None →
  usable_port b id p (c <| m_nodeMap := <[id := n]> (m_nodeMap c) |>).
Proof.
  intros [Hz|[(k & Hk & Hin & Hp) Hd]] Hn; [by left|]. right. cbn [modify m_nodeMap]. split.
  - exists k. split; [by destruct b|]. split; [done|].
    intros id' n' l [[<- <-]|[_ H']]%lookup_insert_Some; [congruence|by eapply Hp].
  - intros id' n' l Hne [[<- _]|[_ H']]%lookup_insert_Some; [done|by eapply Hd].
Qed.

Lemma usable_frame b id p c c' :
  usable_port b id p c → m_nodeMap c' = m_nodeMap c → free_ports b c' = free_ports b c →
  usable_port b id p c'.
Proof. unfold usable_port. by intros H -> ->. Qed.

(** The object a side creates: its constructor, and where it is put. *)
Lemma create_spec b id c n :
  inv c → m_nodeMap c !! id = Some n → object b n = None →
  safe (sd_create (side_of b) id) (fun l c' =>
    inv c' ∧ frame c c' ∧ owns b (c_heap c') l id ∧
    ∃ n', m_nodeMap c' !! id = Some n' ∧ same_side b n n' ∧ object b n' = None ∧
          usable_port b id (port b n') c') c.
Proof.
  intros Hc Hn Hno.
  destruct (take_port_spec c b id Hc) as (p & c1 & Htake & Hc1 & Hf1 & En1 & Eh1 & Hu1 & Es);
    [congruence|].
  set (n1 := Node.set_config (set_port b p) n).
  destruct (set_port_side b p n) as (Hs1 & Ho1 & Hp1). fold n1 in Hs1, Ho1, Hp1.
  rewrite Es in Hp1. rewrite Hno in Ho1.
  set (c2 := c1 <| m_nodeMap := <[id := n1]> (m_nodeMap c1) |>).
  assert (Hn1 : m_nodeMap c1 !! id = Some n) by by rewrite En1.
  assert (Hc2 : inv c2) by (eapply inv_edit_node; [done|exact Hn1|by eapply same_side_node]).
  assert (Hn2 : m_nodeMap c2 !! id = Some n1) by apply lookup_insert_eq.
  assert (Hu2 : usable_port b id p c2) by by apply usable_edit.
  assert (Hf2 : frame c c2) by (destruct Hf1; by constructor).
  assert (Hid : NodeConfig.m_id (Node.m_config n1) = id) by apply (i_nodes c2 Hc2 id n1 Hn2).
  assert (Hend : ∀ h, same_ids (c_heap c2) h →
    (∀ l, is_Some (rxs h !! l) ∨ is_Some (txs h !! l) → (l < Pos.succ (next_obj c2))%positive) →
    owns b h (next_obj c2) id →
    let c3 := c2 <| c_heap := h |> <| next_obj := Pos.succ (next_obj c2) |> in
    inv c3 ∧ frame c c3 ∧ owns b (c_heap c3) (next_obj c2) id ∧
    ∃ n', m_nodeMap c3 !! id = Some n' ∧ same_side b n n' ∧ object b n' = None ∧
          usable_port b id (port b n') c3).
  { intros h Hids Hlt Hown c3. split; [apply inv_heap; try done; lia|].
    split; [destruct Hf2; by constructor|]. split; [done|].
    exists n1. rewrite Hp1. by split_and!. }
  assert (Hold : rxs (c_heap c2) !! next_obj c2 = None ∧ txs (c_heap c2) !! next_obj c2 = None).
  { split; apply eq_None_not_Some; intros Hl;
      [pose proof (i_objects c2 Hc2 (next_obj c2) (or_introl Hl))|
       pose proof (i_objects c2 Hc2 (next_obj c2) (or_intror Hl))]; lia. }
  assert (Hpool : ∀ A (k : iqPool_t → ctl A) Q, (∀ pool, safe (k pool) Q c2) →
    safe (bind iq_pool k) Q c2).
  { intros A k Q Hk. unfold safe, bind, iq_pool. destruct (m_iq_pools c2 !! _); [apply Hk|done]. }
  assert (Hedit : edit_config id (set_port b p) c1 = (Ok tt, c2)) by by apply edit_config_ok.
  assert (Hnode : node_at id c2 = (Ok n1, c2)) by by apply node_at_ok.
  clearbody c2. clear Hc1 Hf1 En1 Eh1 Hu1 Hn1.
  destruct b; cbn [side_of sd_create uplink downlink]; unfold CreateReceiver, CreateTransmitter;
    cbn [take_port set_port] in *; unfold safe;
    rewrite (bind_ok _ _ _ _ _ Htake), (bind_ok _ _ _ _ _ Hedit), (bind_ok _ _ _ _ _ Hnode);
    apply Hpool; intros pool.
  - destruct (Receiver.ctor (Node.m_config n1) pool 0) as [r|[|e]] eqn:Er; [|exact Hc2..].
    assert (Hr : Receiver.m_NodeId r = id).
    { unfold Receiver.ctor in Er. destruct (NodeConfig.m_channels _); [done|].
      destruct (UDPServer.ctor pool); [|done]. by injection Er as <-. }
    unfold safe, alloc. cbn [fst snd]. apply Hend; cbn [modify rxs txs].
    + split; [|eauto]. cbn [modify rxs]. intros l' r' Hr'. exists r'. split; [|done].
      rewrite lookup_insert_ne; [done|]. intros <-. destruct Hold. congruence.
    + intros l [[? [[<- _]|[_ Hl]]%lookup_insert_Some]|Hl]; [lia| |].
      * assert (l < next_obj c2)%positive; [|lia]. apply (i_objects c2 Hc2). left. by eexists.
      * assert (l < next_obj c2)%positive; [|lia]. apply (i_objects c2 Hc2). by right.
    + exists r. cbn [modify rxs]. by rewrite lookup_insert_eq.
  - destruct (Transmitter.ctor (Node.m_config n1) pool) as [x|] eqn:Er; [|exact Hc2..].
    assert (Hx : Transmitter.m_NodeId x = id ∧
                 NodeConfig.m_id (Transmitter.m_node_config x) = id).
    { unfold Transmitter.ctor in Er. destruct (NodeConfig.m_channels _); [done|].
      by injection Er as <-. }
    unfold safe, alloc. cbn [fst snd]. apply Hend; cbn [modify rxs txs].
    + split; [eauto|]. cbn [modify txs]. intros l' x' Hx'. exists x'. split; [|done].
      rewrite lookup_insert_ne; [done|]. intros <-. destruct Hold. congruence.
    + intros l [Hl|[? [[<- _]|[_ Hl]]%lookup_insert_Some]]; [|lia|].
      * assert (l < next_obj c2)%positive; [|lia]. apply (i_objects c2 Hc2). by left.
      * assert (l < next_obj c2)%positive; [|lia]. apply (i_objects c2 Hc2). right. by eexists.
    + exists x. cbn [modify txs]. by rewrite lookup_insert_eq.
Qed.

(** *** Shared objects *)

Definition tame_heap (h h' : heap) : Prop :=
  same_ids h h' ∧ ∀ l, is_Some (rxs h' !! l) ∨ is_Some (txs h' !! l) →
                       is_Some (rxs h !! l) ∨ is_Some (txs h !! l).

Lemma update_rx_tame l f h :
  (∀ r, Receiver.m_NodeId (f r) = Receiver.m_NodeId r) → tame_heap h (update_rx l f h).
Proof. intros Hf. split; [by apply update_rx_ids|]. intros l'. by rewrite update_rx_old. Qed.

Lemma update_tx_tame l f h :
  (∀ x, Transmitter.m_NodeId (f x) = Transmitter.m_NodeId x ∧
        NodeConfig.m_id (Transmitter.m_node_config (f x)) = NodeConfig.m_id (Transmitter.m_node_config x)) →
  tame_heap h (update_tx l f h).
Proof.
  intros Hf. split; [|intros l'; by rewrite update_tx_old].
  split; cbn [update_tx modify rxs txs]; [eauto|]. intros l' x Hx.
  destruct (decide (l = l')) as [->|].
  - exists (f x). rewrite lookup_alter_eq, Hx. split; [done|apply Hf].
  - exists x. by rewrite lookup_alter_ne.
Qed.

Lemma side_heaps b l h :
  (∀ i o, tame_heap h (sd_formats (side_of b) l i o h)) ∧
  (∀ v, tame_heap h (sd_set_rate (side_of b) l v h)) ∧
  (∀ f, tame_heap h (sd_set_freq (side_of b) l f h)).
Proof. destruct b; split_and!; intros; (by apply update_rx_tame || by apply update_tx_tame). Qed.

Lemma inv_tame c h : inv c → tame_heap (c_heap c) h → inv (c <| c_heap := h |>).
Proof.
  intros Hc [Hids Hold]. apply (inv_heap c h (next_obj c) Hc Hids); [lia|].
  intros l Hl. by apply (i_objects c Hc), Hold.
Qed.

(** [c'] differs from [c] in the shared objects only. *)
Definition heap_only (c c' : t) : Prop :=
  frame c c' ∧ m_nodeMap c' = m_nodeMap c ∧ tame_heap (c_heap c) (c_heap c') ∧ (inv c → inv c').

Lemma on_heap_spec f c :
  tame_heap (c_heap c) (f (c_heap c)) → ∃ c', on_heap f c = (Ok tt, c') ∧ heap_only c c'.
Proof.
  intros Hf. exists (c <| c_heap := f (c_heap c) |>). split; [done|].
  refine (conj _ (conj _ (conj _ _))); [done|done|done|]. intros Hc. by apply inv_tame.
Qed.

#[export] Instance heap_only_trans : Transitive heap_only.
Proof.
  intros c1 c2 c3 (F1 & N1 & [I1 O1] & V1) (F2 & N2 & [I2 O2] & V2).
  refine (conj _ (conj _ (conj (conj _ _) _))); [by etrans|congruence| |auto|auto].
  destruct I1 as [R1 X1], I2 as [R2 X2]. split.
  - intros l r Hr. destruct (R1 l r Hr) as (r' & Hr' & E). destruct (R2 l r' Hr') as (r'' & ? & ?).
    exists r''. split; congruence.
  - intros l x Hx. destruct (X1 l x Hx) as (x' & Hx' & E & E').
    destruct (X2 l x' Hx') as (x'' & ? & ? & ?). exists x''. split_and!; congruence.
Qed.

(** The object of a side, created or not. *)
Definition obtained (b : bool) (id : string) (c : t) (n : Node.t) (l : positive) (c' : t) : Prop :=
  inv c' ∧ frame c c' ∧
  ∃ n', m_nodeMap c' !! id = Some n' ∧ same_side b n n' ∧ object b n' = Some l.

Lemma ensure_spec b id c n :
  inv c → m_nodeMap c !! id = Some n →
  safe (ensure_object (side_of b) id) (obtained b id c n) c.
Proof.
  intros Hc Hn. unfold ensure_object, safe. rewrite (bind_ok _ _ _ _ _ (node_at_ok _ _ _ Hn)).
  change (sd_object (side_of b) n) with (object b n).
  destruct (object b n) as [l|] eqn:El.
  { split; [done|]. split; [done|]. by exists n. }
  apply (safe_then _ _ _ _ _ (create_spec b id c n Hc Hn El)).
  intros l c1 (Hc1 & Hf1 & Hown & n1 & Hn1 & Hs1 & Ho1 & Hu1).
  unfold safe. rewrite (bind_ok _ _ _ _ _ (node_at_ok _ _ _ Hn1)).
  destruct (store_side b (Some l) n1) as (Hs2 & Ho2 & Hp2).
  set (n2 := sd_store (side_of b) (Some l) n1) in *. cbn [bind set_node modifies ret].
  destruct (i_nodes c1 Hc1 id n1 Hn1) as [Hid1 Hside1].
  destruct Hs2 as (Ei & Ech & Er & Eo & Ep).
  split; [|split].
  - apply inv_set_node; [done|congruence| | |].
    + intros b'. rewrite (channels_tuning n1 n2 b' Ech). apply Hside1.
    + intros b' l' Hl'. destruct (decide (b' = b)) as [->|Hne].
      * rewrite Ho2 in Hl'. injection Hl' as <-. by rewrite Hp2.
      * assert (b' = negb b) as -> by by destruct b, b'. rewrite Eo in Hl'. rewrite Ep.
        split; [by apply Hside1|by eapply owned_port].
    + intros b' k l' Ha. destruct (i_tuned c1 Hc1 b' k id l' Ha) as (n' & En' & Eo' & Hk).
      rewrite Hn1 in En'. injection En' as <-. rewrite (channels_tuning n1 n2 b' Ech).
      split; [|done]. destruct (decide (b' = b)) as [->|Hne]; [congruence|].
      assert (b' = negb b) as -> by by destruct b, b'. congruence.
  - destruct Hf1. by constructor.
  - exists n2. cbn [modify m_nodeMap]. rewrite lookup_insert_eq. split; [done|]. split; [|done].
    destruct Hs1 as (? & ? & ? & ? & ?). unfold same_side. split_and!; congruence.
Qed.

Lemma side_object_spec b id c n :
  inv c → m_nodeMap c !! id = Some n →
  safe (side_object (side_of b) false id)
    (fun o c' => ∃ l, o = Some l ∧ obtained b id c n l c') c.
Proof.
  intros Hc Hn. unfold side_object.
  apply (safe_then _ _ _ _ _ (ensure_spec b id c n Hc Hn)).
  intros l c1 (Hc1 & Hf1 & n1 & Hn1 & Hs1 & Ho1).
  unfold safe. rewrite (bind_ok _ _ _ _ _ (node_at_ok _ _ _ Hn1)).
  destruct (on_heap_spec (sd_formats (side_of b) l (NodeConfig.m_inputFormat (Node.m_config n1))
    (NodeConfig.m_outputFormat (Node.m_config n1))) c1) as (c2 & E2 & Hf2 & En2 & _ & Hi2);
    [apply side_heaps|].
  rewrite (bind_ok _ _ _ _ _ E2). exists l. split; [done|]. split; [by apply Hi2|].
  split; [by etrans|]. exists n1. by rewrite En2.
Qed.

Lemma side_object_ok b id c n l :
  m_nodeMap c !! id = Some n → object b n = Some l →
  ∃ c', side_object (side_of b) false id c = (Ok (Some l), c') ∧ heap_only c c'.
Proof.
  intros Hn Hl. unfold side_object, ensure_object.
  assert (He : (bind (node_at id) (fun n => match sd_object (side_of b) n with
      | Some l => ret l
      | None => bind (sd_create (side_of b) id) (fun l => bind (node_at id) (fun n =>
          bind (set_node id (sd_store (side_of b) (Some l) n)) (fun _ => ret l)))
      end)) c = (Ok l, c)).
  { rewrite (bind_ok _ _ _ _ _ (node_at_ok _ _ _ Hn)).
    change (sd_object (side_of b) n) with (object b n). by rewrite Hl. }
  rewrite (bind_ok _ _ _ _ _ He), (bind_ok _ _ _ _ _ (node_at_ok _ _ _ Hn)).
  destruct (on_heap_spec (sd_formats (side_of b) l (NodeConfig.m_inputFormat (Node.m_config n))
    (NodeConfig.m_outputFormat (Node.m_config n))) c) as (c2 & E2 & H2); [apply side_heaps|].
  exists c2. by rewrite (bind_ok _ _ _ _ _ E2).
Qed.

(** The rate of a side. *)
Lemma apply_rate_ok b id c n l :
  m_nodeMap c !! id = Some n →
  ∃ c', apply_rate (side_of b) (Some l) id c = (Ok tt, c') ∧ heap_only c c'.
Proof.
  intros Hn. unfold apply_rate. rewrite (bind_ok _ _ _ _ _ (node_at_ok _ _ _ Hn)).
  apply on_heap_spec, side_heaps.
Qed.

(** *** Intermediates *)

Lemma new_intermediate_spec h f d :
  let i := new_intermediate f d in
  membership_inv (h, i) ∧ Intermediate.m_freq i = f ∧ Intermediate.m_sandboxNodes i = ∅ ∧
  (∀ b, members b i = ∅) ∧ ∀ id, Intermediate.m_workers i !! id = None.
Proof.
  assert (H0 : membership_inv (h, Intermediate.ctor f 10)) by apply ctor_inv.
  assert (Hgo : ∀ i, membership_inv (h, i) → Intermediate.m_freq i = f →
    Intermediate.m_sandboxNodes i = ∅ → (∀ b, members b i = ∅) → Intermediate.m_workers i = ∅ →
    membership_inv (h, i) ∧ Intermediate.m_freq i = f ∧ Intermediate.m_sandboxNodes i = ∅ ∧
    (∀ b, members b i = ∅) ∧ ∀ id, Intermediate.m_workers i !! id = None).
  { intros i ? ? ? ? E. split_and!; try done. intros id. by rewrite E. }
  unfold new_intermediate. destruct d as [d|]; [|apply Hgo; try done; by intros []].
  pose proof (global_inv h _ (GModel (pd_model d) (groundCoeff d)) H0) as H1.
  pose proof (global_inv h _ (GScenario (scenario d)) H1) as H2.
  cbn [apply_global] in H1, H2. unfold Intermediate.set3gppScenario in *.
  destruct (pd_model d); cbv zeta in *; try destruct (empty_str (scenario d));
    apply Hgo; try done; by intros [].
Qed.

Lemma empty_members i :
  (∀ b, members b i = ∅) → Intermediate.m_sandboxNodes i = ∅ → Intermediate.isEmpty i = true.
Proof.
  intros Hm Hs. pose proof (Hm true) as E1. pose proof (Hm false) as E2. cbn [members] in E1, E2.
  unfold Intermediate.isEmpty. by rewrite !bool_decide_eq_true_2.
Qed.

Definition same_members (c c' : t) : Prop := ∀ b k id l, attached c b k id l ↔ attached c' b k id l.

Lemma CreateChannel_spec f c :
  inv c → plain f →
  ∃ a c', CreateChannel f c = (Ok a, c') ∧ inv c' ∧ m_nodeMap c' = m_nodeMap c ∧
    same_members c c' ∧ (∃ k, (k, a) ∈ m_intermediateMap c' ∧ same_key k f) ∧
    (∀ p, p ∈ m_intermediateMap c → p ∈ m_intermediateMap c') ∧
    (∀ p i, c_ims c !! p = Some i → c_ims c' !! p = Some i) ∧
    (∀ p i, c_ims c' !! p = Some i → c_ims c !! p = Some i ∨ Intermediate.isEmpty i = true).
Proof.
  intros Hc Hf. unfold CreateChannel.
  assert (Hfind : FindChannel f c = (Ok (FreqMap.find f (m_intermediateMap c)), c)) by done.
  rewrite (bind_ok _ _ _ _ _ Hfind).
  destruct (FreqMap.find f (m_intermediateMap c)) as [a|] eqn:E.
  { exists a, c. apply FreqOrder.find_member in E. split_and!; try done. by left. }
  destruct (new_intermediate_spec (c_heap c) f (m_propagationDefaults c))
    as (Hi & Hif & His & Him & _).
  set (i := new_intermediate f (m_propagationDefaults c)) in *.
  pose proof (inv_new_channel c f i Hc Hf E Hif His Him Hi) as Hc'.
  assert (Hnew : c_ims c !! next_obj c = None).
  { apply eq_None_not_Some. intros Hs%(i_ims c Hc). lia. }
  eexists _, _. split; [reflexivity|]. unfold same_members, attached.
  cbn [modify m_nodeMap m_intermediateMap c_ims next_obj].
  refine (conj _ (conj _ (conj _ (conj _ (conj _ (conj _ _)))))).
  - destruct Hc'; constructor; assumption.
  - done.
  - intros b k id l. setoid_rewrite FreqOrder.insert_elem; [|done..]. split.
    + intros (a & j & Hin & Hj & Hl). exists a, j. split_and!; [by right| |done].
      rewrite lookup_insert_ne; [done|congruence].
    + intros (a & j & Hin & Hj & Hl).
      apply lookup_insert_Some in Hj as [[<- <-]|[Hne Hj]]; [by rewrite Him in Hl|].
      exists a, j. destruct Hin as [[= _ ->]|Hin]; done.
  - exists f. rewrite FreqOrder.insert_elem by done. split; [by left|].
    by apply same_key_rank.
  - intros p Hp. apply FreqOrder.insert_elem; [done|by right].
  - intros p j Hj. rewrite lookup_insert_ne; [done|congruence].
  - intros p j [[<- <-]|[_ Hj]]%lookup_insert_Some; [right|by left].
    by apply empty_members.
Qed.

Lemma not_empty_member i b id l :
  members b i !! id = Some l → Intermediate.isEmpty i = false.
Proof.
  intros Hl. unfold Intermediate.isEmpty. destruct (bool_decide (Intermediate.m_destinationMap i = ∅)) eqn:E1,
    (bool_decide (Intermediate.m_sourceMap i = ∅)) eqn:E2; try done.
  apply bool_decide_eq_true_1 in E1, E2.
  destruct b; cbn [members] in Hl; rewrite ?E1, ?E2 in Hl; done.
Qed.

Lemma entry_address c k k' a :
  inv c → (k, a) ∈ m_intermediateMap c → (k', a) ∈ m_intermediateMap c → k = k'.
Proof.
  intros Hc H1 H2. destruct (i_channels c Hc k a H1) as (i1 & ? & ? & _).
  destruct (i_channels c Hc k' a H2) as (i2 & ? & ? & _). congruence.
Qed.

Lemma entry_plain c k a : inv c → (k, a) ∈ m_intermediateMap c → plain k.
Proof. intros Hc Hin. destruct (i_sorted c Hc) as [_ Hp]. rewrite Forall_forall in Hp. by apply (Hp _ Hin). Qed.

Lemma entry_unique c k k' a a' :
  inv c → (k, a) ∈ m_intermediateMap c → (k', a') ∈ m_intermediateMap c → same_key k' k → k = k' ∧ a = a'.
Proof.
  intros Hc H1 H2 Hs. assert (a = a') as <-; [|by eapply entry_address in H2].
  pose proof (entry_plain c k a Hc H1) as Hp.
  pose proof (FreqOrder.find_entry k _ k a (i_sorted c Hc) Hp H1 ltac:(by apply same_key_rank)).
  pose proof (FreqOrder.find_entry k _ k' a' (i_sorted c Hc) Hp H2 Hs). congruence.
Qed.

(** The world an intermediate runs in. *)
Definition world_at (c : t) (i : Intermediate.t) : world :=
  mkWorld (c_heap c) i (m_iq_pools c) (m_numa_node c).

Definition idle (b : bool) (id : string) (i : Intermediate.t) : Prop :=
  b = true → ∀ w, Intermediate.m_workers i !! id = Some w → Intermediate.queue w = [].

(** No burst of node [id] waits in a channel of the map. *)
Definition idle_node (id : string) (c : t) : Prop :=
  ∀ k a i, (k, a) ∈ m_intermediateMap c → c_ims c !! a = Some i → idle true id i.

Lemma detach_ok b l id c i :
  owns b (c_heap c) l id → idle b id i →
  ∃ w, sd_detach (side_of b) l (world_at c i) = Ok w.
Proof.
  destruct b; cbn [side_of sd_detach uplink downlink].
  - intros (r & Hr & Hid) Hidle. unfold detach_rx, DataPath.detach_source, Intermediate.DetachSource.
    cbn [world_at hp im]. rewrite Hr, Hid.
    destruct (Intermediate.m_sourceMap i !! id); cbn [obind ofold]; [|by eexists].
    destruct (Intermediate.m_workers i !! id) as [w|] eqn:Ew; [|by eexists].
    rewrite (Hidle eq_refl w Ew). by eexists.
  - intros (x & Hx & Hid & _) _. unfold detach_tx, Intermediate.DetachDestination.
    cbn [world_at hp im]. rewrite Hx, Hid.
    destruct (Intermediate.m_destinationMap i !! id); by eexists.
Qed.

(** Detaching from the intermediate at [a]. *)
Record detached_at (b : bool) (id : string) (a : positive) (c c' : t) : Prop := mkDetached {
  da_inv : inv c';
  da_nodes : m_nodeMap c' = m_nodeMap c;
  da_map : m_intermediateMap c' = m_intermediateMap c;
  da_members : ∀ b' k id' l, attached c' b' k id' l ↔
    attached c b' k id' l ∧ ((k, a) ∈ m_intermediateMap c → (b', id') ≠ (b, id));
  da_freq : ∀ i', c_ims c' !! a = Some i' → ∃ i, c_ims c !! a = Some i ∧
    Intermediate.m_freq i' = Intermediate.m_freq i;
  da_ims : ∀ p, p ≠ a → c_ims c' !! p = c_ims c !! p;
  da_idle : ∀ p i', c_ims c' !! p = Some i' →
    ∃ i, c_ims c !! p = Some i ∧ ∀ id', idle true id' i → idle true id' i';
}.

Lemma detach_step b id a i l w c :
  inv c → c_ims c !! a = Some i → owns b (c_heap c) l id →
  sd_detach (side_of b) l (world_at c i) = Ok w →
  ∃ c', on_channel a (sd_detach (side_of b) l) c = (Ok tt, c') ∧ detached_at b id a c c' ∧
    c_ims c' !! a = Some (im w).
Proof.
  intros Hc Hi Hown Hw.
  destruct (detach_effect b l id (world_at c i) w Hown Hw) as ([Tids Told Tf Ts Tinv] & Hm & Hm' & Hwk).
  cbn [world_at hp im] in *.
  set (c1 := c <| c_heap := hp w |> <| c_ims := <[a := im w]> (c_ims c) |> <| m_iq_pools := pools w |>).
  assert (Hmem : ∀ b' id' l', members b' (im w) !! id' = Some l' →
    members b' i !! id' = Some l' ∧ (b', id') ≠ (b, id)).
  { intros b' id' l' Hl. destruct (decide (b' = b)) as [->|Hne].
    - rewrite Hm in Hl. apply lookup_delete_Some in Hl as [? Hl]. split; [done|congruence].
    - assert (b' = negb b) as -> by by destruct b, b'. rewrite Hm' in Hl. split; [done|congruence]. }
  assert (Hat : ∀ b' k' id' l', attached c1 b' k' id' l' ↔
    attached c b' k' id' l' ∧ ((k', a) ∈ m_intermediateMap c → (b', id') ≠ (b, id))).
  { intros b' k' id' l'. unfold attached, c1. cbn [modify m_intermediateMap c_ims]. split.
    - intros (a' & i' & Hin & Hi' & Hl). destruct (decide (a = a')) as [<-|Hne].
      + rewrite lookup_insert_eq in Hi'. injection Hi' as <-. apply Hmem in Hl as [Hl Hne].
        split; [by exists a, i|done].
      + rewrite lookup_insert_ne in Hi' by done. split; [by exists a', i'|].
        intros Hka. destruct Hne. pose proof (entry_plain c k' a Hc Hka).
        eapply (entry_unique c k' k' a a'); try done. by apply same_key_rank.
    - intros [(a' & i' & Hin & Hi' & Hl) Hor]. destruct (decide (a = a')) as [<-|Hne].
      + exists a, (im w). rewrite lookup_insert_eq. split_and!; try done.
        assert (i' = i) as -> by congruence.
        destruct (decide (b' = b)) as [->|Hb].
        * rewrite Hm, lookup_delete_ne; [done|]. intros <-. by apply Hor.
        * assert (b' = negb b) as -> by by destruct b, b'. by rewrite Hm'.
      + exists a', i'. by rewrite lookup_insert_ne. }
  exists c1. split; [|split].
  - unfold on_channel. rewrite Hi. unfold world_at in Hw. by rewrite Hw.
  - constructor; try done.
    + apply (inv_channel c a i w); try done.
      * intros l' Hl'. by apply (i_objects c Hc), Told.
      * intros b' id' l' [? _]%Hmem. by left.
    + intros i'. unfold c1. cbn [modify c_ims]. rewrite lookup_insert_eq. intros [= <-]. by exists i.
    + intros p Hp. unfold c1. cbn [modify c_ims]. by rewrite lookup_insert_ne.
    + intros p j. unfold c1. cbn [modify c_ims].
      intros [[<- <-]|[_ Hj]]%lookup_insert_Some; [exists i|by exists j].
      split; [done|]. intros id' Hidle _ wk Hwk'. eapply (Hidle eq_refl). by eapply lookup_weaken.
  - apply lookup_insert_eq.
Qed.

(** After leaving: not attached there any more, all others still attached. *)
Record left_from (b : bool) (k : float) (id : string) (c c' : t) : Prop := mkLeft {
  lf_inv : inv c';
  lf_nodes : m_nodeMap c' = m_nodeMap c;
  lf_gone : ∀ l, ¬ attached c' b k id l;
  lf_less : ∀ b' k' id' l, attached c' b' k' id' l → attached c b' k' id' l;
  lf_others : ∀ b' k' id' l, attached c b' k' id' l → (b', id') ≠ (b, id) → attached c' b' k' id' l;
  lf_map : ∀ k' a, (k', a) ∈ m_intermediateMap c → ¬ same_key k' k → (k', a) ∈ m_intermediateMap c';
}.

Lemma leave_step b id k a i l w c :
  inv c → (k, a) ∈ m_intermediateMap c → c_ims c !! a = Some i → owns b (c_heap c) l id →
  sd_detach (side_of b) l (world_at c i) = Ok w →
  ∃ c', leave (side_of b) (Some l) id a c = (Ok tt, c') ∧ left_from b k id c c'.
Proof.
  intros Hc Hka Hi Hown Hw.
  destruct (detach_step b id a i l w c Hc Hi Hown Hw) as (c1 & Hon & [Hc1 En Em Hat Hfr Hims _] & Hi1).
  destruct (Hfr _ Hi1) as (i0 & Ei0 & Tf). assert (i0 = i) as -> by congruence.
  destruct (i_channels c Hc k a Hka) as (i0 & Ei & Hfi & _). assert (i0 = i) as -> by congruence.
  set (c2 := if Intermediate.isEmpty (im w)
             then c1 <| m_intermediateMap := FreqMap.erase (Intermediate.m_freq (im w)) (m_intermediateMap c1) |>
             else c1).
  exists c2. split.
  { unfold leave. rewrite (bind_ok _ _ _ _ _ Hon). unfold isChannelEmpty, modifies. by rewrite Hi1. }
  assert (Hn2 : m_nodeMap c2 = m_nodeMap c) by (unfold c2; by destruct (Intermediate.isEmpty _)).
  assert (Hi2 : c_ims c2 = c_ims c1) by (unfold c2; by destruct (Intermediate.isEmpty _)).
  assert (Hsub : sublist (m_intermediateMap c2) (m_intermediateMap c1)).
  { unfold c2. destruct (Intermediate.isEmpty _); [apply FreqOrder.erase_sublist|done]. }
  assert (Hin : ∀ p, p ∈ m_intermediateMap c2 → p ∈ m_intermediateMap c1).
  { intros p Hp. by eapply elem_of_submseteq, sublist_submseteq. }
  assert (Hkeep : ∀ k' a', (k', a') ∈ m_intermediateMap c1 →
    ¬ same_key k' k ∨ Intermediate.isEmpty (im w) = false → (k', a') ∈ m_intermediateMap c2).
  { intros k' a' Hp Hor. unfold c2. destruct (Intermediate.isEmpty _); [|done].
    destruct Hor as [Hk|]; [|done]. apply FreqOrder.erase_other; [done|]. by rewrite Tf, Hfi. }
  assert (H21 : ∀ b' k' id' l', attached c2 b' k' id' l' → attached c1 b' k' id' l').
  { intros b' k' id' l' (a' & i' & Hp & Hi' & Hl). exists a', i'. rewrite <- Hi2.
    split_and!; [by apply Hin|done|done]. }
  constructor; try done.
  - unfold c2 in *. destruct (Intermediate.isEmpty _); [|done]. by apply inv_shrink.
  - intros l' [_ Hne]%H21%Hat. by apply Hne.
  - intros b' k' id' l' [? _]%H21%Hat. done.
  - intros b' k' id' l' Ha Hne.
    assert (Ha1 : attached c1 b' k' id' l') by (apply (proj2 (Hat _ _ _ _)); exact (conj Ha (fun _ => Hne))).
    destruct Ha1 as (a' & i' & Hp & Hi' & Hl). exists a', i'. rewrite Hi2. split_and!; try done.
    apply Hkeep; [done|]. destruct (decide (a' = a)) as [->|Hna].
    + right. assert (i' = im w) as -> by congruence. by eapply not_empty_member.
    + left. intros Hk. apply Hna. symmetry. rewrite Em in Hp.
      exact (proj2 (entry_unique c k k' a a' Hc Hka Hp Hk)).
  - intros k' a' Hp Hk. apply Hkeep; [by rewrite Em|by left].
Qed.

Lemma leave_spec b id k a l c n :
  inv c → (k, a) ∈ m_intermediateMap c → m_nodeMap c !! id = Some n → object b n = Some l →
  safe (leave (side_of b) (Some l) id a) (fun _ => left_from b k id c) c.
Proof.
  intros Hc Hka Hn Hl. destruct (i_channels c Hc k a Hka) as (i & Hi & _).
  assert (Hown : owns b (c_heap c) l id) by by apply (i_nodes c Hc id n Hn).
  destruct (sd_detach (side_of b) l (world_at c i)) as [w|e] eqn:Ew.
  - destruct (leave_step b id k a i l w c) as (c' & E & Hleft); try done. by eapply safe_ok.
  - unfold safe, leave, bind, on_channel. rewrite Hi. unfold world_at in Ew. by rewrite Ew.
Qed.

Lemma leave_ok b id k a i l c n :
  inv c → (k, a) ∈ m_intermediateMap c → m_nodeMap c !! id = Some n → object b n = Some l →
  c_ims c !! a = Some i → idle b id i →
  ∃ c', leave (side_of b) (Some l) id a c = (Ok tt, c') ∧ left_from b k id c c'.
Proof.
  intros Hc Hka Hn Hl Hi Hidle.
  assert (Hown : owns b (c_heap c) l id) by by apply (i_nodes c Hc id n Hn).
  destruct (detach_ok b l id c i Hown Hidle) as [w Hw]. by eapply leave_step.
Qed.

(** Joining the channel a node is tuned to always succeeds. *)
Lemma join_spec b id nc k a l c n f :
  inv c → (k, a) ∈ m_intermediateMap c → m_nodeMap c !! id = Some n → object b n = Some l →
  same_key k (tuning b n) →
  ∃ c', join (side_of b) (Some l) id nc f a c = (Ok tt, c') ∧ inv c' ∧
    m_nodeMap c' = m_nodeMap c ∧ attached c' b k id l ∧
    (∀ b' k' id' l', attached c b' k' id' l' → attached c' b' k' id' l') ∧
    (∀ b' k' id' l', attached c' b' k' id' l' → (b', id') ≠ (b, id) → attached c b' k' id' l').
Proof.
  intros Hc Hka Hn Hl Hk. unfold join.
  destruct (on_heap_spec (sd_set_freq (side_of b) l f) c) as (c1 & E1 & H1); [apply side_heaps|].
  rewrite (bind_ok _ _ _ _ _ E1).
  assert (Hn1 : m_nodeMap c1 !! id = Some n) by (destruct H1 as (_ & -> & _); done).
  destruct (apply_rate_ok b id c1 n l Hn1) as (c2 & E2 & H2). rewrite (bind_ok _ _ _ _ _ E2).
  assert (H02 : heap_only c c2) by by etrans.
  destruct H02 as (Hf & En & _ & Hi2). specialize (Hi2 Hc). clear E1 E2 H1 H2 Hn1.
  assert (Hka2 : (k, a) ∈ m_intermediateMap c2) by by rewrite (f_map _ _ Hf).
  assert (Hn2 : m_nodeMap c2 !! id = Some n) by by rewrite En.
  rewrite <- En. assert (Hat : ∀ b' k' id' l', attached c b' k' id' l' ↔ attached c2 b' k' id' l')
    by (intros; by apply frame_attached).
  setoid_rewrite Hat. clear Hat Hf En Hc Hka Hn c c1. rename c2 into c, Hi2 into Hc,
    Hka2 into Hka, Hn2 into Hn.
  destruct (i_channels c Hc k a Hka) as (i & Hi & Hfi & Hsi & Hii).
  assert (Hown : owns b (c_heap c) l id) by by apply (i_nodes c Hc id n Hn).
  assert (Hw : ∃ w, sd_attach (side_of b) l (world_at c i) = Ok w).
  { destruct b; cbn [side_of sd_attach uplink downlink world_at hp im].
    - destruct Hown as (r & Hr & _). unfold attach_rx. cbn [world_at hp im].
      destruct (AttachSource_ok (c_heap c) i l r Hii Hsi Hr) as (h' & i' & ->). by eexists.
    - destruct Hown as (x & Hx & Hxid & Hcid). unfold attach_tx. cbn [world_at hp im].
      destruct (AttachDestination_ok (c_heap c) i l x Hii Hsi Hx) as (i' & ->); [congruence|].
      by eexists. }
  destruct Hw as [w Hw].
  destruct (attach_effect b l id (world_at c i) w Hown Hw) as ([Tids Told Tf Ts Tinv] & Hm & Hm').
  cbn [world_at hp im] in *.
  set (c' := c <| c_heap := hp w |> <| c_ims := <[a := im w]> (c_ims c) |> <| m_iq_pools := pools w |>).
  assert (Hon : on_channel a (sd_attach (side_of b) l) c = (Ok tt, c')).
  { unfold on_channel. rewrite Hi. unfold world_at in Hw. by rewrite Hw. }
  assert (Hgrow : ∀ b' id' l', members b' i !! id' = Some l' → members b' (im w) !! id' = Some l').
  { intros b' id' l' Hl'. destruct (decide (b' = b)) as [->|Hne].
    - rewrite Hm. destruct (members b i !! id) eqn:E; [done|].
      rewrite lookup_insert_ne; [done|congruence].
    - assert (b' = negb b) as -> by by destruct b, b'. by rewrite Hm'. }
  assert (Hself : members b (im w) !! id = Some l).
  { rewrite Hm. destruct (members b i !! id) as [l0|] eqn:E; [|apply lookup_insert_eq].
    destruct (i_tuned c Hc b k id l0) as (n0 & En0 & Eo0 & _); [by exists a, i|].
    rewrite E. congruence. }
  assert (Hshrink : ∀ b' id' l', members b' (im w) !! id' = Some l' → (b', id') ≠ (b, id) →
    members b' i !! id' = Some l').
  { intros b' id' l' Hl' Hne. destruct (decide (b' = b)) as [->|Hb].
    - rewrite Hm in Hl'. destruct (members b i !! id) eqn:E; [done|].
      rewrite lookup_insert_ne in Hl'; [done|congruence].
    - assert (b' = negb b) as -> by by destruct b, b'. by rewrite Hm' in Hl'. }
  exists c'. split; [done|]. split; [|split; [done|split; [|split]]].
  - apply (inv_channel c a i w); try done.
    + intros l' Hl'. by apply (i_objects c Hc), Told.
    + intros b' id' l' Hl'. destruct (decide (b' = b)) as [->|Hne].
      * rewrite Hm in Hl'. destruct (members b i !! id) eqn:E; [by left|].
        apply lookup_insert_Some in Hl' as [[<- <-]|[_ Hl']]; [right|by left]. exists n. by rewrite Hfi.
      * assert (b' = negb b) as -> by by destruct b, b'. rewrite Hm' in Hl'. by left.
  - exists a, (im w). unfold c'. cbn [modify m_intermediateMap c_ims].
    by rewrite lookup_insert_eq.
  - intros b' k' id' l' (a' & i' & Hp & Hi' & Hl'). unfold attached, c'.
    cbn [modify m_intermediateMap c_ims]. destruct (decide (a = a')) as [<-|Hne].
    + exists a, (im w). rewrite lookup_insert_eq. split_and!; try done. apply Hgrow. congruence.
    + exists a', i'. by rewrite lookup_insert_ne.
  - intros b' k' id' l' (a' & i' & Hp & Hi' & Hl') Hne. unfold c' in Hp, Hi'.
    cbn [modify m_intermediateMap c_ims] in Hp, Hi'.
    apply lookup_insert_Some in Hi' as [[<- <-]|[_ Hi']]; [|by exists a', i'].
    exists a, i. split_and!; try done. by apply Hshrink.
Qed.

End Sides.
