(* ===== verification/Tuning.v ===== *)
(** [Controller::AssignULChannel] and [AssignDLChannel] as one action over a
    side: it keeps the invariant on every path, and a side that is retuned
    always arrives at its new frequency, alone. *)

From Stdlib Require Import ZArith Lia Strings.String Floats.SpecFloat.
From stdpp Require Import prelude list strings gmap fin_maps list_numbers relations.
From S2P Require Import Prelude Ieee Common CxxLib DataPool Json NodeConfig NodeEntity Signal.
From S2P Require Import UdpClient UdpServer Receiver Transmitter Channel Intermediate DataPath.
From S2P Require Import Controller Accounting Pipeline ControllerInv Sides.

Section Tuning.
Import Controller.

(** *** Assigning a channel *)

Lemma update_side b f n cfg :
  sd_update (side_of b) f (Node.m_config n) = Some cfg →
  let n' := n <| Node.m_config := cfg |> in
  NodeConfig.m_id cfg = NodeConfig.m_id (Node.m_config n) ∧
  NodeConfig.m_sample_rate cfg = NodeConfig.m_sample_rate (Node.m_config n) ∧
  tuning b n' = f ∧ tuning (negb b) n' = tuning (negb b) n ∧
  (∀ b', object b' n' = object b' n ∧ port b' n' = port b' n).
Proof.
  destruct b; cbn [side_of sd_update uplink downlink negb];
    unfold NodeConfig.updateTxFreq, NodeConfig.updateRxFreq, NodeConfig.update_channel, tuning, tuned;
    cbn [side_of sd_freq uplink downlink]; change (Z.to_nat 0) with 0%nat;
    destruct (NodeConfig.m_channels (Node.m_config n)) as [|ch chs] eqn:E; try done;
    cbn [lookup list_lookup]; intros [= <-]; split_and!; try done; by intros [].
Qed.

(** Nobody but node [id] moved, and it is attached nowhere on side [b]. *)
Record departed (b : bool) (id : string) (c c' : t) : Prop := mkDeparted {
  dp_inv : inv c';
  dp_nodes : m_nodeMap c' = m_nodeMap c;
  dp_gone : ∀ k l, ¬ attached c' b k id l;
  dp_others : ∀ b' k' id' l, (b', id') ≠ (b, id) →
    attached c b' k' id' l ↔ attached c' b' k' id' l;
}.

(** [prev] is the entry of the frequency the node is tuned to; without one it
    is attached nowhere. *)
Definition previous (b : bool) (id : string) (n : Node.t) (c : t) (prev : option positive) : Prop :=
  match prev with
  | Some p => ∃ k, (k, p) ∈ m_intermediateMap c ∧ same_key k (tuning b n)
  | None => ∀ k l, ¬ attached c b k id l
  end.

Lemma previous_find b id n c :
  inv c → m_nodeMap c !! id = Some n →
  previous b id n c (FreqMap.find (tuning b n) (m_intermediateMap c)).
Proof.
  intros Hc Hn. destruct (FreqMap.find _ _) as [p|] eqn:E; [by apply FreqOrder.find_member|].
  intros k l Ha. destruct (i_tuned c Hc b k id l Ha) as (n0 & En0 & _ & Hk).
  assert (n0 = n) as -> by congruence. destruct Ha as (a & i & Hka & _).
  pose proof (proj1 (proj2 (i_nodes c Hc id n Hn) b)) as Hp.
  pose proof (FreqOrder.find_entry _ _ k a (i_sorted c Hc) Hp Hka Hk). congruence.
Qed.

Lemma left_departed b id n k p c c' :
  inv c → m_nodeMap c !! id = Some n → (k, p) ∈ m_intermediateMap c → same_key k (tuning b n) →
  left_from b k id c c' → departed b id c c'.
Proof.
  intros Hc Hn Hkp Hk [Hc' En Hgone Hless Hoth Hmap]. constructor; try done; [|by split; auto].
  intros k' l Ha. pose proof (Hless _ _ _ _ Ha) as Ha0.
  destruct (i_tuned c Hc b k' id l Ha0) as (n0 & En0 & _ & Hk'). assert (n0 = n) as -> by congruence.
  destruct Ha0 as (a' & i' & Hin & _).
  pose proof (proj1 (proj2 (i_nodes c Hc id n Hn) b)) as Hp.
  pose proof (entry_plain _ _ _ Hc Hkp). pose proof (entry_plain _ _ _ Hc Hin).
  assert (k = k') as <-; [|by eapply Hgone].
  eapply (entry_unique c k k' p a'); try done. apply same_key_rank; [done..|].
  apply same_key_rank in Hk, Hk'; try done. congruence.
Qed.

Lemma nobody_departed b id n c :
  inv c → previous b id n c None → departed b id c c.
Proof. intros Hc Hprev. by constructor. Qed.

Section Assign.
Context (b : bool) (id : string) (nc : NodeConfig.t) (f : float).

(** Leaving the previous frequency, if there is such a channel; the channel of
    the new one stays. *)
Definition depart (obj : option positive) (prev : option positive) : ctl unit :=
  match prev with
  | Some p => leave (side_of b) obj id p
  | None => ret tt
  end.

Definition moving_out (k : float) (a : positive) (c c' : t) : Prop :=
  departed b id c c' ∧ (k, a) ∈ m_intermediateMap c'.

Lemma depart_keeps k a k0 p n c c' :
  inv c → m_nodeMap c !! id = Some n → (k0, p) ∈ m_intermediateMap c →
  same_key k0 (tuning b n) → (k, a) ∈ m_intermediateMap c → same_key k f → plain f →
  retuned (tuning b n) f = true → left_from b k0 id c c' → moving_out k a c c'.
Proof.
  intros Hc Hn Hkp Hk0 Hka Hk Hf Hret Hleft. split; [exact (left_departed b id n k0 p c c' Hc Hn Hkp Hk0 Hleft)|].
  apply (lf_map _ _ _ _ _ Hleft); [done|]. intros Hs.
  pose proof (proj1 (proj2 (i_nodes c Hc id n Hn) b)) as Hp.
  pose proof (entry_plain _ _ _ Hc Hkp). pose proof (entry_plain _ _ _ Hc Hka).
  rewrite same_not_retuned in Hret; [done|]. apply (same_key_rank _ _ Hp Hf).
  apply same_key_rank in Hs, Hk, Hk0; try done. congruence.
Qed.

Lemma depart_spec k a l prev n c :
  inv c → m_nodeMap c !! id = Some n → object b n = Some l → previous b id n c prev →
  (k, a) ∈ m_intermediateMap c → same_key k f → plain f → retuned (tuning b n) f = true →
  safe (depart (Some l) prev) (fun _ => moving_out k a c) c.
Proof.
  intros Hc Hn Hl Hprev Hka Hk Hf Hret. destruct prev as [p|]; cbn [depart].
  - destruct Hprev as (k0 & Hkp & Hk0).
    eapply safe_mono; [exact (leave_spec b id k0 p l c n Hc Hkp Hn Hl)|]. intros u c' Hleft. exact (depart_keeps k a k0 p n c c' Hc Hn Hkp Hk0 Hka Hk Hf Hret Hleft).
  - eapply safe_ok; [done|]. split; [by eapply nobody_departed|done].
Qed.

Lemma depart_ok k a l prev n c :
  inv c → m_nodeMap c !! id = Some n → object b n = Some l → previous b id n c prev →
  (∀ p i, prev = Some p → c_ims c !! p = Some i → idle b id i) →
  (k, a) ∈ m_intermediateMap c → same_key k f → plain f → retuned (tuning b n) f = true →
  ∃ c', depart (Some l) prev c = (Ok tt, c') ∧ moving_out k a c c'.
Proof.
  intros Hc Hn Hl Hprev Hidle Hka Hk Hf Hret. destruct prev as [p|]; cbn [depart].
  - destruct Hprev as (k0 & Hkp & Hk0). destruct (i_channels c Hc k0 p Hkp) as (i & Hi & _).
    destruct (leave_ok b id k0 p i l c n) as (c' & E & Hleft); try done; [by eapply Hidle|].
    exists c'. split; [done|]. exact (depart_keeps k a k0 p n c c' Hc Hn Hkp Hk0 Hka Hk Hf Hret Hleft).
  - exists c. split; [done|]. split; [by eapply nobody_departed|done].
Qed.

(** Joining the new one: node and members afterwards. *)
Record arrived (k : float) (l : positive) (n : Node.t) (c c' : t) : Prop := mkArrived {
  ar_inv : inv c';
  ar_node : ∃ n', m_nodeMap c' !! id = Some n' ∧ tuning b n' = f ∧
    tuning (negb b) n' = tuning (negb b) n ∧ (∀ b', object b' n' = object b' n) ∧
    NodeConfig.m_channels (Node.m_config n') ≠ [] ∧
    NodeConfig.m_sample_rate (Node.m_config n') = NodeConfig.m_sample_rate (Node.m_config n);
  ar_member : attached c' b k id l;
  ar_others : ∀ b' k' id' l', (b', id') ≠ (b, id) →
    attached c b' k' id' l' ↔ attached c' b' k' id' l';
}.

Lemma arrive_spec k a l n c :
  inv c → m_nodeMap c !! id = Some n → object b n = Some l → (∀ k l, ¬ attached c b k id l) →
  (k, a) ∈ m_intermediateMap c → same_key k f → plain f →
  NodeConfig.m_channels (Node.m_config n) ≠ [] →
  ∃ c', bind (node_at id) (fun n =>
      match sd_update (side_of b) f (Node.m_config n) with
      | None => throw OutOfRange
      | Some cfg =>
          bind (set_node id (n <| Node.m_config := cfg |>)) (fun _ =>
          bind (join (side_of b) (Some l) id nc f a) (fun _ => ret true))
      end) c = (Ok true, c') ∧ arrived k l n c c'.
Proof.
  intros Hc Hn Hl Hno Hka Hk Hf Hch. rewrite (bind_ok _ _ _ _ _ (node_at_ok _ _ _ Hn)).
  assert (Hup : ∃ cfg, sd_update (side_of b) f (Node.m_config n) = Some cfg ∧ NodeConfig.m_channels cfg ≠ []).
  { destruct b; cbn [side_of sd_update uplink downlink];
      unfold NodeConfig.updateTxFreq, NodeConfig.updateRxFreq, NodeConfig.update_channel;
      change (Z.to_nat 0) with 0%nat; destruct (NodeConfig.m_channels (Node.m_config n)); try done;
      by eexists. }
  destruct Hup as (cfg & Hup & Hch'). rewrite Hup.
  destruct (update_side b f n cfg Hup) as (Hid & Hrate & Ht & Ht' & Ho).
  set (n' := n <| Node.m_config := cfg |>) in *.
  destruct (i_nodes c Hc id n Hn) as [Hid0 Hside].
  set (c1 := c <| m_nodeMap := <[id := n']> (m_nodeMap c) |>).
  assert (Hset : set_node id n' c = (Ok tt, c1)) by done. rewrite (bind_ok _ _ _ _ _ Hset).
  assert (Htun : ∀ b', tuning b' n' = if Bool.eqb b' b then f else tuning b' n).
  { intros b'. destruct (Bool.eqb_spec b' b) as [->|Hne]; [done|].
    assert (b' = negb b) as -> by by destruct b, b'. done. }
  assert (Hc1 : inv c1).
  { apply inv_set_node; [done|by rewrite <- Hid0| | |].
    - intros b'. rewrite Htun. destruct (Bool.eqb b' b); [done|apply Hside].
    - intros b' l' Hl'. destruct (Ho b') as [Eo Ep]. rewrite Eo in Hl'. rewrite Ep.
      split; [by apply Hside|by eapply owned_port].
    - intros b' k' l' Ha. destruct (i_tuned c Hc b' k' id l' Ha) as (n0 & En0 & Eo0 & Hk0).
      assert (n0 = n) as -> by congruence. destruct (Ho b') as [-> _]. split; [done|].
      rewrite Htun. destruct (Bool.eqb_spec b' b) as [->|]; [by destruct (Hno k' l')|done]. }
  assert (Hn1 : m_nodeMap c1 !! id = Some n') by apply lookup_insert_eq.
  destruct (join_spec b id nc k a l c1 n' f Hc1) as (c2 & E2 & Hc2 & En2 & Hme & Hmore & Hless); try done.
  { by rewrite (proj1 (Ho b)). }
  { by rewrite Ht. }
  exists c2. split; [by rewrite (bind_ok _ _ _ _ _ E2)|]. constructor; try done.
  - exists n'. rewrite En2. split_and!; try done. intros b'. apply Ho.
  - intros b' k' id' l' Hne. split; [apply Hmore|]. intros Ha. exact (Hless _ _ _ _ Ha Hne).
Qed.

End Assign.

Lemma feq_same x y : feq x y = true → same_key x y.
Proof.
  unfold same_key, flt, feq, SFeqb, SFltb. intros H.
  assert (E : SFcompare x y = Some Eq) by by destruct (SFcompare x y) as [[]|].
  by rewrite E, (SFcompare_sym_Eq _ _ E).
Qed.

(** A request for another frequency is never "the same" request. *)
Lemma retuned_differs b n nc ch chs :
  NodeConfig.m_channels nc = ch :: chs → retuned (tuning b n) (sd_freq (side_of b) ch) = true →
  Node.compare_config nc n = false.
Proof.
  intros Hch Hret. destruct (Node.compare_config nc n) eqn:E; [|done]. exfalso.
  unfold Node.compare_config in E. rewrite Hch in E. revert Hret. unfold tuning, tuned.
  destruct (NodeConfig.m_channels (Node.m_config n)) as [|ch0 chs0] eqn:E0.
  - rewrite (bool_decide_eq_false_2 (length (@nil usrp.Channel) = length (ch :: chs))) in E by done.
    by rewrite !andb_false_r in E.
  - intros Hret. apply andb_prop in E as [_ E]. cbn [Node.compare_channels] in E.
    apply andb_prop in E as [E _]. unfold usrp.compare in E.
    rewrite !andb_true_iff in E. destruct E as [[[[[E1 E2] _] _] _] _].
    rewrite same_not_retuned in Hret; [done|]. destruct b; by apply feq_same.
Qed.

(** The channel of a frequency, found or created. *)
Lemma channel_at f c c1 :
  inv c → inv c1 → frame c c1 → plain f →
  ∃ a c2, (match FreqMap.find f (m_intermediateMap c) with Some a => ret a | None => CreateChannel f end) c1
    = (Ok a, c2) ∧ inv c2 ∧ m_nodeMap c2 = m_nodeMap c1 ∧ same_members c1 c2 ∧
    (∃ k, (k, a) ∈ m_intermediateMap c2 ∧ same_key k f) ∧
    (∀ p, p ∈ m_intermediateMap c1 → p ∈ m_intermediateMap c2) ∧
    (∀ p i, c_ims c1 !! p = Some i → c_ims c2 !! p = Some i).
Proof.
  intros Hc Hc1 Hf Hp. destruct (FreqMap.find f (m_intermediateMap c)) as [a|] eqn:E.
  - exists a, c1. apply FreqOrder.find_member in E as (k & Hin & Hk).
    split_and!; try done. exists k. by rewrite (f_map _ _ Hf).
  - destruct (CreateChannel_spec f c1 Hc1 Hp) as (a & c2 & ? & ? & ? & ? & ? & ? & ? & _).
    exists a, c2. by split_and!.
Qed.

Lemma previous_kept b id n n1 c c2 prev :
  tuning b n1 = tuning b n → (∀ p, p ∈ m_intermediateMap c → p ∈ m_intermediateMap c2) →
  same_members c c2 → previous b id n c prev → previous b id n1 c2 prev.
Proof.
  intros Ht Hin Hm. destruct prev as [p|]; cbn [previous]; rewrite ?Ht.
  - intros (k & Hkp & Hk). exists k. split; [by apply Hin|done].
  - intros Hno k l Ha. by eapply Hno, Hm.
Qed.

Lemma bind_ext {A B} (m : ctl A) (k k' : A → ctl B) c :
  (∀ a c', k a c' = k' a c') → bind m k c = bind m k' c.
Proof. intros Hk. unfold bind. destruct (m c) as [[a|] c']; [apply Hk|done]. Qed.

(** [assign] up to the point where the channels are known. *)
Definition retune (b : bool) (id : string) (nc : NodeConfig.t) (f : float) (prev : option positive)
    (l a : positive) : ctl bool :=
  bind (depart b id (Some l) prev) (fun _ =>
  bind (node_at id) (fun n =>
    match sd_update (side_of b) f (Node.m_config n) with
    | None => throw OutOfRange
    | Some cfg =>
        bind (set_node id (n <| Node.m_config := cfg |>)) (fun _ =>
        bind (join (side_of b) (Some l) id nc f a) (fun _ => ret true))
    end)).

Definition keep_tuned (b : bool) (id : string) (nc : NodeConfig.t) (l : positive) : ctl bool :=
  bind (edit_config id (NodeConfig.setSampleRate (NodeConfig.m_sample_rate nc))) (fun _ =>
  bind (apply_rate (side_of b) (Some l) id) (fun _ => ret false)).

Lemma assign_eq b id nc c n ch chs l c1 :
  m_nodeMap c !! id = Some n → NodeConfig.m_channels nc = ch :: chs →
  side_object (side_of b) false id c = (Ok (Some l), c1) →
  let f := sd_freq (side_of b) ch in
  let found := FreqMap.find f (m_intermediateMap c) in
  assign (side_of b) false id nc c =
  bind (match found with Some a => ret a | None => CreateChannel f end) (fun a =>
    if Node.compare_config nc n && bool_decide (found = None) then ret false
    else if retuned (tuning b n) f
         then retune b id nc f (FreqMap.find (tuning b n) (m_intermediateMap c)) l a
         else keep_tuned b id nc l) c1.
Proof.
  intros Hn Hch Hobj f found. unfold assign. rewrite Hch.
  rewrite (bind_ok _ _ _ _ _ (node_at_ok _ _ _ Hn)).
  assert (Hfind : ∀ x, FindChannel x c = (Ok (FreqMap.find x (m_intermediateMap c)), c)) by done.
  rewrite (bind_ok _ _ _ _ _ (Hfind _)), (bind_ok _ _ _ _ _ (Hfind _)).
  rewrite (bind_ok _ _ _ _ _ Hobj). fold f found. apply bind_ext. intros a c2.
  destruct (_ && _); [done|]. fold (tuning b n).
  destruct (retuned (tuning b n) f); cbn [negb]; [done|].
  by destruct (FreqMap.find (tuning b n) _).
Qed.

(** Whatever the request, assigning a channel keeps the invariant. *)
Lemma assign_spec b id nc c n :
  inv c → m_nodeMap c !! id = Some n →
  (∀ ch, head (NodeConfig.m_channels nc) = Some ch → plain (sd_freq (side_of b) ch)) →
  safe (assign (side_of b) false id nc)
    (fun _ c' => inv c' ∧ ∃ n', m_nodeMap c' !! id = Some n') c.
Proof.
  intros Hc Hn Hplain. destruct (NodeConfig.m_channels nc) as [|ch chs] eqn:Hch.
  { unfold assign. rewrite Hch. split; [done|by exists n]. }
  pose proof (side_object_spec b id c n Hc Hn) as Hso.
  unfold safe in Hso |- *.
  destruct (side_object (side_of b) false id c) as [[o|e] c1] eqn:Eo.
  2:{ unfold assign. rewrite Hch, (bind_ok _ _ _ _ _ (node_at_ok _ _ _ Hn)).
      assert (Hfind : ∀ x, FindChannel x c = (Ok (FreqMap.find x (m_intermediateMap c)), c)) by done.
      rewrite (bind_ok _ _ _ _ _ (Hfind _)), (bind_ok _ _ _ _ _ (Hfind _)).
      unfold bind at 1. by rewrite Eo. }
  destruct Hso as (l & -> & Hc1 & Hf1 & n1 & Hn1 & Hs1 & Ho1).
  rewrite (assign_eq b id nc c n ch chs l c1 Hn Hch Eo).
  set (f := sd_freq (side_of b) ch). assert (Hf : plain f) by by apply Hplain.
  destruct (channel_at f c c1 Hc Hc1 Hf1 Hf)
    as (a & c2 & Ea & Hc2 & En2 & Hm2 & (k & Hka & Hk) & Hin2 & _).
  rewrite (bind_ok _ _ _ _ _ Ea). rewrite <- En2 in Hn1.
  destruct (_ && _); [by split; [|exists n1]|].
  destruct Hs1 as (_ & Htun & _). apply (channels_tuning n n1 b) in Htun.
  destruct (retuned (tuning b n) f) eqn:Hret.
  - assert (Hprev : previous b id n1 c2 (FreqMap.find (tuning b n) (m_intermediateMap c))).
    { eapply (previous_kept b id n); [done| | |by apply previous_find].
      - intros p Hp. apply Hin2. by rewrite (f_map _ _ Hf1).
      - intros b' k' id' l'. by rewrite (frame_attached c c1 b' k' id' l' Hf1). }
    rewrite <- Htun in Hret.
    apply (safe_then _ _ _ _ _ (depart_spec b id f k a l _ n1 c2 Hc2 Hn1 Ho1 Hprev Hka Hk Hf Hret)).
    intros u c3 [[Hc3 En3 Hgone _] Hka3]. rewrite <- En3 in Hn1.
    destruct (decide (NodeConfig.m_channels (Node.m_config n1) = [])) as [Hemp|Hne].
    + unfold safe. rewrite (bind_ok _ _ _ _ _ (node_at_ok _ _ _ Hn1)).
      replace (sd_update (side_of b) f (Node.m_config n1)) with (@None NodeConfig.t); [exact Hc3|].
      destruct b; cbn; unfold NodeConfig.updateTxFreq, NodeConfig.updateRxFreq,
        NodeConfig.update_channel; by rewrite Hemp.
    + destruct (arrive_spec b id nc f k a l n1 c3 Hc3 Hn1 Ho1 Hgone Hka3 Hk Hf Hne)
        as (c4 & E4 & [Hc4 (n' & Hn' & _) _ _]).
      eapply safe_ok; [exact E4|]. split; [done|by exists n'].
  - unfold keep_tuned, safe. rewrite (bind_ok _ _ _ _ _ (edit_config_ok _ _ _ _ Hn1)).
    set (c3 := c2 <| m_nodeMap := _ |>).
    assert (Hc3 : inv c3).
    { eapply inv_edit_node; [done|exact Hn1|]. split; [done|]. intros b'. split; [done|].
      by destruct b'; split; [|left| |left]. }
    assert (Hn3 : ∃ n3, m_nodeMap c3 !! id = Some n3) by (eexists; apply lookup_insert_eq).
    destruct Hn3 as [n3 Hn3].
    destruct (apply_rate_ok b id c3 n3 l Hn3) as (c4 & E4 & _ & En4 & _ & Hi4).
    rewrite (bind_ok _ _ _ _ _ E4). split; [by apply Hi4|]. rewrite En4. by eexists.
Qed.

(** A retuned side always arrives. *)
Lemma assign_ok b id nc c n ch chs l :
  inv c → m_nodeMap c !! id = Some n → object b n = Some l →
  NodeConfig.m_channels (Node.m_config n) ≠ [] → NodeConfig.m_channels nc = ch :: chs →
  plain (sd_freq (side_of b) ch) → retuned (tuning b n) (sd_freq (side_of b) ch) = true →
  (b = true → idle_node id c) →
  ∃ k c', assign (side_of b) false id nc c = (Ok true, c') ∧ inv c' ∧
    same_key k (sd_freq (side_of b) ch) ∧ attached c' b k id l ∧
    (∃ n', m_nodeMap c' !! id = Some n' ∧ tuning b n' = sd_freq (side_of b) ch ∧
       tuning (negb b) n' = tuning (negb b) n ∧ (∀ b', object b' n' = object b' n) ∧
       NodeConfig.m_channels (Node.m_config n') ≠ [] ∧
       NodeConfig.m_sample_rate (Node.m_config n') = NodeConfig.m_sample_rate (Node.m_config n)) ∧
    (∀ b' k' id' l', (b', id') ≠ (b, id) → attached c b' k' id' l' ↔ attached c' b' k' id' l').
Proof.
  intros Hc Hn Hl Hne Hch Hf Hret Hidle. set (f := sd_freq (side_of b) ch) in *.
  destruct (side_object_ok b id c n l Hn Hl) as (c1 & Eo & Hf1 & En1 & _ & Hi1).
  specialize (Hi1 Hc). rewrite (assign_eq b id nc c n ch chs l c1 Hn Hch Eo).
  fold f. rewrite <- En1 in Hn.
  destruct (channel_at f c c1 Hc Hi1 Hf1 Hf)
    as (a & c2 & Ea & Hc2 & En2 & Hm2 & (k & Hka & Hk) & Hin2 & Him2).
  rewrite (bind_ok _ _ _ _ _ Ea). rewrite <- En2 in Hn.
  rewrite (retuned_differs b n nc ch chs Hch Hret), Hret. cbn [andb].
  assert (Hprev : previous b id n c2 (FreqMap.find (tuning b n) (m_intermediateMap c))).
  { eapply (previous_kept b id n); [done| | |apply previous_find; [done|congruence]].
    - intros p Hp. apply Hin2. by rewrite (f_map _ _ Hf1).
    - intros b' k' id' l'. by rewrite (frame_attached c c1 b' k' id' l' Hf1). }
  destruct (depart_ok b id f k a l _ n c2 Hc2 Hn Hl Hprev) as (c3 & E3 & [Hc3 En3 Hgone Hoth] & Hka3);
    try done.
  { intros p i Hp Hi Hb. apply FreqOrder.find_member in Hp as (k0 & Hk0 & _).
    destruct (i_channels c Hc k0 p Hk0) as (i0 & Hi0 & _). assert (i0 = i) as <-.
    { rewrite <- (f_ims _ _ Hf1) in Hi0. apply Him2 in Hi0. congruence. }
    exact (Hidle Hb k0 p i0 Hk0 Hi0 eq_refl). }
  rewrite <- En3 in Hn.
  destruct (arrive_spec b id nc f k a l n c3 Hc3 Hn Hl Hgone Hka3 Hk Hf Hne)
    as (c4 & E4 & [Hc4 Hnode Hme Hoth4]).
  exists k, c4. unfold retune. rewrite (bind_ok _ _ _ _ _ E3). split; [exact E4|].
  split; [done|]. split; [done|]. split; [done|]. split; [done|].
  intros b' k' id' l' Hno. rewrite <- (Hoth4 _ _ _ _ Hno), <- (Hoth _ _ _ _ Hno).
  rewrite <- (Hm2 b' k' id' l'). by apply (frame_attached c c1 b' k' id' l').
Qed.

End Tuning.

(** ** Requests that retune nothing

    These hold of exceptions and crashes too, and in both modes. *)

Section Calm.
Import Controller.

(** The existing channels are untouched, new ones are empty, and every node
    keeps its channels. *)
Record still (c c' : t) : Prop := mkStill {
  st_below : ∀ p, is_Some (c_ims c' !! p) → (p < next_obj c')%positive;
  st_next : (next_obj c ≤ next_obj c')%positive;
  st_ims : ∀ p i, c_ims c !! p = Some i → c_ims c' !! p = Some i;
  st_members : same_members c c';
  st_new : ∀ p i, c_ims c' !! p = Some i → c_ims c !! p = Some i ∨ Intermediate.isEmpty i = true;
  st_nodes : ∀ id n, m_nodeMap c !! id = Some n → ∃ n', m_nodeMap c' !! id = Some n' ∧
    NodeConfig.m_channels (Node.m_config n') = NodeConfig.m_channels (Node.m_config n);
}.

Definition below (c : t) : Prop := ∀ p, is_Some (c_ims c !! p) → (p < next_obj c)%positive.

Lemma still_refl c : below c → still c c.
Proof. intros Hc. constructor; [done|done|done|by intros|by left|by eauto]. Qed.

Lemma still_trans c1 c2 c3 : still c1 c2 → still c2 c3 → still c1 c3.
Proof.
  intros [B1 X1 I1 M1 W1 N1] [B2 X2 I2 M2 W2 N2]. constructor; [done|lia|by eauto| | |].
  - intros b k id l. by rewrite (M1 b k id l).
  - intros p i [Hp|He]%W2; [by apply W1|by right].
  - intros id n Hn. destruct (N1 id n Hn) as (n1 & Hn1 & E1). destruct (N2 id n1 Hn1) as (n2 & ? & ?).
    exists n2. split; congruence.
Qed.

Definition calm {A} (m : ctl A) : Prop := ∀ c, below c → still c (m c).2.

Lemma calm_bind {A B} (m : ctl A) (k : A → ctl B) : calm m → (∀ a, calm (k a)) → calm (bind m k).
Proof.
  intros Hm Hk c Hc. specialize (Hm c Hc). unfold bind. destruct (m c) as [[a|e] c1]; [|done].
  eapply still_trans; [exact Hm|]. apply Hk. exact (st_below _ _ Hm).
Qed.

Lemma calm_pure {A} (m : ctl A) : (∀ c, (m c).2 = c) → calm m.
Proof. intros Hm c Hc. rewrite Hm. by apply still_refl. Qed.

(** A change outside nodes and channels. *)
Lemma calm_view {A} (m : ctl A) :
  (∀ c, m_nodeMap (m c).2 = m_nodeMap c ∧ c_ims (m c).2 = c_ims c ∧
        m_intermediateMap (m c).2 = m_intermediateMap c ∧
        (next_obj c ≤ next_obj (m c).2)%positive) → calm m.
Proof.
  intros Hm c Hc. destruct (Hm c) as (En & Ei & Em & Ex). constructor; rewrite ?En, ?Ei; try done.
  - intros p Hp%Hc. lia.
  - intros b k id l. unfold attached. by rewrite Ei, Em.
  - by left.
  - eauto.
Qed.

Lemma calm_edit id f :
  (∀ n, NodeConfig.m_channels (Node.m_config (f n)) = NodeConfig.m_channels (Node.m_config n)) →
  calm (bind (node_at id) (fun n => set_node id (f n))).
Proof.
  intros Hf c Hc. unfold bind, node_at. destruct (m_nodeMap c !! id) as [n|] eqn:En;
    [|by apply still_refl].
  constructor; cbn [set_node modifies snd modify m_nodeMap c_ims next_obj m_intermediateMap]; try done; [by left|].
  intros id' n' Hn'. destruct (decide (id = id')) as [<-|Hne].
  - exists (f n). rewrite lookup_insert_eq. split; [done|]. by replace n' with n by congruence.
  - exists n'. by rewrite lookup_insert_ne.
Qed.

Lemma calm_node id : calm (node_at id).
Proof. apply calm_pure. intros c. unfold node_at. by destruct (m_nodeMap c !! id). Qed.

Lemma calm_config id f :
  (∀ c, NodeConfig.m_channels (f c) = NodeConfig.m_channels c) → calm (edit_config id f).
Proof. intros Hf. apply (calm_edit id (Node.set_config f)). intros n. apply Hf. Qed.

Lemma calm_port b : calm (take_port b).
Proof.
  apply calm_view. intros c. destruct b; cbn [take_port]; unfold AssignTXPort, AssignRXPort;
    by destruct (last _).
Qed.

Lemma calm_pool : calm iq_pool.
Proof. apply calm_pure. intros c. unfold iq_pool. by destruct (m_iq_pools c !! _). Qed.

Lemma calm_alloc f :
  (∀ l c, m_nodeMap (f l c) = m_nodeMap c ∧ c_ims (f l c) = c_ims c ∧
          m_intermediateMap (f l c) = m_intermediateMap c) → calm (alloc f).
Proof.
  intros Hf. apply calm_view. intros c. unfold alloc. cbn [snd modify m_nodeMap c_ims m_intermediateMap next_obj].
  destruct (Hf (next_obj c) c) as (-> & -> & ->). split_and!; try done. lia.
Qed.

Lemma calm_create b id : calm (sd_create (side_of b) id).
Proof.
  destruct b; cbn [side_of sd_create uplink downlink]; unfold CreateReceiver, CreateTransmitter;
    [apply calm_bind; [exact (calm_port true)|]|apply calm_bind; [exact (calm_port false)|]];
    intros p; (apply calm_bind; [by apply calm_config|]); intros _;
    (apply calm_bind; [apply calm_node|]); intros n; (apply calm_bind; [apply calm_pool|]); intros pool.
  - destruct (Receiver.ctor _ _ _) as [r|[|e]]; [by apply calm_alloc|by apply calm_pure..].
  - destruct (Transmitter.ctor _ _) as [x|]; [by apply calm_alloc|by apply calm_pure].
Qed.

Lemma calm_heap f : calm (on_heap f).
Proof. by apply calm_view. Qed.

Lemma calm_object b sandbox id : calm (side_object (side_of b) sandbox id).
Proof.
  unfold side_object, ensure_object. destruct sandbox; [by apply calm_pure|].
  apply calm_bind; [apply calm_bind; [apply calm_node|]|].
  - intros n. destruct (sd_object _ n) as [l|]; [by apply calm_pure|].
    apply calm_bind; [apply calm_create|]. intros l c Hc.
    assert (He : (bind (node_at id) (fun n => bind (set_node id (sd_store (side_of b) (Some l) n))
        (fun _ => ret l)) c).2
      = (bind (node_at id) (fun n => set_node id (sd_store (side_of b) (Some l) n)) c).2).
    { unfold bind, node_at. by destruct (m_nodeMap c !! id). }
    rewrite He. apply calm_edit; [|done]. intros m. by destruct b.
  - intros l. apply calm_bind; [apply calm_node|]. intros n.
    apply calm_bind; [apply calm_heap|]. intros _. by apply calm_pure.
Qed.

Lemma calm_channel f : calm (CreateChannel f).
Proof.
  intros c Hc. unfold CreateChannel, bind, FindChannel, gets.
  destruct (FreqMap.find f (m_intermediateMap c)) as [a|] eqn:E; [by apply still_refl|].
  destruct (new_intermediate_spec (c_heap c) f (m_propagationDefaults c)) as (_ & _ & Hsb & Him & _).
  set (i := new_intermediate f (m_propagationDefaults c)) in *.
  assert (Hnew : c_ims c !! next_obj c = None).
  { apply eq_None_not_Some. intros Hs%Hc. lia. }
  unfold alloc. fold i. constructor; cbn [snd modify m_nodeMap c_ims m_intermediateMap next_obj].
  - intros p. destruct (decide (next_obj c = p)) as [<-|Hne]; [lia|].
    rewrite lookup_insert_ne by done. intros Hp%Hc. lia.
  - lia.
  - intros p j Hj. rewrite lookup_insert_ne; [done|congruence].
  - intros b k id l. unfold attached. cbn [modify m_intermediateMap c_ims].
    setoid_rewrite FreqOrder.insert_elem; [|done]. split.
    + intros (a & j & Hin & Hj & Hl). exists a, j. split_and!; [by right| |done].
      rewrite lookup_insert_ne; [done|congruence].
    + intros (a & j & Hin & Hj & Hl).
      apply lookup_insert_Some in Hj as [[<- <-]|[Hne Hj]]; [by rewrite Him in Hl|].
      exists a, j. destruct Hin as [[= _ ->]|Hin]; done.
  - intros p j [[_ <-]|[_ Hj]]%lookup_insert_Some; [right; by apply empty_members|by left].
  - eauto.
Qed.

Lemma calm_rate b obj id : calm (apply_rate (side_of b) obj id).
Proof.
  unfold apply_rate. destruct obj; [|by apply calm_pure].
  apply calm_bind; [apply calm_node|]. intros n. apply calm_heap.
Qed.

(** A side whose frequency stays attaches and detaches nothing. *)
Lemma assign_calm b sandbox id nc c n :
  below c → m_nodeMap c !! id = Some n →
  (∀ ch, head (NodeConfig.m_channels nc) = Some ch →
         retuned (tuning b n) (sd_freq (side_of b) ch) = false) →
  still c (assign (side_of b) sandbox id nc c).2.
Proof.
  intros Hc Hn Hret. unfold assign.
  destruct (NodeConfig.m_channels nc) as [|ch chs]; [by apply still_refl|].
  specialize (Hret ch eq_refl). set (f := sd_freq (side_of b) ch) in *.
  rewrite (bind_ok _ _ _ _ _ (node_at_ok _ _ _ Hn)).
  change (tuned (side_of b) n) with (tuning b n).
  match goal with |- still c (?m c).2 => cut (calm m); [intros Hm; exact (Hm c Hc)|] end.
  apply calm_bind; [by apply calm_pure|]. intros found.
  apply calm_bind; [by apply calm_pure|]. intros prev.
  apply calm_bind; [apply calm_object|]. intros obj.
  apply calm_bind; [destruct found; [by apply calm_pure|apply calm_channel]|]. intros a.
  destruct (_ && _); [by apply calm_pure|]. rewrite Hret. cbn [negb].
  apply calm_bind; [destruct prev; by apply calm_pure|]. intros _.
  apply calm_bind; [by apply calm_config|]. intros _.
  apply calm_bind; [apply calm_rate|]. intros _. by apply calm_pure.
Qed.

End Calm.
