(* ===== verification/Removal.v ===== *)
(** Nodes that leave: a disconnect request and the time-out check detach the
    node's objects from every channel, drop the channels that became empty and
    forget the node; everybody else stays attached. *)

From Stdlib Require Import ZArith Lia Strings.String Floats.SpecFloat.
From stdpp Require Import prelude list strings gmap fin_maps list_numbers relations.
From S2P Require Import Prelude Ieee Common CxxLib DataPool Json NodeConfig NodeEntity Signal.
From S2P Require Import UdpClient UdpServer Receiver Transmitter Channel Intermediate DataPath.
From S2P Require Import Controller Accounting Pipeline ControllerInv Sides.

Section Removal.
Import Controller.

(** The invariant sees neither the handlers nor the address counters. *)
Lemma inv_view c c' :
  inv c → m_nodeMap c' = m_nodeMap c → c_heap c' = c_heap c → c_ims c' = c_ims c →
  next_obj c' = next_obj c → m_intermediateMap c' = m_intermediateMap c →
  (∀ b, free_ports b c' = free_ports b c) → inv c'.
Proof.
  intros Hc En Eh Ei Eo Em Ep.
  constructor; unfold attached; rewrite ?En, ?Eh, ?Ei, ?Eo, ?Em; try apply Hc.
  intros b. rewrite Ep. apply Hc.
Qed.

(** Detached on side [b] from the channels [fas]. *)
Record scattered (b : bool) (id : string) (fas : FreqMap.t) (c c' : t) : Prop := mkScattered {
  sc_inv : inv c';
  sc_nodes : m_nodeMap c' = m_nodeMap c;
  sc_map : m_intermediateMap c' = m_intermediateMap c;
  sc_members : ∀ b' k id' l, attached c' b' k id' l ↔
    attached c b' k id' l ∧ ((∃ a, (k, a) ∈ fas) → (b', id') ≠ (b, id));
  sc_idle : ∀ id', idle_node id' c → idle_node id' c';
}.

Lemma scattered_cons b id k a fas c c1 c' :
  (k, a) ∈ m_intermediateMap c → (∀ fa, fa ∈ fas → fa ∈ m_intermediateMap c) → inv c →
  detached_at b id a c c1 → scattered b id fas c1 c' → scattered b id ((k, a) :: fas) c c'.
Proof.
  intros Hka Hfas Hc [Hc1 En1 Em1 Hat1 _ _ Hid1] [Hc' En Em Hat Hid]. constructor.
  - done.
  - congruence.
  - congruence.
  - intros b' k' id' l. rewrite Hat, Hat1. split.
    + intros [[Ha Hne1] Hne]. split; [done|]. intros [a' [[= -> ->]|Hin]%elem_of_cons]; [by apply Hne1|].
      apply Hne. by exists a'.
    + intros [Ha Hne]. split; [split; [done|]|].
      * intros Hin. pose proof (entry_address c k' k a Hc Hin Hka) as ->.
        apply Hne. exists a. by left.
      * intros [a' Hin]. apply Hne. exists a'. by right.
  - intros id' Hidle. apply Hid. intros k' a' i' Hin Hi'. rewrite Em1 in Hin.
    destruct (Hid1 _ _ Hi') as (i & Hi & Hgo). apply Hgo. by eapply Hidle.
Qed.

(** One side leaves a list of channels. *)
Lemma detach_all_spec b id l n fas c :
  inv c → m_nodeMap c !! id = Some n → object b n = Some l →
  (∀ fa, fa ∈ fas → fa ∈ m_intermediateMap c) →
  safe (for_each (fun fa => on_channel fa.2 (sd_detach (side_of b) l)) fas)
    (fun _ => scattered b id fas c) c ∧
  ((b = true → idle_node id c) →
   ∃ c', for_each (fun fa => on_channel fa.2 (sd_detach (side_of b) l)) fas c = (Ok tt, c')).
Proof.
  revert c. induction fas as [|[k a] fas IH]; intros c Hc Hn Hl Hin; cbn [for_each].
  { split; [|by eexists]. eapply safe_ok; [done|]. constructor; try done.
    - intros b' k' id' l'. split; [|by intros [? _]]. intros Ha. split; [done|].
      intros [a' Hno%elem_of_nil]. done. }
  pose proof (Hin (k, a) ltac:(by left)) as Hka.
  destruct (i_channels c Hc k a Hka) as (i & Hi & _).
  assert (Hown : owns b (c_heap c) l id) by by apply (i_nodes c Hc id n Hn).
  assert (Hstep : ∀ w, sd_detach (side_of b) l (world_at c i) = Ok w →
    ∃ c1, on_channel a (sd_detach (side_of b) l) c = (Ok tt, c1) ∧ detached_at b id a c c1)
    by (intros w Hw; destruct (detach_step b id a i l w c Hc Hi Hown Hw) as (c1 & ? & ? & _); eauto).
  assert (Hrest : ∀ c1, detached_at b id a c c1 →
    safe (for_each (fun fa => on_channel fa.2 (sd_detach (side_of b) l)) fas)
      (fun _ => scattered b id fas c1) c1 ∧
    ((b = true → idle_node id c) →
     ∃ c', for_each (fun fa => on_channel fa.2 (sd_detach (side_of b) l)) fas c1 = (Ok tt, c'))).
  { intros c1 [Hc1 En1 Em1 _ _ _ Hid1]. destruct (IH c1) as [Hs Hok]; try done.
    - by rewrite En1.
    - intros fa Hfa. rewrite Em1. apply Hin. by right.
    - split; [done|]. intros Hidle. apply Hok. intros Hb k' a' i' Hin' Hi'. rewrite Em1 in Hin'.
      destruct (Hid1 _ _ Hi') as (i0 & Hi0 & Hgo). apply Hgo. by eapply Hidle. }
  split.
  - destruct (sd_detach (side_of b) l (world_at c i)) as [w|e] eqn:Ew.
    + destruct (Hstep w eq_refl) as (c1 & E1 & H1). destruct (Hrest c1 H1) as [Hs _].
      unfold safe. cbn [snd]. rewrite (bind_ok _ _ _ _ _ E1).
      refine (safe_mono _ _ _ _ Hs _). intros u c'.
      apply (scattered_cons b id k a fas c c1 c' Hka); [|done..]. intros fa Hfa. apply Hin. by right.
    + unfold safe, bind, on_channel. cbn [snd]. rewrite Hi. unfold world_at in Ew. by rewrite Ew.
  - intros Hidle. destruct (detach_ok b l id c i Hown) as [w Hw].
    { intros ->. by apply (Hidle eq_refl k a i). }
    destruct (Hstep w Hw) as (c1 & E1 & H1). destruct (Hrest c1 H1) as [_ Hok].
    cbn [snd]. rewrite (bind_ok _ _ _ _ _ E1). by apply Hok.
Qed.

(** Both sides leave everything. *)
Record detached (id : string) (c c' : t) : Prop := mkGone {
  dt_inv : inv c';
  dt_nodes : m_nodeMap c' = m_nodeMap c;
  dt_map : m_intermediateMap c' = m_intermediateMap c;
  dt_members : ∀ b k id' l, attached c' b k id' l ↔ attached c b k id' l ∧ id' ≠ id;
  dt_idle : ∀ id', idle_node id' c → idle_node id' c';
}.

(** A side without an object is attached nowhere. *)
Definition detach_side (b : bool) (n : Node.t) (m : FreqMap.t) : ctl unit :=
  match object b n with
  | Some l => for_each (fun fa => on_channel fa.2 (sd_detach (side_of b) l)) m
  | None => ret tt
  end.

Lemma detach_side_spec b id n c :
  inv c → m_nodeMap c !! id = Some n →
  safe (detach_side b n (m_intermediateMap c))
    (fun _ => scattered b id (m_intermediateMap c) c) c ∧
  ((b = true → idle_node id c) →
   ∃ c', detach_side b n (m_intermediateMap c) c = (Ok tt, c')).
Proof.
  intros Hc Hn. unfold detach_side. destruct (object b n) as [l|] eqn:Hl.
  { by apply (detach_all_spec b id l n). }
  split; [|by eexists]. eapply safe_ok; [done|]. constructor; try done.
  intros b' k id' l'. split; [|by intros [? _]]. intros Ha. split; [done|].
  intros _ [= -> ->]. destruct (i_tuned c Hc b k id l' Ha) as (n' & ? & ? & _). congruence.
Qed.

Lemma detach_node_eq n c :
  detach_node n c =
  bind (detach_side false n (m_intermediateMap c))
    (fun _ => detach_side true n (m_intermediateMap c)) c.
Proof. done. Qed.

Lemma detach_node_spec id n c :
  inv c → m_nodeMap c !! id = Some n →
  safe (detach_node n) (fun _ => detached id c) c ∧
  (idle_node id c → ∃ c', detach_node n c = (Ok tt, c')).
Proof.
  intros Hc Hn. unfold safe. rewrite detach_node_eq.
  destruct (detach_side_spec false id n c Hc Hn) as [Hs1 Hok1].
  assert (Hsecond : ∀ c1, scattered false id (m_intermediateMap c) c c1 →
    safe (detach_side true n (m_intermediateMap c))
      (fun _ => scattered true id (m_intermediateMap c) c1) c1 ∧
    (idle_node id c → ∃ c', detach_side true n (m_intermediateMap c) c1 = (Ok tt, c'))).
  { intros c1 [Hc1 En1 Em1 _ Hid1]. rewrite <- Em1.
    destruct (detach_side_spec true id n c1 Hc1) as [Hs2 Hok2]; [congruence|].
    split; [done|]. intros Hidle. apply Hok2. intros _. by apply Hid1. }
  split.
  - refine (safe_then _ _ _ _ _ Hs1 _). intros u c1 H1.
    refine (safe_mono _ _ _ _ (proj1 (Hsecond c1 H1)) _). intros u' c'.
    destruct H1 as [Hc1 En1 Em1 Hat1 Hid1]. intros [Hc' En' Em' Hat' Hid'].
    constructor; [done|congruence..| |by auto]. intros b k id' l. rewrite Hat', Hat1. split.
    + intros [[Ha H1] H2]. split; [done|]. intros ->. pose proof Ha as (a & i & Hka & _).
      destruct b; [apply H2|apply H1]; eauto.
    + intros [Ha Hne]. split; [split; [done|]|]; congruence.
  - intros Hidle. destruct Hok1 as [c1 E1]; [done|].
    assert (H1 : scattered false id (m_intermediateMap c) c c1)
      by (unfold safe in Hs1; by rewrite E1 in Hs1).
    rewrite (bind_ok _ _ _ _ _ E1). by apply (Hsecond c1 H1).
Qed.

(** *** Dropping empty channels *)

Definition occupied (c : t) (fa : float * positive) : bool :=
  negb (from_option Intermediate.isEmpty false (c_ims c !! fa.2)).

Lemma drop_empty_spec c :
  inv c →
  let c' := c <| m_intermediateMap := filter (fun fa => occupied c fa) (m_intermediateMap c) |> in
  drop_empty c = (Ok tt, c') ∧ inv c' ∧ same_members c c' ∧
  (∀ k a, (k, a) ∈ m_intermediateMap c' → (k, a) ∈ m_intermediateMap c) ∧
  ∀ k a, (k, a) ∈ m_intermediateMap c' → ∃ i, c_ims c' !! a = Some i ∧ Intermediate.isEmpty i = false.
Proof.
  intros Hc c'. split; [done|]. unfold c', same_members, attached.
  cbn [modify m_intermediateMap c_ims]. split; [|split; [|split]].
  - apply inv_shrink; [done|apply sublist_filter].
  - intros b k id l. split.
    + intros (a & i & Hin & Hi & Hl). exists a, i. split_and!; try done.
      apply list_elem_of_filter. split; [|done]. unfold occupied. cbn [snd]. rewrite Hi. cbn.
      by rewrite (not_empty_member _ _ _ _ Hl).
    + intros (a & i & [_ Hin]%list_elem_of_filter & Hi & Hl). by exists a, i.
  - by intros k a [_ Hin]%list_elem_of_filter.
  - intros k a [Hocc Hin]%list_elem_of_filter.
    destruct (i_channels c Hc k a Hin) as (i & Hi & _). exists i. split; [done|].
    unfold occupied in Hocc. cbn [snd] in Hocc. rewrite Hi in Hocc. cbn in Hocc.
    by destruct (Intermediate.isEmpty i).
Qed.

(** *** Removal *)

(** What is left when node [id] is gone. *)
Record removed (id : string) (c c' : t) : Prop := mkRemoved {
  rm_inv : inv c';
  rm_nodes : m_nodeMap c' = delete id (m_nodeMap c);
  rm_members : ∀ b k id' l, attached c' b k id' l ↔ attached c b k id' l ∧ id' ≠ id;
  rm_map : ∀ k a, (k, a) ∈ m_intermediateMap c' → (k, a) ∈ m_intermediateMap c;
  rm_occupied : ∀ k a, (k, a) ∈ m_intermediateMap c' →
    ∃ i, c_ims c' !! a = Some i ∧ Intermediate.isEmpty i = false;
  rm_idle : ∀ id', idle_node id' c → idle_node id' c';
}.

(** The steps after the detachments, in either order. *)
Definition forget (id : string) (n : Node.t) (c : t) : t :=
  c <| m_intermediateMap := filter (fun fa => occupied c fa) (m_intermediateMap c) |>
    <| m_vehicleHandlers := delete (Node.vehicle_key (Node.m_config n)) (m_vehicleHandlers c) |>
    <| m_nodeMap := delete id (m_nodeMap c) |>.

Lemma forget_eq id n c :
  bind (stop_vehicle n) (fun _ => bind drop_empty (fun _ => erase_node id)) c = (Ok tt, forget id n c) ∧
  bind drop_empty (fun _ => bind (stop_vehicle n) (fun _ => erase_node id)) c = (Ok tt, forget id n c).
Proof. done. Qed.

Lemma forget_removed id n c c' : detached id c c' → removed id c (forget id n c').
Proof.
  intros [Hc' En Em Hat Hid]. destruct (drop_empty_spec c' Hc') as (_ & Hc2 & Hsame & Hless & Hocc).
  set (c2 := c' <| m_intermediateMap := _ |>) in *.
  set (c3 := c2 <| m_vehicleHandlers := delete (Node.vehicle_key (Node.m_config n)) (m_vehicleHandlers c') |>).
  assert (Hc3 : inv c3) by (apply (inv_view c2); try done; by intros []).
  assert (Hat3 : ∀ b k id' l, attached c3 b k id' l ↔ attached c b k id' l ∧ id' ≠ id)
    by (intros; rewrite <- Hat; symmetry; apply Hsame).
  change (forget id n c') with (c3 <| m_nodeMap := delete id (m_nodeMap c3) |>).
  constructor; cbn [modify m_nodeMap m_intermediateMap c_ims].
  - apply inv_delete_node; [done|]. by intros b k l [_ Hne]%Hat3.
  - change (m_nodeMap c3) with (m_nodeMap c'). by rewrite En.
  - intros b k id' l. exact (Hat3 b k id' l).
  - intros k a Hin. rewrite <- Em. by apply Hless.
  - exact Hocc.
  - intros id' Hidle k a i Hka. exact (Hid id' Hidle k a i (Hless k a Hka)).
Qed.

Lemma disconnect_spec id n c :
  inv c → m_nodeMap c !! id = Some n →
  safe (disconnect id n) (fun _ => removed id c) c ∧
  (idle_node id c → ∃ c', disconnect id n c = (Ok tt, c')).
Proof.
  intros Hc Hn. set (ip := NodeConfig.m_ipAddress (Node.m_config n)).
  assert (Hr : ∃ c1, RestoreTXPort ip c = (Ok tt, c1) ∧ inv c1 ∧ m_nodeMap c1 = m_nodeMap c ∧
    frame c c1).
  { eexists. split; [reflexivity|]. destruct (m_ipAddrMap c !! ip); [|done].
    split; [apply (inv_view c); try done; by intros []|done]. }
  destruct Hr as (c1 & E1 & Hc1 & En1 & Hf1).
  destruct (detach_node_spec id n c1 Hc1) as [Hs Hok]; [by rewrite En1|].
  assert (Hgo : ∀ c', detached id c1 c' → removed id c (forget id n c')).
  { intros c' H'. destruct (forget_removed id n c1 c' H') as [? En Hat Hmap ? Hid].
    constructor; [done|congruence| |by rewrite <- (f_map _ _ Hf1)|done|].
    2:{ intros id' Hidle. apply Hid. intros k a i. rewrite (f_map _ _ Hf1), (f_ims _ _ Hf1). apply Hidle. }
    intros b k id' l. rewrite Hat. by rewrite (frame_attached c c1 b k id' l Hf1). }
  unfold disconnect, safe. fold ip. rewrite (bind_ok _ _ _ _ _ E1). split.
  - refine (safe_then _ _ _ _ _ Hs _). intros u c2 H2. eapply safe_ok; [apply forget_eq|].
    by apply Hgo.
  - intros Hidle. destruct Hok as [c2 E2].
    { intros k a i. rewrite (f_map _ _ Hf1), (f_ims _ _ Hf1). apply Hidle. }
    rewrite (bind_ok _ _ _ _ _ E2). eexists. apply forget_eq.
Qed.

Lemma check_node_spec now id n c :
  inv c → m_nodeMap c !! id = Some n → Node.isAlive now 10 n = false →
  safe (check_node now (id, n)) (fun _ => removed id c) c ∧
  (idle_node id c → ∃ c', check_node now (id, n) c = (Ok tt, c')).
Proof.
  intros Hc Hn Hdead. destruct (detach_node_spec id n c Hc Hn) as [Hs Hok].
  unfold check_node, safe. cbn [fst snd]. rewrite Hdead. split.
  - refine (safe_then _ _ _ _ _ Hs _). intros u c2 H2. eapply safe_ok; [apply forget_eq|].
    by apply forget_removed.
  - intros [c2 E2]%Hok. rewrite (bind_ok _ _ _ _ _ E2). eexists. apply forget_eq.
Qed.

(** *** The time-out check *)

(** The nodes of [kns] that are dead are gone. *)
Record swept (now : Z) (kns : list (string * Node.t)) (c c' : t) : Prop := mkSwept {
  sw_inv : inv c';
  sw_nodes : ∀ id n, m_nodeMap c' !! id = Some n ↔
    m_nodeMap c !! id = Some n ∧ ((id, n) ∈ kns → Node.isAlive now 10 n = true);
  sw_members : ∀ b k id l, attached c' b k id l ↔
    attached c b k id l ∧ ∀ n, (id, n) ∈ kns → Node.isAlive now 10 n = true;
}.

Lemma swept_cons now id n kns c c1 c' :
  (id, n) ∉ kns → (∀ n', (id, n') ∉ kns) → m_nodeMap c !! id = Some n →
  (if Node.isAlive now 10 n then c1 = c else removed id c c1) →
  swept now kns c1 c' → swept now ((id, n) :: kns) c c'.
Proof.
  intros _ Hnew Hn Hstep [Hc' En Hat].
  assert (Hcons : ∀ id' n', (id', n') ∈ (id, n) :: kns ↔ id' = id ∧ n' = n ∨ (id', n') ∈ kns)
    by (intros; rewrite elem_of_cons; naive_solver).
  destruct (Node.isAlive now 10 n) eqn:Ealive.
  - subst c1. constructor; [done| |].
    + intros id' n'. rewrite En, Hcons. naive_solver.
    + intros b k id' l. rewrite Hat. setoid_rewrite Hcons. naive_solver.
  - destruct Hstep as [_ En1 Hat1 _ _ _]. constructor; [done| |].
    + intros id' n'. rewrite En, En1, lookup_delete_Some, Hcons. split.
      * intros [[Hne ?] ?]. split; [done|]. by intros [[-> _]|?]; [|auto].
      * intros [H1 H2]. destruct (decide (id = id')) as [<-|Hne]; [|by auto 6].
        assert (n' = n) as -> by congruence. rewrite H2 in Ealive; [done|by left].
    + intros b k id' l. rewrite Hat, Hat1. setoid_rewrite Hcons. split.
      * intros [[? Hne] Hall]. split; [done|]. intros n' [[-> _]|?]; [done|auto].
      * intros [Ha Hall]. split; [split; [done|]|auto]. intros ->.
        rewrite (Hall n) in Ealive; [done|by left].
Qed.

Lemma sweep_spec now kns c :
  inv c → NoDup kns.*1 → (∀ id n, (id, n) ∈ kns → m_nodeMap c !! id = Some n) →
  safe (for_each (check_node now) kns) (fun _ => swept now kns c) c ∧
  ((∀ id n, (id, n) ∈ kns → Node.isAlive now 10 n = false → idle_node id c) →
   ∃ c', for_each (check_node now) kns c = (Ok tt, c')).
Proof.
  revert c. induction kns as [|[id n] kns IH]; intros c Hc Hnd Hkns; cbn [for_each].
  { split; [|by eexists]. eapply safe_ok; [done|]. constructor; [done| |].
    - intros id n. split; [|by intros [? _]]. intros Hn. split; [done|]. by intros ?%elem_of_nil.
    - intros b k id l. split; [|by intros [? _]]. intros Ha. split; [done|]. by intros n ?%elem_of_nil. }
  apply NoDup_cons in Hnd as [Hnew Hnd].
  assert (Hno : ∀ n', (id, n') ∉ kns) by (intros n' Hin; apply Hnew, list_elem_of_fmap; by exists (id, n')).
  pose proof (Hkns id n ltac:(by left)) as Hn.
  assert (Hrest : ∀ c1, inv c1 → (if Node.isAlive now 10 n then c1 = c else removed id c c1) →
    safe (for_each (check_node now) kns) (fun _ => swept now ((id, n) :: kns) c) c1 ∧
    ((∀ id' n', (id', n') ∈ (id, n) :: kns → Node.isAlive now 10 n' = false → idle_node id' c) →
     ∃ c', for_each (check_node now) kns c1 = (Ok tt, c'))).
  { intros c1 Hc1 H1. assert (Hkns1 : ∀ id' n', (id', n') ∈ kns → m_nodeMap c1 !! id' = Some n').
    { intros id' n' Hin. destruct (Node.isAlive now 10 n); [subst; apply Hkns; by right|].
      rewrite (rm_nodes _ _ _ H1), lookup_delete_ne; [apply Hkns; by right|].
      intros <-. by eapply Hno. }
    destruct (IH c1 Hc1 Hnd Hkns1) as [Hs Hok]. split.
    - refine (safe_mono _ _ _ _ Hs _). intros u c'. by apply swept_cons.
    - intros Hidle. apply Hok. intros id' n' Hin Hdead.
      pose proof (Hidle id' n' ltac:(by right) Hdead) as Hid.
      destruct (Node.isAlive now 10 n); [by subst|by apply (rm_idle _ _ _ H1)]. }
  destruct (Node.isAlive now 10 n) eqn:Ealive.
  - assert (E : check_node now (id, n) c = (Ok tt, c)) by (unfold check_node; cbn [fst snd]; by rewrite Ealive).
    unfold safe. rewrite (bind_ok _ _ _ _ _ E). by apply Hrest.
  - destruct (check_node_spec now id n c Hc Hn Ealive) as [Hs Hok]. split.
    + refine (safe_then _ _ _ _ _ Hs _). intros u c1 H1. by apply Hrest; [apply H1|].
    + intros Hidle. destruct Hok as [c1 E1]; [apply (Hidle id n); [by left|done]|].
      assert (H1 : removed id c c1) by (unfold safe in Hs; by rewrite E1 in Hs).
      rewrite (bind_ok _ _ _ _ _ E1). by apply Hrest; [apply H1| |].
Qed.

Lemma timeouts_spec now c :
  inv c →
  safe (CheckTimeouts now) (fun _ => swept now (map_to_list (m_nodeMap c)) c) c ∧
  ((∀ id n, m_nodeMap c !! id = Some n → Node.isAlive now 10 n = false → idle_node id c) →
   ∃ c', CheckTimeouts now c = (Ok tt, c')).
Proof.
  intros Hc. destruct (sweep_spec now (map_to_list (m_nodeMap c)) c Hc) as [Hs Hok].
  - apply NoDup_fst_map_to_list.
  - intros id n. by rewrite elem_of_map_to_list.
  - split; [exact Hs|]. intros Hidle. apply Hok. intros id n. rewrite elem_of_map_to_list. apply Hidle.
Qed.

End Removal.
