(* ===== verification/Requests.v ===== *)
(** Requests and the life of the controller: what [refreshFromConfig] keeps of
    a node, the requests as actions that keep the invariant of
    ControllerInv.v, and the controller with the threads of its channels as
    one state machine. *)

From Stdlib Require Import ZArith Lia Strings.String Floats.SpecFloat.
From stdpp Require Import prelude list strings gmap fin_maps list_numbers relations.
From S2P Require Import Prelude Ieee Common CxxLib DataPool Json NodeConfig NodeEntity Signal.
From S2P Require Import UdpClient UdpServer Receiver Transmitter Channel Intermediate DataPath.
From S2P Require Import Controller Accounting Pipeline ControllerInv Sides Tuning Removal.

(** ** What refreshing keeps *)

Section Refreshing.
Import Node.
Context (cos : float → float) (now : Z).

(** The radio side of a configuration, and of a node. *)
Definition radio (c : NodeConfig.t) : string * list usrp.Channel * usrp.SampleRate * Z * Z :=
  (NodeConfig.m_id c, NodeConfig.m_channels c, NodeConfig.m_sample_rate c,
   NodeConfig.m_portTxNum c, NodeConfig.m_portRxNum c).

Definition node_core (n : Node.t) :=
  (radio (m_config n), m_receiver n, m_transmitter n).

Definition kept (r r' : refresh) : Prop :=
  node_core (r_node r') = node_core (r_node r) ∧ radio (r_cfg r') = radio (r_cfg r).

#[local] Instance kept_refl : Reflexive kept.
Proof. done. Qed.

#[local] Instance kept_trans : Transitive kept.
Proof. intros r1 r2 r3 [] []. split; congruence. Qed.

Lemma addVehicle_core nc vh n b vh' n' :
  addVehicle nc vh n = (b, vh', n') → node_core n' = node_core n.
Proof.
  unfold addVehicle. destruct (empty_str _); [by intros [= _ _ <-]|].
  destruct (vh !! _); [by intros [= _ _ <-]|]. destruct (empty_str _); by intros [= _ _ <-].
Qed.

Lemma resolve_kept r v r' : resolve r = (v, r') → kept r r'.
Proof.
  intros E. split; [by destruct (resolve_node _ _ _ E) as (-> & _)|].
  by destruct (resolve_cfg _ _ _ E) as [->|[k ->]].
Qed.

Lemma decide_type_kept r : kept r (decide_type r).
Proof.
  unfold decide_type. destruct (NodeConfig.hasVehicleAddress _).
  { destruct (addVehicle _ _ _) as [[b vh] n] eqn:E. by apply addVehicle_core in E. }
  destruct (NodeConfig.m_hasLocation (r_cfg r)); [by destruct (at_origin _)|].
  destruct (NodeConfig.hasAerpawKey _); [|done]. destruct (is_pn _); [|done].
  destruct (resolve _) as [v r'] eqn:E. by apply resolve_kept in E.
Qed.

Lemma set_profile_kept r : kept r (set_profile r).
Proof. unfold set_profile. by destruct (r_type r). Qed.

Lemma place_kept loc ln r : kept r (place cos now loc ln r).
Proof. split; [|done]. cbn. unfold setLocation. by destruct (_ && _). Qed.

Lemma profile_kept ch r :
  kept r (r <| r_node := set_config (NodeConfig.setCharacteristics ch)
                           (setCharacteristics ch (r_node r)) |>).
Proof. done. Qed.

Lemma set_place_kept r : kept r (set_place cos now r).
Proof.
  unfold set_place. cbv zeta. destruct (NodeConfig.m_hasLocation _).
  { destruct (at_origin _); [done|]. etrans; [|apply profile_kept]. apply place_kept. }
  destruct (NodeConfig.hasAerpawKey _); [|done].
  destruct (ResolveAerpawLocation _); [|done].
  destruct (NodeConfig.hasLogicalNode _); [apply place_kept|].
  destruct (resolve r) as [v r'] eqn:E. etrans; [by eapply resolve_kept|apply place_kept].
Qed.

Lemma start_vehicle_kept pn r : kept r (start_vehicle pn r).
Proof.
  unfold start_vehicle. set (r1 := if pn && _ then _ else r).
  assert (H1 : kept r r1).
  { subst r1. destruct (pn && _); [|done]. destruct (resolve r) as [v r'] eqn:E.
    apply resolve_kept in E. etrans; [exact E|]. destruct (v.2); [|done].
    destruct (addVehicle _ _ _) as [[b vh] n] eqn:Ea. by apply addVehicle_core in Ea. }
  destruct (NodeConfig.hasVehicleAddress _); exact H1.
Qed.

(** A refreshed node takes its identity from the request; its channels, rates,
    ports and objects stay, and so does the radio side of the request. *)
Lemma refresh_core nc vh n n' nc' vh' :
  refreshFromConfig cos now nc vh n = (n', nc', vh') →
  NodeConfig.m_id (m_config n') = NodeConfig.m_id nc ∧
  NodeConfig.m_channels (m_config n') = NodeConfig.m_channels (m_config n) ∧
  NodeConfig.m_sample_rate (m_config n') = NodeConfig.m_sample_rate (m_config n) ∧
  NodeConfig.m_portTxNum (m_config n') = NodeConfig.m_portTxNum (m_config n) ∧
  NodeConfig.m_portRxNum (m_config n') = NodeConfig.m_portRxNum (m_config n) ∧
  m_receiver n' = m_receiver n ∧ m_transmitter n' = m_transmitter n ∧ radio nc' = radio nc.
Proof.
  unfold refreshFromConfig. set (r0 := mkRefresh _ _ _ _ _ _). set (pn := _ && _).
  assert (Hk : kept r0 (start_vehicle pn (set_place cos now (set_profile (decide_type r0))))).
  { etrans; [apply decide_type_kept|]. etrans; [apply set_profile_kept|].
    etrans; [apply set_place_kept|apply start_vehicle_kept]. }
  revert Hk. generalize (start_vehicle pn (set_place cos now (set_profile (decide_type r0)))).
  intros r [Hn Hc] [= <- <- _].
  assert (H0 : node_core (r_node r0) =
    (NodeConfig.m_id nc, NodeConfig.m_channels (m_config n), NodeConfig.m_sample_rate (m_config n),
     NodeConfig.m_portTxNum (m_config n), NodeConfig.m_portRxNum (m_config n),
     m_receiver n, m_transmitter n)).
  { subst r0. unfold node_core, radio. cbn [r_node]. unfold set_config, copy_fields.
    by destruct (NodeConfig.hasVehicleAddress nc), (NodeConfig.hasAerpawKey nc),
      (NodeConfig.m_hasDeviceTxGain nc), (NodeConfig.m_hasDeviceRxGain nc). }
  rewrite H0 in Hn. unfold node_core, radio in Hn. injection Hn as -> -> -> -> -> -> ->.
  by split_and!.
Qed.

End Refreshing.

(** ** Configuration requests *)

Section Configure.
Import Controller.
Context (parse : string → option json) (cos : float → float).

(** The configuration a request asks for. *)
Definition requested (e : request_env) (j : json) : NodeConfig.t :=
  NodeConfig.setIpAddress (remoteIp e)
    (NodeConfig.from_json j (NodeConfig.default (tx_junk e) (rx_junk e))).

(** The frequencies the controller looks at are numbers (JSON has no NaN). *)
Definition plain_request (nc : NodeConfig.t) : Prop :=
  ∀ b ch, head (NodeConfig.m_channels nc) = Some ch → plain (sd_freq (side_of b) ch).

(** The part of [configure] after the node is found or inserted and refreshed. *)
Definition assign_both (sandbox : bool) (id : string) (nc : NodeConfig.t) (newly_inserted : bool)
    : ctl json :=
  bind (assign (side_of true) sandbox id nc) (fun ul =>
  bind (assign (side_of false) sandbox id nc) (fun dl =>
  bind (node_at id) (fun n =>
    if (ul || dl) || newly_inserted || Node.compare_config nc n
    then ret (accepted n) else ret (status "fail")))).

(** The node a request is about, before its channels are assigned. *)
Record enrolled (nc : NodeConfig.t) (c c1 : t) (new : bool) (n1 : Node.t) (nc1 : NodeConfig.t)
    : Prop := mkEnrolled {
  en_inv : inv c1;
  en_frame : frame c c1;
  en_heap : c_heap c1 = c_heap c;
  en_node : m_nodeMap c1 = <[NodeConfig.m_id nc := n1]> (m_nodeMap c);
  en_radio : radio nc1 = radio nc;
  en_known : match m_nodeMap c !! NodeConfig.m_id nc with
    | Some n => new = false ∧ same_node n n1 ∧
        NodeConfig.m_channels (Node.m_config n1) = NodeConfig.m_channels (Node.m_config n) ∧
        NodeConfig.m_sample_rate (Node.m_config n1) = NodeConfig.m_sample_rate (Node.m_config n)
    | None => new = true ∧ (∀ b, object b n1 = None) ∧
        NodeConfig.m_channels (Node.m_config n1) = NodeConfig.m_channels nc
    end;
}.

Lemma plain_tuning nc n b :
  plain_request nc → NodeConfig.m_channels (Node.m_config n) = NodeConfig.m_channels nc →
  plain (tuning b n).
Proof.
  unfold tuning, tuned. intros Hp ->. specialize (Hp b).
  destruct (NodeConfig.m_channels nc) as [|ch chs]; [done|]. by apply Hp.
Qed.

Lemma enroll_spec e j c :
  inv c → plain_request (requested e j) →
  ∃ new n1 nc1 c1, enrolled (requested e j) c c1 new n1 nc1 ∧
    configure cos e j c = assign_both (sandbox_enabled e) (NodeConfig.m_id (requested e j)) nc1 new c1.
Proof.
  intros Hc Hp. set (nc := requested e j) in *. set (id := NodeConfig.m_id nc).
  set (n0 := Node.set_config (NodeConfig.setIpAddress (remoteIp e)) (Node.ctor (now e)
    (NodeConfig.from_json j (NodeConfig.default (tx_junk e) (rx_junk e))))).
  set (new := match m_nodeMap c !! id with Some _ => false | None => true end).
  set (n := match m_nodeMap c !! id with Some n => n | None => n0 end).
  set (c0 := match m_nodeMap c !! id with
             | Some _ => c | None => c <| m_nodeMap := <[id := n0]> (m_nodeMap c) |> end).
  assert (Hget : GetOrCreateNode n0 c = (Ok new, c0)).
  { unfold GetOrCreateNode. change (NodeConfig.m_id (Node.m_config n0)) with id.
    unfold new, c0. by destruct (m_nodeMap c !! id). }
  assert (Hc0 : inv c0 ∧ m_nodeMap c0 !! id = Some n ∧ frame c c0 ∧ c_heap c0 = c_heap c ∧
    m_vehicleHandlers c0 = m_vehicleHandlers c ∧
    ∀ x, <[id := x]> (m_nodeMap c0) = <[id := x]> (m_nodeMap c)).
  { unfold c0, n. destruct (m_nodeMap c !! id) as [n'|] eqn:En; [done|].
    split; [|split; [apply lookup_insert_eq|split; [done|split; [done|split; [done|]]]]].
    - apply inv_set_node; [done|done| |by intros []|].
      + intros b. by apply (plain_tuning nc).
      + intros b k l Ha. destruct (i_tuned c Hc b k id l Ha) as (? & ? & _). congruence.
    - intros x. cbn [modify m_nodeMap]. by rewrite insert_insert_eq. }
  destruct Hc0 as (Hc0 & Hn0 & Hf0 & Eh0 & Ev0 & Eins).
  destruct (Node.refreshFromConfig cos (now e) nc (m_vehicleHandlers c0) n) as [[n1 nc1] vh1] eqn:Er.
  destruct (refresh_core cos (now e) nc (m_vehicleHandlers c0) n n1 nc1 vh1 Er)
    as (Eid & Ech & Erate & Eptx & Eprx & Erx & Etx & Erad).
  set (c1 := c0 <| m_nodeMap := <[id := n1]> (m_nodeMap c0) |>).
  set (c2 := c1 <| m_vehicleHandlers := vh1 |>).
  assert (Hsame : same_node n n1).
  { split; [rewrite Eid; symmetry; apply (i_nodes c0 Hc0 id n Hn0)|].
    intros b. split; [by apply channels_tuning|]. by destruct b; (split; [|left]). }
  assert (Hc1 : inv c1) by by eapply inv_edit_node.
  exists new, n1, nc1, c2. split.
  - constructor.
    + apply (inv_view c1); try done; by intros [].
    + destruct Hf0. by constructor.
    + done.
    + unfold c2, c1. cbn [modify m_nodeMap]. apply Eins.
    + exact Erad.
    + unfold new, n in *. destruct (m_nodeMap c !! NodeConfig.m_id nc) eqn:En; fold id in En;
        rewrite En in *; [done|].
      split; [done|]. split; [|exact Ech]. by intros []; [apply Erx|apply Etx].
  - unfold configure. fold n0. change (NodeConfig.setIpAddress (remoteIp e) _) with nc. fold id.
    rewrite (bind_ok _ _ _ _ _ Hget), (bind_ok _ _ _ _ _ (node_at_ok _ _ _ Hn0)).
    unfold bind at 1, gets at 1. rewrite Er. done.
Qed.

(** Channels are assigned without breaking the invariant. *)
Lemma assign_both_spec id nc new c n :
  inv c → m_nodeMap c !! id = Some n → plain_request nc →
  safe (assign_both false id nc new) (fun _ => inv) c.
Proof.
  intros Hc Hn Hp. unfold assign_both.
  refine (safe_then _ _ _ _ _ (assign_spec true id nc c n Hc Hn (Hp true)) _).
  intros ul c1 [Hc1 [n1 Hn1]].
  refine (safe_then _ _ _ _ _ (assign_spec false id nc c1 n1 Hc1 Hn1 (Hp false)) _).
  intros dl c2 [Hc2 [n2 Hn2]]. unfold safe. rewrite (bind_ok _ _ _ _ _ (node_at_ok _ _ _ Hn2)).
  by destruct (_ || _).
Qed.

Lemma radio_plain nc nc1 : radio nc1 = radio nc → plain_request nc → plain_request nc1.
Proof. intros [= _ E _ _ _] Hp b ch. rewrite E. apply Hp. Qed.

Lemma configure_spec e j c :
  sandbox_enabled e = false → inv c → plain_request (requested e j) →
  safe (configure cos e j) (fun _ => inv) c.
Proof.
  intros Hsb Hc Hp. destruct (enroll_spec e j c Hc Hp) as (new & n1 & nc1 & c1 & [H1 _ _ En Er _] & E).
  unfold safe. rewrite E, Hsb. apply (assign_both_spec _ _ _ _ n1); [done| |by eapply radio_plain].
  by rewrite En, lookup_insert_eq.
Qed.

(** What the invariant asks of a request. *)
Definition plain_text (e : request_env) (s : string) : Prop :=
  ∀ j, parse s = Some j → plain_request (requested e j).

Lemma heartbeat_spec e j c : inv c → safe (heartbeat e j) (fun _ => inv) c.
Proof.
  intros Hc. unfold heartbeat, safe, bind, lift. destruct (string_member "id" j) as [id|err] eqn:Es.
  - cbn. destruct (m_nodeMap c !! id) as [n|] eqn:En; [|done]. eapply inv_edit_node; [done|exact En|].
    split; [done|]. by intros []; (split; [|split; [|left]]).
  - unfold string_member in Es. destruct (obind _ _); [done|]. by injection Es as <-.
Qed.

Lemma disconnect_request_spec j c : inv c → safe (disconnect_request j) (fun _ => inv) c.
Proof.
  intros Hc. unfold disconnect_request. unfold safe, bind at 1, lift.
  destruct (string_member "id" j) as [id|err] eqn:Es.
  - unfold bind at 1, gets. destruct (m_nodeMap c !! id) as [n|] eqn:En; [|done].
    destruct (disconnect_spec id n c Hc En) as [Hs _].
    refine (safe_then _ _ _ (fun _ => inv) _ Hs _). intros u c' H'. exact (rm_inv _ _ _ H').
  - unfold string_member in Es. destruct (obind _ _); [done|]. by injection Es as <-.
Qed.

Lemma request_spec e s c :
  sandbox_enabled e = false → inv c → plain_text e s →
  safe (requestHandler parse cos e s) (fun _ => inv) c.
Proof.
  intros Hsb Hc Hp. unfold requestHandler. specialize (Hp).
  destruct (parse s) as [j|] eqn:Ej; [|done]. pose proof (configure_spec e j c Hsb Hc (Hp j Ej)) as Hconf.
  destruct (contains "type" j); [|exact Hconf]. unfold safe, bind at 1, lift.
  destruct (string_member "type" j) as [ty|err] eqn:Es.
  - destruct (_ =? _)%string; [by apply heartbeat_spec|].
    destruct (_ =? _)%string; [by apply disconnect_request_spec|exact Hconf].
  - unfold string_member in Es. destruct (obind _ _); [done|]. by injection Es as <-.
Qed.

End Configure.
