(* ===== verification/Emulator.v ===== *)
(** The emulator as one machine: requests and time-outs of the controller
    interleaved with the passes of receivers, workers and transmitters of its
    channels.  The machine is parameterised by the modes in which requests are
    served.  Outside sandbox mode the invariant of ControllerInv.v holds in
    every state the controller can reach; the theorems say where nodes are
    attached, which ports they hold, and what requests, disconnects and
    time-outs do.  With requests in sandbox mode the invariant can fail. *)

From Stdlib Require Import ZArith Lia Strings.Byte Strings.String Floats.SpecFloat.
From stdpp Require Import prelude list strings gmap fin_maps list_numbers relations.
From S2P Require Import Prelude Ieee Common CxxLib DataPool Json NodeConfig NodeEntity Signal.
From S2P Require Import UdpClient UdpServer Receiver Transmitter Channel Intermediate DataPath.
From S2P Require Import Controller Accounting Pipeline Routing ControllerInv Sides Tuning Removal Requests.

(** ** The machine *)

Section Machine.
Import Controller.
Context `{Dsp, Converter, PriorityQueue}.
Context (parse : string → option json) (cos : float → float) (mode : bool → Prop).

(** What the threads of a channel, the commands of the coordinator and the
    extensions do to it and to the shared objects. *)
Inductive pass : world → world → Prop :=
  | p_receive junk sched l w w' :
      DataPath.receive junk sched l w = Ok (Receiver.Running, w') → pass w w'
  | p_enter node id w : pass w (DataPath.WorkerLoop_enter node id w)
  | p_worker e order junk now id w ev w' :
      DataPath.WorkerLoop_iter e order junk now id w = Ok (ev, w') → pass w w'
  | p_transmit env now l w ev w' :
      DataPath.transmit env now l w = Ok (ev, w') → pass w w'
  | p_link f s d w : pass w (w <| im := (apply_link f s d (im w)).2 |>)
  | p_global f w : pass w (w <| im := apply_global f (im w) |>)
  | p_links g w : keeps g → pass w (w <| im := Intermediate.for_channels g (im w) |>)
  | p_antenna n pat tx rx w :
      pass w (w <| hp := (Intermediate.updateNodeAntenna n pat tx rx (hp w) (im w)).2 |>)
  | p_one g s d w :
      keeps g → pass w (w <| im := (Intermediate.for_channel s d g (im w)).2 |>).

(** A step of the controller or of one of its channels.  [mode] says in which
    modes requests are served: [eq false] is the machine while the sandbox
    extension is not running, [λ _, True] the machine whatever the extension
    does ([RuntimeConfig::sandbox_enabled] is switched at run time). *)
Inductive cstep : t → t → Prop :=
  | cs_request e s r c c' :
      mode (sandbox_enabled e) → plain_text parse e s →
      requestHandler parse cos e s c = (r, c') → (∀ x, r ≠ Err (Crash x)) → cstep c c'
  | cs_timeouts now r c c' :
      CheckTimeouts now c = (r, c') → (∀ x, r ≠ Err (Crash x)) → cstep c c'
  | cs_channel a i w' c :
      c_ims c !! a = Some i → pass (world_at c i) w' →
      cstep c (c <| c_heap := hp w' |> <| c_ims := <[a := im w']> (c_ims c) |>
                 <| m_iq_pools := pools w' |>)
  | cs_node id n n' c :
      m_nodeMap c !! id = Some n → same_node n n' →
      cstep c (c <| m_nodeMap := <[id := n']> (m_nodeMap c) |>)
  | cs_defaults d c : cstep c (c <| m_propagationDefaults := d |>).

(** Before the first request. *)
Definition fresh (c : t) : Prop :=
  m_nodeMap c = ∅ ∧ m_intermediateMap c = [] ∧ c_heap c = mkHeap ∅ ∅ ∧ c_ims c = ∅ ∧
  ∀ b, free_ports b c = all_ports b.

Lemma ctor_fresh numa k d c : ctor ∅ numa k d = Ok c → fresh c.
Proof.
  unfold ctor. destruct (match numa with Some _ => _ | None => _ end) as [ps|]; [|done].
  intros [= <-]. split_and!; try done. by intros [].
Qed.

Lemma fresh_inv c : fresh c → inv c.
Proof.
  intros (En & Em & Eh & Ei & Ep). constructor; rewrite ?En, ?Em, ?Eh, ?Ei; try done.
  - intros l [[? Hl]|[? Hl]]; done.
  - intros l [? Hl]; done.
  - split; constructor.
  - intros k a Hin%elem_of_nil. done.
  - intros b k id l (a & i & Hin & _). rewrite Em in Hin. by apply elem_of_nil in Hin.
  - intros b. exists (length (all_ports b)). by rewrite Ep, firstn_all.
Qed.

(** *** Passes keep the membership *)

Lemma same_entries {A B} (f : A → B) (m m' : gmap positive A) k :
  f <$> m' = f <$> m → is_Some (m' !! k) ↔ is_Some (m !! k).
Proof.
  intros E. rewrite <- (fmap_is_Some f (m' !! k)), <- (fmap_is_Some f (m !! k)).
  by rewrite <- !lookup_fmap, E.
Qed.

Lemma skeleton_tame w w' :
  skeleton_of w' = skeleton_of w → tame w w' ∧ ∀ b, members b (im w') = members b (im w).
Proof.
  intros Hsk. pose proof Hsk as [= Es Ed Eb _ _ _ _ _ _ _ _ Er Ex Ef]. split; [|by intros []].
  constructor; [by apply skeleton_ids| |done|done|by apply skeleton_membership].
  intros l. by rewrite (same_entries _ _ _ l Er), (same_entries _ _ _ l Ex).
Qed.

#[local] Instance tame_heap_preorder : PreOrder tame_heap.
Proof.
  split; [split; [reflexivity|done]|].
  intros h h1 h2 [[Hr Hx] Ho] [[Hr' Hx'] Ho']. split; [split|intros k Hk; by apply Ho, Ho'].
  - intros k r Hk. destruct (Hr k r Hk) as (r1 & Hk1 & <-).
    destruct (Hr' k r1 Hk1) as (r2 & Hk2 & E). by exists r2.
  - intros k x Hk. destruct (Hx k x Hk) as (x1 & Hk1 & <- & E1).
    destruct (Hx' k x1 Hk1) as (x2 & Hk2 & E & E2). exists x2. by rewrite <- E1.
Qed.

Lemma tame_heap_foldl {A} (step : heap → A → heap) (l : list A) h :
  (∀ h a, tame_heap h (step h a)) → tame_heap h (foldl step h l).
Proof.
  intros Hstep. revert h. induction l as [|a l IH]; intros h; [reflexivity|].
  cbn [foldl]. etrans; [apply Hstep|apply IH].
Qed.

Lemma set_patterns_id pat tx rx nc :
  NodeConfig.m_id (Intermediate.set_patterns pat tx rx nc) = NodeConfig.m_id nc.
Proof. unfold Intermediate.set_patterns. by repeat case_match. Qed.

Lemma antenna_tame n pat tx rx h i :
  tame_heap h (Intermediate.updateNodeAntenna n pat tx rx h i).2.
Proof.
  unfold Intermediate.updateNodeAntenna. cbn [snd].
  etrans; apply (tame_heap_foldl (A := positive)).
  - intros h' l. by apply update_rx_tame.
  - intros h' l. apply update_tx_tame. intros x. split; [done|apply set_patterns_id].
Qed.

Lemma one_link_skeleton g s d v :
  keeps g → skeleton_of (v <| im := (Intermediate.for_channel s d g (im v)).2 |>) = skeleton_of v.
Proof.
  intros Hg. unfold Intermediate.for_channel.
  destruct (Intermediate.m_channelMap (im v) !! (s, d)) as [[a c]|] eqn:Ek; [|by destruct v].
  apply (set_channel_quiet (s, d) a c (g c) v Ek). unfold link_core. cbn [fst snd].
  by destruct (Hg c) as (-> & -> & -> & -> & ->).
Qed.

Lemma pass_effect w w' :
  pass w w' → tame w w' ∧ ∀ b, members b (im w') = members b (im w).
Proof.
  intros [junk sched l v v' Hr|node id v|e order junk now id v ev v' Hr|env now l v ev v' Hr|
    f s d v|f v|g v Hg|n pat tx rx v|g s d v Hg].
  - apply skeleton_tame. by apply receive_quiet in Hr as [].
  - apply skeleton_tame. unfold DataPath.WorkerLoop_enter.
    destruct (Intermediate.m_workers (im v) !! id) as [c|] eqn:Ec; [|done].
    by eapply set_worker_skeleton.
  - apply skeleton_tame. by apply worker_step in Hr as [].
  - apply skeleton_tame. apply run_tx_quiet in Hr as []; [done|]. intros x a x'. apply tx_iter_core.
  - apply skeleton_tame. destruct (apply_link_for f s d (im v)) as (g & Hg & ->).
    by apply one_link_skeleton.
  - assert (Hm : (∀ b, members b (apply_global f (im v)) = members b (im v)) ∧
      Intermediate.m_freq (apply_global f (im v)) = Intermediate.m_freq (im v) ∧
      Intermediate.m_sandboxNodes (apply_global f (im v)) = Intermediate.m_sandboxNodes (im v)).
    { destruct f; cbn [apply_global]; try (by split; [intros []|]).
      - unfold Intermediate.set3gppScenario. destruct (empty_str _); by split; [intros []|].
      - unfold Intermediate.setHataEnvironment. destruct (empty_str _); by split; [intros []|]. }
    destruct Hm as (Hm & Hf & Hs). split; [|done]. constructor; try done. apply global_inv.
  - split; [|by intros []]. constructor; try done. cbn [modify hp im]. intros Hinv.
    pose proof Hinv as (_ & _ & (H3 & Hh & _) & _).
    eapply for_channels_inv; [exact Hinv|reflexivity..|exact H3|exact Hh|].
    intros c. by destruct (Hg c) as (-> & -> & -> & -> & ->).
  - destruct (antenna_tame n pat tx rx (hp v) (im v)) as [Hids Hold]. split; [|done].
    constructor; try done. by apply inv_ids.
  - apply skeleton_tame. by apply one_link_skeleton.
Qed.

Lemma cstep_inv c c' : (∀ b, mode b → b = false) → cstep c c' → inv c → inv c'.
Proof.
  intros Hmode [e s r v v' Hsb Hp Hr Hc|now r v v' Hr Hc|a i w' v Hi Hpass|id n n' v Hn Hs|d v] Hinv.
  - exact (safe_inv _ _ _ _ _ (request_spec parse cos e s v (Hmode _ Hsb) Hinv Hp) Hr Hc (fun _ H => H)).
  - destruct (timeouts_spec now v Hinv) as [Hsafe _].
    refine (safe_inv _ _ _ _ _ Hsafe Hr Hc _). intros _ Hsw. exact (sw_inv _ _ _ _ Hsw).
  - apply pass_effect in Hpass as [[Tids Told Tf Ts Tinv] Hm].
    apply (inv_channel v a i w'); try done.
    + intros l Hl. by apply (i_objects v Hinv), Told.
    + intros b id l Hl. left. rewrite Hm in Hl. exact Hl.
  - by eapply inv_edit_node.
  - apply (inv_view v); try done.
Qed.

Lemma machine_inv c0 c :
  (∀ b, mode b → b = false) → fresh c0 → rtc cstep c0 c → inv c.
Proof.
  intros Hmode Hf Hr. apply fresh_inv in Hf. induction Hr as [c|c1 c2 c3 Hs _ IH]; [done|].
  apply IH. by eapply cstep_inv.
Qed.

End Machine.

(** Outside sandbox mode. *)
Lemma off_mode (b : bool) : false = b → b = false.
Proof. done. Qed.

Lemma cstep_mono `{Dsp, Converter, PriorityQueue} parse cos (mode mode' : bool → Prop) c c' :
  (∀ b, mode b → mode' b) → cstep parse cos mode c c' → cstep parse cos mode' c c'.
Proof. 
  intros Hm [e s r v v' Hs Hp Hr Hc|now r v v' Hr Hc|a i w' v Hi Hw|id n n' v Hn Hs|d v].
  - by eapply cs_request; [apply Hm| |exact Hr|].
  - by eapply cs_timeouts.
  - by eapply cs_channel.
  - by eapply cs_node.
  - apply cs_defaults.
 Qed.

(** ** Properties *)

Section Properties.
Import Controller.


(** The invariant leaves a side one channel at most. *)
Lemma attached_once c b k k' id l l' :
  inv c → attached c b k id l → attached c b k' id l' → k' = k ∧ l' = l.
Proof.
  intros Hc Ha Ha'. destruct (i_tuned c Hc b k id l Ha) as (n & Hn & Ho & Hk).
  destruct (i_tuned c Hc b k' id l' Ha') as (n' & Hn' & Ho' & Hk').
  assert (n' = n) as -> by congruence. split; [|congruence].
  destruct Ha as (a & i & Hka & _), Ha' as (a' & i' & Hka' & _).
  pose proof (proj1 (proj2 (i_nodes c Hc id n Hn) b)) as Hp.
  pose proof (entry_plain _ _ _ Hc Hka). pose proof (entry_plain _ _ _ Hc Hka').
  destruct (entry_unique c k k' a a' Hc Hka Hka') as [-> _]; [|done].
  apply same_key_rank; [done..|]. apply same_key_rank in Hk, Hk'; try done. congruence.
Qed.

(** C4 Wherever a node is attached, it is known, the object attached is
    its own receiver or transmitter, and the channel is the one of the frequency
    that side is tuned to; no side is attached to two channels.  This holds in
    every state the controller reaches from its start while the sandbox
    extension is not running, that is, when no request was served in sandbox
    mode: whatever requests, disconnects, time-outs and passes of the channels
    come in between, as long as none of them ends in undefined behaviour and no
    request states a NaN frequency, for which JSON has no notation. (In sandbox
    mode it fails: [sandbox_retune_splits].) *)
Theorem node_on_one_frequency `{Dsp, Converter, PriorityQueue}
    (parse : string → option json) (cos : float → float) (c0 c : t) (b : bool) (k : float)
    (id : string) (l : positive)
    (Hfresh : fresh c0) (Hrun : rtc (cstep parse cos (eq false)) c0 c) (Hat : attached c b k id l) :
  (∃ n, m_nodeMap c !! id = Some n ∧ object b n = Some l ∧ owns b (c_heap c) l id ∧
        same_key k (tuning b n)) ∧
  ∀ k' l', attached c b k' id l' → k' = k ∧ l' = l.
Proof.
  pose proof (machine_inv parse cos _ c0 c off_mode Hfresh Hrun) as Hc. split.
  - destruct (i_tuned c Hc b k id l Hat) as (n & Hn & Ho & Hk). exists n.
    split_and!; try done. by apply (i_nodes c Hc id n Hn).
  - intros k' l'. by apply attached_once.
Qed.


(** *** Retuning *)

Lemma assign_both_ok id nc new c n ch chs lr lt :
  inv c → m_nodeMap c !! id = Some n → (∀ b, object b n = Some (if b then lr else lt)) →
  NodeConfig.m_channels (Node.m_config n) ≠ [] → NodeConfig.m_channels nc = ch :: chs →
  plain_request nc → (∀ b, retuned (tuning b n) (sd_freq (side_of b) ch) = true) →
  idle_node id c →
  ∃ n' c', assign_both false id nc new c = (Ok (accepted n'), c') ∧ inv c' ∧
    m_nodeMap c' !! id = Some n' ∧
    NodeConfig.m_sample_rate (Node.m_config n') = NodeConfig.m_sample_rate (Node.m_config n) ∧
    (∀ b, tuning b n' = sd_freq (side_of b) ch ∧
          ∃ k, same_key k (sd_freq (side_of b) ch) ∧ attached c' b k id (if b then lr else lt)) ∧
    (∀ b k id' l, id' ≠ id → attached c' b k id' l ↔ attached c b k id' l).
Proof.
  intros Hc Hn Hobj Hne Hch Hp Hret Hidle.
  assert (Hplain : ∀ b, plain (sd_freq (side_of b) ch)) by (intros b; apply Hp; by rewrite Hch).
  destruct (assign_ok true id nc c n ch chs lr Hc Hn (Hobj true) Hne Hch (Hplain true) (Hret true)
    (fun _ => Hidle)) as (k1 & c1 & E1 & Hc1 & Hk1 & Ha1 &
    (n1 & Hn1 & Ht1 & Ht1' & Ho1 & Hne1 & Hr1) & Hoth1). cbn [negb] in Ht1'.
  destruct (assign_ok false id nc c1 n1 ch chs lt Hc1 Hn1) as (k2 & c2 & E2 & Hc2 & Hk2 & Ha2 &
    (n2 & Hn2 & Ht2 & Ht2' & Ho2 & Hne2 & Hr2) & Hoth2); try done.
  { rewrite Ho1. apply Hobj. }
  { rewrite Ht1'. apply Hret. }
  exists n2, c2. split.
  { unfold assign_both. rewrite (bind_ok _ _ _ _ _ E1), (bind_ok _ _ _ _ _ E2).
    by rewrite (bind_ok _ _ _ _ _ (node_at_ok _ _ _ Hn2)). }
  split; [done|]. split; [done|]. split; [congruence|]. split.
  - intros [].
    + split; [cbn [negb] in Ht2'; congruence|]. exists k1. split; [done|]. by apply Hoth2.
    + split; [done|]. by exists k2.
  - intros b k id' l Hid. rewrite (Hoth1 b k id' l), (Hoth2 b k id' l); [done|congruence..].
Qed.

(** A request without a type is a configuration request. *)
Lemma plain_handler parse cos e s j c :
  parse s = Some j → contains "type" j = false →
  requestHandler parse cos e s c = configure cos e j c.
Proof. unfold requestHandler. by intros -> ->. Qed.

(** C5 Outside sandbox mode, suppose a node that has a receiver and a
    transmitter, and none of whose bursts is waiting in a worker's queue, asks
    for frequencies at least 10 kHz away from the ones it is tuned to, on both
    sides (the first channel of its request; infinite and NaN frequencies
    excluded).  Then the request succeeds: the node's receiver is attached to
    the channel of the new TX frequency and its transmitter to that of the new
    RX frequency, it is attached nowhere else, and every other node stays
    attached exactly where it was.  Its sample rate, however, stays the old
    one, whichever the request asks for. *)
Theorem retune_moves_node (parse : string → option json) (cos : float → float)
    (e : request_env) (s : string) (j : json) (c : t) (n : Node.t) (ch : usrp.Channel)
    (chs : list usrp.Channel) (lr lt : positive)
    (Hc : inv c) (Hsb : sandbox_enabled e = false)
    (Hparse : parse s = Some j) (Htype : contains "type" j = false)
    (Hn : m_nodeMap c !! NodeConfig.m_id (requested e j) = Some n)
    (Hobj : ∀ b, object b n = Some (if b then lr else lt))
    (Hne : NodeConfig.m_channels (Node.m_config n) ≠ [])
    (Hch : NodeConfig.m_channels (requested e j) = ch :: chs)
    (Hplain : ∀ b, plain (sd_freq (side_of b) ch))
    (Hret : ∀ b, retuned (tuning b n) (sd_freq (side_of b) ch) = true)
    (Hidle : idle_node (NodeConfig.m_id (requested e j)) c) :
  let id := NodeConfig.m_id (requested e j) in
  ∃ n' c', requestHandler parse cos e s c = (Ok (accepted n'), c') ∧
    m_nodeMap c' !! id = Some n' ∧
    NodeConfig.m_sample_rate (Node.m_config n') = NodeConfig.m_sample_rate (Node.m_config n) ∧
    (∀ b, tuning b n' = sd_freq (side_of b) ch ∧
      ∃ k, same_key k (sd_freq (side_of b) ch) ∧ attached c' b k id (if b then lr else lt) ∧
           ∀ k' l', attached c' b k' id l' → k' = k ∧ l' = if b then lr else lt) ∧
    (∀ b k id' l, id' ≠ id → attached c' b k id' l ↔ attached c b k id' l).
Proof.
  assert (Hp : plain_request (requested e j)).
  { intros b ch' Hh. rewrite Hch in Hh. injection Hh as <-. apply Hplain. }
  destruct (enroll_spec cos e j c Hc Hp) as (new & n1 & nc1 & c1 & [Hc1 Hf1 _ En1 Er1 Hk1] & E).
  rewrite Hn in Hk1. destruct Hk1 as (_ & [_ Hsame] & Ech & Erate).
  destruct (assign_both_ok (NodeConfig.m_id (requested e j)) nc1 new c1 n1 ch chs lr lt)
    as (n' & c' & E' & Hc' & Hn' & Hrate & Hmoved & Hoth); try done.
  { by rewrite En1, lookup_insert_eq. }
  { intros b. destruct (Hsame b) as (_ & -> & _). apply Hobj. }
  { by rewrite Ech. }
  { injection Er1 as _ -> _ _ _. done. }
  { by eapply radio_plain. }
  { intros b. destruct (Hsame b) as (-> & _ & _). apply Hret. }
  { intros k a i. rewrite (f_map _ _ Hf1), (f_ims _ _ Hf1). apply Hidle. }
  exists n', c'. split; [by rewrite (plain_handler parse cos e s j c Hparse Htype), E, Hsb|].
  split; [done|].
  split; [congruence|]. split.
  - intros b. destruct (Hmoved b) as (Ht & k & Hk & Ha). split; [done|]. exists k.
    split; [done|]. split; [done|]. intros k' l' Ha'.
    exact (attached_once _ _ _ _ _ _ _ Hc' Ha Ha').
  - intros b k id' l Hne'. rewrite (Hoth b k id' l Hne'). symmetry. by apply frame_attached.
Qed.

(** *** Requests that retune nothing *)

(** C35 A configuration request that retunes nothing changes nothing in any
    channel: every channel stays as it is, with its members, sandbox nodes and
    links, every receiver and transmitter stays attached exactly where it was,
    and a channel the request opens is empty.  The requests meant are those of
    a node the controller does not know, whatever frequencies they state, and
    those whose first channel is, in both directions, less than 10 kHz from
    what the node is tuned to (NaN frequencies excluded); the state is any that
    satisfies the machine's invariant.  It holds with and without sandbox mode
    and also when the request fails.  So a node that states its frequencies in
    its first request joins no channel. *)
Theorem unchanged_request_attaches_nothing (parse : string → option json) (cos : float → float)
    (e : request_env) (s : string) (j : json) (c c' : t) (r : outcome cerror json)
    (Hc : inv c) (Hparse : parse s = Some j) (Htype : contains "type" j = false)
    (Hplain : plain_request (requested e j))
    (Hsame : ∀ n b ch, m_nodeMap c !! NodeConfig.m_id (requested e j) = Some n →
       head (NodeConfig.m_channels (requested e j)) = Some ch →
       retuned (tuning b n) (sd_freq (side_of b) ch) = false)
    (Hrun : requestHandler parse cos e s c = (r, c')) :
  (∀ b k id l, attached c' b k id l ↔ attached c b k id l) ∧
  (∀ a i, c_ims c !! a = Some i → c_ims c' !! a = Some i) ∧
  (∀ a i, c_ims c' !! a = Some i → c_ims c !! a = Some i ∨ Intermediate.isEmpty i = true).
Proof.
  rewrite (plain_handler parse cos e s j c Hparse Htype) in Hrun.
  destruct (enroll_spec cos e j c Hc Hplain) as (new & n1 & nc1 & c1 & [Hc1 Hf1 _ En1 Er1 Hk1] & E).
  rewrite E in Hrun.
  assert (Ech1 : NodeConfig.m_channels nc1 = NodeConfig.m_channels (requested e j))
    by by injection Er1.
  set (id := NodeConfig.m_id (requested e j)) in *.
  assert (Hn1 : m_nodeMap c1 !! id = Some n1) by by rewrite En1, lookup_insert_eq.
  assert (Hret : ∀ n2 b ch,
    NodeConfig.m_channels (Node.m_config n2) = NodeConfig.m_channels (Node.m_config n1) →
    head (NodeConfig.m_channels nc1) = Some ch →
    retuned (tuning b n2) (sd_freq (side_of b) ch) = false).
  { intros n2 b ch E2 Hch. rewrite Ech1 in Hch. rewrite (channels_tuning n1 n2 b E2).
    destruct (m_nodeMap c !! id) as [n|] eqn:En.
    - destruct Hk1 as (_ & [_ Hsn] & _). destruct (Hsn b) as (-> & _). by eapply Hsame.
    - destruct Hk1 as (_ & _ & E1). apply same_not_retuned. unfold tuning, tuned. rewrite E1.
      pose proof (Hplain b ch Hch) as Hp. revert Hch.
      destruct (NodeConfig.m_channels (requested e j)) as [|ch0 chs]; cbn [head]; intros [= ->]. by apply same_key_rank. }
  assert (Hstill : still c1 c').
  { replace c' with (assign_both (sandbox_enabled e) id nc1 new c1).2 by by rewrite Hrun.
    pose proof (assign_calm true (sandbox_enabled e) id nc1 c1 n1 (i_ims c1 Hc1) Hn1
      (fun ch => Hret n1 true ch eq_refl)) as H1. unfold assign_both, bind at 1.
    destruct (assign (side_of true) _ _ _ _) as [[ul|err] c2]; [|exact H1].
    cbn [snd] in H1. eapply still_trans; [exact H1|].
    destruct (st_nodes _ _ H1 id n1 Hn1) as (n2 & Hn2 & E2).
    pose proof (assign_calm false (sandbox_enabled e) id nc1 c2 n2 (st_below _ _ H1) Hn2
      (fun ch => Hret n2 false ch E2)) as H2. unfold bind at 1.
    destruct (assign (side_of false) _ _ _ _) as [[dl|err] c3]; [|exact H2].
    cbn [snd] in H2. eapply still_trans; [exact H2|]. apply calm_bind; [apply calm_node| |exact (st_below _ _ H2)].
    intros n. by destruct (_ || _); apply calm_pure. }
  split; [|rewrite <- (f_ims _ _ Hf1); split; apply Hstill].
  intros b k id' l. rewrite (frame_attached c c1 b k id' l Hf1). symmetry. apply Hstill.
Qed.

(** *** Leaving *)

(** C12 A disconnect request of a known node none of whose bursts is queued
    always succeeds: the node is forgotten and attached nowhere any more, every
    other node stays attached exactly where it was, and no channel without
    members is left in the map. *)
Theorem disconnect_removes_node (parse : string → option json) (cos : float → float)
    (e : request_env) (s id : string) (j : json) (c : t) (n : Node.t)
    (Hc : inv c) (Hparse : parse s = Some j) (Htype : contains "type" j = true)
    (Hty : string_member "type" j = Ok "disconnect") (Hid : string_member "id" j = Ok id)
    (Hn : m_nodeMap c !! id = Some n) (Hidle : idle_node id c) :
  ∃ c', requestHandler parse cos e s c = (Ok (status "success"), c') ∧
    m_nodeMap c' = delete id (m_nodeMap c) ∧
    (∀ b k id' l, attached c' b k id' l ↔ attached c b k id' l ∧ id' ≠ id) ∧
    (∀ k a, (k, a) ∈ m_intermediateMap c' → (k, a) ∈ m_intermediateMap c ∧
       ∃ i, c_ims c' !! a = Some i ∧ Intermediate.isEmpty i = false).
Proof.
  destruct (disconnect_spec id n c Hc Hn) as [Hs Hok]. destruct (Hok Hidle) as [c' E].
  unfold safe in Hs. rewrite E in Hs. destruct Hs as [_ En Hat Hmap Hocc _].
  exists c'. split; [|split; [exact En|split; [exact Hat|intros k a Hin; split; [by apply Hmap|
    exact (Hocc k a Hin)]]]].
  unfold requestHandler. rewrite Hparse, Htype, Hty.
  change (bind (lift (Ok "disconnect")) ?k c) with (k "disconnect"%string c). cbv beta.
  change ("disconnect" =? "heartbeat")%string with false.
  change ("disconnect" =? "disconnect")%string with true. cbv iota.
  unfold disconnect_request. rewrite Hid. change (bind (lift (Ok id)) ?k c) with (k id c). cbv beta.
  change (bind (gets m_nodeMap) ?k c) with (k (m_nodeMap c) c). cbv beta. rewrite Hn.
  by rewrite (bind_ok _ _ _ _ _ E).
Qed.

(** C20 The time-out check, when no burst of a silent node is queued,
    removes exactly the nodes whose last heartbeat is ten seconds old or more,
    detaches them everywhere, and leaves every other node known and attached
    exactly where it was. *)
Theorem timeouts_remove_silent (now : Z) (c : t)
    (Hc : inv c)
    (Hidle : ∀ id n, m_nodeMap c !! id = Some n → Node.isAlive now 10 n = false → idle_node id c) :
  ∃ c', CheckTimeouts now c = (Ok tt, c') ∧
    (∀ id n, m_nodeMap c' !! id = Some n ↔
       m_nodeMap c !! id = Some n ∧ Node.isAlive now 10 n = true) ∧
    (∀ b k id l, attached c' b k id l ↔
       attached c b k id l ∧ ∃ n, m_nodeMap c !! id = Some n ∧ Node.isAlive now 10 n = true).
Proof.
  destruct (timeouts_spec now c Hc) as [Hs Hok]. destruct (Hok Hidle) as [c' E].
  unfold safe in Hs. rewrite E in Hs. destruct Hs as [_ En Hat]. exists c'. split; [done|].
  setoid_rewrite elem_of_map_to_list in En. setoid_rewrite elem_of_map_to_list in Hat. split.
  - intros id n. rewrite En. naive_solver.
  - intros b k id l. rewrite Hat. split.
    + intros [Ha Hall]. split; [done|]. destruct (i_tuned c Hc b k id l Ha) as (n & Hn & _). eauto.
    + intros [Ha (n & Hn & Hal)]. split; [done|]. intros n' Hn'. by replace n' with n by congruence.
Qed.

End Properties.

(** ** Two nodes on two frequencies

    Nodes "n1" and "n2" connect at 1 and 2 MHz, then retune: "n1" sends at
    3 MHz and listens at 4 MHz, "n2" the other way round. *)

Section Demo.
Import Controller.

Definition demo_request (id : string) (tx rx : Z) : json :=
  let dir f := of_pairs [("tune_freq", JFloat (F64.of_Z f))] in
  of_pairs [("id", JString id); ("name", JString id);
            ("channels", JArray [of_pairs [("tx", dir tx); ("rx", dir rx)]])].

(** The requests of the demonstration, by name. *)
Definition demo_parse (s : string) : option json :=
  if (s =? "n1 home")%string then Some (demo_request "n1" 1000000 2000000)
  else if (s =? "n1 up")%string then Some (demo_request "n1" 3000000 4000000)
  else if (s =? "n2 home")%string then Some (demo_request "n2" 1000000 2000000)
  else if (s =? "n2 up")%string then Some (demo_request "n2" 4000000 3000000)
  else if (s =? "n1 away")%string then Some (demo_request "n1" 5000000 6000000)
  else if (s =? "n1 bye")%string
  then Some (of_pairs [("type", JString "disconnect"); ("id", JString "n1")])
  else None.

Definition demo_env (now : Z) : request_env := mkEnv now "10.0.0.1" false 0 0.

Definition demo_cos (x : float) : float := x.

Definition demo_ask (now : Z) (s : string) (c : t) : t :=
  (requestHandler demo_parse demo_cos (demo_env now) s c).2.

Definition demo_fresh : t :=
  mk (all_ports false) (all_ports true) ∅ ∅ [] ∅ None
    [DataArrayPool.mk 2 8 false [replicate 8 x00; replicate 8 x00] "IQ"] 0 0 (mkHeap ∅ ∅) ∅ 1.

Definition demo_first : t := demo_ask 0 "n1 home" demo_fresh.

Definition demo_connected : t := demo_ask 15000000000 "n2 home" demo_first.

Definition demo_half : t := demo_ask 0 "n1 up" demo_connected.

Definition demo_both : t := demo_ask 15000000000 "n2 up" demo_half.

(** The demonstration is a run of the machine. *)
Lemma demo_plain e s : plain_text demo_parse e s.
Proof.
  unfold plain_text, demo_parse. intros j.
  repeat (destruct (_ =? _)%string; [intros [= <-]; intros [] ch; vm_compute; by intros [= <-]|]).
  done.
Qed.

Lemma demo_fresh_ok : fresh demo_fresh.
Proof. split_and!; try done. by intros []. Qed.

Definition served (o : outcome cerror json) : bool := if o is Ok _ then true else false.

Lemma demo_step (mode : bool → Prop) now s c :
  mode false → served (requestHandler demo_parse demo_cos (demo_env now) s c).1 = true →
  @cstep flat_dsp silent_converter least_queue demo_parse demo_cos mode c (demo_ask now s c).
Proof.
  intros Hm Hok. unfold demo_ask.
  destruct (requestHandler demo_parse demo_cos (demo_env now) s c) as [r c'] eqn:E.
  eapply cs_request; [|by apply demo_plain|exact E|]; [done|]. intros x ->. done.
Qed.

Lemma emulator_run (mode : bool → Prop) : mode false →
  rtc (@cstep flat_dsp silent_converter least_queue demo_parse demo_cos mode) demo_fresh demo_both.
Proof.
  intros Hm. apply (rtc_l _ _ demo_first); [apply demo_step; [exact Hm|vm_cast_no_check (eq_refl true)]|].
  apply (rtc_l _ _ demo_connected); [apply demo_step; [exact Hm|vm_cast_no_check (eq_refl true)]|].
  apply (rtc_l _ _ demo_half); [apply demo_step; [exact Hm|vm_cast_no_check (eq_refl true)]|].
  apply (rtc_l _ _ demo_both); [apply demo_step; [exact Hm|vm_cast_no_check (eq_refl true)]|apply rtc_refl].
Qed.

Lemma demo_both_inv : inv demo_both.
Proof. exact (machine_inv demo_parse demo_cos _ _ _ off_mode demo_fresh_ok
  (emulator_run _ eq_refl)). Qed.

(** Idleness, decided. *)
Definition idle_check (id : string) (c : t) : bool :=
  forallb (fun fa =>
    match c_ims c !! fa.2 with
    | Some i => match Intermediate.m_workers i !! id with
                | Some w => if Intermediate.queue w is [] then true else false
                | None => true
                end
    | None => true
    end) (m_intermediateMap c).

Lemma idle_check_sound id c : idle_check id c = true → idle_node id c.
Proof.
  unfold idle_check. rewrite forallb_forall. intros Hall k a i Hin Hi _ w Hw.
  specialize (Hall (k, a)). cbn [snd] in Hall. rewrite Hi, Hw in Hall.
  destruct (Intermediate.queue w); [done|]. discriminate Hall. by apply list_elem_of_In.
Qed.

Lemma all_idle_sound c :
  forallb (fun kn => idle_check kn.1 c) (map_to_list (m_nodeMap c)) = true →
  ∀ id n, m_nodeMap c !! id = Some n → idle_node id c.
Proof.
  intros Hall id n Hn. rewrite forallb_forall in Hall. apply idle_check_sound.
  apply (Hall (id, n)). by apply list_elem_of_In, elem_of_map_to_list.
Qed.

(** *** The theorems at these states *)

(** The attachments of a side of a node, computed. *)
Definition attachments (c : t) (b : bool) (id : string) : list (float * positive) :=
  omap (fun fa => match c_ims c !! fa.2 with
                  | Some i => (fun l => (fa.1, l)) <$> (members b i !! id)
                  | None => None
                  end) (m_intermediateMap c).

Lemma attachments_sound c b id k l :
  attachments c b id = [(k, l)] → attached c b k id l.
Proof.
  intros E. assert (Hin : (k, l) ∈ attachments c b id) by (rewrite E; by left).
  apply list_elem_of_omap in Hin as ([k' a] & Hin & Hf). cbn [fst snd] in Hf.
  destruct (c_ims c !! a) as [i|] eqn:Ei; [|done].
  destruct (members b i !! id) as [l'|] eqn:El; [|done]. injection Hf as <- <-. by exists a, i.
Qed.

Lemma node_on_one_frequency_witness :
  attached demo_both true (F64.of_Z 3000000) "n1" 1 ∧
  ∃ n, m_nodeMap demo_both !! "n1" = Some n ∧ object true n = Some 1%positive ∧
       owns true (c_heap demo_both) 1 "n1" ∧ same_key (F64.of_Z 3000000) (tuning true n).
Proof.
  assert (Hat : attached demo_both true (F64.of_Z 3000000) "n1" 1).
  { apply attachments_sound. vm_cast_no_check (eq_refl [(F64.of_Z 3000000, 1%positive)]). }
  split; [exact Hat|].
  exact (proj1 (@node_on_one_frequency flat_dsp silent_converter least_queue demo_parse demo_cos
    demo_fresh demo_both true _ _ _ demo_fresh_ok (emulator_run _ eq_refl) Hat)).
Defined.

Definition demo_node (id : string) (c : t) : Node.t :=
  default (Node.ctor 0 (NodeConfig.default 0 0)) (m_nodeMap c !! id).

(** A node of a state, known to be there. *)
Definition known (id : string) (c : t) : bool := if m_nodeMap c !! id is Some _ then true else false.

Lemma known_sound id c : known id c = true → m_nodeMap c !! id = Some (demo_node id c).
Proof. unfold known, demo_node. by destruct (m_nodeMap c !! id). Qed.

Lemma known_complete id c n : m_nodeMap c !! id = Some n → known id c = true.
Proof. unfold known. by intros ->. Qed.


Lemma length_some {A} (l : list A) n : length l = S n → l ≠ [].
Proof. by intros E ->. Qed.

(** The sandbox extension starts, and "n1" asks for 5 and 6 MHz. *)
Definition demo_split : t :=
  (requestHandler demo_parse demo_cos (mkEnv 0 "10.0.0.1" true 0 0) "n1 away" demo_both).2.

(** In sandbox mode a retune leaves the previous channel by
    [removeSandboxNode] only: an object attached before the mode was switched
    on is not detached, so the node goes on sending on the frequency it was
    tuned to before. *)
Theorem sandbox_retune_splits :
  rtc (@cstep flat_dsp silent_converter least_queue demo_parse demo_cos (λ _, True))
    demo_fresh demo_split ∧
  attached demo_split true (F64.of_Z 3000000) "n1" 1 ∧
  ∃ n, m_nodeMap demo_split !! "n1" = Some n ∧ tuning true n = F64.of_Z 5000000.
Proof.
  split_and!.
  - eapply rtc_r; [by apply (emulator_run (λ _, True))|].
    eapply (cs_request demo_parse demo_cos (λ _, True) (mkEnv 0 "10.0.0.1" true 0 0) "n1 away");
      [done|by apply demo_plain|apply surjective_pairing|].
    intros x Hx. assert (Hs : served (requestHandler demo_parse demo_cos
      (mkEnv 0 "10.0.0.1" true 0 0) "n1 away" demo_both).1 = true)
      by vm_cast_no_check (eq_refl true).
    rewrite Hx in Hs. discriminate Hs.
  - apply attachments_sound. vm_cast_no_check (eq_refl [(F64.of_Z 3000000, 1%positive)]).
  - exists (demo_node "n1" demo_split). split.
    + apply known_sound. vm_cast_no_check (eq_refl true).
    + vm_cast_no_check (eq_refl (F64.of_Z 5000000)).
Qed.

Definition demo_channel (tx rx : Z) : usrp.Channel :=
  usrp.setRxFreq (F64.of_Z rx) (usrp.setTxFreq (F64.of_Z tx) usrp.default_Channel).

Lemma retune_moves_node_witness :
  ∃ n' c', requestHandler demo_parse demo_cos (demo_env 0) "n1 away" demo_both = (Ok (accepted n'), c') ∧
    m_nodeMap c' !! "n1" = Some n' ∧
    ∃ k, same_key k (F64.of_Z 5000000) ∧ attached c' true k "n1" 1.
Proof.
  destruct (retune_moves_node demo_parse demo_cos (demo_env 0) "n1 away"
    (demo_request "n1" 5000000 6000000) demo_both (demo_node "n1" demo_both)
    (demo_channel 5000000 6000000) [] 1 3 demo_both_inv)
    as (n' & c' & E & Hn' & _ & Hb & _).
  - reflexivity.
  - reflexivity.
  - reflexivity.
  - apply known_sound. vm_cast_no_check (eq_refl true).
  - intros []; [vm_cast_no_check (eq_refl (Some 1%positive))|vm_cast_no_check (eq_refl (Some 3%positive))].
  - apply (length_some _ 0). vm_cast_no_check (eq_refl 1%nat).
  - vm_compute. reflexivity.
  - by intros [].
  - intros []; vm_cast_no_check (eq_refl true).
  - apply idle_check_sound. vm_cast_no_check (eq_refl true).
  - assert (Eid : NodeConfig.m_id (requested (demo_env 0) (demo_request "n1" 5000000 6000000)) = "n1"%string)
      by reflexivity.
    destruct (Hb true) as (_ & k & Hk & Ha & _). rewrite Eid in Hn', Ha.
    exists n', c'. split; [exact E|]. split; [exact Hn'|]. exists k. split; [exact Hk|exact Ha].
Defined.

Lemma unchanged_request_attaches_nothing_witness :
  let c' := demo_ask 0 "n1 home" demo_fresh in
  known "n1" c' = true ∧ (∀ b k id l, ¬ attached c' b k id l) ∧
  ∀ a i, c_ims c' !! a = Some i → Intermediate.isEmpty i = true.
Proof.
  split; [vm_cast_no_check (eq_refl true)|].
  destruct (unchanged_request_attaches_nothing demo_parse demo_cos (demo_env 0) "n1 home"
    (demo_request "n1" 1000000 2000000) demo_fresh (demo_ask 0 "n1 home" demo_fresh)
    (requestHandler demo_parse demo_cos (demo_env 0) "n1 home" demo_fresh).1
    (fresh_inv _ demo_fresh_ok)) as (H1 & _ & H3).
  - reflexivity.
  - reflexivity.
  - by apply (demo_plain (demo_env 0) "n1 home").
  - intros n b' ch Hn. change (m_nodeMap demo_fresh) with (∅ : gmap string Node.t) in Hn.
    rewrite lookup_empty in Hn. discriminate Hn.
  - apply surjective_pairing.
  - split.
    + intros b k id l Ha. apply H1 in Ha as (a & i & Hin & _). by apply elem_of_nil in Hin.
    + intros a i Hi. apply H3 in Hi as [Hi|Hi]; [|exact Hi].
      change (c_ims demo_fresh) with (∅ : gmap positive Intermediate.t) in Hi.
      rewrite lookup_empty in Hi. discriminate Hi.
Defined.

Lemma disconnect_removes_node_witness :
  ∃ c', requestHandler demo_parse demo_cos (demo_env 0) "n1 bye" demo_both
          = (Ok (status "success"), c') ∧
    (∀ b k l, ¬ attached c' b k "n1" l) ∧ m_nodeMap c' !! "n2" = m_nodeMap demo_both !! "n2".
Proof.
  destruct (disconnect_removes_node demo_parse demo_cos (demo_env 0) "n1 bye" "n1"
    (of_pairs [("type", JString "disconnect"); ("id", JString "n1")]) demo_both
    (demo_node "n1" demo_both) demo_both_inv) as (c' & E & En & Hat & _).
  - reflexivity.
  - reflexivity.
  - reflexivity.
  - reflexivity.
  - apply known_sound. vm_cast_no_check (eq_refl true).
  - apply idle_check_sound. vm_cast_no_check (eq_refl true).
  - exists c'. split; [exact E|]. split; [|rewrite En; by apply lookup_delete_ne].
    intros b k l Ha. apply Hat in Ha as [_ Hne]. by apply Hne.
Defined.

Lemma silent_gone {A} (alive : A → bool) (m m' : gmap string A) id n :
  (∀ x, m' !! id = Some x ↔ m !! id = Some x ∧ alive x = true) → m !! id = Some n →
  alive n = false → m' !! id = None.
Proof.
  intros Hn Hid Hal. apply eq_None_not_Some. intros [x [Hx Hx']%Hn]. congruence.
Qed.

(** At 20 s node "n1", last heard of at 0, is silent; "n2" is not. *)
Lemma timeouts_remove_silent_witness :
  ∃ c', CheckTimeouts 20000000000 demo_both = (Ok tt, c') ∧
    m_nodeMap c' !! "n1" = None ∧ known "n2" c' = true ∧
    attached c' true (F64.of_Z 4000000) "n2" 5.
Proof.
  destruct (timeouts_remove_silent 20000000000 demo_both demo_both_inv) as (c' & E & Hn & Hat).
  - intros id n Hn _. refine (all_idle_sound demo_both _ id n Hn).
    vm_cast_no_check (eq_refl true).
  - assert (Ha1 : Node.isAlive 20000000000 10 (demo_node "n1" demo_both) = false)
      by (vm_cast_no_check (eq_refl false)).
    assert (Ha2 : Node.isAlive 20000000000 10 (demo_node "n2" demo_both) = true)
      by (vm_cast_no_check (eq_refl true)).
    assert (H1 : m_nodeMap demo_both !! "n1" = Some (demo_node "n1" demo_both))
      by (apply known_sound; vm_cast_no_check (eq_refl true)).
    assert (H2 : m_nodeMap demo_both !! "n2" = Some (demo_node "n2" demo_both))
      by (apply known_sound; vm_cast_no_check (eq_refl true)).
    exists c'. split; [exact E|]. split; [|split].
    + exact (silent_gone _ _ _ _ _ (Hn "n1"%string) H1 Ha1).
    + exact (known_complete _ _ _ (proj2 (Hn _ _) (conj H2 Ha2))).
    + apply Hat. split; [|exact (ex_intro _ _ (conj H2 Ha2))].
      apply attachments_sound. vm_cast_no_check (eq_refl [(F64.of_Z 4000000, 5%positive)]).
Defined.

End Demo.
