(* ===== verification/Extensions.v ===== *)
(** src/include/chem/extensions/extension.h and
    src/src/chem/extensions/extension_registry.cpp: extensions of the channel
    model, and the registry that starts, stops and addresses them.

    The virtual functions of [ChannelExtension] are a class over the type of
    the extension objects [E] and the type [W] of everything outside the object
    they may read or change; [ExtensionLaws] is what the registry relies on.
    Sionna.v and Operator.v give the instance of the program. *)

From Stdlib Require Import ZArith Lia Strings.String.
From stdpp Require Import prelude list strings gmap sorting fin_maps.
From S2P Require Import Prelude.
From S2P Require Import Json.

(** The entries of a [std::map<std::string, A>], in order. *)
Section Entries.
Context {A : Type}.

Definition entry_le (a b : string * A) : Prop := String.leb a.1 b.1 = true.

#[export] Instance entry_le_dec a b : Decision (entry_le a b).
Proof. unfold entry_le. apply _. Defined.

Definition entries (m : gmap string A) : list (string * A) :=
  merge_sort entry_le (map_to_list m).

Lemma entries_perm m : entries m ≡ₚ map_to_list m.
Proof. apply merge_sort_Permutation. Qed.

Lemma elem_of_entries m k a : (k, a) ∈ entries m ↔ m !! k = Some a.
Proof. by rewrite entries_perm, elem_of_map_to_list. Qed.

Lemma NoDup_fst_unique (l : list (string * A)) k a b :
  NoDup l.*1 → (k, a) ∈ l → (k, b) ∈ l → a = b.
Proof.
  induction l as [|[k' c] l IH]; intros Hnd Ha Hb; [by apply elem_of_nil in Ha|].
  rewrite fmap_cons, NoDup_cons in Hnd. destruct Hnd as [Hn Hnd].
  apply elem_of_cons in Ha as [Ea|Ha]; apply elem_of_cons in Hb as [Eb|Hb]; try congruence.
  - injection Ea as -> ->. destruct Hn. by apply (list_elem_of_fmap_2 fst l (k', b)).
  - injection Eb as -> ->. destruct Hn. by apply (list_elem_of_fmap_2 fst l (k', a)).
  - by apply IH.
Qed.

Lemma entries_keys_nodup m : NoDup (entries m).*1.
Proof. rewrite entries_perm. apply NoDup_fst_map_to_list. Qed.

End Entries.

(** [class ChannelExtension]. *)
Class ChannelExtension (E W : Type) : Type := {
  name : E → string;
  onStart : json → E → W → bool * E * W;
  onStop : E → W → E * W;
  isRunning : E → bool;
  handleCommand : string → json → E → W → json * E * W;
  getStatus : E → W → json;
  getConfigSchema : E → json;
  setContext : E → E;
}.

(** Names are constants; a start leaves the extension running exactly if it
    says so, a running one is left alone, a stop stops. *)
Class ExtensionLaws (E W : Type) `{ChannelExtension E W} : Prop := {
  name_onStart j (e : E) (w : W) : name (onStart j e w).1.2 = name e;
  name_onStop (e : E) (w : W) : name (onStop e w).1 = name e;
  name_handleCommand a j (e : E) (w : W) : name (handleCommand a j e w).1.2 = name e;
  name_setContext (e : E) : name (setContext e) = name e;
  isRunning_setContext (e : E) : isRunning (setContext e) = isRunning e;
  onStart_runs j (e : E) (w : W) :
    isRunning (onStart j e w).1.2 = (onStart j e w).1.1;
  onStart_again j (e : E) (w : W) : isRunning e = true → onStart j e w = (true, e, w);
  onStop_stops (e : E) (w : W) : isRunning (onStop e w).1 = false;
}.

Module ExtensionRegistry.

Section Registry.
Context {E W : Type} `{ChannelExtension E W}.

(** [m_context]: [m_nodeMap] and [m_intermediateMap] are set, both at once. *)
Record t : Type := mk {
  m_extensions : gmap string E;
  m_context : bool;
}.

#[export] Instance t_eta : Settable t := λ r, mk (m_extensions r) (m_context r).

Definition init : t := mk ∅ false.

(** A null pointer is [None]. *)
Definition registerExtension (ext : option E) (r : t) : t :=
  match ext with
  | None => r
  | Some e =>
      let n := name e in
      let e := if m_context r then setContext e else e in
      r <| m_extensions := <[n := e]> (m_extensions r) |>
  end.

Definition get (n : string) (r : t) : option E := m_extensions r !! n.

Definition list_names (r : t) : list string := (entries (m_extensions r)).*1.

(** [ExtensionRegistry::setContext]. *)
Definition set_context (r : t) : t :=
  r <| m_context := true |> <| m_extensions := setContext <$> m_extensions r |>.

Definition put (n : string) (e : E) (r : t) : t :=
  r <| m_extensions := <[n := e]> (m_extensions r) |>.

(** Lines 58-62. *)
Definition enabled (cfg : json) : bool :=
  match cfg with
  | JObject fs => match find_key "enabled" fs with Some (JBool b) => b | _ => true end
  | _ => true
  end.

Definition start_one (nc : string * json) (rw : t * W) : t * W :=
  let '(r, w) := rw in
  match m_extensions r !! nc.1 with
  | None => (r, w)
  | Some e =>
      if enabled nc.2 then
        let '(_, e, w) := onStart nc.2 e w in (put nc.1 e r, w)
      else (r, w)
  end.

Definition startFromConfig (extensionsConfig : json) (r : t) (w : W) : t * W :=
  match extensionsConfig with
  | JObject fs => foldl (λ rw nc, start_one nc rw) (r, w) fs
  | _ => (r, w)
  end.

Definition stop_one (ne : string * E) (rw : t * W) : t * W :=
  let '(r, w) := rw in
  if isRunning ne.2 then
    let '(e, w) := onStop ne.2 w in (put ne.1 e r, w)
  else (r, w).

Definition stopAll (r : t) (w : W) : t * W :=
  foldl (λ rw ne, stop_one ne rw) (r, w) (entries (m_extensions r)).

Definition routeCommand (extensionName action : string) (params : json) (r : t) (w : W)
    : json * t * W :=
  match m_extensions r !! extensionName with
  | None =>
      (of_pairs [("status", JString "fail");
                 ("message", JString ("Extension '" ++ extensionName ++ "' not found"))], r, w)
  | Some e =>
      let '(resp, e, w) := handleCommand action params e w in
      (resp, put extensionName e r, w)
  end.

(** [schema.empty()]. *)
Definition json_empty (j : json) : bool :=
  match j with JNull | JObject [] | JArray [] => true | _ => false end.

(** A status is an object, so [status["configSchema"] = schema] succeeds. *)
Definition status_of (w : W) (e : E) : json :=
  let status := getStatus e w in
  let schema := getConfigSchema e in
  if json_empty schema then status
  else match set_key "configSchema" schema status with Ok j => j | Err _ => status end.

Definition getAllStatus (r : t) (w : W) : json :=
  JObject (foldl (λ fs ne, put_key ne.1 (status_of w ne.2) fs) [] (entries (m_extensions r))).

End Registry.

Arguments t E : clear implicits.

(** ** What the registry promises *)

Section Laws.
Context {E W : Type} `{ExtensionLaws E W}.
Implicit Types (r : t E) (w : W) (e : E).

(** Every extension is filed under its own name. *)
Definition filed r : Prop := ∀ n e, m_extensions r !! n = Some e → name e = n.

Lemma filed_init : filed init.
Proof. intros n e Hn. cbn in Hn. by rewrite lookup_empty in Hn. Qed.

Lemma filed_put r n e : filed r → name e = n → filed (put n e r).
Proof.
  intros Hr Hn n' e'. unfold put. cbn [modify m_extensions].
  rewrite lookup_insert_Some. intros [[<- <-]|[_ Hl]]; [done|by apply Hr].
Qed.

Lemma filed_register ext r : filed r → filed (registerExtension ext r).
Proof.
  intros Hr. destruct ext as [e|]; [|done]. cbn [registerExtension].
  apply filed_put; [done|]. destruct (m_context r); [apply name_setContext|done].
Qed.

Lemma filed_context r : filed r → filed (set_context r).
Proof.
  intros Hr n e. unfold set_context. cbn [modify m_extensions].
  rewrite lookup_fmap_Some. intros (e0 & <- & Hl). rewrite name_setContext. by apply Hr.
Qed.

Lemma filed_start nc r w : filed r → filed (start_one nc (r, w)).1.
Proof.
  intros Hr. cbn [start_one]. destruct (m_extensions r !! nc.1) as [e|] eqn:En; [|done].
  destruct (enabled nc.2); [|done].
  pose proof (name_onStart nc.2 e w) as Hn. destruct (onStart nc.2 e w) as [[b e'] w'].
  apply filed_put; [done|]. cbn in Hn. rewrite Hn. by apply Hr.
Qed.

Lemma filed_stop n e r w : filed r → name e = n → filed (stop_one (n, e) (r, w)).1.
Proof.
  intros Hr Hn. cbn [stop_one fst snd]. destruct (isRunning e); [|done].
  pose proof (name_onStop e w) as Hn'. destruct (onStop e w) as [e' w'].
  apply filed_put; [done|]. cbn in Hn'. congruence.
Qed.

Lemma filed_route n a j r w : filed r → filed (routeCommand n a j r w).1.2.
Proof.
  intros Hr. unfold routeCommand. destruct (m_extensions r !! n) as [e|] eqn:En; [|done].
  pose proof (name_handleCommand a j e w) as Hn.
  destruct (handleCommand a j e w) as [[resp e'] w'].
  apply filed_put; [done|]. cbn in Hn. rewrite Hn. by apply Hr.
Qed.


(** *** Starting and stopping *)

(** A step that acts on one entry. *)
Lemma start_one_other nc r w n :
  n ≠ nc.1 → m_extensions (start_one nc (r, w)).1 !! n = m_extensions r !! n.
Proof.
  intros Hn. cbn [start_one]. destruct (m_extensions r !! nc.1) as [e|]; [|done].
  destruct (enabled nc.2); [|done]. destruct (onStart nc.2 e w) as [[b e'] w'].
  by apply lookup_insert_ne.
Qed.

Lemma start_all_other fs r w n :
  n ∉ fs.*1 → m_extensions (foldl (λ rw nc, start_one nc rw) (r, w) fs).1 !! n = m_extensions r !! n.
Proof.
  revert r w. induction fs as [|nc fs IH]; intros r w Hn; [done|].
  rewrite fmap_cons, not_elem_of_cons in Hn. destruct Hn as [Hn Hfs]. cbn [foldl].
  pose proof (start_one_other nc r w n Hn) as Hs. destruct (start_one nc (r, w)) as [r' w'].
  by rewrite IH, <- Hs.
Qed.

Lemma stop_one_other ne r w n :
  n ≠ ne.1 → m_extensions (stop_one ne (r, w)).1 !! n = m_extensions r !! n.
Proof.
  intros Hn. cbn [stop_one]. destruct (isRunning ne.2); [|done].
  destruct (onStop ne.2 w) as [e' w']. by apply lookup_insert_ne.
Qed.

Lemma stop_all_other l r w n :
  n ∉ l.*1 → m_extensions (foldl (λ rw ne, stop_one ne rw) (r, w) l).1 !! n = m_extensions r !! n.
Proof.
  revert r w. induction l as [|ne l IH]; intros r w Hn; [done|].
  rewrite fmap_cons, not_elem_of_cons in Hn. destruct Hn as [Hn Hl]. cbn [foldl].
  pose proof (stop_one_other ne r w n Hn) as Hs. destruct (stop_one ne (r, w)) as [r' w'].
  by rewrite IH, <- Hs.
Qed.

Lemma stop_all_spec l r w n e :
  NoDup l.*1 → (∀ ne, ne ∈ l → m_extensions r !! ne.1 = Some ne.2) → (n, e) ∈ l →
  ∃ e', m_extensions (foldl (λ rw ne, stop_one ne rw) (r, w) l).1 !! n = Some e' ∧
    isRunning e' = false ∧ (isRunning e = false → e' = e).
Proof.
  revert r w. induction l as [|ne l IH]; intros r w Hnd Hl Hin; [by apply elem_of_nil in Hin|].
  rewrite fmap_cons, NoDup_cons in Hnd. destruct Hnd as [Hne Hnd]. cbn [foldl].
  destruct (stop_one ne (r, w)) as [r' w'] eqn:Es.
  apply elem_of_cons in Hin as [<-|Hin].
  - rewrite stop_all_other by done. cbn [stop_one fst snd] in Es.
    destruct (isRunning e) eqn:Er.
    + pose proof (onStop_stops e w) as Hs. destruct (onStop e w) as [e' w1].
      injection Es as <- <-. exists e'. split; [apply lookup_insert_eq|]. by split.
    + injection Es as <- <-. exists e. split; [|done]. by apply (Hl (n, e)), list_elem_of_here.
  - apply IH; [done| |done]. intros ne' Hin'.
    pose proof (stop_one_other ne r w ne'.1) as Hs. rewrite Es in Hs. cbn [fst] in Hs.
    rewrite Hs; [by apply Hl, list_elem_of_further|].
    intros Heq. apply Hne. rewrite <- Heq. by apply list_elem_of_fmap_2.
Qed.

(** Shutting down stops every registered extension, whatever stopping one does
    to the rest of the program; extensions that do not run are not touched. *)
Theorem stopAll_stops_all r w n e :
  m_extensions r !! n = Some e →
  ∃ e', m_extensions (stopAll r w).1 !! n = Some e' ∧ isRunning e' = false ∧
        (isRunning e = false → e' = e).
Proof.
  intros Hn. apply stop_all_spec.
  - apply entries_keys_nodup.
  - intros [n' e'] Hin. by apply elem_of_entries.
  - by apply elem_of_entries.
Qed.

Lemma start_one_self cfg n r w e :
  m_extensions r !! n = Some e →
  m_extensions (start_one (n, cfg) (r, w)).1 !! n
  = Some (if enabled cfg then (onStart cfg e w).1.2 else e).
Proof.
  intros Hn. cbn [start_one fst snd]. rewrite Hn. destruct (enabled cfg); [|done].
  destruct (onStart cfg e w) as [[b e'] w']. apply lookup_insert_eq.
Qed.

Lemma start_all_none fs r w n :
  m_extensions r !! n = None →
  m_extensions (foldl (λ rw nc, start_one nc rw) (r, w) fs).1 !! n = None.
Proof.
  revert r w. induction fs as [|nc fs IH]; intros r w Hn; [done|]. cbn [foldl].
  destruct (start_one nc (r, w)) as [r' w'] eqn:Es. apply IH.
  destruct (decide (n = nc.1)) as [->|Hne].
  - cbn [start_one] in Es. rewrite Hn in Es. by injection Es as <- _.
  - pose proof (start_one_other nc r w n Hne) as Hs. rewrite Es in Hs. cbn [fst] in Hs. congruence.
Qed.

Lemma start_all_spec fs r w n e cfg :
  NoDup fs.*1 → (n, cfg) ∈ fs → m_extensions r !! n = Some e →
  ∃ w', m_extensions (foldl (λ rw nc, start_one nc rw) (r, w) fs).1 !! n
        = Some (if enabled cfg then (onStart cfg e w').1.2 else e).
Proof.
  revert r w. induction fs as [|nc fs IH]; intros r w Hnd Hin Hn; [by apply elem_of_nil in Hin|].
  rewrite fmap_cons, NoDup_cons in Hnd. destruct Hnd as [Hne Hnd]. cbn [foldl].
  apply elem_of_cons in Hin as [<-|Hin].
  - exists w. pose proof (start_one_self cfg n r w e Hn) as Hs.
    destruct (start_one (n, cfg) (r, w)) as [r' w']. by rewrite start_all_other.
  - assert (Hd : n ≠ nc.1).
    { intros ->. apply Hne. by apply (list_elem_of_fmap_2 fst fs (nc.1, cfg)). }
    pose proof (start_one_other nc r w n Hd) as Hs.
    destruct (start_one nc (r, w)) as [r' w']. apply IH; [done..|]. cbn [fst] in Hs. congruence.
Qed.

(** The configuration file starts the extensions it names unless their
    "enabled" is false; one that already runs is left alone.  An extension
    without an entry stays as it is, and an entry without an extension adds
    none. *)
Theorem startFromConfig_starts_enabled (fs : list (string * json)) r w n :
  NoDup fs.*1 →
  let r' := (startFromConfig (JObject fs) r w).1 in
  match m_extensions r !! n with
  | None => m_extensions r' !! n = None
  | Some e => ∃ e', m_extensions r' !! n = Some e' ∧
      (∀ cfg, (n, cfg) ∈ fs → enabled cfg = true → ∃ w', e' = (onStart cfg e w').1.2) ∧
      (isRunning e = true ∨ (∀ cfg, (n, cfg) ∈ fs → enabled cfg = false) → e' = e)
  end.
Proof.
  intros Hnd. cbn [startFromConfig]. destruct (m_extensions r !! n) as [e|] eqn:Hn.
  2: by apply start_all_none.
  destruct (decide (n ∈ fs.*1)) as [Hin|Hout].
  - apply list_elem_of_fmap in Hin as ([n' cfg] & -> & Hin). cbn [fst] in *.
    destruct (start_all_spec fs r w n' e cfg Hnd Hin Hn) as [w' Hw]. eexists. split; [exact Hw|].
    assert (Hu : ∀ cfg', (n', cfg') ∈ fs → cfg' = cfg).
    { intros cfg' Hin'. by apply (NoDup_fst_unique fs n'). }
    split.
    + intros cfg' Hin' He. rewrite (Hu cfg' Hin') in *. exists w'. by rewrite He.
    + intros [Hrun|Hoff]; [|by rewrite (Hoff cfg Hin)].
      destruct (enabled cfg); [|done]. by rewrite onStart_again.
  - exists e. split; [by rewrite start_all_other|]. split; [|done].
    intros cfg Hin. destruct Hout. by apply (list_elem_of_fmap_2 fst fs (n, cfg)).
Qed.

End Laws.

End ExtensionRegistry.
