(* ===== verification/Coordinator.v ===== *)
(** src/src/chem/channel/coordinator.cpp: the commands of the operator.  The
    coordinator shares the nodes and the intermediates of the controller; it
    keeps the shadowing deviations and the runtime configuration
    (src/include/chem/runtime_config.h).

    [requestHandler] covers the commands that change links, nodes, defaults or
    the runtime configuration, and the queries of that state.  The commands of
    the extensions are in Operator.v; those of the configuration file, the logs
    and the reports built from the database are not modelled: for them it
    returns [None].  What the database answers and what the extensions report
    are arguments. *)

From Stdlib Require Import ZArith Lia Strings.String Floats.SpecFloat.
From stdpp Require Import prelude list strings gmap sorting fin_maps relations.
From S2P Require Import Prelude.
From S2P Require Import Ieee.
From S2P Require Import Common.
From S2P Require Import CxxLib.
From S2P Require Import DataPool.
From S2P Require Import Json.
From S2P Require Import NodeConfig.
From S2P Require Import NodeEntity.
From S2P Require Import Receiver.
From S2P Require Import Transmitter.
From S2P Require Import Channel.
From S2P Require Import Intermediate.
From S2P Require Import DataPath.
From S2P Require Import Controller.
From S2P Require Import ControllerInv.
From S2P Require Import Emulator.

(** libm in double precision. *)
Class Geometry : Type := {
  sin : float → float;
  cos : float → float;
  atan : float → float;
  atan2 : float → float → float;
  sqrt : float → float;
}.

Module Coordinator.

(** The process-wide variables: [shadow_std], [shadow_std_by_freq] (a
    [std::map], sorted by [operator<]) and [RuntimeConfig]. *)
Record t : Type := mk {
  ctrl : Controller.t;
  shadow_std : float;
  shadow_std_by_freq : list (float * float);
  channel_update_rate_ms : Z;              (* int *)
  vehicle_poll_rate_ms : Z;                (* int *)
  cir_max_taps : Z;                        (* int *)
}.

#[export] Instance t_eta : Settable t := λ c,
  mk (ctrl c) (shadow_std c) (shadow_std_by_freq c) (channel_update_rate_ms c)
    (vehicle_poll_rate_ms c) (cir_max_taps c).

Definition init (c : Controller.t) : t := mk c fzero [] 100 100 64.

(** [std::map<double, double>]. *)
Fixpoint find_freq (f : float) (m : list (float * float)) : option float :=
  match m with
  | [] => None
  | (k, v) :: m => if flt k f then find_freq f m else if flt f k then None else Some v
  end.

Fixpoint put_freq (f v : float) (m : list (float * float)) : list (float * float) :=
  match m with
  | [] => [(f, v)]
  | (k, v') :: m' =>
      if flt k f then (k, v') :: put_freq f v m'
      else if flt f k then (f, v) :: m else (k, v) :: m'
  end.

(** *** Nodes by id or name *)

Definition key_le (a b : string * Node.t) : Prop := String.leb a.1 b.1 = true.

#[export] Instance key_le_dec a b : Decision (key_le a b).
Proof. unfold key_le. apply _. Defined.

(** The entries of a [std::map<std::string, Node>], in order. *)
Definition by_key (m : gmap string Node.t) : list (string * Node.t) :=
  merge_sort key_le (map_to_list m).

Definition named (raw : string) (kn : string * Node.t) : bool :=
  (NodeConfig.m_name (Node.m_config kn.2) =? raw)%string.

Definition resolveNodeId (m : gmap string Node.t) (raw : string) : string :=
  match m !! raw with
  | Some _ => raw
  | None =>
      match List.find (named raw) (by_key m) with
      | Some (_, n) => NodeConfig.m_id (Node.m_config n)
      | None => raw
      end
  end.

(** *** Fields of a command

    [j[k]] is null when the key is missing; [j.value(k, d)] is [d] then, and
    converts whatever is there; a guarded read keeps [d] unless the value has
    the right type. *)

Definition fields : Type := list (string * json).

Definition fld (k : string) (fs : fields) : json := default JNull (find_key k fs).

Definition value {A} (get : json → outcome json_error A) (k : string) (d : A) (fs : fields)
    : outcome json_error A :=
  match find_key k fs with Some v => get v | None => Ok d end.

Definition number {A} (get : json → outcome json_error A) (k : string) (d : A) (fs : fields) : A :=
  match find_key k fs with
  | Some v => if is_number v then match get v with Ok a => a | Err _ => d end else d
  | None => d
  end.

Definition text (k : string) (d : string) (fs : fields) : string :=
  match find_key k fs with Some (JString s) => s | _ => d end.

Definition get_bool (j : json) : outcome json_error bool :=
  match j with JBool b => Ok b | _ => Err TypeError end.

(** [size_t]; a negative number wraps. *)
Definition get_size (j : json) : outcome json_error Z :=
  match j with
  | JUnsigned z | JInt z => Ok (u64 z)
  | JFloat x => Ok (u64 (cvtt64 x))
  | _ => Err TypeError
  end.

(** [freq * 1000000]. *)
Definition hz (freq_mhz : float) : float := F64.mul freq_mhz (F64.of_Z 1000000).

(** *** Access to the intermediates *)

Definition for_intermediates (f : Intermediate.t → Intermediate.t) (c : Controller.t)
    : Controller.t :=
  c <| Controller.c_ims :=
         foldl (λ m ka, alter f ka.2 m) (Controller.c_ims c) (Controller.m_intermediateMap c) |>.

(** [find(freq)] and a call on what is found. *)
Definition on_intermediate {A} (freq : float) (f : Intermediate.t → A * Intermediate.t)
    (c : Controller.t) : option A * Controller.t :=
  match FreqMap.find freq (Controller.m_intermediateMap c) with
  | None => (None, c)
  | Some a =>
      match Controller.c_ims c !! a with
      | None => (None, c)
      | Some i =>
          let '(r, i') := f i in
          (Some r, c <| Controller.c_ims := <[a := i']> (Controller.c_ims c) |>)
      end
  end.

Definition result (b : bool) : json := of_pairs [("result", JBool b)].

Definition success : json := of_pairs [("status", JString "success")].

Definition failure (why : string) : json :=
  of_pairs [("status", JString "fail"); ("message", JString why)].

(** [setPathLossMode]. *)
Definition setPathLossMode (freq : float) (plMode : string) (grCoeff : float)
    (scenario : string) (c : Controller.t) : json * Controller.t :=
  let m := PropagationModelFromString plMode in
  let '(r, c) := on_intermediate freq (λ i,
    let i := Intermediate.updatePathLoss m grCoeff i in
    (tt, match m with THREE_GPP_38_901 => Intermediate.set3gppScenario scenario i | _ => i end)) c in
  (result (if r is Some _ then true else false), c).

(** [setChCoeff], [setNoiseModel], [setFrequencyOffset], [setDopplerEnabled] and
    [setCIR]: one setter on the link of two nodes. *)
Definition set_link (freq : float) (src dst : string) (f : link_setter) (c : Controller.t)
    : json * Controller.t :=
  let srcId := resolveNodeId (Controller.m_nodeMap c) src in
  let destId := resolveNodeId (Controller.m_nodeMap c) dst in
  let '(r, c) := on_intermediate freq (apply_link f srcId destId) c in
  (result (default false r), c).

Definition setChCoeff (freq : float) (src dst : string) (ch : chId) (coeff : float) :=
  set_link freq src dst (LCoeff ch (F32.of_float coeff)).

Definition setNoiseModel (freq : float) (src dst noiseMdl : string) (snr : float) :=
  set_link freq src dst (LAwgn (noiseMdl =? "AWGN")%string (F32.of_float snr)).

Definition setFrequencyOffset (freq : float) (src dst : string) (offset_hz : float) :=
  set_link freq src dst (LOffset offset_hz).

Definition setDopplerEnabled (freq : float) (src dst : string) (enabled : bool) :=
  set_link freq src dst (LDopplerOn enabled).

Definition setCIR (freq : float) (src dst : string) (ch : chId) (taps : signal_v) :=
  set_link freq src dst (LCir ch taps).

(** *** Commands

    Each takes the fields of the request and returns the response, or the
    exception that leaves the handler, with the state at that point. *)

Definition handler : Type := t → outcome json_error json * t.

Definition answer (r : json) : handler := λ c, (Ok r, c).

(** Reading the request changes nothing. *)
Definition reading {A} (e : outcome json_error A) (k : A → handler) : handler := λ c,
  match e with Ok a => k a c | Err x => (Err x, c) end.

Definition on_controller (f : Controller.t → json * Controller.t) : handler := λ c,
  let '(r, ct) := f (ctrl c) in (Ok r, c <| ctrl := ct |>).

#[local] Notation "'let?' x <- e ; k" := (reading e (λ x, k))
  (at level 100, x pattern, e at next level, right associativity).

Definition config_report (extensions : json) (c : t) : json :=
  of_pairs [("status", JString "success");
            ("vehiclePollRateMs", JInt (vehicle_poll_rate_ms c));
            ("channelUpdateRateMs", JInt (channel_update_rate_ms c));
            ("cirMaxTaps", JInt (cir_max_taps c)); ("extensions", extensions)].

Definition GET_CONFIG (extensions : json) : handler := λ c,
  (Ok (config_report extensions c), c).

(** A guarded integer setting. *)
Definition setting (k : string) (fs : fields) (lo hi old : Z) : Z :=
  match find_key k fs with
  | Some v => if is_number v then match get_int v with Ok z => clampZ lo hi z | Err _ => old end
              else old
  | None => old
  end.

Definition SET_CONFIG (extensions : json) (fs : fields) : handler := λ c,
  let c := c <| vehicle_poll_rate_ms :=
                  setting "vehiclePollRateMs" fs 20 60000 (vehicle_poll_rate_ms c) |>
             <| channel_update_rate_ms :=
                  setting "channelUpdateRateMs" fs 1 60000 (channel_update_rate_ms c) |>
             <| cir_max_taps := setting "cirMaxTaps" fs 0 8192 (cir_max_taps c) |> in
  (Ok (config_report extensions c), c).

(** [CHG_ANTENNA].  [db] is the answer of the database. *)
Definition edit_first (hit : string * Node.t → bool) (f : NodeConfig.t → NodeConfig.t)
    (m : gmap string Node.t) : bool * gmap string Node.t :=
  match List.find hit (by_key m) with
  | Some (id, n) => (true, <[id := Node.set_config f n]> m)
  | None => (false, m)
  end.

(** Lines 321-327: every intermediate updates the receivers and transmitters
    attached to it. *)
Definition antenna_everywhere (node pattern tx rx : string) (c : Controller.t)
    : bool * Controller.t :=
  foldl (λ '(ok, c) ka,
    match Controller.c_ims c !! ka.2 with
    | Some i =>
        let '(b, h) :=
          Intermediate.updateNodeAntenna node pattern tx rx (Controller.c_heap c) i in
        (ok || b, c <| Controller.c_heap := h |>)
    | None => (ok, c)
    end) (false, c) (Controller.m_intermediateMap c).

Definition CHG_ANTENNA (db : string → string → bool) (fs : fields) : handler :=
  let? node <- value get_string "node" "" fs;
  let? pattern <- value get_string "pattern" "" fs;
  let? tx_pattern <- value get_string "tx_pattern" "" fs;
  let? rx_pattern <- value get_string "rx_pattern" "" fs;
  let has_unified := negb (empty_str pattern) in
  let has_separate := negb (empty_str tx_pattern) || negb (empty_str rx_pattern) in
  if empty_str node || (negb has_unified && negb has_separate)
  then answer (failure "Missing node or pattern (use 'pattern' for both, or 'tx_pattern'/'rx_pattern' separately)")
  else λ c,
    let db_ok := db node (if has_unified then pattern
                          else if empty_str tx_pattern then rx_pattern else tx_pattern) in
    let '(mem_ok, nodes) :=
      edit_first (λ kn, named node kn || (kn.1 =? node)%string)
        (Intermediate.set_patterns pattern tx_pattern rx_pattern)
        (Controller.m_nodeMap (ctrl c)) in
    let ct := (ctrl c) <| Controller.m_nodeMap := nodes |> in
    let '(interm_ok, ct) := antenna_everywhere node pattern tx_pattern rx_pattern ct in
    let status := (if db_ok && mem_ok && interm_ok then "success"
                   else if db_ok || mem_ok || interm_ok then "partial" else "fail")%string in
    let warning := if negb mem_ok && negb interm_ok
                   then [("warning", JString "Node not found in memory, only database updated")]
                   else [] in
    (Ok (of_pairs (("status", JString status) :: warning)), c <| ctrl := ct |>).

Definition CHG_SOURCE_POWER (fs : fields) : handler :=
  let? node <- value get_string "node" "" fs;
  if empty_str node then answer (failure "Missing 'node' field")
  else λ c,
    let m := Controller.m_nodeMap (ctrl c) in
    let nodeId := resolveNodeId m node in
    match m !! nodeId with
    | None => (Ok (failure "Node not found"), c)
    | Some n =>
        match NodeConfig.m_characteristics (Node.m_config n) with
        | None => (Ok (failure "Node has no characteristics"), c)
        | Some chars =>
            let p := number get_double "sourcePowerDbfs" S754_nan fs in
            let chars := mkNodeCharacteristics (tx_pa_gain_db chars) (rx_gain_db chars)
              (tx_noise_figure_db chars) (rx_noise_figure_db chars) (cable_loss_db chars) p
              (tx_antennas chars) (rx_antennas chars) in
            let n := Node.set_config (NodeConfig.setCharacteristics chars) n in
            (Ok (of_pairs [("status", JString "success");
                           ("sourcePowerDbfs", if isfinite p then JFloat p else JNull)]),
             c <| ctrl := (ctrl c) <| Controller.m_nodeMap := <[nodeId := n]> m |> |>)
        end
    end.

(** The parameters of the models, as both path-loss commands read them. *)
Record model_params : Type := mkParams {
  p_ground : float;
  p_scenario : string;
  p_environment : string;
  p_refractivity : float;
  p_conductivity : float;
  p_permittivity : float;
  p_zone : Z;
}.

Definition read_params (fs : fields) : model_params :=
  mkParams (number get_float "groundCoeff" (F32.of_Z (-1)) fs) (text "scenario" "UMa" fs)
    (text "environment" "URBAN" fs) (number get_float "refractivity" (F32.of_Z 301) fs)
    (number get_float "groundConductivity" (F32.of_float (F64.lit 5 3)) fs)
    (number get_float "groundPermittivity" (F32.of_Z 15) fs)
    (number get_int "climateZone" 5 fs).

(** Lines 415-443 and 495-500. *)
Definition set_environment (m : PropagationModel) (p : model_params) (i : Intermediate.t)
    : Intermediate.t :=
  match m with
  | OKUMURA_HATA => Intermediate.setHataEnvironment (p_environment p) i
  | LONGLEY_RICE =>
      Intermediate.setITMParams (p_refractivity p) (p_conductivity p) (p_permittivity p)
        (p_zone p) i
  | _ => i
  end.

Definition CHG_PL (fs : fields) : handler :=
  let? freq <- get_double (fld "freq" fs);
  let? plMode <- get_string (fld "plMode" fs);
  let p := read_params fs in
  on_controller (λ c,
    let '(r, c) := setPathLossMode (hz freq) plMode (p_ground p) (p_scenario p) c in
    let '(_, c) := on_intermediate (hz freq) (λ i,
      (tt, set_environment (PropagationModelFromString plMode) p i)) c in
    (r, c)).

(** Lines 488-501: the new model on one intermediate. *)
Definition apply_default (m : PropagationModel) (p : model_params) (i : Intermediate.t)
    : Intermediate.t :=
  let i := Intermediate.updatePathLoss m (p_ground p) i in
  let i := match m with
           | THREE_GPP_38_901 => Intermediate.set3gppScenario (p_scenario p) i
           | _ => i
           end in
  set_environment m p i.

Definition SET_DEFAULT_PL (fs : fields) : handler :=
  let? plMode <- value get_string "plMode" "FREE_SPACE" fs;
  let p := read_params fs in
  match PropagationModelFromString plMode with
  | UNKNOWN => answer (failure "Unknown propagation model")
  | m =>
      on_controller (λ c,
        let c := match Controller.m_propagationDefaults c with
          | Some _ =>
              c <| Controller.m_propagationDefaults := Some (mkPropagationDefaults m
                     (p_ground p) (p_scenario p) (p_environment p) (p_refractivity p)
                     (p_conductivity p) (p_permittivity p) (p_zone p)) |>
          | None => c
          end in
        (of_pairs [("status", JString "success");
                   ("model", JString (PropagationModelToString m))],
         for_intermediates (apply_default m p) c))
  end.

Definition CHG_COEFF (fs : fields) : handler :=
  let? freq <- get_double (fld "freq" fs);
  let? src <- get_string (fld "src" fs);
  let? dst <- get_string (fld "dest" fs);
  let? coeff <- get_double (fld "coeff" fs);
  let? p_src <- get_size (fld "p_src" fs);
  let? p_dest <- get_size (fld "p_dest" fs);
  on_controller (setChCoeff (hz freq) src dst (mkChId p_src p_dest) coeff).

Definition CHG_NOISE_MDL (fs : fields) : handler :=
  let? freq <- get_double (fld "freq" fs);
  let? noiseMdl <- get_string (fld "noiseModel" fs);
  let? snr <- get_double (fld "pwr" fs);
  let? src <- get_string (fld "src" fs);
  let? dst <- get_string (fld "dest" fs);
  on_controller (setNoiseModel (hz freq) src dst noiseMdl snr).

Definition CHG_FREQ_OFFSET (fs : fields) : handler :=
  let? freq <- get_double (fld "freq" fs);
  let? src <- get_string (fld "src" fs);
  let? dst <- get_string (fld "dest" fs);
  let? offset_hz <- get_double (fld "offsetHz" fs);
  on_controller (setFrequencyOffset (hz freq) src dst offset_hz).

Definition CHG_DOPPLER (fs : fields) : handler :=
  let? freq <- get_double (fld "freq" fs);
  let? src <- get_string (fld "src" fs);
  let? dst <- get_string (fld "dest" fs);
  let? enabled <- value get_bool "enabled" false fs;
  on_controller (setDopplerEnabled (hz freq) src dst enabled).

(** One element of "taps": a number, a pair or an object; others are skipped. *)
Definition part (v : option json) : float :=
  match v with
  | Some v => if is_number v
              then match get_double v with Ok x => F32.of_float x | Err _ => fzero end
              else fzero
  | None => fzero
  end.

Definition read_tap (v : json) : option (float * float) :=
  match v with
  | JUnsigned _ | JInt _ | JFloat _ => Some (part (Some v), fzero)
  | JArray l => Some (part (l !! 0%nat), part (l !! 1%nat))
  | JObject fs => Some (part (find_key "re" fs), part (find_key "im" fs))
  | _ => None
  end.

(** Lines 565-594: no more than [max_taps] of them, unless that is zero. *)
Fixpoint read_taps (max_taps : Z) (vs : list json) (taps : signal_v) : signal_v :=
  match vs with
  | [] => taps
  | v :: vs =>
      if (0 <? max_taps) && (max_taps <=? Z.of_nat (length taps)) then taps
      else match read_tap v with
           | Some x => read_taps max_taps vs (taps ++ [x])
           | None => read_taps max_taps vs taps
           end
  end.

Definition CHG_CIR (fs : fields) : handler :=
  let? freq <- get_double (fld "freq" fs);
  let? src <- get_string (fld "src" fs);
  let? dst <- get_string (fld "dest" fs);
  let? p_src <- value get_int "p_src" 0 fs;
  let? p_dest <- value get_int "p_dest" 0 fs;
  λ c,
    let taps := match find_key "taps" fs with
                | Some (JArray vs) => read_taps (Z.max 0 (cir_max_taps c)) vs []
                | _ => []
                end in
    on_controller (setCIR (hz freq) src dst (mkChId (u64 p_src) (u64 p_dest)) taps) c.

Definition UPD_SHADOW_STD (fs : fields) : handler :=
  let? std <- get_double (fld "std" fs);
  match find_key "freq" fs with
  | Some v =>
      let? freq <- get_double v;
      λ c,
        let '(_, ct) := on_intermediate (hz freq)
          (λ i, (tt, Intermediate.setShadowingSTD std i)) (ctrl c) in
        (Ok success, c <| shadow_std_by_freq := put_freq (hz freq) std (shadow_std_by_freq c) |>
                       <| ctrl := ct |>)
  | None => λ c,
      (Ok success, c <| shadow_std := std |>
         <| ctrl := for_intermediates (Intermediate.setShadowingSTD std) (ctrl c) |>)
  end.

Definition GET_SHADOW_STD (fs : fields) : handler :=
  let report std := of_pairs [("status", JString "success"); ("std", JFloat std)] in
  match find_key "freq" fs with
  | Some v =>
      let? freq <- get_double v;
      λ c, (Ok (report (default (shadow_std c) (find_freq (hz freq) (shadow_std_by_freq c)))), c)
  | None => λ c, (Ok (report (shadow_std c)), c)
  end.

Definition GET_VERSION (version : string) : handler :=
  answer (of_pairs [("status", JString "success"); ("version", JString version)]).

Definition invalid : handler := answer (failure "Invalid command!").

(** The commands that are not handled here. *)
Definition unmodelled : list string :=
  ["GET_NODES"; "GET_CHANNELS"; "GET_IND_CHANNELS"; "GET_ANTENNA_TYPES"; "GET_CONFIG_FILE";
   "SAVE_CONFIG_FILE"; "GET_STATUS"; "GET_LOGS"; "GET_ANTENNA_PATTERNS"; "EXT"; "EXT_LIST"]%string.

Section Dispatch.
Context (parse : string → option json) (db : string → string → bool) (extensions : json)
  (version : string).

Definition dispatch (cmd : string) (fs : fields) : option handler :=
  if bool_decide (cmd ∈ unmodelled) then None
  else Some (
    if (cmd =? "GET_CONFIG")%string then GET_CONFIG extensions
    else if (cmd =? "SET_CONFIG")%string then SET_CONFIG extensions fs
    else if (cmd =? "CHG_ANTENNA")%string then CHG_ANTENNA db fs
    else if (cmd =? "CHG_SOURCE_POWER")%string then CHG_SOURCE_POWER fs
    else if (cmd =? "CHG_PL")%string then CHG_PL fs
    else if (cmd =? "SET_DEFAULT_PL")%string then SET_DEFAULT_PL fs
    else if (cmd =? "CHG_COEFF")%string then CHG_COEFF fs
    else if (cmd =? "CHG_NOISE_MDL")%string then CHG_NOISE_MDL fs
    else if (cmd =? "CHG_FREQ_OFFSET")%string then CHG_FREQ_OFFSET fs
    else if (cmd =? "CHG_DOPPLER")%string then CHG_DOPPLER fs
    else if (cmd =? "CHG_CIR")%string then CHG_CIR fs
    else if (cmd =? "UPD_SHADOW_STD")%string then UPD_SHADOW_STD fs
    else if (cmd =? "GET_SHADOW_STD")%string then GET_SHADOW_STD fs
    else if (cmd =? "GET_VERSION")%string then GET_VERSION version
    else invalid).

(** [requestHandler]: only an object (or null, which becomes one) can be asked
    for its command. *)
Definition requestHandler (request : string) : option handler :=
  match parse request with
  | None => Some (answer (of_pairs [("status", JString "fail")]))
  | Some j =>
      match j with
      | JObject fs =>
          match fld "CMD" fs with
          | JString cmd => dispatch cmd fs
          | _ => Some invalid
          end
      | JNull => Some invalid
      | _ => Some (λ c, (Err TypeError, c))
      end
  end.

End Dispatch.

(** *** Geometry *)

Section Positions.
Context `{Geometry}.

Definition PI : float := F64.lit 314159265 8.

Definition meters_per_deg : float := F64.lit 1113195 1.

Definition half (x : float) : float := F64.mul x (F64.lit 5 1).

Definition calcAzimuth (lat1 lon1 lat2 lon2 : float) : float :=
  let deg_to_rad := F64.div PI (F64.of_Z 180) in
  let lat1_rad := F64.mul lat1 deg_to_rad in
  let lat2_rad := F64.mul lat2 deg_to_rad in
  let dlon_rad := F64.mul (F64.sub lon2 lon1) deg_to_rad in
  let azimuth := atan2 (F64.mul (sin dlon_rad) (cos lat2_rad))
    (F64.sub (F64.mul (cos lat1_rad) (sin lat2_rad))
       (F64.mul (F64.mul (sin lat1_rad) (cos lat2_rad)) (cos dlon_rad))) in
  F64.div (F64.mul azimuth (F64.of_Z 180)) PI.

(** Metres east and north of the first position. *)
Definition offsets (lat1 lon1 lat2 lon2 : float) : float * float :=
  let lat_avg_rad := F64.mul (half (F64.add lat1 lat2)) (F64.div PI (F64.of_Z 180)) in
  (F64.mul (F64.mul (F64.sub lon2 lon1) meters_per_deg) (cos lat_avg_rad),
   F64.mul (F64.sub lat2 lat1) meters_per_deg).

Definition calcDistance (lat1 lon1 lat2 lon2 : float) : float :=
  if is_zero lat1 || is_zero lat1 || is_zero lon1 || is_zero lon2 then fzero
  else
    let '(east_m, north_m) := offsets lat1 lon1 lat2 lon2 in
    sqrt (F64.add (F64.mul north_m north_m) (F64.mul east_m east_m)).

(** Lines 723-740 and 742-788: the Doppler shift of two moving nodes. *)
Definition doppler (l1 l2 : NodeLocation) (carrier_hz : float) : float :=
  let p1 := position l1 in let p2 := position l2 in
  let '(east_m, north_m) := offsets (lat p1) (lon p1) (lat p2) (lon p2) in
  let up_m := F32.sub (alt p2) (alt p1) in
  let range_m := sqrt (F64.add (F64.add (F64.mul east_m east_m) (F64.mul north_m north_m))
                               (F64.mul up_m up_m)) in
  if flt (F64.lit 1 2) range_m then
    let ux := F64.div east_m range_m in
    let uy := F64.div north_m range_m in
    let uz := F64.div up_m range_m in
    let v1 := velocity l1 in let v2 := velocity l2 in
    let range_rate := F64.add (F64.add
        (F64.mul (F32.sub (east v2) (east v1)) ux)
        (F64.mul (F32.sub (north v2) (north v1)) uy))
        (F64.mul (F32.sub (up v2) (up v1)) uz) in
    F64.mul (SFopp (F64.div range_rate (F64.of_Z 299792458))) carrier_hz
  else fzero.

Definition place (l1 l2 : NodeLocation) (carrier_hz : float) (ch : Channel.t) : Channel.t :=
  let p1 := position l1 in let p2 := position l2 in
  let dist := calcDistance (lat p1) (lon p1) (lat p2) (lon p2) in
  let azimuth := calcAzimuth (lat p1) (lon p1) (lat p2) (lon p2) in
  let d_alt := F32.sub (alt p2) (alt p1) in
  let elev := if flt (F64.lit 1 2) dist
              then F64.div (F64.mul (atan (F64.div d_alt dist)) (F64.of_Z 180)) PI
              else fzero in
  let ch := Channel.updateDistance (F32.of_float dist) ch in
  let ch := Channel.updateAltitude (SFabs d_alt) ch in
  let ch := Channel.updateHeights (alt p1) (alt p2) ch in
  let ch := Channel.updateElevation (F32.of_float elev) ch in
  let ch := Channel.updateAzimuth (F32.of_float azimuth) ch in
  if Channel.dopplerEnabled ch then Channel.setDopplerHz (doppler l1 l2 carrier_hz) ch else ch.

(** [findLoc]: by id, else the first node of that name with a location. *)
Definition findLoc (m : gmap string Node.t) (key : string) : option NodeLocation :=
  match m !! key ≫= Node.getLocation with
  | Some l => Some l
  | None => head (omap (λ kn, if named key kn then Node.getLocation kn.2 else None) (by_key m))
  end.

Definition place_link (m : gmap string Node.t) (carrier_hz : float) (ch : Channel.t)
    : Channel.t :=
  match findLoc m (Channel.source ch), findLoc m (Channel.destination ch) with
  | Some l1, Some l2 => place l1 l2 carrier_hz ch
  | _, _ => ch
  end.

Definition configChannels (c : Controller.t) : Controller.t :=
  c <| Controller.c_ims := foldl (λ m ka,
         alter (Intermediate.for_channels (place_link (Controller.m_nodeMap c) ka.1)) ka.2 m)
       (Controller.c_ims c) (Controller.m_intermediateMap c) |>.

End Positions.

End Coordinator.
