(* ===== verification/Commands.v ===== *)
(** What the coordinator's commands do: each is a sequence of steps of the
    machine of Emulator.v, so what holds of its reachable states survives the
    operator; the settings of links reach one link; the runtime configuration
    stays in its ranges; defaults and shadowing deviations. *)

From Stdlib Require Import ZArith Lia Strings.String Floats.SpecFloat.
From stdpp Require Import prelude list strings gmap sorting fin_maps relations.
From S2P Require Import Prelude.
From S2P Require Import Ieee.
From S2P Require Import Common.
From S2P Require Import CxxLib.
From S2P Require Import DataPool.
From S2P Require Import Json.
From S2P Require Import NodeConfig.
From S2P Require Import NodeEntity.
From S2P Require Import Receiver.
From S2P Require Import Transmitter.
From S2P Require Import Channel.
From S2P Require Import Intermediate.
From S2P Require Import DataPath.
From S2P Require Import Controller.
From S2P Require Import ControllerInv.
From S2P Require Import Sides.
From S2P Require Import Routing.
From S2P Require Import Emulator.
From S2P Require Import Coordinator.
Import Controller.
Import Coordinator.

Lemma alter_some {K A} `{Countable K} (f : A → A) (m : gmap K A) k a :
  m !! k = Some a → alter f k m = <[k := f a]> m.
Proof.
  intros Hk. apply map_eq. intros j. destruct (decide (k = j)) as [<-|].
  - by rewrite lookup_alter_eq, lookup_insert_eq, Hk.
  - by rewrite lookup_alter_ne, lookup_insert_ne.
Qed.

Lemma alter_none {K A} `{Countable K} (f : A → A) (m : gmap K A) k :
  m !! k = None → alter f k m = m.
Proof. intros Hk. apply alter_id. intros a. by rewrite Hk. Qed.

(** ** Commands as steps of the machine *)

Section Refinement.
Context `{Dsp, Converter, PriorityQueue}.
Context (parse : string → option json) (coss : float → float) (mode : bool → Prop).

#[local] Notation steps := (rtc (cstep parse coss mode)).

(** One setter on an intermediate, by a thread of the coordinator. *)
Inductive setting_step : Intermediate.t → Intermediate.t → Prop :=
  | ss_link f s d i : setting_step i (apply_link f s d i).2
  | ss_global f i : setting_step i (apply_global f i)
  | ss_links g i : keeps g → setting_step i (Intermediate.for_channels g i)
  | ss_one g s d i : keeps g → setting_step i (Intermediate.for_channel s d g i).2.

Lemma setting_pass i i' w :
  setting_step i i' → im w = i → pass w (w <| im := i' |>).
Proof. intros [f s d v|f v|g v Hg|g s d v Hg] <-; by constructor. Qed.

(** Settings of the intermediate at [a] are steps of the machine. *)
Lemma settings_steps a i i' c :
  rtc setting_step i i' → c_ims c !! a = Some i →
  steps c (c <| c_ims := <[a := i']> (c_ims c) |>).
Proof.
  intros Hr. revert c. induction Hr as [i|i i1 i2 Hs _ IH]; intros c Hi.
  - rewrite insert_id by done. by destruct c.
  - eapply rtc_l.
    + apply (cs_channel parse coss mode a i ((world_at c i) <| im := i1 |>) c Hi).
      by eapply setting_pass.
    + specialize (IH (c <| c_ims := <[a := i1]> (c_ims c) |>)).
      cbn [modify c_ims] in IH. rewrite lookup_insert_eq, insert_insert_eq in IH.
      destruct c. apply IH. done.
Qed.

(** The same function on every intermediate. *)
Lemma alter_all_steps (g : float → Intermediate.t → Intermediate.t) l c :
  (∀ k i, rtc setting_step i (g k i)) →
  steps c (c <| c_ims := foldl (λ m ka, alter (g ka.1) ka.2 m) (c_ims c) l |>).
Proof.
  intros Hg. revert c. induction l as [|[k a] l IH]; intros c; [by destruct c|].
  cbn [foldl fst snd].
  assert (Ha : steps c (c <| c_ims := alter (g k) a (c_ims c) |>)).
  { destruct (c_ims c !! a) as [i|] eqn:E.
    - rewrite (alter_some _ _ _ i E). by apply (settings_steps a i).
    - rewrite alter_none by done. by destruct c. }
  etrans; [exact Ha|]. specialize (IH (c <| c_ims := alter (g k) a (c_ims c) |>)).
  destruct c. apply IH.
Qed.

Lemma environment_settings m p i : rtc setting_step i (set_environment m p i).
Proof.
  destruct m; try apply rtc_refl; apply rtc_once.
  - apply (ss_global (GHata (p_environment p))).
  - apply (ss_global (GItm (p_refractivity p) (p_conductivity p) (p_permittivity p) (p_zone p))).
Qed.

Lemma model_settings m gr sc i :
  rtc setting_step i
    (match m with
     | THREE_GPP_38_901 => Intermediate.set3gppScenario sc (Intermediate.updatePathLoss m gr i)
     | _ => Intermediate.updatePathLoss m gr i
     end).
Proof.
  eapply rtc_l; [apply (ss_global (GModel m gr))|]. cbn [apply_global].
  destruct m; try apply rtc_refl. apply rtc_once, (ss_global (GScenario sc)).
Qed.

Lemma default_settings m p i : rtc setting_step i (apply_default m p i).
Proof.
  unfold apply_default. etrans; [|apply environment_settings].
  exact (model_settings m (p_ground p) (p_scenario p) i).
Qed.

Lemma on_intermediate_steps {A} freq (f : Intermediate.t → A * Intermediate.t) c :
  (∀ i, rtc setting_step i (f i).2) → steps c (on_intermediate freq f c).2.
Proof.
  intros Hf. unfold on_intermediate.
  destruct (FreqMap.find freq (m_intermediateMap c)) as [a|]; [|apply rtc_refl].
  destruct (c_ims c !! a) as [i|] eqn:Ei; [|apply rtc_refl].
  specialize (Hf i). destruct (f i) as [r i']. by apply (settings_steps a i).
Qed.

Lemma set_link_steps freq s d f c : steps c (set_link freq s d f c).2.
Proof.
  unfold set_link. set (s' := resolveNodeId _ s). set (d' := resolveNodeId _ d).
  pose proof (on_intermediate_steps freq (apply_link f s' d') c
    (λ i, rtc_once _ _ (ss_link f s' d' i))) as Hs.
  by destruct (on_intermediate freq _ c) as [r c'].
Qed.

(** *** Nodes *)

Lemma by_key_elem m kn : kn ∈ by_key m → m !! kn.1 = Some kn.2.
Proof.
  unfold by_key. rewrite merge_sort_Permutation. destruct kn. apply elem_of_map_to_list.
Qed.

Lemma find_by_key f m kn : List.find f (by_key m) = Some kn → m !! kn.1 = Some kn.2.
Proof. intros [Hin _]%List.find_some. by apply by_key_elem, list_elem_of_In. Qed.

(** An edit of a configuration that leaves identity, ports and channels. *)
Lemma config_step id n f c :
  m_nodeMap c !! id = Some n →
  NodeConfig.m_id (f (Node.m_config n)) = NodeConfig.m_id (Node.m_config n) →
  NodeConfig.m_channels (f (Node.m_config n)) = NodeConfig.m_channels (Node.m_config n) →
  NodeConfig.m_portTxNum (f (Node.m_config n)) = NodeConfig.m_portTxNum (Node.m_config n) →
  NodeConfig.m_portRxNum (f (Node.m_config n)) = NodeConfig.m_portRxNum (Node.m_config n) →
  steps c (c <| m_nodeMap := <[id := Node.set_config f n]> (m_nodeMap c) |>).
Proof.
  intros Hn Hid Hch Htx Hrx. apply rtc_once, (cs_node parse coss mode id n); [done|].
  split; [exact Hid|]. intros b. unfold tuning, tuned, object, port. cbn [Node.set_config
    Node.m_config modify]. rewrite Hch, Htx, Hrx. destruct b; auto.
Qed.

(** *** Handlers *)

Definition moves (h : handler) : Prop := ∀ c, steps (ctrl c) (ctrl (h c).2).

Lemma moves_answer r : moves (answer r).
Proof. intros c. apply rtc_refl. Qed.

Lemma moves_still (h : handler) : (∀ c, ctrl (h c).2 = ctrl c) → moves h.
Proof. intros Hh c. rewrite Hh. apply rtc_refl. Qed.

Lemma moves_reading {A} (e : outcome json_error A) k :
  (∀ a, moves (k a)) → moves (reading e k).
Proof. intros Hk c. unfold reading. destruct e as [a|x]; [apply Hk|apply rtc_refl]. Qed.

Lemma moves_controller f : (∀ c, steps c (f c).2) → moves (on_controller f).
Proof.
  intros Hf c. unfold on_controller. specialize (Hf (ctrl c)).
  by destruct (f (ctrl c)) as [r c'].
Qed.

Lemma moves_link freq s d f : moves (on_controller (set_link freq s d f)).
Proof. apply moves_controller. intros c. apply set_link_steps. Qed.

Lemma antenna_everywhere_steps node pat tx rx c :
  steps c (antenna_everywhere node pat tx rx c).2.
Proof.
  unfold antenna_everywhere. generalize false as ok. generalize (m_intermediateMap c) as l.
  intros l. revert c. induction l as [|[k a] l IH]; intros c ok; [apply rtc_refl|].
  cbn [foldl fst snd]. destruct (c_ims c !! a) as [i|] eqn:Ei; [|apply IH].
  destruct (Intermediate.updateNodeAntenna node pat tx rx (c_heap c) i) as [b h] eqn:Eu.
  eapply rtc_l; [|apply IH].
  pose proof (cs_channel parse coss mode a i _ c Ei (p_antenna node pat tx rx (world_at c i))) as Hs.
  unfold world_at in Hs. cbn [modify hp im pools] in Hs. rewrite Eu, insert_id in Hs by done.
  destruct c. exact Hs.
Qed.

Lemma moves_antenna db fs : moves (CHG_ANTENNA db fs).
Proof.
  repeat (apply moves_reading; intros ?). cbv zeta.
  match goal with |- moves (if ?b then _ else _) => destruct b end; [apply moves_answer|].
  intros c. destruct (edit_first _ _ _) as [ok m] eqn:Ee.
  destruct (antenna_everywhere _ _ _ _ _) as [b ct] eqn:Ea. cbn [snd modify ctrl].
  etrans; [|pose proof (antenna_everywhere_steps a a0 a1 a2
    ((ctrl c) <| m_nodeMap := m |>)) as Hs; by rewrite Ea in Hs].
  unfold edit_first in Ee. destruct (List.find _ _) as [[id n]|] eqn:Ef.
  - injection Ee as <- <-. apply find_by_key in Ef. cbn [fst snd] in Ef.
    apply config_step; [done|..]; unfold Intermediate.set_patterns; by repeat case_match.
  - injection Ee as <- <-. destruct (ctrl c). apply rtc_refl.
Qed.

Lemma moves_source_power fs : moves (CHG_SOURCE_POWER fs).
Proof.
  apply moves_reading. intros node. case_match; [apply moves_answer|]. intros c. cbv zeta.
  destruct (m_nodeMap (ctrl c) !! resolveNodeId (m_nodeMap (ctrl c)) node) as [n|] eqn:En;
    [|apply rtc_refl].
  destruct (NodeConfig.m_characteristics _) as [ch|]; [|apply rtc_refl].
  by apply config_step.
Qed.

Lemma moves_path_loss fs : moves (CHG_PL fs).
Proof.
  repeat (apply moves_reading; intros ?). apply moves_controller. intros c.
  unfold setPathLossMode. set (f1 := λ i, (tt, _)). set (f2 := λ i, (tt, set_environment _ _ i)).
  assert (H1s : ∀ i, rtc setting_step i (f1 i).2) by (intros i; apply model_settings).
  assert (H2s : ∀ i, rtc setting_step i (f2 i).2) by (intros i; apply environment_settings).
  pose proof (on_intermediate_steps (hz a) f1 c H1s) as Hs.
  destruct (on_intermediate (hz a) f1 c) as [r c1].
  pose proof (on_intermediate_steps (hz a) f2 c1 H2s) as Hs2.
  destruct (on_intermediate (hz a) f2 c1) as [r2 c2].
  by etrans.
Qed.

Lemma moves_default fs : moves (SET_DEFAULT_PL fs).
Proof.
  apply moves_reading. intros plMode.
  assert (Hm : ∀ m d, moves (on_controller (λ c, (d,
    for_intermediates (apply_default m (read_params fs))
      match m_propagationDefaults c with
      | Some _ => c <| m_propagationDefaults := Some (mkPropagationDefaults m
          (p_ground (read_params fs)) (p_scenario (read_params fs))
          (p_environment (read_params fs)) (p_refractivity (read_params fs))
          (p_conductivity (read_params fs)) (p_permittivity (read_params fs))
          (p_zone (read_params fs))) |>
      | None => c
      end)))).
  { intros m d. apply moves_controller. intros c. cbn [snd]. etrans.
    2: apply (alter_all_steps (λ _, apply_default m (read_params fs))); intros; apply default_settings.
    destruct (m_propagationDefaults c); [|apply rtc_refl]. apply rtc_once, cs_defaults. }
  destruct (PropagationModelFromString plMode); [apply moves_answer|apply Hm..].
Qed.

Lemma moves_shadow fs : moves (UPD_SHADOW_STD fs).
Proof.
  apply moves_reading. intros std. destruct (find_key "freq" fs) as [v|].
  - apply moves_reading. intros freq c.
    pose proof (on_intermediate_steps (hz freq)
      (λ i, (tt, Intermediate.setShadowingSTD std i)) (ctrl c)
      (λ i, rtc_once _ _ (ss_global (GShadow std) i))) as Hs.
    by destruct (on_intermediate _ _ _) as [r ct].
  - intros c. apply (alter_all_steps (λ _, Intermediate.setShadowingSTD std)).
    intros k i. apply rtc_once, (ss_global (GShadow std)).
Qed.

Lemma dispatch_moves db ext ver cmd fs h : dispatch db ext ver cmd fs = Some h → moves h.
Proof.
  unfold dispatch. destruct (bool_decide _); [done|]. intros [= <-].
  repeat case_match; try (by apply moves_still);
    auto using moves_antenna, moves_source_power, moves_path_loss, moves_default, moves_shadow.
  all: try (repeat (apply moves_reading; intros ?); apply moves_link).
  - repeat (apply moves_reading; intros ?). intros c. apply moves_link.
  - unfold GET_SHADOW_STD. destruct (find_key "freq" fs); [|by apply moves_still].
    apply moves_reading. intros ?. by apply moves_still.
Qed.

(** *** Positions *)

Lemma place_link_keeps `{Geometry} m k : keeps (place_link m k).
Proof.
  intros ch. unfold place_link. destruct (findLoc m (Channel.source ch)) as [l1|]; [|by split_and!].
  destruct (findLoc m (Channel.destination ch)) as [l2|]; [|by split_and!].
  unfold place. destruct (Channel.dopplerEnabled _); by split_and!.
Qed.

Lemma config_channels_steps `{Geometry} c : steps c (configChannels c).
Proof.
  apply (alter_all_steps (λ k, Intermediate.for_channels (place_link (m_nodeMap c) k))).
  intros k i. apply rtc_once, ss_links, place_link_keeps.
Qed.

Lemma request_moves cparse db ext ver request h :
  Coordinator.requestHandler cparse db ext ver request = Some h → moves h.
Proof.
  unfold Coordinator.requestHandler. destruct (cparse request) as [j|].
  - destruct j as [|fs| | | | | |]; try (intros [= <-]; by apply moves_still).
    destruct (fld "CMD" fs); try (intros [= <-]; by apply moves_still).
    apply dispatch_moves.
  - intros [= <-]. apply moves_answer.
Qed.

End Refinement.

(** Every command of the operator, whatever it answers or throws, and every
    update of the positions acts on nodes, intermediates and defaults as a
    sequence of steps of the emulator's machine other than requests of nodes;
    so the invariant of the controller holds after any command. *)
Theorem coordinator_refines_machine `{Dsp, Converter, PriorityQueue, Geometry}
    (parse : string → option json) (coss : float → float) (mode : bool → Prop)
    cparse db ext ver request h c
    (Hrequest : Coordinator.requestHandler cparse db ext ver request = Some h) :
  rtc (cstep parse coss mode) (ctrl c) (ctrl (h c).2) ∧
  rtc (cstep parse coss mode) (ctrl c) (configChannels (ctrl c)) ∧
  (inv (ctrl c) → inv (ctrl (h c).2) ∧ inv (configChannels (ctrl c))).
Proof.
  assert (Hkeep : ∀ c1 c2, rtc (cstep parse coss (eq false)) c1 c2 → inv c1 → inv c2).
  { induction 1; [done|]. intros Hi. apply IHrtc. by apply (cstep_inv _ _ _ _ _ off_mode H3). }
  split_and!.
  - by apply (request_moves parse coss mode cparse db ext ver request h Hrequest c).
  - by apply config_channels_steps.
  - intros Hinv. split; (eapply Hkeep; [|exact Hinv]).
    + by apply (request_moves parse coss _ cparse db ext ver request h Hrequest c).
    + by apply config_channels_steps.
Qed.

(** ** Settings of one link *)

(** What a setter does to the link it is for. *)
Definition link_change (f : link_setter) (ch : Channel.t) : Channel.t :=
  match f with
  | LAwgn on snr =>
      if on then Channel.updateSNR snr (Channel.updateNoiseType AWGN ch)
      else Channel.clearSNROverride (Channel.updateNoiseType NoiseNONE ch)
  | LCir k [] => Channel.clearChTaps k ch
  | LCir k taps => Channel.updateChTaps k taps ch
  | LDistance x => Channel.updateDistance x ch
  | LAltitude x => Channel.updateAltitude x ch
  | LElevation x => Channel.updateElevation x ch
  | LAzimuth x => Channel.updateAzimuth x ch
  | LCoeff k x => Channel.updateChCoeff k x ch
  | LOffset x => Channel.setFrequencyOffsetHz x ch
  | LDopplerOn b => Channel.setDopplerEnabled b ch
  | LDoppler x => Channel.setDopplerHz x ch
  end.

Lemma apply_link_change f s d i :
  apply_link f s d i = Intermediate.for_channel s d (link_change f) i.
Proof. destruct f as [on snr|k [|x taps]| | | | | | | |]; reflexivity. Qed.

Section Links.
Implicit Types (c : Controller.t) (i : Intermediate.t).

(** C13 A command for one link answers true exactly if the frequency has an
    intermediate with a link between the two nodes, named by id or by name.
    Then that link gets the setting; every other link of every intermediate,
    every node and every shared object stays as it is, and nothing at all
    changes when the answer is false. *)
Theorem link_command_one_link freq src dst f c r c'
    (Hrun : set_link freq src dst f c = (r, c')) :
  let s := resolveNodeId (m_nodeMap c) src in
  let d := resolveNodeId (m_nodeMap c) dst in
  (r = result true ∧ ∃ a i addr ch,
      FreqMap.find freq (m_intermediateMap c) = Some a ∧ c_ims c !! a = Some i ∧
      Intermediate.m_channelMap i !! (s, d) = Some (addr, ch) ∧
      c' = c <| c_ims := <[a := i <| Intermediate.m_channelMap :=
        <[(s, d) := (addr, link_change f ch)]> (Intermediate.m_channelMap i) |>]> (c_ims c) |>)
  ∨ (r = result false ∧ c' = c ∧ ∀ a i,
      FreqMap.find freq (m_intermediateMap c) = Some a → c_ims c !! a = Some i →
      Intermediate.m_channelMap i !! (s, d) = None).
Proof.
  intros s d. unfold set_link, on_intermediate in Hrun. fold s d in Hrun.
  destruct (FreqMap.find freq (m_intermediateMap c)) as [a|] eqn:Ef.
  2: { injection Hrun as <- <-. right. by split_and!. }
  destruct (c_ims c !! a) as [i|] eqn:Ei.
  2: { injection Hrun as <- <-. right. split_and!; [done..|]. intros a' i [= <-]. congruence. }
  rewrite apply_link_change in Hrun. unfold Intermediate.for_channel in Hrun.
  destruct (Intermediate.m_channelMap i !! (s, d)) as [[addr ch]|] eqn:Ek;
    injection Hrun as <- <-.
  - left. split; [done|]. by exists a, i, addr, ch.
  - right. split_and!; [done| |].
    + rewrite insert_id by done. by destruct c.
    + intros a' i' [= <-] Hi'. congruence.
Qed.

End Links.

(** ** The runtime configuration *)

Definition in_range (c : Coordinator.t) : Prop :=
  20 ≤ vehicle_poll_rate_ms c ≤ 60000 ∧ 1 ≤ channel_update_rate_ms c ≤ 60000 ∧
  0 ≤ cir_max_taps c ≤ 8192.

Lemma setting_range k fs lo hi old : lo ≤ hi → lo ≤ old ≤ hi → lo ≤ setting k fs lo hi old ≤ hi.
Proof.
  intros Hle Hold. unfold setting. destruct (find_key k fs) as [v|]; [|done].
  destruct (is_number v); [|done]. destruct (get_int v); [|done]. by apply clampZ_range.
Qed.

(** Handlers other than [SET_CONFIG] leave the configuration alone. *)
Definition same_config (c c' : Coordinator.t) : Prop :=
  vehicle_poll_rate_ms c' = vehicle_poll_rate_ms c ∧
  channel_update_rate_ms c' = channel_update_rate_ms c ∧ cir_max_taps c' = cir_max_taps c.

Definition keeps_range (h : handler) : Prop := ∀ c, in_range c → in_range (h c).2.

Lemma keeps_range_same (h : handler) : (∀ c, same_config c (h c).2) → keeps_range h.
Proof. intros Hh c Hc. destruct (Hh c) as (E1 & E2 & E3). unfold in_range. by rewrite E1, E2, E3. Qed.

Lemma keeps_range_reading {A} (e : outcome json_error A) k :
  (∀ a, keeps_range (k a)) → keeps_range (reading e k).
Proof. intros Hk c Hc. unfold reading. destruct e; [by apply Hk|done]. Qed.

Lemma keeps_range_controller f : keeps_range (on_controller f).
Proof. apply keeps_range_same. intros c. unfold on_controller. by destruct (f (ctrl c)). Qed.

Lemma keeps_range_set ext fs : keeps_range (SET_CONFIG ext fs).
Proof.
  intros c (H1 & H2 & H3). split_and!; apply setting_range; lia.
Qed.

Lemma dispatch_range db ext ver cmd fs h : dispatch db ext ver cmd fs = Some h → keeps_range h.
Proof.
  unfold dispatch. destruct (bool_decide _); [done|]. intros [= <-].
  repeat case_match; try (by apply keeps_range_same); try apply keeps_range_set.
  all: repeat (apply keeps_range_reading; intros ?); try apply keeps_range_controller.
  - apply keeps_range_same. intros c. cbv zeta. repeat case_match; done.
  - apply keeps_range_same. intros c. cbv zeta. repeat case_match; done.
  - destruct (PropagationModelFromString _); try apply keeps_range_controller.
    by apply keeps_range_same.
  - intros c. apply keeps_range_controller.
  - destruct (find_key "freq" fs); [apply keeps_range_reading; intros ?|].
    + apply keeps_range_same. intros c. by destruct (on_intermediate _ _ _).
    + by apply keeps_range_same.
  - unfold GET_SHADOW_STD. destruct (find_key "freq" fs); [|by apply keeps_range_same].
    apply keeps_range_reading. intros ?. by apply keeps_range_same.
Qed.

Lemma read_taps_length max vs taps :
  0 < max → Z.of_nat (length taps) ≤ max → Z.of_nat (length (read_taps max vs taps)) ≤ max.
Proof.
  intros Hm. revert taps. induction vs as [|v vs IH]; intros taps Ht; [done|]. cbn [read_taps].
  rewrite (proj2 (Z.ltb_lt 0 max) Hm). cbn [andb].
  destruct (max <=? Z.of_nat (length taps)) eqn:E; [done|]. apply Z.leb_gt in E.
  destruct (read_tap v); apply IH; [|done]. rewrite length_app. cbn. lia.
Qed.

Section Sessions.
Context (cparse : string → option json) (db : string → string → bool) (ext : json)
  (ver : string).

(** One request served, whatever came of it. *)
Inductive served : Coordinator.t → Coordinator.t → Prop :=
  | served_request request h c :
      Coordinator.requestHandler cparse db ext ver request = Some h → served c (h c).2.

Lemma served_range c c' : served c c' → in_range c → in_range c'.
Proof.
  intros [request h c0 Hr]. revert Hr. unfold Coordinator.requestHandler.
  intros Hr Hc. assert (Hk : keeps_range h); [|by apply Hk]. clear Hc.
  destruct (cparse request) as [j|]; [|injection Hr as <-; by apply keeps_range_same].
  destruct j as [|fs| | | | | |]; try (injection Hr as <-; by apply keeps_range_same).
  destruct (fld "CMD" fs); try (injection Hr as <-; by apply keeps_range_same).
  by eapply dispatch_range.
Qed.

(** Whatever is requested, in any order, the polling period stays between 20
    ms and a minute, the update period between 1 ms and a minute and the limit on
    taps at most 8192; and while that limit is not zero, no list of taps sent by
    the operator becomes longer than it. *)
Theorem runtime_config_in_range ct c (Hserved : rtc served (Coordinator.init ct) c) :
  in_range c ∧ ∀ vs, 0 < cir_max_taps c →
    Z.of_nat (length (read_taps (Z.max 0 (cir_max_taps c)) vs [])) ≤ 8192.
Proof.
  assert (Hc : in_range c).
  { assert (Hi : in_range (Coordinator.init ct)) by (unfold in_range; cbn; lia).
    revert Hi. induction Hserved; eauto using served_range. }
  split; [done|]. intros vs Hpos. destruct Hc as (_ & _ & Hc).
  rewrite Z.max_r by lia. etrans; [apply read_taps_length; [done|cbn; lia]|lia].
Qed.

End Sessions.

(** ** Defaults and deviations *)

(** After the same setting of every intermediate of the map, what it
    establishes holds of each of them. *)
Lemma alter_all_establish (g : Intermediate.t → Intermediate.t) (P : Intermediate.t → Prop) l
    (m : gmap positive Intermediate.t) (D : positive → Prop) :
  (∀ i, P (g i)) → (∀ a i, D a → m !! a = Some i → P i) →
  ∀ a i, D a ∨ a ∈ l.*2 → foldl (λ m (ka : float * positive), alter g ka.2 m) m l !! a = Some i →
  P i.
Proof.
  intros Hg. revert m D. induction l as [|[k0 a0] l IH]; intros m D Hm a i Ha Hi.
  - destruct Ha as [Ha|Ha%elem_of_nil]; [|done]. by apply (Hm a).
  - cbn [foldl snd] in Hi. apply (IH _ (λ a, a = a0 ∨ D a)) in Hi; [done| |].
    + intros a1 i1 Ha1 Hl. destruct (decide (a1 = a0)) as [->|Hne].
      * rewrite lookup_alter_eq in Hl. destruct (m !! a0); [|done]. by injection Hl as <-.
      * rewrite lookup_alter_ne in Hl by done. destruct Ha1 as [|HD]; [done|]. by apply (Hm a1).
    + cbn [fmap list_fmap snd] in Ha. set_solver.
Qed.

Lemma for_intermediates_establish g (P : Intermediate.t → Prop) c k a i :
  (∀ i, P (g i)) → (k, a) ∈ m_intermediateMap (for_intermediates g c) →
  c_ims (for_intermediates g c) !! a = Some i → P i.
Proof.
  intros Hg Hka Hi. unfold for_intermediates in Hi, Hka. cbn [modify c_ims m_intermediateMap] in *.
  eapply (alter_all_establish g P _ _ (λ _, False)); [exact Hg|done| |exact Hi].
  right. apply list_elem_of_fmap. by exists (k, a).
Qed.

Section Defaults.
Implicit Types (c : Coordinator.t) (i : Intermediate.t).

(** What [SET_DEFAULT_PL] stores. *)
Definition stored_defaults (m : PropagationModel) (p : model_params) : PropagationDefaults :=
  mkPropagationDefaults m (p_ground p) (p_scenario p) (p_environment p) (p_refractivity p)
    (p_conductivity p) (p_permittivity p) (p_zone p).

Lemma set_default_eq fs c plMode d :
  value get_string "plMode" "FREE_SPACE" fs = Ok plMode →
  PropagationModelFromString plMode ≠ UNKNOWN →
  m_propagationDefaults (ctrl c) = Some d →
  let m := PropagationModelFromString plMode in
  ctrl (SET_DEFAULT_PL fs c).2
  = for_intermediates (apply_default m (read_params fs))
      ((ctrl c) <| m_propagationDefaults := Some (stored_defaults m (read_params fs)) |>).
Proof.
  intros Hmode Hm Hd m. unfold SET_DEFAULT_PL, reading. rewrite Hmode. fold m.
  fold m in Hm. clearbody m. unfold on_controller.
  destruct m; try done; cbn [fst snd modify ctrl]; by rewrite Hd.
Qed.

Lemma apply_default_model m p i :
  Intermediate.m_propagationModel (apply_default m p i) = m ∧
  Intermediate.grReflection (apply_default m p i) = p_ground p.
Proof.
  unfold apply_default, set_environment, Intermediate.set3gppScenario,
    Intermediate.setHataEnvironment.
  destruct m; try done; by case_match.
Qed.

Lemma apply_default_environment m p i :
  m = OKUMURA_HATA → p_environment p ≠ ""%string →
  Intermediate.m_hataEnvironment (apply_default m p i) = p_environment p.
Proof.
  intros -> He. unfold apply_default, set_environment, Intermediate.setHataEnvironment.
  destruct (empty_str (p_environment p)) eqn:E; [|done]. by destruct (p_environment p).
Qed.

Lemma apply_default_itm m p i :
  m = LONGLEY_RICE →
  Intermediate.m_itmRefractivity (apply_default m p i) = p_refractivity p ∧
  Intermediate.m_itmClimateZone (apply_default m p i) = clampZ 1 7 (p_zone p).
Proof. by intros ->. Qed.

(** A new default model reaches every channel: those that exist get the
    model with its parameters at once, and a channel opened later for a new
    frequency starts with the model. *)
Theorem default_model_applies fs c plMode d
    (Hmode : value get_string "plMode" "FREE_SPACE" fs = Ok plMode)
    (Hknown : PropagationModelFromString plMode ≠ UNKNOWN)
    (Hd : m_propagationDefaults (ctrl c) = Some d) :
  let m := PropagationModelFromString plMode in
  let p := read_params fs in
  let c' := ctrl (SET_DEFAULT_PL fs c).2 in
  (∀ k a i, (k, a) ∈ m_intermediateMap c' → c_ims c' !! a = Some i →
     Intermediate.m_propagationModel i = m ∧ Intermediate.grReflection i = p_ground p ∧
     (m = OKUMURA_HATA → p_environment p ≠ ""%string →
      Intermediate.m_hataEnvironment i = p_environment p) ∧
     (m = LONGLEY_RICE → Intermediate.m_itmRefractivity i = p_refractivity p ∧
      Intermediate.m_itmClimateZone i = clampZ 1 7 (p_zone p))) ∧
  ∀ f, FreqMap.find f (m_intermediateMap c') = None →
    ∃ a (c'' : Controller.t) i, CreateChannel f c' = (Ok a, c'') ∧ c_ims c'' !! a = Some i ∧
      Intermediate.m_propagationModel i = m.
Proof.
  intros m p c'. pose proof (set_default_eq fs c plMode d Hmode Hknown Hd) as E.
  fold c' m p in E. split.
  - intros k a i Hka Hi. rewrite E in Hka, Hi.
    apply (for_intermediates_establish _ (λ i,
      Intermediate.m_propagationModel i = m ∧ Intermediate.grReflection i = p_ground p ∧
      (m = OKUMURA_HATA → p_environment p ≠ ""%string →
       Intermediate.m_hataEnvironment i = p_environment p) ∧
      (m = LONGLEY_RICE → Intermediate.m_itmRefractivity i = p_refractivity p ∧
       Intermediate.m_itmClimateZone i = clampZ 1 7 (p_zone p))) _ k a i) in Hi; [done| |exact Hka].
    intros i'. destruct (apply_default_model m p i') as [-> ->]. split_and!; [done..| |].
    + apply apply_default_environment.
    + apply apply_default_itm.
  - intros f Hf. unfold CreateChannel, FindChannel, Controller.bind, gets. rewrite Hf.
    do 2 eexists. exists (new_intermediate f (m_propagationDefaults c')).
    split; [reflexivity|]. cbn [modify c_ims]. split; [apply lookup_insert_eq|].
    rewrite E. cbn [for_intermediates modify m_propagationDefaults].
    unfold new_intermediate. cbn [stored_defaults pd_model].
    fold m in Hknown. destruct m; try done.
    unfold Intermediate.set3gppScenario. by case_match.
Qed.

(** The parameters of the default model do not reach channels opened later:
    after a default of Okumura-Hata in any environment, or of the irregular
    terrain model in any climate, a new frequency starts with the built-in urban
    environment and the built-in climate, while the channels that existed use the
    parameters given. *)
Theorem new_channel_misses_parameters fs c plMode d f
    (Hmode : value get_string "plMode" "FREE_SPACE" fs = Ok plMode)
    (Hknown : PropagationModelFromString plMode ≠ UNKNOWN)
    (Hd : m_propagationDefaults (ctrl c) = Some d)
    (Hnew : FreqMap.find f (m_intermediateMap (ctrl c)) = None) :
  let c' := ctrl (SET_DEFAULT_PL fs c).2 in
  ∃ a (c'' : Controller.t) i, CreateChannel f c' = (Ok a, c'') ∧ c_ims c'' !! a = Some i ∧
    Intermediate.m_hataEnvironment i = "URBAN"%string ∧
    Intermediate.m_itmRefractivity i = F32.of_Z 301 ∧
    Intermediate.m_itmGroundPermittivity i = F32.of_Z 15 ∧ Intermediate.m_itmClimateZone i = 5.
Proof.
  intros c'. pose proof (set_default_eq fs c plMode d Hmode Hknown Hd) as E. fold c' in E.
  assert (Hf : FreqMap.find f (m_intermediateMap c') = None) by by rewrite E.
  unfold CreateChannel, FindChannel, Controller.bind, gets. rewrite Hf.
  do 2 eexists. exists (new_intermediate f (m_propagationDefaults c')).
  split; [reflexivity|]. cbn [modify c_ims]. split; [apply lookup_insert_eq|].
  unfold new_intermediate. destruct (m_propagationDefaults c') as [d'|]; [|by split_and!].
  destruct (pd_model d'); try (by split_and!).
  unfold Intermediate.set3gppScenario. case_match; by split_and!.
Qed.

Lemma find_put_freq f v m : find_freq f (put_freq f v m) = Some v.
Proof.
  assert (Hirr : flt f f = false).
  { unfold flt, SFltb. destruct f as [[]|[]| |s mm e]; try done. cbn.
    destruct s; by rewrite Z.compare_refl, ?Pos.compare_cont_refl. }
  induction m as [|[k v'] m IH]; cbn [put_freq find_freq]; [by rewrite Hirr|].
  destruct (flt k f) eqn:E1; cbn [find_freq]; [by rewrite E1|].
  destruct (flt f k) eqn:E2; cbn [find_freq]; [by rewrite Hirr|]. by rewrite E1, E2.
Qed.

(** A deviation set for all channels leaves the one reported for a frequency
    behind: after setting [x] for a frequency and then [y] for all, every link of
    every channel uses [y], that frequency's included, but the report for the
    frequency is still [x]. *)
Theorem shadow_report_diverges fs1 fs2 fs3 c freq f x y
    (Hfreq1 : find_key "freq" fs1 = Some freq) (Hf : get_double freq = Ok f)
    (Hx : get_double (fld "std" fs1) = Ok x)
    (Hnone : find_key "freq" fs2 = None) (Hy : get_double (fld "std" fs2) = Ok y)
    (Hfreq3 : find_key "freq" fs3 = Some freq) :
  let c1 := (UPD_SHADOW_STD fs1 c).2 in
  let c2 := (UPD_SHADOW_STD fs2 c1).2 in
  (GET_SHADOW_STD fs3 c2).1
    = Ok (of_pairs [("status", JString "success"); ("std", JFloat x)]) ∧
  ∀ k a i sd addr ch, (k, a) ∈ m_intermediateMap (ctrl c2) → c_ims (ctrl c2) !! a = Some i →
    Intermediate.m_channelMap i !! sd = Some (addr, ch) → Channel.shadowingStd ch = y.
Proof.
  intros c1 c2.
  assert (E1 : find_freq (hz f) (shadow_std_by_freq c1) = Some x).
  { unfold c1, UPD_SHADOW_STD, reading. rewrite Hx, Hfreq1, Hf.
    destruct (on_intermediate _ _ _) as [r ct]. apply find_put_freq. }
  assert (E2 : c2 = c1 <| shadow_std := y |>
    <| ctrl := for_intermediates (Intermediate.setShadowingSTD y) (ctrl c1) |>).
  { unfold c2, UPD_SHADOW_STD, reading. by rewrite Hy, Hnone. }
  split.
  - unfold GET_SHADOW_STD, reading. rewrite Hfreq3, Hf, E2. cbn [fst modify shadow_std_by_freq].
    by rewrite E1.
  - intros k a i sd addr ch Hka Hi Hch. rewrite E2 in Hka, Hi. cbn [modify ctrl] in Hka, Hi.
    refine (for_intermediates_establish _ (λ i, ∀ sd addr ch,
      Intermediate.m_channelMap i !! sd = Some (addr, ch) → Channel.shadowingStd ch = y)
      _ k a i _ Hka Hi sd addr ch Hch).
    intros i' sd' addr' ch' Hl. cbn [Intermediate.setShadowingSTD Intermediate.for_channels
      modify Intermediate.m_channelMap] in Hl.
    rewrite lookup_fmap in Hl. destruct (Intermediate.m_channelMap i' !! sd') as [[a0 c0]|]; [|done].
    by injection Hl as _ <-.
Qed.

End Defaults.

(** ** Witnesses *)

Section Demo.

#[local] Instance flat_geometry : Geometry := {|
  sin x := x; cos x := x; atan x := x; atan2 x y := x; sqrt x := x |}.

#[local] Existing Instance flat_dsp.

(** One channel, at 1 MHz, with a link from "a" to "b". *)
Definition demo_freq : float := Eval vm_compute in hz (F64.of_Z 1).

Definition demo_channel : Intermediate.t :=
  (Intermediate.ctor demo_freq 10)
    <| Intermediate.m_channelMap := {[ ("a"%string, "b"%string) :=
         (1%positive, Channel.ctor "a" "b" 1 1) ]} |>.

Definition demo_controller : Controller.t :=
  Controller.mk [] [] ∅ ∅ [(demo_freq, 1%positive)] ∅ (Some default_PropagationDefaults) [] 0 1
    (mkHeap ∅ ∅) {[ 1%positive := demo_channel ]} 2.

Definition demo : Coordinator.t := Coordinator.init demo_controller.

Definition demo_parse (fs : list (string * json)) (request : string) : option json :=
  Some (JObject fs).

Definition no_db (node pattern : string) : bool := false.

Lemma coordinator_refines_machine_witness :
  rtc (cstep (λ _, None) (λ x, x) (eq false)) demo_controller
    (ctrl (CHG_DOPPLER [("CMD", JString "CHG_DOPPLER"); ("dest", JString "b");
      ("enabled", JBool true); ("freq", JInt 1); ("src", JString "a")] demo).2).
Proof.
  exact (proj1 (coordinator_refines_machine (λ _, None) (λ x, x) (eq false)
    (demo_parse [("CMD", JString "CHG_DOPPLER"); ("dest", JString "b");
      ("enabled", JBool true); ("freq", JInt 1); ("src", JString "a")]) no_db JNull "" ""
    _ demo eq_refl)).
Defined.

Lemma link_command_one_link_witness :
  let '(r, c') := set_link demo_freq "a" "b" (LDopplerOn true) demo_controller in
  r = result true ∨ r = result false ∧ c' = demo_controller.
Proof.
  destruct (set_link demo_freq "a" "b" (LDopplerOn true) demo_controller) as [r c'] eqn:E.
  destruct (link_command_one_link demo_freq "a" "b" (LDopplerOn true) demo_controller r c' E)
    as [[Hr _]|(Hr & Hc & _)]; [left; exact Hr|right; exact (conj Hr Hc)].
Defined.

(** That link exists. *)
Example demo_link_set :
  (set_link demo_freq "a" "b" (LDopplerOn true) demo_controller).1 = result true ∧
  (set_link demo_freq "a" "c" (LDopplerOn true) demo_controller).1 = result false.
Proof. split; vm_compute; reflexivity. Qed.

Lemma runtime_config_in_range_witness :
  in_range (SET_CONFIG JNull [("CMD", JString "SET_CONFIG"); ("vehiclePollRateMs", JInt 5)]
              demo).2.
Proof.
  refine (proj1 (runtime_config_in_range
    (demo_parse [("CMD", JString "SET_CONFIG"); ("vehiclePollRateMs", JInt 5)]) no_db JNull ""
    demo_controller _ (rtc_once _ _ (served_request
      (demo_parse [("CMD", JString "SET_CONFIG"); ("vehiclePollRateMs", JInt 5)]) no_db JNull
      "" ""
      (SET_CONFIG JNull [("CMD", JString "SET_CONFIG"); ("vehiclePollRateMs", JInt 5)])
      demo eq_refl)))).
Defined.

Definition demo_default : fields :=
  [("CMD", JString "SET_DEFAULT_PL"); ("environment", JString "OPEN");
   ("plMode", JString "OKUMURA_HATA")].

Lemma default_model_applies_witness :
  ∃ a (c : Controller.t) i,
    CreateChannel (F64.of_Z 5) (ctrl (SET_DEFAULT_PL demo_default demo).2) = (Ok a, c) ∧
    c_ims c !! a = Some i ∧ Intermediate.m_propagationModel i = OKUMURA_HATA.
Proof.
  refine (proj2 (default_model_applies demo_default demo "OKUMURA_HATA"
    default_PropagationDefaults eq_refl _ eq_refl) (F64.of_Z 5) _).
  - discriminate.
  - vm_compute. reflexivity.
Defined.

Lemma new_channel_misses_parameters_witness :
  ∃ a (c : Controller.t) i,
    CreateChannel (F64.of_Z 5) (ctrl (SET_DEFAULT_PL demo_default demo).2) = (Ok a, c) ∧
    c_ims c !! a = Some i ∧ Intermediate.m_hataEnvironment i = "URBAN"%string.
Proof.
  destruct (new_channel_misses_parameters demo_default demo "OKUMURA_HATA"
    default_PropagationDefaults (F64.of_Z 5) eq_refl) as (a & c & i & Ec & Ei & Eh & _).
  - discriminate.
  - reflexivity.
  - vm_compute. reflexivity.
  - exists a, c, i. exact (conj Ec (conj Ei Eh)).
Defined.

Lemma shadow_report_diverges_witness :
  (GET_SHADOW_STD [("freq", JInt 1)]
     (UPD_SHADOW_STD [("std", JInt 2)]
        (UPD_SHADOW_STD [("freq", JInt 1); ("std", JInt 7)] demo).2).2).1
  = Ok (of_pairs [("status", JString "success"); ("std", JFloat (F64.of_Z 7))]).
Proof.
  exact (proj1 (shadow_report_diverges [("freq", JInt 1); ("std", JInt 7)] [("std", JInt 2)]
    [("freq", JInt 1)] demo (JInt 1) (F64.of_Z 1) (F64.of_Z 7) (F64.of_Z 2)
    eq_refl eq_refl eq_refl eq_refl eq_refl eq_refl)).
Defined.

End Demo.
