(* ===== verification/Http.v ===== *)
(** What the extensions under src/extensions/ share: the HTTP requests they
    send, the URL of their server, and the part of the program they can reach.

    Boost.Beast and the servers behind it are one operation, [serve]: the
    exchange of one request, which changes the state [V] of the outside world
    and yields the body of the answer or an exception (a name that does not
    resolve, a refused connection, a time-out).  The status code of the answer
    is never looked at.  Parsing and printing of JSON and the allocator enter
    the same way. *)

From Stdlib Require Import ZArith Lia Strings.Ascii Strings.String Floats.SpecFloat.
From stdpp Require Import prelude list strings.
From S2P Require Import Prelude.
From S2P Require Import Ieee.
From S2P Require Import CxxLib.
From S2P Require Import Json.
From S2P Require Import Coordinator.

Inductive verb : Type := GET | POST | PUT.

#[global] Instance verb_eq_dec : EqDecision verb.
Proof. solve_decision. Defined.

Record request : Type := mkRequest {
  rq_verb : verb;
  rq_host : string;
  rq_port : string;
  rq_target : string;
  rq_body : string;
}.

#[global] Instance request_eq_dec : EqDecision request.
Proof. solve_decision. Defined.

(** [None] is an exception. *)
Class Host (V : Type) : Type := {
  serve : request → V → option string * V;
  parse_json : string → option json;
  dump : json → option string;
  alloc : Z → bool;        (** whether a vector of so many samples fits in memory *)
}.

(** What an extension can reach: the nodes, intermediates and settings of the
    coordinator, the sandbox settings of [RuntimeConfig], the outside world. *)
Record world (V : Type) : Type := mkWorld {
  coord : Coordinator.t;
  sandbox_enabled : bool;
  sandbox_update_rate_ms : Z;           (* int *)
  outside : V;
}.

Arguments mkWorld {V} _ _ _ _.
Arguments coord {V} _.
Arguments sandbox_enabled {V} _.
Arguments sandbox_update_rate_ms {V} _.
Arguments outside {V} _.

Definition set_coord {V} (c : Coordinator.t) (w : world V) : world V :=
  mkWorld c (sandbox_enabled w) (sandbox_update_rate_ms w) (outside w).

Definition set_sandbox {V} (enabled : bool) (rate : Z) (w : world V) : world V :=
  mkWorld (coord w) enabled rate (outside w).

Definition set_outside {V} (out : V) (w : world V) : world V :=
  mkWorld (coord w) (sandbox_enabled w) (sandbox_update_rate_ms w) out.

Module Http.

(** [std::regex_search] for a scheme, a host without slash or colon, perhaps a
    colon, and digits: the first place where it matches, and there the longest
    host and port. *)

Fixpoint span (p : ascii → bool) (s : string) : string * string :=
  match s with
  | String c s' => if p c then let '(a, b) := span p s' in (String c a, b) else (EmptyString, s)
  | EmptyString => (EmptyString, EmptyString)
  end.

Definition strip (p s : string) : option string :=
  if String.prefix p s
  then Some (String.substring (String.length p) (String.length s - String.length p) s)
  else None.

Definition scheme (s : string) : option string :=
  match strip "https://" s with Some r => Some r | None => strip "http://" s end.

Definition host_char (c : ascii) : bool := negb (Ascii.eqb c "/" || Ascii.eqb c ":").

Definition is_digit (c : ascii) : bool := if digit c is Some _ then true else false.

Definition url_here (s : string) : option (string * string) :=
  match scheme s with
  | None => None
  | Some r =>
      let '(host, r) := span host_char r in
      if (host =? "")%string then None
      else
        let r := match r with String ":" r' => r' | _ => r end in
        Some (host, (span is_digit r).1)
  end.

Fixpoint url_search (s : string) : option (string * string) :=
  match url_here s with
  | Some m => Some m
  | None => match s with String _ s' => url_search s' | EmptyString => None end
  end.

(** [parseUrl]: host and port, and those of a text that is not a URL. *)
Definition parseUrl (default_port url : string) : string * string :=
  match url_search url with
  | Some (host, port) => (host, if (port =? "")%string then "80"%string else port)
  | None => ("localhost"%string, default_port)
  end.

Example parseUrl_ex :
  parseUrl "8000" "http://192.168.8.173:8000/x" = ("192.168.8.173", "8000")%string ∧
  parseUrl "8000" "see https://host/a" = ("host", "80")%string ∧
  parseUrl "8000" "host:1" = ("localhost", "8000")%string.
Proof. by vm_compute. Qed.

(** [httpGet], [httpPost] and [httpPut]; the body is printed before anything is
    sent. *)
Definition http {V} `{Host V} (v : verb) (host port target : string) (body : option json)
    (w : world V) : option string * world V :=
  match (match body with None => Some EmptyString | Some j => dump j end) with
  | None => (None, w)
  | Some b =>
      let '(r, out) := serve (mkRequest v host port target b) (outside w) in
      (r, set_outside out w)
  end.

(** The members of an object; anything else has none. *)
Definition members (j : json) : list (string * json) :=
  match j with JObject fs => fs | _ => [] end.

(** [if (j.contains(k) && j[k].is_number()) field = std::max(lo, j[k].get<int>())]. *)
Definition at_least (lo : Z) (k : string) (old : Z) (fs : list (string * json)) : Z :=
  match find_key k fs with
  | Some v => if is_number v then match get_int v with Ok z => Z.max lo z | Err _ => old end
              else old
  | None => old
  end.

(** [if (j.contains(k) && j[k].is_object())]. *)
Definition object (k : string) (fs : list (string * json)) : option (list (string * json)) :=
  match find_key k fs with Some (JObject o) => Some o | _ => None end.

End Http.
