(* ===== verification/Sionna.v ===== *)
(** src/extensions/sionna/src/sionna_client.cpp: the client of the ray tracer.
    A thread registers the nodes on the server, sends their positions, fetches
    the impulse responses and puts them on the links.

    [poll_step] is one turn of the thread ([pollLoop]); the commands of the
    operator run between turns.  Access to JSON that the code does not check is
    [Undefined] where the library leaves it undefined, an exception otherwise. *)

From Stdlib Require Import ZArith Lia Strings.String Floats.SpecFloat.
From stdpp Require Import prelude list strings gmap list_numbers.
From S2P Require Import Prelude.
From S2P Require Import Ieee.
From S2P Require Import Common.
From S2P Require Import CxxLib.
From S2P Require Import Json.
From S2P Require Import NodeConfig.
From S2P Require Import NodeEntity.
From S2P Require Import Channel.
From S2P Require Import Intermediate.
From S2P Require Import Controller.
From S2P Require Import Extensions.
From S2P Require Import Coordinator.
From S2P Require Import Http.

#[local] Open Scope chem_scope.
#[local] Existing Instance Coordinator.t_eta.

Module Sionna.

Inductive fault : Type :=
  | Throw (e : json_error)
  | LengthError                (** a vector longer than [max_size()] *)
  | BadAlloc
  | Undefined.                 (** a missing key or index of a [const json], a bad conversion *)

#[global] Instance fault_eq_dec : EqDecision fault.
Proof. unfold EqDecision, Decision. repeat decide equality. Defined.

(** Where the thread is: in its first loop, in its second, or past both. *)
Inductive thread : Type := Creating | Polling | Finished.

Record CachedPos : Type := mkCachedPos { c_lat : float; c_lon : float; c_alt : float }.

Record t : Type := mk {
  context : bool;              (** [m_nodeMap] and [m_intermediateMap] are set *)
  m_serverUrl : string;
  m_host : string;
  m_port : string;
  m_sceneConfig : string;
  m_refLat : float;
  m_refLon : float;
  m_refAlt : float;
  m_offsetX : float;
  m_offsetY : float;
  m_offsetZ : float;
  m_scale : float;
  m_sceneAlignment : json;
  m_updateRateMs : Z;          (* int *)
  m_maxDepth : Z;              (* int *)
  m_numSamples : Z;            (* int *)
  m_running : bool;
  m_thread : option thread;
  m_sceneId : string;
  m_txMap : gmap string string;
  m_rxMap : gmap string string;
  m_txOrder : list string;
  m_rxOrder : list string;
  m_lastPositions : gmap string CachedPos;
  m_avgCirResponseMs : float;
  m_cirResponseCount : Z;      (* int *)
}.

#[export] Instance t_eta : Settable t := λ s,
  mk (context s) (m_serverUrl s) (m_host s) (m_port s) (m_sceneConfig s) (m_refLat s)
    (m_refLon s) (m_refAlt s) (m_offsetX s) (m_offsetY s) (m_offsetZ s) (m_scale s)
    (m_sceneAlignment s) (m_updateRateMs s) (m_maxDepth s) (m_numSamples s) (m_running s)
    (m_thread s) (m_sceneId s) (m_txMap s) (m_rxMap s) (m_txOrder s) (m_rxOrder s)
    (m_lastPositions s) (m_avgCirResponseMs s) (m_cirResponseCount s).

Definition init : t :=
  mk false "" "" "" "aerpaw" (F64.lit 3572750947 8) (SFopp (F64.lit 7869595819 8))
    (F64.of_Z 112) (F64.lit 1181 1) (SFopp (F64.lit 1234 1)) fzero (F64.of_Z 1) JNull 500 3
    100000 false None "" ∅ ∅ [] [] ∅ fzero 0.

(** *** Settings *)

Definition set_origin (fs : list (string * json)) (s : t) : t :=
  match Http.object "referenceOrigin" fs with
  | Some ref => s <| m_refLat := Coordinator.number get_double "lat" (m_refLat s) ref |>
                  <| m_refLon := Coordinator.number get_double "lon" (m_refLon s) ref |>
                  <| m_refAlt := Coordinator.number get_double "alt" (m_refAlt s) ref |>
  | None => s
  end.

Definition set_offset (fs : list (string * json)) (s : t) : t :=
  match Http.object "sceneOffset" fs with
  | Some off => s <| m_offsetX := Coordinator.number get_double "x" (m_offsetX s) off |>
                  <| m_offsetY := Coordinator.number get_double "y" (m_offsetY s) off |>
                  <| m_offsetZ := Coordinator.number get_double "z" (m_offsetZ s) off |>
  | None => s
  end.

(** The four settings both [onStart] and "config" read the same way. *)
Definition set_limits (fs : list (string * json)) (s : t) : t :=
  s <| m_updateRateMs := Http.at_least 50 "updateRateMs" (m_updateRateMs s) fs |>
    <| m_maxDepth := Http.at_least 1 "maxDepth" (m_maxDepth s) fs |>
    <| m_numSamples := Http.at_least 1000 "numSamples" (m_numSamples s) fs |>
    <| m_sceneConfig := Coordinator.text "sceneConfig" (m_sceneConfig s) fs |>.

Definition set_scale (fs : list (string * json)) (s : t) : t :=
  s <| m_scale := Coordinator.number get_double "scale" (m_scale s) fs |>.

Definition origin_json (s : t) : json :=
  of_pairs [("lat", JFloat (m_refLat s)); ("lon", JFloat (m_refLon s));
            ("alt", JFloat (m_refAlt s))].

Definition offset_json (s : t) : json :=
  of_pairs [("x", JFloat (m_offsetX s)); ("y", JFloat (m_offsetY s));
            ("z", JFloat (m_offsetZ s))].

Section Client.
Context {V : Type} `{Host V}.

#[local] Notation W := (world V).

Definition http (v : verb) (target : string) (body : option json) (s : t) (w : W)
    : option string * W :=
  Http.http v (m_host s) (m_port s) target body w.

(** *** The interface of an extension *)

Definition onStart (config : json) (s : t) : bool * t :=
  if m_running s then (true, s)
  else
    let fs := Http.members config in
    let s := s <| m_serverUrl := Coordinator.text "serverUrl" (m_serverUrl s) fs |> in
    let s := set_scale fs (set_offset fs (set_origin fs (set_limits fs s))) in
    let s := if empty_str (m_serverUrl s) then s <| m_serverUrl := "http://localhost:8000" |>
             else s in
    let '(host, port) := Http.parseUrl "8000" (m_serverUrl s) in
    (true, s <| m_host := host |> <| m_port := port |> <| m_running := true |>
             <| m_thread := Some Creating |>).

Definition clear_flag (ch : Channel.t) : Channel.t :=
  if (Channel.activeExtension ch =? "sionna")%string then Channel.clearActiveExtension ch else ch.

Definition clearExtensionFlags (s : t) (w : W) : W :=
  if context s then
    set_coord ((coord w) <| Coordinator.ctrl :=
      Coordinator.for_intermediates (Intermediate.for_channels clear_flag)
        (Coordinator.ctrl (coord w)) |>) w
  else w.

(** The thread is joined before anything is cleared. *)
Definition onStop (s : t) (w : W) : t * W :=
  if m_running s then
    (s <| m_running := false |> <| m_thread := None |> <| m_sceneId := EmptyString |>
       <| m_txMap := ∅ |> <| m_rxMap := ∅ |> <| m_txOrder := [] |> <| m_rxOrder := [] |>
       <| m_lastPositions := ∅ |> <| m_avgCirResponseMs := fzero |> <| m_cirResponseCount := 0 |>,
     clearExtensionFlags s w)
  else (s, w).

(** [std::round]. *)
Definition round_double (x : float) : float :=
  match round x with Some z => F64.of_Z z | None => x end.

Definition settings_json (s : t) : list (string * json) :=
  [("updateRateMs", JInt (m_updateRateMs s)); ("maxDepth", JInt (m_maxDepth s));
   ("numSamples", JInt (m_numSamples s)); ("sceneConfig", JString (m_sceneConfig s));
   ("referenceOrigin", origin_json s); ("sceneOffset", offset_json s);
   ("scale", JFloat (m_scale s))].

Definition getStatus (s : t) : json :=
  of_pairs ([("status", JString "success"); ("name", JString "sionna");
             ("running", JBool (m_running s)); ("serverUrl", JString (m_serverUrl s))]
    ++ (if empty_str (m_sceneId s) then [] else [("sceneId", JString (m_sceneId s))])
    ++ settings_json s
    ++ (match m_sceneAlignment s with JNull => [] | a => [("sceneAlignment", a)] end)
    ++ (if 0 <? m_cirResponseCount s
        then [("avgCirResponseMs", JFloat (F64.div (round_double
                (F64.mul (m_avgCirResponseMs s) (F64.of_Z 10))) (F64.of_Z 10)))]
        else [])).

Definition schema_of (type : string) (dflt : json) (rest : list (string * json)) : json :=
  of_pairs ([("type", JString type); ("default", dflt)] ++ rest).

Definition getConfigSchema : json :=
  let number x := schema_of "number" (JFloat x) [] in
  let object_of l := of_pairs [("type", JString "object"); ("properties", of_pairs l)] in
  of_pairs [
    ("serverUrl", schema_of "string" (JString "http://localhost:8000") []);
    ("updateRateMs", schema_of "integer" (JInt 500) [("min", JInt 50)]);
    ("maxDepth", schema_of "integer" (JInt 3) [("min", JInt 1)]);
    ("numSamples", schema_of "integer" (JInt 100000) [("min", JInt 1000)]);
    ("sceneConfig", schema_of "string" (JString "aerpaw") []);
    ("referenceOrigin", object_of [("lat", number (F64.lit 3572750947 8));
       ("lon", number (SFopp (F64.lit 7869595819 8))); ("alt", number (F64.of_Z 112))]);
    ("sceneOffset", object_of [("x", number (F64.lit 1181 1));
       ("y", number (SFopp (F64.lit 1234 1))); ("z", number fzero)]);
    ("scale", number (F64.of_Z 1))].

(** Lines 153-171: the new origin is pushed to an existing scene; failures are
    logged. *)
Definition push_origin (fs : list (string * json)) (s : t) (w : W) : W :=
  match Http.object "referenceOrigin" fs with
  | Some _ =>
      if empty_str (m_sceneId s) then w
      else (http PUT ("/scenes/" ++ m_sceneId s ++ "/update_origin") (Some (origin_json s)) s w).2
  | None => w
  end.

Definition handleCommand (action : string) (params : json) (s : t) (w : W) : json * t * W :=
  let fs := Http.members params in
  if (action =? "start")%string then
    (of_pairs [("status", JString "success"); ("message", JString "Sionna extension started")],
     (onStart params s).2, w)
  else if (action =? "stop")%string then
    let '(s, w) := onStop s w in
    (of_pairs [("status", JString "success"); ("message", JString "Sionna extension stopped")],
     s, w)
  else if (action =? "status")%string then (getStatus s, s, w)
  else if (action =? "config")%string then
    let s := set_origin fs (set_limits fs s) in
    let w := push_origin fs s w in
    let s := set_scale fs (set_offset fs s) in
    (of_pairs (("status", JString "success") :: settings_json s), s, w)
  else (Coordinator.failure ("Unknown action: " ++ action), s, w).

(** *** The scene *)

Definition copy_key (k : string) (info alignment : json) : json :=
  match info with
  | JObject fs =>
      match find_key k fs with
      | Some v => match set_key k v alignment with Ok j => j | Err _ => alignment end
      | None => alignment
      end
  | _ => alignment
  end.

Definition fetchSceneAlignment (s : t) (w : W) : t * W :=
  if empty_str (m_sceneId s) then (s, w)
  else
    let '(r, w) := http GET ("/scenes/" ++ m_sceneId s) None s w in
    match r ≫= parse_json with
    | None => (s, w)
    | Some info =>
        let alignment := foldl (λ a k, copy_key k info a) JNull
          ["scene_config"; "scene_path"; "offset"; "scale"; "units"]%string in
        (s <| m_sceneAlignment := alignment |>, w)
    end.

Definition scene_body (s : t) : json :=
  of_pairs [("scene_config", JString (m_sceneConfig s)); ("scene_origin", origin_json s);
            ("scene_offset", offset_json s); ("scale", JFloat (m_scale s))].

(** [false] for every exception and for an answer without a scene. *)
Definition createScene (s : t) (w : W) : bool * t * W :=
  let '(r, w) := http POST "/scenes" (Some (scene_body s)) s w in
  match r ≫= parse_json with
  | Some (JObject fs) =>
      match find_key "scene_id" fs with
      | Some (JString id) =>
          let '(s, w) := fetchSceneAlignment (s <| m_sceneId := id |>) w in (true, s, w)
      | _ => (false, s, w)
      end
  | _ => (false, s, w)
  end.

(** *** Positions *)

Definition same_pos (c : CachedPos) (l : Location) : bool :=
  feq (c_lat c) (lat l) && feq (c_lon c) (lon l) && feq (c_alt c) (alt l).

Definition moved (id : string) (l : Location) (s : t) : bool :=
  match m_lastPositions s !! id with Some c => negb (same_pos c l) | None => true end.

(** The name of a node on the server, without its suffix. *)
Definition node_name (id : string) (n : Node.t) : string :=
  let nm := NodeConfig.m_name (Node.m_config n) in if empty_str nm then id else nm.

(** Height above the ellipsoid: the altitude is relative to the ground. *)
Definition position_json (l : Location) (s : t) : json :=
  of_pairs [("lat", JFloat (lat l)); ("lon", JFloat (lon l));
            ("alt", JFloat (F64.add (F64.of_float (alt l)) (m_refAlt s)))].

Definition velocity_json : json :=
  of_pairs [("x", JFloat fzero); ("y", JFloat fzero); ("z", JFloat fzero)].

Definition tx_body (nm : string) (pos : json) : json :=
  of_pairs [("name", JString nm); ("position", pos); ("signal_power", JFloat fzero);
            ("velocity", velocity_json)].

Definition rx_body (nm : string) (pos : json) : json :=
  of_pairs [("name", JString nm); ("position", pos); ("velocity", velocity_json)].

Definition scene_url (part : string) (s : t) : string := "/scenes/" ++ m_sceneId s ++ part.

(** Lines 526-555: the node as a transmitter. *)
Definition sync_tx (id : string) (n : Node.t) (pos : json) (s : t) (w : W) : t * W :=
  let base := scene_url "/transmitters" s in
  match m_txMap s !! id with
  | None =>
      let nm := (node_name id n ++ "-tx")%string in
      let '(r, w) := http POST base (Some (tx_body nm pos)) s w in
      match r with
      | Some _ => (s <| m_txMap := <[id := nm]> (m_txMap s) |>
                     <| m_txOrder := m_txOrder s ++ [nm] |>, w)
      | None => (s, w)
      end
  | Some nm => (s, (http PUT (base ++ "/" ++ nm) (Some (of_pairs [("position", pos)])) s w).2)
  end.

(** Lines 558-584: and as a receiver. *)
Definition sync_rx (id : string) (n : Node.t) (pos : json) (s : t) (w : W) : t * W :=
  let base := scene_url "/receivers" s in
  match m_rxMap s !! id with
  | None =>
      let nm := (node_name id n ++ "-rx")%string in
      let '(r, w) := http POST base (Some (rx_body nm pos)) s w in
      match r with
      | Some _ => (s <| m_rxMap := <[id := nm]> (m_rxMap s) |>
                     <| m_rxOrder := m_rxOrder s ++ [nm] |>, w)
      | None => (s, w)
      end
  | Some nm => (s, (http PUT (base ++ "/" ++ nm) (Some (of_pairs [("position", pos)])) s w).2)
  end.

Definition sync_node (idn : string * Node.t) (sw : t * W) : t * W :=
  let '(s, w) := sw in
  match Node.getLocation idn.2 with
  | None => (s, w)
  | Some nl =>
      let l := position nl in
      if moved idn.1 l s then
        let pos := position_json l s in
        let '(s, w) := sync_tx idn.1 idn.2 pos s w in
        let '(s, w) := sync_rx idn.1 idn.2 pos s w in
        (s <| m_lastPositions :=
                <[idn.1 := mkCachedPos (lat l) (lon l) (alt l)]> (m_lastPositions s) |>, w)
      else (s, w)
  end.

Definition nodes (w : W) : gmap string Node.t := Controller.m_nodeMap (Coordinator.ctrl (coord w)).

Definition syncPositions (s : t) (w : W) : t * W :=
  if empty_str (m_sceneId s) || negb (context s) then (s, w)
  else foldl (λ sw idn, sync_node idn sw) (s, w) (entries (nodes w)).

(** *** Impulse responses *)

(** Delay and gain of a path, in double precision. *)
Definition path : Type := float * (float * float).

(** [static_cast<size_t>(std::round(delay * sampleRate))]. *)
Definition tap_index (rate : float) (p : path) : outcome fault Z :=
  match round (F64.mul p.1 rate) with
  | Some z => if decide (0 ≤ z < 2 ^ 64) then Ok z else Err Undefined
  | None => Err Undefined
  end.

Definition late (max_taps idx : Z) : bool := (0 <? max_taps) && (max_taps <=? idx).

Definition fc_add (x y : float * float) : float * float :=
  (F32.add x.1 y.1, F32.add x.2 y.2).

Definition gain (p : path) : float * float := (F32.of_float p.2.1, F32.of_float p.2.2).

(** The second loop: the gains of the paths that are not late, added up. *)
Definition add_path (max_taps : Z) (taps : signal_v) (ip : Z * path) : signal_v :=
  if late max_taps ip.1 then taps
  else if ip.1 <? Z.of_nat (length taps)
  then alter (λ x, fc_add x (gain ip.2)) (Z.to_nat ip.1) taps
  else taps.

Definition max_index (max_taps : Z) (idxs : list Z) : Z :=
  foldl (λ m i, if late max_taps i then m else Z.max m i) 0 idxs.

(** [std::vector<fc>::max_size()]. *)
Definition max_size : Z := 2 ^ 60 - 1.

Definition taps_of (max_taps : Z) (rate : float) (paths : list path) : outcome fault signal_v :=
  do! idxs <- omap_list (tap_index rate) paths;
  let n := max_index max_taps idxs + 1 in
  if max_size <? n then Err LengthError
  else if negb (alloc n) then Err BadAlloc
  else Ok (foldl (add_path max_taps) (replicate (Z.to_nat n) (fzero, fzero)) (zip idxs paths)).

(** The number of paths is the shortest of the three lengths. *)
Definition cirToTaps (cir_max_taps : Z) (delays gains_re gains_im : list float)
    (sampleRate : float) : outcome fault signal_v :=
  taps_of (Z.max 0 cir_max_taps) sampleRate (zip delays (zip gains_re gains_im)).

(** [m_nodeMap] is set whenever impulse responses are computed. *)
Definition destSampleRate (destId : string) (fallback : float) (m : gmap string Node.t) : float :=
  match m !! destId with
  | None => fallback
  | Some n =>
      let rx := usrp.m_rxRate (NodeConfig.m_sample_rate (Node.m_config n)) in
      if flt fzero rx then rx else fallback
  end.

(** [j[k]] and [j[i]] of a [const json]. *)
Definition cat (k : string) (j : json) : outcome fault json :=
  match j with
  | JObject fs => of_option Undefined (find_key k fs)
  | _ => Err (Throw TypeError)
  end.

Definition cidx (i : nat) (j : json) : outcome fault json :=
  match j with
  | JArray l => of_option Undefined (l !! i)
  | _ => Err (Throw TypeError)
  end.

(** [j[k]] of a [json]: a missing key is inserted as null. *)
Definition midx (k : string) (j : json) : outcome fault json :=
  match j with
  | JObject fs => Ok (default JNull (find_key k fs))
  | JNull => Ok JNull
  | _ => Err (Throw TypeError)
  end.

Definition got {A} (r : outcome json_error A) : outcome fault A :=
  match r with Ok a => Ok a | Err e => Err (Throw e) end.

Definition is_array (j : json) : bool := match j with JArray _ => true | _ => false end.

(** Lines 705-712: a path; a gain may be an array over time. *)
Definition read_path (pd re im : json) (p : nat) : outcome fault path :=
  do! jd <- cidx p pd;
  do! d <- got (get_double jd);
  do! jr <- cidx p re;
  let pick j := if is_array jr then cidx 0 j else Ok j in
  do! jr' <- pick jr;
  do! r <- got (get_double jr');
  do! ji <- cidx p im;
  do! ji' <- pick ji;
  do! i <- got (get_double ji');
  Ok (d, (r, i)).

(** Lines 700-713. *)
Definition read_pair (delays re im : json) (numPaths : Z) (rxIdx txIdx : nat)
    : outcome fault (list path) :=
  do! d1 <- cidx rxIdx delays;
  do! pairDelays <- cidx txIdx d1;
  let pair j := do! a <- cidx rxIdx j; do! b <- cidx 0 a; do! c <- cidx txIdx b; cidx 0 c in
  do! pairGainsRe <- pair re;
  do! pairGainsIm <- pair im;
  omap_list (read_path pairDelays pairGainsRe pairGainsIm) (seq 0 (Z.to_nat numPaths)).

(** A map from names back to nodes: of nodes with one name the last counts. *)
Definition by_name (m : gmap string string) : gmap string string :=
  foldl (λ r kn, <[kn.2 := kn.1]> r) ∅ (entries m).

(** Actions that can fail half-way. *)
Definition action : Type := Coordinator.t → outcome fault unit * Coordinator.t.

Fixpoint run_each {A} (f : A → action) (l : list A) : action := λ c,
  match l with
  | [] => (Ok tt, c)
  | a :: l => match f a c with
              | (Ok _, c) => run_each f l c
              | (Err e, c) => (Err e, c)
              end
  end.

(** Lines 732-740, for one intermediate. *)
Definition set_taps (srcId destId : string) (taps : signal_v) (i : Intermediate.t)
    : Intermediate.t :=
  let '(updated, i) := Intermediate.updateCIR srcId destId (mkChId 0 0) taps i in
  if updated
  then (Intermediate.for_channel srcId destId (Channel.setActiveExtension "sionna" true) i).2
  else i.

(** Lines 726-741. *)
Definition apply_paths (srcId destId : string) (paths : list path) : action := λ c,
  let sampleRate := destSampleRate destId (F64.of_Z 1000000)
                      (Controller.m_nodeMap (Coordinator.ctrl c)) in
  run_each (λ ka c,
    match taps_of (Z.max 0 (Coordinator.cir_max_taps c)) sampleRate paths with
    | Err e => (Err e, c)
    | Ok taps =>
        let ct := Coordinator.ctrl c in
        (Ok tt, c <| Coordinator.ctrl := ct <| Controller.c_ims :=
                     alter (set_taps srcId destId taps) ka.2 (Controller.c_ims ct) |> |>)
    end) (Controller.m_intermediateMap (Coordinator.ctrl c)) c.

(** Lines 682-741: one pair of a transmitter and a receiver. *)
Definition apply_pair (s : t) (delays re im : json) (numPaths : Z) (rt : nat * nat) : action := λ c,
  match m_rxOrder s !! rt.1, m_txOrder s !! rt.2 with
  | Some rxName, Some txName =>
      match by_name (m_txMap s) !! txName, by_name (m_rxMap s) !! rxName with
      | Some srcId, Some destId =>
          if (srcId =? destId)%string then (Ok tt, c)
          else match read_pair delays re im numPaths rt.1 rt.2 with
               | Err (Throw _) | Ok [] => (Ok tt, c)
               | Err e => (Err e, c)
               | Ok paths => apply_paths srcId destId paths c
               end
      | _, _ => (Ok tt, c)
      end
  | _, _ => (Ok tt, c)
  end.

(** Both counts are limited to what has been registered. *)
Definition index_pairs (s : t) (numRx numTx : Z) : list (nat * nat) :=
  let upto n (order : list string) := seq 0 (Z.to_nat (Z.min n (Z.of_nat (length order)))) in
  list_prod (upto numRx (m_rxOrder s)) (upto numTx (m_txOrder s)).

(** Lines 652-743. *)
Definition apply_cir (cirJson : json) (s : t) : action := λ c,
  if contains "delays" cirJson && contains "gains" cirJson && contains "shape" cirJson then
    let read :=
      do! shape <- midx "shape" cirJson;
      let count k := do! j <- cat k shape; got (get_int j) in
      do! numRx <- count "num_rx"%string;
      do! numTx <- count "num_tx"%string;
      do! numPaths <- count "num_paths"%string;
      if numPaths =? 0 then Ok None
      else
        do! delays <- midx "delays" cirJson;
        do! gains <- midx "gains" cirJson;
        do! re <- midx "real" gains;
        do! im <- midx "imag" gains;
        Ok (Some (numRx, numTx, numPaths, (delays, re, im))) in
    match read with
    | Err e => (Err e, c)
    | Ok None => (Ok tt, c)
    | Ok (Some (numRx, numTx, numPaths, (delays, re, im))) =>
        run_each (apply_pair s delays re im numPaths) (index_pairs s numRx numTx) c
    end
  else (Ok tt, c).

Definition has_links (c : Controller.t) : bool :=
  existsb (λ ka, match Controller.c_ims c !! ka.2 with
                 | Some i => bool_decide (Intermediate.m_channelMap i ≠ ∅)
                 | None => false
                 end) (Controller.m_intermediateMap c).

(** Lines 593-650: the requests, and the response if there is one. *)
Definition query (elapsedMs : float) (s : t) (w : W) : option json * t * W :=
  if empty_str (m_sceneId s) || negb (context s) then (None, s, w)
  else if bool_decide (m_txMap s = ∅) || bool_decide (m_rxMap s = ∅) then (None, s, w)
  else if negb (has_links (Coordinator.ctrl (coord w))) then (None, s, w)
  else
    let pathReq := of_pairs [("max_depth", JInt (m_maxDepth s));
                             ("num_samples", JInt (m_numSamples s))] in
    let '(r, w) := http POST (scene_url "/simulation/paths" s) (Some pathReq) s w in
    match r with
    | None => (None, s, w)
    | Some _ =>
        let '(r, w) := http GET (scene_url "/simulation/cir" s) None s w in
        match r with
        | None => (None, s, w)
        | Some cirResponse =>
            let avg := if m_cirResponseCount s =? 0 then elapsedMs
                       else F64.add (F64.mul (F64.lit 8 1) (m_avgCirResponseMs s))
                                    (F64.mul (F64.lit 2 1) elapsedMs) in
            let s := s <| m_avgCirResponseMs := avg |>
                       <| m_cirResponseCount := s32 (m_cirResponseCount s + 1) |> in
            (parse_json cirResponse, s, w)
        end
    end.

Definition computeAndApplyCIR (elapsedMs : float) (s : t) (w : W)
    : outcome fault unit * t * W :=
  let '(j, s, w) := query elapsedMs s w in
  match j with
  | None => (Ok tt, s, w)
  | Some cirJson =>
      let '(r, c) := apply_cir cirJson s (coord w) in (r, s, set_coord c w)
  end.

(** *** The thread *)

(** Exceptions are caught in the loop; [Err] is undefined behaviour. *)
Definition caught (r : outcome fault unit) : outcome fault unit :=
  match r with Err Undefined => Err Undefined | _ => Ok tt end.

Definition poll_step (elapsedMs : float) (s : t) (w : W) : outcome fault unit * t * W :=
  match m_thread s with
  | Some Creating =>
      if m_running s && empty_str (m_sceneId s) then
        let '(ok, s, w) := createScene s w in
        (Ok tt, if ok : bool then s <| m_thread := Some Polling |> else s, w)
      else (Ok tt, s <| m_thread := Some Polling |>, w)
  | Some Polling =>
      if m_running s then
        let '(s, w) := syncPositions s w in
        let '(r, s, w) := computeAndApplyCIR elapsedMs s w in
        (caught r, s, w)
      else (Ok tt, s <| m_thread := Some Finished |>, w)
  | Some Finished | None => (Ok tt, s, w)
  end.

End Client.

End Sionna.
