(* ===== verification/Rays.v ===== *)
(** What the ray tracer's client does: the taps it computes, the links it puts
    them on, how it keeps track of the nodes it has registered, and what is
    left when it is stopped. *)

From Stdlib Require Import ZArith Lia Strings.String Floats.SpecFloat.
From stdpp Require Import prelude list strings gmap list_numbers fin_maps relations.
From S2P Require Import Prelude.
From S2P Require Import Ieee.
From S2P Require Import Common.
From S2P Require Import CxxLib.
From S2P Require Import Json.
From S2P Require Import NodeConfig.
From S2P Require Import NodeEntity.
From S2P Require Import Channel.
From S2P Require Import Intermediate.
From S2P Require Import Controller.
From S2P Require Import Extensions.
From S2P Require Import Coordinator.
From S2P Require Import Commands.
From S2P Require Import Http.
From S2P Require Import Sionna.
Import Sionna.

#[local] Existing Instance Coordinator.t_eta.

(** ** Taps *)

Section Taps.
Context {V : Type} `{Host V}.
Implicit Types (ips : list (Z * path)) (taps : signal_v).

(** The paths that count, and those of them at one tap. *)
Definition kept (m : Z) (ip : Z * path) : Prop := late m ip.1 = false.

#[local] Instance kept_dec m ip : Decision (kept m ip).
Proof. unfold kept. apply _. Defined.

Definition at_tap (m : Z) (k : nat) (ip : Z * path) : Prop := kept m ip ∧ Z.to_nat ip.1 = k.

#[local] Instance at_tap_dec m k ip : Decision (at_tap m k ip).
Proof. unfold at_tap. apply _. Defined.

(** The sum of the gains of the paths at tap [k], in order. *)
Definition tap_sum (m : Z) (k : nat) ips : float * float :=
  foldl (λ x ip, fc_add x (gain ip.2)) (fzero, fzero) (filter (at_tap m k) ips).

Lemma max_index_spec m l : ∀ x,
  0 ≤ x → let r := foldl (λ y i, if late m i then y else Z.max y i) x l in
  x ≤ r ∧ (∀ i, i ∈ l → late m i = false → i ≤ r) ∧
  (r = x ∨ ∃ i, i ∈ l ∧ late m i = false ∧ r = i).
Proof.
  induction l as [|i l IH]; intros x Hx; cbn [foldl].
  { split; [lia|]. split; [|by left]. intros i Hi%elem_of_nil. done. }
  destruct (late m i) eqn:El.
  - destruct (IH x Hx) as (H1 & H2 & H3). split; [done|]. split.
    + intros j [->|Hj]%elem_of_cons Hl; [congruence|by apply H2].
    + destruct H3 as [|(j & Hj & ?)]; [by left|]. right. exists j.
      split; [by apply list_elem_of_further|done].
  - destruct (IH (Z.max x i)) as (H1 & H2 & H3); [lia|]. split; [lia|]. split.
    + intros j [->|Hj]%elem_of_cons Hl; [lia|by apply H2].
    + destruct H3 as [->|(j & Hj & ?)].
      * destruct (Z.max_spec x i) as [[_ ->]|[_ ->]]; [|by left].
        right. exists i. split; [apply list_elem_of_here|done].
      * right. exists j. split; [by apply list_elem_of_further|done].
Qed.

Lemma add_path_length m taps ip : length (add_path m taps ip) = length taps.
Proof. unfold add_path. destruct (late m ip.1); [done|]. case_match; [apply length_alter|done]. Qed.

Lemma add_path_lookup m taps ip k :
  (kept m ip → 0 ≤ ip.1 < Z.of_nat (length taps)) →
  add_path m taps ip !! k =
    if decide (at_tap m k ip) then (λ x, fc_add x (gain ip.2)) <$> taps !! k else taps !! k.
Proof.
  intros Hr. unfold add_path. destruct (late m ip.1) eqn:El.
  { rewrite decide_False; [done|]. intros [Hk _]. unfold kept in Hk. congruence. }
  specialize (Hr El). destruct (Z.ltb_spec ip.1 (Z.of_nat (length taps))); [|lia].
  destruct (decide (at_tap m k ip)) as [[_ <-]|Hn]; [exact (list_lookup_alter_eq _ taps _)|].
  apply (list_lookup_alter_ne _ taps). intros Heq. by apply Hn.
Qed.

Lemma add_paths_length m ips taps : length (foldl (add_path m) taps ips) = length taps.
Proof.
  revert taps. induction ips as [|ip ips IH]; intros taps; [done|].
  cbn [foldl]. by rewrite IH, add_path_length.
Qed.

Lemma add_paths_lookup m ips taps k :
  (∀ ip, ip ∈ ips → kept m ip → 0 ≤ ip.1 < Z.of_nat (length taps)) →
  foldl (add_path m) taps ips !! k =
    (λ x, foldl (λ x ip, fc_add x (gain ip.2)) x (filter (at_tap m k) ips)) <$> taps !! k.
Proof.
  revert taps. induction ips as [|ip ips IH]; intros taps Hr; cbn [foldl].
  { by destruct (taps !! k). }
  rewrite IH.
  - rewrite add_path_lookup by (apply Hr, list_elem_of_here). rewrite filter_cons.
    destruct (decide (at_tap m k ip)); [|done]. by destruct (taps !! k).
  - intros ip' Hin Hk. rewrite add_path_length. apply Hr; [by apply list_elem_of_further|done].
Qed.

Lemma zip_fst {A B} (l : list A) (k : list B) a b : (a, b) ∈ zip l k → a ∈ l.
Proof. intros (i & Hi)%list_elem_of_lookup. apply lookup_zip_with_Some in Hi as (? & ? & [= -> ->] & Ha & _).
  by eapply list_elem_of_lookup_2. Qed.

Lemma tap_index_range rate p i : tap_index rate p = Ok i → 0 ≤ i.
Proof. unfold tap_index. destruct (round _); [|done]. case_decide; [|done]. intros [= <-]. lia. Qed.

Lemma omap_list_elem {E' A B} (f : A → outcome E' B) l bs b :
  omap_list f l = Ok bs → b ∈ bs → ∃ a, a ∈ l ∧ f a = Ok b.
Proof.
  revert bs. induction l as [|a l IH]; intros bs; cbn [omap_list].
  { intros [= <-] Hb. by apply elem_of_nil in Hb. }
  destruct (f a) as [b'|] eqn:Ea; [|done]. destruct (omap_list f l) as [bs'|]; [|done].
  intros [= <-] [->|Hb]%elem_of_cons.
  - exists a. split; [apply list_elem_of_here|done].
  - destruct (IH bs' eq_refl Hb) as (a' & ? & ?). exists a'.
    split; [by apply list_elem_of_further|done].
Qed.

(** C16 The impulse response of a link: every path lands at the tap nearest to
    its delay, taps hit several times add up in the order of the paths, and
    nothing but the paths at or past the limit is lost.  The result ends with
    the last path that counts (one silent tap if none does), so it is never
    empty and never longer than a positive limit.  The only conditions are that
    delays are not negative or beyond 64 bits and that the vector can be made. *)
Theorem cirToTaps_accumulates (cir_max_taps : Z) (delays re im : list float) (rate : float)
    (idxs : list Z)
    (Hidx : omap_list (tap_index rate) (zip delays (zip re im)) = Ok idxs)
    (Hsize : max_index (Z.max 0 cir_max_taps) idxs < max_size)
    (Halloc : alloc (max_index (Z.max 0 cir_max_taps) idxs + 1) = true) :
  let m := Z.max 0 cir_max_taps in
  let ips := zip idxs (zip delays (zip re im)) in
  ∃ taps, cirToTaps cir_max_taps delays re im rate = Ok taps ∧
    Z.of_nat (length taps) = max_index m idxs + 1 ∧
    (0 < cir_max_taps → Z.of_nat (length taps) ≤ cir_max_taps) ∧
    (∀ k, (k < length taps)%nat → taps !! k = Some (tap_sum m k ips)) ∧
    (∀ ip, ip ∈ ips → kept m ip → (Z.to_nat ip.1 < length taps)%nat).
Proof.
  intros m ips. destruct (max_index_spec m idxs 0) as (H0 & Hle & Hex); [lia|].
  fold (max_index m idxs) in H0, Hle, Hex.
  unfold cirToTaps, taps_of. rewrite Hidx. cbn [obind]. fold m ips in Hsize, Halloc |- *.
  destruct (Z.ltb_spec max_size (max_index m idxs + 1)); [lia|]. rewrite Halloc. cbn [negb].
  assert (Hpos : ∀ i, i ∈ idxs → 0 ≤ i).
  { intros i Hi. destruct (omap_list_elem _ _ _ _ Hidx Hi) as (p & _ & Hp).
    by eapply tap_index_range. }
  assert (Hin : ∀ ip, ip ∈ ips → kept m ip → 0 ≤ ip.1 < max_index m idxs + 1).
  { intros [i p] Hip%zip_fst Hk. pose proof (Hpos i Hip). pose proof (Hle i Hip Hk). cbn. lia. }
  set (z := replicate (Z.to_nat (max_index m idxs + 1)) (fzero, fzero)).
  assert (Hz : Z.of_nat (length z) = max_index m idxs + 1) by (unfold z; rewrite length_replicate; lia).
  eexists. split; [reflexivity|]. rewrite add_paths_length.
  split; [done|]. split.
  { intros Hm. rewrite Hz. destruct Hex as [Hr|(i & _ & Hl & Hr)]; [lia|].
    unfold late in Hl. destruct (Z.ltb_spec 0 m); [|lia]. cbn [andb] in Hl.
    apply Z.leb_gt in Hl. lia. }
  split.
  - intros k Hk. rewrite add_paths_lookup by (intros ip Hip Hkp; rewrite Hz; by apply Hin).
    assert (Ez : (z : signal_v) !! k = Some (fzero, fzero)).
    { apply lookup_replicate_2. unfold z in Hk. by rewrite length_replicate in Hk. }
    by rewrite Ez.
  - intros ip Hip Hkp. pose proof (Hin ip Hip Hkp). lia.
Qed.

End Taps.

(** ** Links *)

(** What a link gets. *)
Definition touch (taps : signal_v) (ch : Channel.t) : Channel.t :=
  Channel.setActiveExtension "sionna" true (Channel.updateChTaps (mkChId 0 0) taps ch).

(** What the links of an intermediate get, the others staying as they are. *)
Definition touch_links (g : string * string → option signal_v)
    : gmap (string * string) (positive * Channel.t) → gmap (string * string) (positive * Channel.t) :=
  map_imap (λ k ac, Some (ac.1, match g k with Some taps => touch taps ac.2 | None => ac.2 end)).

Definition touch_all (g : string * string → option signal_v) (i : Intermediate.t)
    : Intermediate.t :=
  i <| Intermediate.m_channelMap := touch_links g (Intermediate.m_channelMap i) |>.

Definition upd (g : string * string → option signal_v) (k : string * string) (taps : signal_v)
    : string * string → option signal_v :=
  λ k', if decide (k' = k) then Some taps else g k'.

(** The coordinator with the links of its intermediates so changed. *)
Definition touched (g : string * string → option signal_v) (c : Coordinator.t) : Coordinator.t :=
  c <| Coordinator.ctrl := Coordinator.for_intermediates (touch_all g) (Coordinator.ctrl c) |>.

Section Touch.

Lemma chTaps_touch taps ch :
  Channel.chTaps (touch taps ch) = <[mkChId 0 0 := taps]> (Channel.chTaps ch).
Proof. reflexivity. Qed.

Lemma flag_twice (n : string) (b : bool) m1 m2 ch :
  Channel.setActiveExtension n b
    ((Channel.setActiveExtension n b (ch <| Channel.chTaps := m1 |>)) <| Channel.chTaps := m2 |>)
  = Channel.setActiveExtension n b (ch <| Channel.chTaps := m2 |>).
Proof. reflexivity. Qed.

Lemma touch_touch t1 t2 ch : touch t2 (touch t1 ch) = touch t2 ch.
Proof.
  unfold touch at 1. unfold Channel.updateChTaps at 1. rewrite chTaps_touch, insert_insert_eq.
  apply flag_twice.
Qed.

Lemma touch_links_lookup g m k :
  touch_links g m !! k =
  (λ ac, (ac.1, match g k with Some taps => touch taps ac.2 | None => ac.2 end)) <$> m !! k.
Proof. unfold touch_links. rewrite map_lookup_imap. by destruct (m !! k). Qed.

Lemma touch_links_ext g g' m :
  (∀ k, is_Some (m !! k) → g k = g' k) → touch_links g m = touch_links g' m.
Proof.
  intros Hg. apply map_eq. intros k. rewrite !touch_links_lookup.
  destruct (m !! k) eqn:E; [|done]. cbn. by rewrite (Hg k).
Qed.

Lemma touch_all_ext g g' i : (∀ k, g k = g' k) → touch_all g i = touch_all g' i.
Proof. intros Hg. unfold touch_all. by rewrite (touch_links_ext g g'). Qed.

Lemma touch_all_twice g i : touch_all g (touch_all g i) = touch_all g i.
Proof.
  assert (E : touch_links g (touch_links g (Intermediate.m_channelMap i))
    = touch_links g (Intermediate.m_channelMap i)).
  { apply map_eq. intros k. rewrite !touch_links_lookup. destruct (_ !! k) as [[a ch]|]; [|done].
    cbn. destruct (g k); [by rewrite touch_touch|done]. }
  unfold touch_all at 1. change (Intermediate.m_channelMap (touch_all g i))
    with (touch_links g (Intermediate.m_channelMap i)). rewrite E. reflexivity.
Qed.

Lemma touch_all_none i : touch_all (λ _, None) i = i.
Proof.
  assert (E : touch_links (λ _, None) (Intermediate.m_channelMap i) = Intermediate.m_channelMap i).
  { apply map_eq. intros k. rewrite touch_links_lookup. by destruct (_ !! k) as [[a ch]|]. }
  unfold touch_all. rewrite E. by destruct i.
Qed.

Lemma for_channel_some s d f i a ch :
  Intermediate.m_channelMap i !! (s, d) = Some (a, ch) →
  Intermediate.for_channel s d f i
  = (true, i <| Intermediate.m_channelMap :=
                  <[(s, d) := (a, f ch)]> (Intermediate.m_channelMap i) |>).
Proof. intros E. unfold Intermediate.for_channel. by rewrite E. Qed.

Lemma set_taps_links s d taps i :
  taps ≠ [] →
  set_taps s d taps i = i <| Intermediate.m_channelMap :=
    alter (prod_map id (touch taps)) (s, d) (Intermediate.m_channelMap i) |>.
Proof.
  intros Ht. unfold set_taps, Intermediate.updateCIR.
  replace (match taps with [] => _ | _ :: _ => _ end)
    with (Channel.updateChTaps (mkChId 0 0) taps) by (by destruct taps).
  destruct (Intermediate.m_channelMap i !! (s, d)) as [[a ch]|] eqn:Ek.
  - rewrite (for_channel_some _ _ _ _ _ _ Ek). set (i1 := i <| Intermediate.m_channelMap := _ |>).
    rewrite (for_channel_some s d _ i1 a (Channel.updateChTaps (mkChId 0 0) taps ch));
      [|apply lookup_insert_eq].
    change (Intermediate.m_channelMap i1) with
      (<[(s, d) := (a, Channel.updateChTaps (mkChId 0 0) taps ch)]> (Intermediate.m_channelMap i)).
    rewrite insert_insert_eq, (alter_some _ _ _ _ Ek). reflexivity.
  - unfold Intermediate.for_channel. rewrite Ek, (alter_none _ _ _ Ek). by destruct i.
Qed.

Lemma set_taps_touch s d taps g i :
  taps ≠ [] → set_taps s d taps (touch_all g i) = touch_all (upd g (s, d) taps) i.
Proof.
  intros Ht. rewrite set_taps_links by done.
  change (Intermediate.m_channelMap (touch_all g i))
    with (touch_links g (Intermediate.m_channelMap i)).
  assert (E : alter (prod_map id (touch taps)) (s, d) (touch_links g (Intermediate.m_channelMap i))
    = touch_links (upd g (s, d) taps) (Intermediate.m_channelMap i)).
  { apply map_eq. intros k. unfold upd. rewrite touch_links_lookup.
    destruct (decide (k = (s, d))) as [->|Hne].
    - rewrite lookup_alter_eq, touch_links_lookup.
      destruct (Intermediate.m_channelMap i !! (s, d)) as [[a ch]|]; [|done]. cbn.
      destruct (g (s, d)); [by rewrite touch_touch|done].
    - by rewrite lookup_alter_ne, touch_links_lookup. }
  rewrite E. reflexivity.
Qed.

Lemma set_taps_twice s d taps i :
  taps ≠ [] → set_taps s d taps (set_taps s d taps i) = set_taps s d taps i.
Proof.
  intros Ht. rewrite <- (touch_all_none i). rewrite !set_taps_touch by done.
  apply touch_all_ext. intros k. unfold upd. by destruct (decide (k = (s, d))).
Qed.

(** A setter that makes no difference the second time reaches every
    intermediate once. *)
Lemma for_ims_lookup (F : Intermediate.t → Intermediate.t) (l : FreqMap.t)
    (ims : gmap positive Intermediate.t) a :
  (∀ i, F (F i) = F i) →
  foldl (λ m ka, alter F ka.2 m) ims l !! a
  = if decide (a ∈ l.*2) then F <$> ims !! a else ims !! a.
Proof.
  intros HF. revert ims. induction l as [|[k b] l IH]; intros ims; cbn [foldl snd fmap list_fmap].
  { by rewrite decide_False by apply not_elem_of_nil. }
  rewrite IH. destruct (decide (b = a)) as [->|Hne].
  - rewrite lookup_alter_eq, (decide_True (P := a ∈ a :: _)) by apply list_elem_of_here.
    case_decide; [|done]. destruct (ims !! a) as [i|]; [|done]. cbn. by rewrite HF.
  - rewrite lookup_alter_ne by done. apply decide_ext. rewrite elem_of_cons. naive_solver.
Qed.

Lemma set_taps_touched s d taps g c :
  taps ≠ [] →
  (touched g c) <| Coordinator.ctrl := Coordinator.for_intermediates (set_taps s d taps)
                     (Coordinator.ctrl (touched g c)) |>
  = touched (upd g (s, d) taps) c.
Proof.
  intros Ht. unfold touched, Coordinator.for_intermediates.
  cbn [modify Coordinator.ctrl Controller.c_ims Controller.m_intermediateMap].
  set (l := Controller.m_intermediateMap (Coordinator.ctrl c)).
  set (ims := Controller.c_ims (Coordinator.ctrl c)).
  assert (E : foldl (λ m ka, alter (set_taps s d taps) ka.2 m)
      (foldl (λ m ka, alter (touch_all g) ka.2 m) ims l) l
    = foldl (λ m ka, alter (touch_all (upd g (s, d) taps)) ka.2 m) ims l).
  { apply map_eq. intros a. rewrite !for_ims_lookup; auto using touch_all_twice, set_taps_twice.
    case_decide; [|done]. destruct (ims !! a) as [i|]; [|done]. cbn. by rewrite set_taps_touch. }
  rewrite E. reflexivity.
Qed.

Lemma touched_none c : touched (λ _, None) c = c.
Proof.
  unfold touched, Coordinator.for_intermediates. set (ims := Controller.c_ims _).
  assert (E : foldl (λ m ka, alter (touch_all (λ _, None)) ka.2 m) ims
    (Controller.m_intermediateMap (Coordinator.ctrl c)) = ims).
  { apply map_eq. intros a. rewrite for_ims_lookup by apply touch_all_twice.
    case_decide; [|done]. destruct (ims !! a) as [i|]; [|done]. cbn. by rewrite touch_all_none. }
  rewrite E. unfold ims. destruct c as [ct ? ? ? ? ?], ct. reflexivity.
Qed.

End Touch.

(** ** The response of the server *)

(** The response for [m]: for every receiver and transmitter the paths between
    them, one antenna each and one point in time. *)
Definition gains_json (part : float * float → float) (m : list (list (list path))) : json :=
  let times (p : path) := JArray [JFloat (part p.2)] in
  let pair ps := JArray [JArray (times <$> ps)] in
  JArray ((λ row, JArray [JArray (pair <$> row)]) <$> m).

Definition delays_json (m : list (list (list path))) : json :=
  let pair (ps : list path) := JArray ((λ p, JFloat p.1) <$> ps) in
  JArray ((λ row, JArray (pair <$> row)) <$> m).

Definition response (numTx numPaths : nat) (m : list (list (list path))) : json :=
  JObject [("delays", delays_json m);
    ("gains", JObject [("imag", gains_json snd m); ("real", gains_json fst m)]);
    ("shape", JObject [("num_paths", JInt (Z.of_nat numPaths));
       ("num_rx", JInt (Z.of_nat (length m))); ("num_tx", JInt (Z.of_nat numTx))])]%string.

Section Response.

Lemma cidx_map {A} (f : A → json) (l : list A) i x :
  l !! i = Some x → cidx i (JArray (f <$> l)) = Ok (f x).
Proof. intros Hi. cbn [cidx]. unfold of_option. by rewrite (list_lookup_fmap f l i), Hi. Qed.

Lemma omap_list_seq {E' A} (f : nat → outcome E' A) (l : list A) j :
  (∀ k x, l !! k = Some x → f (j + k)%nat = Ok x) → omap_list f (seq j (length l)) = Ok l.
Proof.
  revert j. induction l as [|x l IH]; intros j Hf; [done|]. cbn [length seq omap_list].
  rewrite <- (Nat.add_0_r j) at 1. rewrite (Hf 0%nat x eq_refl), (IH (S j)); [done|].
  intros k y Hk. rewrite <- (Hf (S k) y Hk). f_equal. lia.
Qed.

Lemma read_pair_response m r t row ps :
  m !! r = Some row → row !! t = Some ps →
  read_pair (delays_json m) (gains_json fst m) (gains_json snd m) (Z.of_nat (length ps)) r t
  = Ok ps.
Proof.
  intros Hr Ht. unfold read_pair, delays_json, gains_json.
  assert (E0 : ∀ j, cidx 0 (JArray [j]) = Ok j) by done.
  repeat (rewrite (cidx_map _ m r row Hr); cbn beta; cbn [obind];
          rewrite ?E0; cbn [obind]; rewrite (cidx_map _ row t ps Ht); cbn beta; cbn [obind];
          rewrite ?E0; cbn [obind]).
  rewrite Nat2Z.id. apply omap_list_seq. intros k [d [x y]] Hk. rewrite Nat.add_0_l.
  unfold read_path. rewrite !(cidx_map _ ps k _ Hk). reflexivity.
Qed.

End Response.

(** ** Names and nodes *)

(** The order of registration agrees with the map: it lists the names of the
    registered nodes, each node once. *)
Definition tracks (m : gmap string string) (order : list string) : Prop :=
  ∃ l : list (string * string), l ≡ₚ map_to_list m ∧ order = l.*2.

Section Names.

Lemma insert_all_lookup (l : list (string * string)) r k :
  k ∉ l.*2 → foldl (λ r kn, <[kn.2 := kn.1]> r) r l !! k = (r : gmap string string) !! k.
Proof.
  revert r. induction l as [|[a b] l IH]; intros r Hk; [done|]. cbn [foldl fst snd].
  rewrite fmap_cons, not_elem_of_cons in Hk. destruct Hk as [Hne Hk].
  by rewrite IH, lookup_insert_ne.
Qed.

Lemma by_name_spec m order id nm :
  tracks m order → NoDup order → m !! id = Some nm → by_name m !! nm = Some id.
Proof.
  intros (l & Hl & ->) Hnd Hm. apply elem_of_map_to_list in Hm. unfold by_name.
  assert (Hp : entries m ≡ₚ l) by (etrans; [apply entries_perm|done]).
  assert (Hnd' : NoDup (entries m).*2) by by rewrite Hp.
  rewrite <- entries_perm in Hm. revert Hnd' Hm. generalize (entries m) as k, (∅ : gmap string string) as r.
  clear. intros k. induction k as [|[a b] k IH]; intros r Hnd Hin; [by apply elem_of_nil in Hin|].
  cbn [foldl fst snd]. rewrite fmap_cons, NoDup_cons in Hnd. destruct Hnd as [Hb Hnd].
  apply elem_of_cons in Hin as [[= <- <-]|Hin]; [|by apply IH].
  rewrite insert_all_lookup by done. apply lookup_insert_eq.
Qed.

(** Every name in the order belongs to one node. *)
Lemma tracks_name m order i nm :
  tracks m order → order !! i = Some nm → ∃ id, m !! id = Some nm.
Proof.
  intros (l & Hl & ->) Hi. apply list_lookup_fmap_Some in Hi as ([id nm'] & -> & Hi).
  exists id. apply elem_of_map_to_list. rewrite <- Hl. by eapply list_elem_of_lookup_2.
Qed.

Lemma tracks_insert m order id nm :
  tracks m order → m !! id = None → tracks (<[id := nm]> m) (order ++ [nm]).
Proof.
  intros (l & Hl & ->) Hm. exists (l ++ [(id, nm)]). split; [|by rewrite fmap_app].
  rewrite map_to_list_insert, <- Hl by done. by rewrite Permutation_app_comm.
Qed.

Lemma tracks_empty : tracks ∅ [].
Proof. exists []. by rewrite map_to_list_empty. Qed.

End Names.

(** ** Which links get which paths *)

(** Entry [rt] of the response is about the link from [src] to [dst]. *)
Definition heard_at (s : Sionna.t) (m : list (list (list path))) (rt : nat * nat)
    (src dst : string) (ps : list path) : Prop :=
  src ≠ dst ∧ ∃ tn rn row,
    m_txMap s !! src = Some tn ∧ m_txOrder s !! rt.2 = Some tn ∧
    m_rxMap s !! dst = Some rn ∧ m_rxOrder s !! rt.1 = Some rn ∧
    m !! rt.1 = Some row ∧ row !! rt.2 = Some ps.

Definition heard (s : Sionna.t) (m : list (list (list path))) (src dst : string)
    (ps : list path) : Prop :=
  ∃ rt, heard_at s m rt src dst ps.

Section Links.
Context {V : Type} `{Host V}.

#[local] Notation rate c d :=
  (destSampleRate d (F64.of_Z 1000000) (Controller.m_nodeMap (Coordinator.ctrl c))).
#[local] Notation limit c := (Z.max 0 (Coordinator.cir_max_taps c)).

Lemma taps_nonempty lim r ps taps : taps_of lim r ps = Ok taps → taps ≠ [].
Proof.
  unfold taps_of. destruct (omap_list _ ps) as [idxs|]; [|done]. cbn [obind].
  destruct (max_index_spec lim idxs 0) as (H0 & _ & _); [lia|]. fold (max_index lim idxs) in H0.
  destruct (max_size <? _); [done|]. destruct (negb _); [done|]. intros [= <-] Hnil.
  apply (f_equal length) in Hnil. rewrite add_paths_length, length_replicate in Hnil. cbn in Hnil. lia.
Qed.

Lemma run_each_links (F : Intermediate.t → Intermediate.t) (f : float * positive → action)
    (l : FreqMap.t) :
  ∀ c, (∀ ka c', Coordinator.cir_max_taps c' = Coordinator.cir_max_taps c →
    f ka c' = (Ok tt, c' <| Coordinator.ctrl := (Coordinator.ctrl c') <| Controller.c_ims :=
      alter F ka.2 (Controller.c_ims (Coordinator.ctrl c')) |> |>)) →
  run_each f l c = (Ok tt, c <| Coordinator.ctrl := (Coordinator.ctrl c) <| Controller.c_ims :=
      foldl (λ m ka, alter F ka.2 m) (Controller.c_ims (Coordinator.ctrl c)) l |> |>).
Proof.
  induction l as [|ka l IH]; intros c Hf; cbn [run_each foldl].
  - destruct c as [ct ? ? ? ? ?], ct. reflexivity.
  - rewrite Hf by done. rewrite IH; [reflexivity|]. intros ka' c' Hc. apply Hf, Hc.
Qed.

Lemma apply_paths_touched s d ps taps g c :
  taps_of (limit c) (rate c d) ps = Ok taps →
  apply_paths s d ps (touched g c) = (Ok tt, touched (upd g (s, d) taps) c).
Proof.
  intros Ht. rewrite <- (set_taps_touched s d taps g c) by by eapply taps_nonempty.
  unfold apply_paths. apply (run_each_links (set_taps s d taps)). intros ka c' Hc.
  rewrite Hc. change (Controller.m_nodeMap (Coordinator.ctrl (touched g c)))
    with (Controller.m_nodeMap (Coordinator.ctrl c)).
  change (Coordinator.cir_max_taps (touched g c)) with (Coordinator.cir_max_taps c).
  by rewrite Ht.
Qed.

(** What one entry does. *)
Lemma apply_pair_touched s m rt row ps g c :
  tracks (m_txMap s) (m_txOrder s) → tracks (m_rxMap s) (m_rxOrder s) →
  NoDup (m_txOrder s) → NoDup (m_rxOrder s) →
  (rt.1 < length (m_rxOrder s))%nat → (rt.2 < length (m_txOrder s))%nat →
  m !! rt.1 = Some row → row !! rt.2 = Some ps → ps ≠ [] →
  (∀ src dst ps, heard s m src dst ps → ∃ taps, taps_of (limit c) (rate c dst) ps = Ok taps) →
  ∃ g', apply_pair s (delays_json m) (gains_json fst m) (gains_json snd m)
          (Z.of_nat (length ps)) rt (touched g c) = (Ok tt, touched g' c) ∧
    ((∀ src dst ps', ¬ heard_at s m rt src dst ps') ∧ g' = g ∨
     ∃ src dst taps, heard_at s m rt src dst ps ∧ taps_of (limit c) (rate c dst) ps = Ok taps ∧
       (∀ src' dst' ps', heard_at s m rt src' dst' ps' → src' = src ∧ dst' = dst) ∧
       g' = upd g (src, dst) taps).
Proof.
  intros Ht Hr Hnt Hnr Hlr Hlt Hrow Hps Hne Htaps. unfold apply_pair.
  apply lookup_lt_is_Some in Hlr as [rn Hrn]. apply lookup_lt_is_Some in Hlt as [tn Htn].
  rewrite Hrn, Htn.
  destruct (tracks_name _ _ _ _ Ht Htn) as [src Hsrc], (tracks_name _ _ _ _ Hr Hrn) as [dst Hdst].
  pose proof (by_name_spec _ _ _ _ Ht Hnt Hsrc) as Bs.
  pose proof (by_name_spec _ _ _ _ Hr Hnr Hdst) as Bd. rewrite Bs, Bd.
  assert (Hu : ∀ src' dst' ps', heard_at s m rt src' dst' ps' → src' = src ∧ dst' = dst).
  { intros src' dst' ps' (_ & tn' & rn' & row' & M1 & O1 & M2 & O2 & _).
    assert (tn' = tn) as -> by congruence. assert (rn' = rn) as -> by congruence.
    pose proof (by_name_spec _ _ _ _ Ht Hnt M1). pose proof (by_name_spec _ _ _ _ Hr Hnr M2).
    split; congruence. }
  destruct (String.eqb_spec src dst) as [->|Hsd].
  - exists g. split; [done|]. left. split; [|done].
    intros src' dst' ps' Hh. destruct (Hu _ _ _ Hh) as [-> ->]. by destruct Hh.
  - assert (Hh : heard_at s m rt src dst ps) by (split; [done|]; by exists tn, rn, row).
    destruct (Htaps src dst ps (ex_intro _ rt Hh)) as [taps Htp].
    rewrite (read_pair_response m _ _ row ps Hrow Hps).
    exists (upd g (src, dst) taps). split.
    + destruct ps; [done|]. by apply apply_paths_touched.
    + right. by exists src, dst, taps.
Qed.

(** All entries of a list: [g] collects what was set. *)
Definition covers (s : Sionna.t) m (c : Coordinator.t) (l : list (nat * nat))
    (g : string * string → option signal_v) : Prop :=
  ∀ src dst, match g (src, dst) with
    | Some taps => ∃ ps, heard s m src dst ps ∧ taps_of (limit c) (rate c dst) ps = Ok taps
    | None => ∀ rt ps, rt ∈ l → ¬ heard_at s m rt src dst ps
    end.

Lemma covers_step s m c l rt g g' ps :
  covers s m c l g →
  ((∀ src dst ps', ¬ heard_at s m rt src dst ps') ∧ g' = g ∨
   ∃ src dst taps, heard_at s m rt src dst ps ∧ taps_of (limit c) (rate c dst) ps = Ok taps ∧
     (∀ src' dst' ps', heard_at s m rt src' dst' ps' → src' = src ∧ dst' = dst) ∧
     g' = upd g (src, dst) taps) →
  covers s m c (l ++ [rt]) g'.
Proof.
  intros Hg [[Hno ->]|(src & dst & taps & Hh & Ht & Hu & ->)] src' dst'.
  - specialize (Hg src' dst'). destruct (g (src', dst')); [done|].
    intros rt' ps' [Hin| ->%list_elem_of_singleton]%elem_of_app; [by apply Hg|apply Hno].
  - unfold upd. destruct (decide _) as [[= -> ->]|Hne].
    + exists ps. split; [by exists rt|done].
    + specialize (Hg src' dst'). destruct (g (src', dst')); [done|].
      intros rt' ps' [Hin| ->%list_elem_of_singleton]%elem_of_app; [by apply Hg|].
      intros Hh'. apply Hne. by destruct (Hu _ _ _ Hh') as [-> ->].
Qed.

Lemma index_pairs_spec s numRx numTx rt :
  rt ∈ index_pairs s numRx numTx ↔
  (Z.of_nat rt.1 < numRx ∧ (rt.1 < length (m_rxOrder s))%nat) ∧
  Z.of_nat rt.2 < numTx ∧ (rt.2 < length (m_txOrder s))%nat.
Proof.
  unfold index_pairs. destruct rt as [r t].
  rewrite list_elem_of_In, in_prod_iff, !in_seq. cbn [fst snd]. lia.
Qed.

(** All entries in the bounds of the response. *)
Lemma apply_pairs_touched s c (numTx numPaths : nat) (m : list (list (list path))) l' :
  tracks (m_txMap s) (m_txOrder s) → tracks (m_rxMap s) (m_rxOrder s) →
  NoDup (m_txOrder s) → NoDup (m_rxOrder s) → (0 < numPaths)%nat →
  (∀ r row, m !! r = Some row →
     length row = numTx ∧ ∀ t ps, row !! t = Some ps → length ps = numPaths) →
  (∀ src dst ps, heard s m src dst ps → ∃ taps, taps_of (limit c) (rate c dst) ps = Ok taps) →
  (∀ rt, rt ∈ l' → rt ∈ index_pairs s (Z.of_nat (length m)) (Z.of_nat numTx)) →
  ∀ l g, covers s m c l g → ∃ g', run_each (apply_pair s (delays_json m) (gains_json fst m)
    (gains_json snd m) (Z.of_nat numPaths)) l' (touched g c) = (Ok tt, touched g' c) ∧
    covers s m c (l ++ l') g'.
Proof.
  intros Htx Hrx Hnt Hnr Hpaths Hrect Htaps Hl. induction l' as [|rt l' IH]; intros l g Hg.
  { exists g. by rewrite app_nil_r. }
  destruct (proj1 (index_pairs_spec _ _ _ _) (Hl rt ltac:(apply list_elem_of_here)))
    as [[Hr1 Hr2] [Ht1 Ht2]].
  destruct (lookup_lt_is_Some_2 m rt.1 ltac:(lia)) as [row Hrow].
  destruct (Hrect _ _ Hrow) as [Hlen Hrows].
  destruct (lookup_lt_is_Some_2 row rt.2 ltac:(lia)) as [ps Hps].
  pose proof (Hrows _ _ Hps) as Hn.
  destruct (apply_pair_touched s m rt row ps g c) as (g1 & E1 & Hg1); try done.
  { intros ->. cbn in Hn. lia. }
  destruct (IH (λ rt' Hin, Hl rt' (list_elem_of_further _ _ _ Hin)) (l ++ [rt]) g1)
    as (g2 & E2 & Hg2); [by apply (covers_step s m c l rt g g1 ps)|].
  exists g2. cbn [run_each]. rewrite Hn in E1. rewrite E1, E2. split; [done|].
  by rewrite <- app_assoc in Hg2.
Qed.

(** A delay the server may send: at the receiver's rate it rounds to an index
    that fits [size_t].  A negative or NaN delay, or a huge one, has no such
    index, and the conversion is undefined ([tap_index]). *)
Definition delay_fits (r : float) (p : path) : Prop :=
  ∃ z, round (F64.mul p.1 r) = Some z ∧ 0 ≤ z < 2 ^ 64.

(** Under a limit the taps can be computed whatever delays come, provided their
    indices exist and the limit's taps fit in memory. *)
Lemma taps_of_ok lim r ps :
  0 < lim ≤ 8192 → (∀ n, 0 < n ≤ lim → alloc n = true) → Forall (delay_fits r) ps →
  ∃ taps, taps_of lim r ps = Ok taps.
Proof.
  intros Hlim Hal Hps. unfold taps_of.
  destruct (omap_list_ok (tap_index r) (fun _ z => 0 ≤ z) ps) as (idxs & -> & _).
  { intros p Hp. rewrite Forall_forall in Hps. destruct (Hps p Hp) as (z & Hz & Hr).
    exists z. unfold tap_index. rewrite Hz, decide_True by done. split; [done|lia]. }
  cbn [obind]. destruct (max_index_spec lim idxs 0) as (H0 & _ & Hex); [lia|].
  fold (max_index lim idxs) in H0, Hex.
  assert (Hle : max_index lim idxs < lim).
  { destruct Hex as [->|(i & _ & Hl & ->)]; [lia|]. unfold late in Hl.
    apply andb_false_iff in Hl as [Hl|Hl]; [apply Z.ltb_ge in Hl|apply Z.leb_gt in Hl]; lia. }
  unfold max_size. rewrite (proj2 (Z.ltb_ge _ _)) by lia. rewrite Hal by lia. by eexists.
Qed.

(** C7 The impulse responses reach the links they were computed for.  Suppose the
    names on the server are distinct; the response is for the registered nodes
    and rectangular, with at least one path per pair and counts that fit an
    [int]; every delay of a pair that is used, times the receiving node's rate,
    rounds to an index between 0 and 2^64; a limit on the taps is set (at most
    8192, as [RuntimeConfig] allows) and that many samples fit in memory.  Then
    the response sets, on every intermediate, the taps of exactly the links
    between two different nodes for which it has paths, those of the pair at
    that pair's place in the order of registration, sampled at the receiving
    node's rate.  These links bypass the path-loss model; every other link, and
    everything else, stays as it was.  No exception, no undefined access. *)
Theorem cir_reaches_registered_links (s : Sionna.t) (c : Coordinator.t) (numTx numPaths : nat)
    (m : list (list (list path)))
    (Htx : tracks (m_txMap s) (m_txOrder s)) (Hrx : tracks (m_rxMap s) (m_rxOrder s))
    (Hnt : NoDup (m_txOrder s)) (Hnr : NoDup (m_rxOrder s))
    (Hsize : Z.of_nat (length m) < 2 ^ 31 ∧ Z.of_nat numTx < 2 ^ 31 ∧ Z.of_nat numPaths < 2 ^ 31)
    (Hpaths : (0 < numPaths)%nat)
    (Hrect : ∀ r row, m !! r = Some row →
       length row = numTx ∧ ∀ t ps, row !! t = Some ps → length ps = numPaths)
    (Hdelays : ∀ src dst ps, heard s m src dst ps → Forall (delay_fits (rate c dst)) ps)
    (Hlimit : 0 < Coordinator.cir_max_taps c ≤ 8192)
    (Hmemory : ∀ n, 0 < n ≤ Coordinator.cir_max_taps c → alloc n = true) :
  ∃ g, apply_cir (response numTx numPaths m) s c = (Ok tt, touched g c) ∧
    ∀ src dst, match g (src, dst) with
      | Some taps => ∃ ps, heard s m src dst ps ∧ taps_of (limit c) (rate c dst) ps = Ok taps
      | None => ∀ ps, ¬ heard s m src dst ps
      end.
Proof.
  assert (Htaps : ∀ src dst ps, heard s m src dst ps →
    ∃ taps, taps_of (limit c) (rate c dst) ps = Ok taps).
  { intros src dst ps Hh. apply taps_of_ok; [lia| |by eapply Hdelays].
    intros n Hn. apply Hmemory. lia. }
  destruct (apply_pairs_touched s c numTx numPaths m _ Htx Hrx Hnt Hnr Hpaths Hrect Htaps
    (λ _, id) [] (λ _, None)) as (g & E & Hg).
  { intros src dst rt ps Hin%elem_of_nil. done. }
  exists g. split.
  - unfold apply_cir, response.
    cbn [contains find_key String.eqb Ascii.eqb Bool.eqb andb midx default obind cat of_option got
         get_int from_option id].
    unfold s32. rewrite !(swrap_small 32) by lia.
    destruct (Z.eqb_spec (Z.of_nat numPaths) 0); [lia|]. by rewrite touched_none in E.
  - intros src dst. specialize (Hg src dst). destruct (g (src, dst)) as [taps|]; [done|].
    intros ps [rt Hh]. apply (Hg rt ps); [|done]. rewrite app_nil_l. apply index_pairs_spec.
    destruct Hh as (_ & tn & rn & row & _ & O1 & _ & O2 & Hrow & Hps).
    destruct (Hrect _ _ Hrow) as [Hlen _].
    apply lookup_lt_Some in O1, O2, Hrow, Hps. lia.
Qed.

End Links.

(** ** The life of the extension *)

Section Life.
Context {V : Type} `{Host V}.
Implicit Types (s : Sionna.t) (w : world V).

(** What happens to the extension: commands, starts from the configuration file,
    shutdown, turns of its thread, and anything the rest of the program does in
    between. *)
Inductive ext_step : Sionna.t * world V → Sionna.t * world V → Prop :=
  | es_context s w : ext_step (s, w) (s <| context := true |>, w)
  | es_command a j s w r s' w' :
      handleCommand a j s w = (r, s', w') → ext_step (s, w) (s', w')
  | es_start j s w : ext_step (s, w) ((onStart j s).2, w)
  | es_stop s w : ext_step (s, w) (onStop s w)
  | es_poll e s w s' w' : poll_step e s w = (Ok tt, s', w') → ext_step (s, w) (s', w')
  | es_world s w w' : ext_step (s, w) (s, w').

Definition in_limits s : Prop :=
  50 ≤ m_updateRateMs s ∧ 1 ≤ m_maxDepth s ∧ 1000 ≤ m_numSamples s.

(** A stopped extension has no thread and remembers nothing of the server. *)
Definition well_formed s : Prop :=
  in_limits s ∧ tracks (m_txMap s) (m_txOrder s) ∧ tracks (m_rxMap s) (m_rxOrder s) ∧
  if m_running s then m_thread s = Some Creating ∨ m_thread s = Some Polling
  else m_thread s = None ∧ m_sceneId s = ""%string ∧ m_txMap s = ∅ ∧ m_rxMap s = ∅ ∧
       m_txOrder s = [] ∧ m_rxOrder s = [] ∧ m_lastPositions s = ∅.

Lemma at_least_range lo k old fs : lo ≤ old → lo ≤ Http.at_least lo k old fs.
Proof.
  intros Ho. unfold Http.at_least. destruct (find_key k fs) as [v|]; [|done].
  destruct (is_number v); [|done]. destruct (get_int v); [lia|done].
Qed.

(** The fields a reading of the settings leaves alone. *)
Definition kernel s : bool * option thread * string * (gmap string string * gmap string string) *
    (list string * list string) * gmap string CachedPos :=
  (m_running s, m_thread s, m_sceneId s, (m_txMap s, m_rxMap s), (m_txOrder s, m_rxOrder s),
   m_lastPositions s).

Lemma well_formed_kernel s s' :
  kernel s' = kernel s → in_limits s' → well_formed s → well_formed s'.
Proof.
  intros [= E1 E2 E3 E4 E5 E6 E7 E8] Hl (_ & Ht & Hr & Hrun). unfold well_formed.
  rewrite E1, E2, E3, E4, E5, E6, E7, E8. by split_and!.
Qed.

Lemma read_settings fs s :
  let s' := set_scale fs (set_offset fs (set_origin fs (set_limits fs s))) in
  kernel s' = kernel s ∧ (in_limits s → in_limits s').
Proof.
  unfold set_scale, set_offset, set_origin.
  destruct (Http.object "sceneOffset" fs), (Http.object "referenceOrigin" fs);
    (split; [reflexivity|]; intros (H1 & H2 & H3); unfold in_limits; cbn;
     split_and!; by apply at_least_range).
Qed.

Lemma start_well_formed j s : well_formed s → well_formed (onStart j s).2.
Proof.
  intros Hs. unfold onStart. destruct (m_running s) eqn:Er; [done|]. cbv zeta.
  set (s1 := s <| m_serverUrl := _ |>).
  destruct (read_settings (Http.members j) s1) as [Hk Hl]. cbv zeta in Hk, Hl.
  set (s2 := set_scale _ _) in *. clearbody s2.
  assert (Hs1 : well_formed s1) by (apply (well_formed_kernel s); [done|apply Hs|done]).
  assert (Hs2 : well_formed s2) by (apply (well_formed_kernel s1); [done|apply Hl, Hs1|done]).
  match goal with |- context [if empty_str (m_serverUrl s2) then ?a else ?b] =>
    set (s3 := if empty_str (m_serverUrl s2) then a else b) end.
  assert (Hk3 : kernel s3 = kernel s2 ∧ (in_limits s2 → in_limits s3))
    by (unfold s3; by destruct (empty_str _)).
  assert (Hs3 : well_formed s3) by (apply (well_formed_kernel s2); [apply Hk3|apply Hk3, Hs2|done]).
  clearbody s3. destruct (Http.parseUrl _ _) as [h p].
  destruct Hs3 as (L & Ht & Hr & _). by split_and!; [..|left].
Qed.

Lemma stop_well_formed s w : well_formed s → well_formed (onStop s w).1.
Proof.
  intros Hs. unfold onStop. destruct (m_running s); [|done].
  destruct Hs as (L & _). split_and!; try done; apply tracks_empty.
Qed.

Lemma sync_tx_kernel id n pos s w :
  let s' := (sync_tx id n pos s w).1 in
  (s' = s ∨ m_txMap s !! id = None ∧ ∃ nm, s' = s <| m_txMap := <[id := nm]> (m_txMap s) |>
                                                 <| m_txOrder := m_txOrder s ++ [nm] |>).
Proof.
  unfold sync_tx. destruct (m_txMap s !! id); [by left|]. destruct (http _ _ _ _ _) as [[b|] w'].
  - right. split; [done|]. by eexists.
  - by left.
Qed.

Lemma sync_rx_kernel id n pos s w :
  let s' := (sync_rx id n pos s w).1 in
  (s' = s ∨ m_rxMap s !! id = None ∧ ∃ nm, s' = s <| m_rxMap := <[id := nm]> (m_rxMap s) |>
                                                 <| m_rxOrder := m_rxOrder s ++ [nm] |>).
Proof.
  unfold sync_rx. destruct (m_rxMap s !! id); [by left|]. destruct (http _ _ _ _ _) as [[b|] w'].
  - right. split; [done|]. by eexists.
  - by left.
Qed.

Definition live s : Prop := well_formed s ∧ m_running s = true.

Lemma live_tx s id nm :
  live s → m_txMap s !! id = None →
  live (s <| m_txMap := <[id := nm]> (m_txMap s) |> <| m_txOrder := m_txOrder s ++ [nm] |>).
Proof.
  intros [(L & Ht & Hr & Hrun) Er] Hn. rewrite Er in Hrun. split; [|done]. split_and!; try done.
  - by apply tracks_insert.
  - cbn [m_running modify]. by rewrite Er.
Qed.

Lemma live_rx s id nm :
  live s → m_rxMap s !! id = None →
  live (s <| m_rxMap := <[id := nm]> (m_rxMap s) |> <| m_rxOrder := m_rxOrder s ++ [nm] |>).
Proof.
  intros [(L & Ht & Hr & Hrun) Er] Hn. rewrite Er in Hrun. split; [|done]. split_and!; try done.
  - by apply tracks_insert.
  - cbn [m_running modify]. by rewrite Er.
Qed.

(** Fields that matter neither to the names nor to the life. *)
Lemma live_kernel s s' :
  live s → m_running s' = m_running s → m_thread s' = m_thread s →
  m_txMap s' = m_txMap s → m_rxMap s' = m_rxMap s → m_txOrder s' = m_txOrder s →
  m_rxOrder s' = m_rxOrder s → in_limits s' → live s'.
Proof.
  intros [(L & Ht & Hr & Hrun) Er] E1 E2 E3 E4 E5 E6 Hl. unfold live, well_formed.
  rewrite E1, Er, E2, E3, E4, E5, E6. rewrite Er in Hrun. by split_and!.
Qed.

Lemma sync_node_live idn s w : live s → live (sync_node idn (s, w)).1.
Proof.
  intros Hs. cbn [sync_node]. destruct (Node.getLocation idn.2) as [nl|]; [|done].
  destruct (moved idn.1 (position nl) s); [|done]. cbv zeta.
  set (pos := position_json _ _). pose proof (sync_tx_kernel idn.1 idn.2 pos s w) as Ht.
  destruct (sync_tx idn.1 idn.2 pos s w) as [s1 w1]. cbn [fst] in Ht.
  assert (Hs1 : live s1) by (destruct Ht as [->| [Hn [nm ->]]]; [done|by apply live_tx]).
  pose proof (sync_rx_kernel idn.1 idn.2 pos s1 w1) as Hr.
  destruct (sync_rx idn.1 idn.2 pos s1 w1) as [s2 w2]. cbn [fst] in Hr.
  assert (Hs2 : live s2) by (destruct Hr as [->| [Hn [nm ->]]]; [done|by apply live_rx]).
  apply (live_kernel s2); try done. apply Hs2.
Qed.

Lemma sync_live s w : live s → live (syncPositions s w).1.
Proof.
  intros Hs. unfold syncPositions. destruct (_ || _); [done|].
  generalize (entries (nodes w)) as l. intros l. revert s w Hs.
  induction l as [|idn l IH]; intros s w Hs; [done|]. cbn [foldl].
  pose proof (sync_node_live idn s w Hs) as Hn. destruct (sync_node idn (s, w)) as [s' w'].
  by apply IH.
Qed.

Lemma query_fields e s w :
  (query e s w).1.2 = s ∨ ∃ avg, (query e s w).1.2 = s <| m_avgCirResponseMs := avg |>
    <| m_cirResponseCount := s32 (m_cirResponseCount s + 1) |>.
Proof.
  unfold query. repeat (case_match; [by left|]). cbv zeta.
  destruct (http POST _ _ _ _) as [[b|] w1]; [|by left].
  destruct (http GET _ _ _ _) as [[b'|] w2]; [|by left]. right. by eexists.
Qed.

Lemma compute_live e s w : live s → live (computeAndApplyCIR e s w).1.2.
Proof.
  intros Hs. unfold computeAndApplyCIR. pose proof (query_fields e s w) as Hq.
  destruct (query e s w) as [[j s1] w1]. cbn [fst snd] in Hq.
  assert (Hs1 : live s1).
  { destruct Hq as [->| [avg ->]]; [done|]. apply (live_kernel s); try done. apply Hs. }
  destruct j as [j|]; [|done]. by destruct (apply_cir j s1 (coord w1)).
Qed.

Lemma create_fields s w :
  (createScene s w).1.2 = s ∨ ∃ id, (createScene s w).1.2 = s <| m_sceneId := id |> ∨
    ∃ al, (createScene s w).1.2 = s <| m_sceneId := id |> <| m_sceneAlignment := al |>.
Proof.
  unfold createScene. destruct (http POST _ _ _ _) as [r w1].
  destruct (r ≫= parse_json) as [[|fs| | | | | |]|]; try by left.
  destruct (find_key "scene_id" fs) as [[| | |id| | | |]|]; try by left.
  right. exists id. unfold fetchSceneAlignment. destruct (empty_str _); [by left|].
  destruct (http GET _ _ _ _) as [r' w2]. destruct (r' ≫= parse_json); [|by left].
  right. by eexists.
Qed.

Lemma create_live s w : live s → live (createScene s w).1.2.
Proof.
  intros Hs. destruct (create_fields s w) as [E|(id & [E|[al E]])]; rewrite E; [done|..];
    (apply (live_kernel s); try done; apply Hs).
Qed.

Lemma live_thread s th : live s → th = Creating ∨ th = Polling → live (s <| m_thread := Some th |>).
Proof.
  intros [(L & Ht & Hr & Hrun) Er] Hth. split; [|done]. split_and!; try done.
  cbn [m_running modify m_thread]. rewrite Er. destruct Hth as [->| ->]; auto.
Qed.

Lemma poll_well_formed e s w r s' w' :
  poll_step e s w = (r, s', w') → well_formed s → well_formed s'.
Proof.
  intros Hp Hs. assert (Hrun := Hs). destruct Hrun as (_ & _ & _ & Hrun). unfold poll_step in Hp.
  destruct (m_running s) eqn:Er; [|destruct Hrun as [Hth _]; rewrite Hth in Hp; by injection Hp as <- <- <-].
  assert (Hl : live s) by done. destruct Hrun as [Hth|Hth]; rewrite Hth in Hp; cbn [andb] in Hp.
  - destruct (empty_str (m_sceneId s)).
    + pose proof (create_live s w Hl) as Hc. destruct (createScene s w) as [[ok s1] w1].
      injection Hp as <- <- <-. destruct ok; [apply live_thread; auto|apply Hc].
    + injection Hp as <- <- <-. apply live_thread; auto.
  - pose proof (sync_live s w Hl) as Hy. destruct (syncPositions s w) as [s1 w1].
    pose proof (compute_live e s1 w1 Hy) as Hc. destruct (computeAndApplyCIR e s1 w1) as [[r1 s2] w2].
    injection Hp as <- <- <-. apply Hc.
Qed.

Lemma command_well_formed a j s w : well_formed s → well_formed (handleCommand a j s w).1.2.
Proof.
  intros Hs. unfold handleCommand. destruct (a =? "start")%string; [by apply start_well_formed|].
  destruct (a =? "stop")%string.
  { pose proof (stop_well_formed s w Hs) as Ht. by destruct (onStop s w). }
  destruct (a =? "status")%string; [done|]. destruct (a =? "config")%string; [|done].
  cbv zeta. cbn [fst snd].
  destruct (read_settings (Http.members j) s) as [Hk Hl].
  apply (well_formed_kernel s); [exact Hk|apply Hl, Hs|done].
Qed.

Lemma ext_step_well_formed sw sw' : ext_step sw sw' → well_formed sw.1 → well_formed sw'.1.
Proof.
  intros [s w|a j s w r s' w' E|j s w|s w|e s w s' w' E|s w w'] Hs; cbn [fst] in *.
  - apply (well_formed_kernel s); [done|apply Hs|done].
  - pose proof (command_well_formed a j s w Hs) as Hc. by rewrite E in Hc.
  - by apply start_well_formed.
  - by apply stop_well_formed.
  - by eapply poll_well_formed.
  - done.
Qed.

(** C23 In every state the extension can reach, whatever the server answers
    and the operator commands: each list of names is the registered nodes in
    their order of registration, every node once; the thread is in one of its
    loops exactly while the extension runs; a stopped extension remembers no
    scene, no node and no position; the settings respect their lower limits. *)
Theorem sionna_well_formed (s : Sionna.t) (w0 w : world V)
    (Hrun : rtc ext_step (Sionna.init, w0) (s, w)) : well_formed s.
Proof.
  assert (Hi : well_formed (Sionna.init, w0).1).
  { split_and!; try done; apply tracks_empty. }
  change (well_formed (s, w).1). revert Hi.
  induction Hrun as [sw|sw1 sw2 sw3 Hs _ IH]; [done|].
  intros Hi. apply IH. by eapply ext_step_well_formed.
Qed.

End Life.

(** ** A registration that fails *)

Section Stuck.
Context {V : Type} `{Host V}.
Implicit Types (s : Sionna.t) (w : world V).

(** The node is where it was, if it is known at all. *)
Definition stays (id : string) (l : Location) (w : world V) : Prop :=
  ∀ n nl, nodes w !! id = Some n → Node.getLocation n = Some nl → position nl = l.

(** Turns of the thread, commands other than "stop", and changes of the rest of
    the program, while one node stays where it is. *)
Inductive steady (id : string) (l : Location) :
    Sionna.t * world V → Sionna.t * world V → Prop :=
  | st_poll e s w r s' w' :
      stays id l w → poll_step e s w = (r, s', w') → steady id l (s, w) (s', w')
  | st_command a j s w r s' w' :
      a ≠ "stop"%string → handleCommand a j s w = (r, s', w') → steady id l (s, w) (s', w')
  | st_world s w w' : steady id l (s, w) (s, w').

(** Not registered, but believed to be where it is. *)
Definition stuck (id : string) (l : Location) s : Prop :=
  m_txMap s !! id = None ∧ moved id l s = false.

Lemma stuck_fields id l s s' :
  m_txMap s' !! id = m_txMap s !! id → m_lastPositions s' !! id = m_lastPositions s !! id →
  stuck id l s → stuck id l s'.
Proof. intros E1 E2. unfold stuck, moved. by rewrite E1, E2. Qed.

Lemma sync_tx_positions id n pos s w :
  m_lastPositions (sync_tx id n pos s w).1 = m_lastPositions s ∧
  m_rxMap (sync_tx id n pos s w).1 = m_rxMap s ∧
  ∀ id', id' ≠ id → m_txMap (sync_tx id n pos s w).1 !! id' = m_txMap s !! id'.
Proof.
  destruct (sync_tx_kernel id n pos s w) as [E|[_ [nm E]]]; rewrite E; [done|].
  split_and!; try done. intros id' Hne. by apply lookup_insert_ne.
Qed.

Lemma sync_rx_positions id n pos s w :
  m_lastPositions (sync_rx id n pos s w).1 = m_lastPositions s ∧
  m_txMap (sync_rx id n pos s w).1 = m_txMap s.
Proof. by destruct (sync_rx_kernel id n pos s w) as [E|[_ [nm E]]]; rewrite E. Qed.

Lemma sync_node_stuck id l idn s w :
  (idn.1 = id → ∀ nl, Node.getLocation idn.2 = Some nl → position nl = l) →
  stuck id l s → stuck id l (sync_node idn (s, w)).1.
Proof.
  intros Hl Hs. cbn [sync_node]. destruct (Node.getLocation idn.2) as [nl|]; [|done].
  destruct (decide (idn.1 = id)) as [E|Hne].
  { rewrite (Hl E nl eq_refl), E. destruct Hs as [H1 H2]. by rewrite H2. }
  destruct (moved idn.1 (position nl) s); [|done]. cbv zeta. set (pos := position_json _ _).
  destruct (sync_tx_positions idn.1 idn.2 pos s w) as (P1 & _ & M1).
  destruct (sync_tx idn.1 idn.2 pos s w) as [s1 w1]. cbn [fst] in *.
  destruct (sync_rx_positions idn.1 idn.2 pos s1 w1) as (P2 & M2).
  destruct (sync_rx idn.1 idn.2 pos s1 w1) as [s2 w2]. cbn [fst] in *.
  apply (stuck_fields id l s); [| |done]; cbn [modify m_txMap m_lastPositions].
  - rewrite M2. by apply M1.
  - by rewrite lookup_insert_ne, P2, P1.
Qed.

Lemma sync_stuck id l s w :
  stays id l w → stuck id l s → stuck id l (syncPositions s w).1.
Proof.
  intros Hl Hs. unfold syncPositions. destruct (_ || _); [done|].
  assert (Hn : ∀ idn, idn ∈ entries (nodes w) → idn.1 = id →
    ∀ nl, Node.getLocation idn.2 = Some nl → position nl = l).
  { intros [k n] Hin%elem_of_entries. cbn [fst snd]. intros -> nl Hnl. by eapply Hl. }
  revert Hn. generalize (entries (nodes w)) as k. clear Hl. intros k. revert s w Hs.
  induction k as [|idn k IH]; intros s w Hs Hn; [done|]. cbn [foldl].
  pose proof (sync_node_stuck id l idn s w (Hn idn ltac:(apply list_elem_of_here)) Hs) as Hst.
  destruct (sync_node idn (s, w)) as [s' w']. apply IH; [done|].
  intros idn' Hin. by apply Hn, list_elem_of_further.
Qed.

Lemma compute_stuck id l e s w :
  stuck id l s → stuck id l (computeAndApplyCIR e s w).1.2.
Proof.
  intros Hs. unfold computeAndApplyCIR. pose proof (query_fields e s w) as Hq.
  destruct (query e s w) as [[j s1] w1]. cbn [fst snd] in Hq.
  assert (Hs1 : stuck id l s1) by by destruct Hq as [->|[avg ->]].
  destruct j as [j|]; [|done]. by destruct (apply_cir j s1 (coord w1)).
Qed.

Lemma steady_stuck id l sw sw' : steady id l sw sw' → stuck id l sw.1 → stuck id l sw'.1.
Proof.
  intros [e s w r s' w' Hl Hp|a j s w r s' w' Ha Hc|s w w'] Hs; cbn [fst] in *; [| |done].
  - unfold poll_step in Hp. destruct (m_thread s) as [[]|]; try (by injection Hp as <- <- <-).
    + destruct (_ && _); [|by injection Hp as <- <- <-].
      destruct (create_fields s w) as [E|(i & [E|[al E]])];
        destruct (createScene s w) as [[ok s1] w1]; cbn [fst snd] in E; subst s1;
        injection Hp as <- <- <-; by destruct ok.
    + destruct (m_running s); [|by injection Hp as <- <- <-].
      pose proof (sync_stuck id l s w Hl Hs) as Hy. destruct (syncPositions s w) as [s1 w1].
      pose proof (compute_stuck id l e s1 w1 Hy) as Hc.
      destruct (computeAndApplyCIR e s1 w1) as [[r1 s2] w2]. by injection Hp as <- <- <-.
  - unfold handleCommand in Hc. destruct (a =? "start")%string.
    { injection Hc as <- <- <-. unfold onStart. destruct (m_running s); [done|]. cbv zeta.
      destruct (Http.parseUrl _ _). unfold set_scale, set_offset, set_origin.
      destruct (Http.object "sceneOffset" _), (Http.object "referenceOrigin" _);
        match goal with |- context [if empty_str ?u then _ else _] => destruct (empty_str u) end;
        exact Hs. }
    destruct (String.eqb_spec a "stop"); [done|].
    destruct (a =? "status")%string; [by injection Hc as <- <- <-|].
    destruct (a =? "config")%string; [|by injection Hc as <- <- <-].
    injection Hc as <- <- <-. unfold set_scale, set_offset, set_origin.
    destruct (Http.object "sceneOffset" _), (Http.object "referenceOrigin" _); exact Hs.
Qed.

Lemma same_pos_cached l :
  isfinite (lat l) = true → isfinite (lon l) = true → isfinite (alt l) = true →
  same_pos (mkCachedPos (lat l) (lon l) (alt l)) l = true.
Proof. intros H1 H2 H3. unfold same_pos. cbn. by rewrite !feq_refl. Qed.

(** A registration that fails once is never repeated while the node stays
    where it is: the position is taken for sent although the server has refused
    the node.  Whatever the server does from then on, the node is not known to
    it as a transmitter, and no response can give taps to a link from it. *)
Theorem failed_registration_not_retried (id : string) (n : Node.t) (nl : NodeLocation)
    (s : Sionna.t) (w : world V) (sw : Sionna.t * world V)
    (Hloc : Node.getLocation n = Some nl) (Hnew : m_txMap s !! id = None)
    (Hmoved : moved id (position nl) s = true)
    (Hlat : isfinite (lat (position nl)) = true) (Hlon : isfinite (lon (position nl)) = true)
    (Halt : isfinite (alt (position nl)) = true)
    (Hfail : (http POST (scene_url "/transmitters" s)
       (Some (tx_body (node_name id n ++ "-tx") (position_json (position nl) s))) s w).1 = None)
    (Hrun : rtc (steady id (position nl)) (sync_node (id, n) (s, w)) sw) :
  m_txMap sw.1 !! id = None ∧ ∀ m dst ps, ¬ heard sw.1 m id dst ps.
Proof.
  assert (Hs : stuck id (position nl) (sync_node (id, n) (s, w)).1).
  { cbn [sync_node fst snd]. rewrite Hloc, Hmoved. unfold sync_tx at 1. rewrite Hnew.
    destruct (http POST _ _ s w) as [r w1]. cbn [fst] in Hfail. subst r. cbv zeta.
    destruct (sync_rx_positions id n (position_json (position nl) s) s w1) as [P M].
    destruct (sync_rx id n _ s w1) as [s2 w2]. cbn [fst] in *. split.
    - cbn [modify m_txMap]. by rewrite M.
    - unfold moved. cbn [modify m_lastPositions]. rewrite lookup_insert_eq.
      by rewrite same_pos_cached. }
  assert (Hend : stuck id (position nl) sw.1).
  { revert Hs. induction Hrun as [sw1|sw1 sw2 sw3 Hst _ IH]; [done|].
    intros Hs. apply IH. by eapply steady_stuck. }
  destruct Hend as [Hn _]. split; [done|].
  intros m dst ps [rt (_ & tn & rn & row & Htn & _)]. congruence.
Qed.

End Stuck.

(** ** Stopping *)

Section Stop.
Context {V : Type} `{Host V}.

Lemma clear_flag_twice ch : clear_flag (clear_flag ch) = clear_flag ch.
Proof.
  unfold clear_flag. destruct (Channel.activeExtension ch =? "sionna")%string eqn:E; [done|].
  by rewrite E.
Qed.

Lemma clear_all_twice i :
  Intermediate.for_channels clear_flag (Intermediate.for_channels clear_flag i)
  = Intermediate.for_channels clear_flag i.
Proof.
  assert (E : (λ ac : positive * Channel.t, (ac.1, clear_flag ac.2)) <$>
      ((λ ac, (ac.1, clear_flag ac.2)) <$> Intermediate.m_channelMap i)
    = (λ ac, (ac.1, clear_flag ac.2)) <$> Intermediate.m_channelMap i).
  { apply map_eq. intros k. rewrite !lookup_fmap. destruct (_ !! k) as [[a ch]|]; [|done].
    cbn. by rewrite clear_flag_twice. }
  unfold Intermediate.for_channels at 1. change (Intermediate.m_channelMap
    (Intermediate.for_channels clear_flag i)) with
    ((λ ac : positive * Channel.t, (ac.1, clear_flag ac.2)) <$> Intermediate.m_channelMap i).
  rewrite E. reflexivity.
Qed.

(** Stopping the extension returns every link to the path-loss model but
    leaves the taps: no link of any intermediate is marked as the extension's any
    more or bypasses the model on its behalf, yet the taps it set, which carry
    the path loss already, are still applied to every burst. *)
Theorem stop_leaves_taps (s : Sionna.t) (w : world V) (k : float) (a : positive)
    (i : Intermediate.t) (sd : string * string) (ad : positive) (ch : Channel.t)
    (Hrun : m_running s = true) (Hctx : context s = true)
    (Ha : (k, a) ∈ Controller.m_intermediateMap (Coordinator.ctrl (coord w)))
    (Hi : Controller.c_ims (Coordinator.ctrl (coord w)) !! a = Some i)
    (Hch : Intermediate.m_channelMap i !! sd = Some (ad, ch)) :
  ∃ i' ch', Controller.c_ims (Coordinator.ctrl (coord (onStop s w).2)) !! a = Some i' ∧
    Intermediate.m_channelMap i' !! sd = Some (ad, ch') ∧
    Channel.activeExtension ch' ≠ "sionna"%string ∧
    (Channel.activeExtension ch = "sionna"%string → Channel.bypassesPathLoss ch' = false) ∧
    ∀ p, Channel.active_taps p ch' = Channel.active_taps p ch.
Proof.
  exists (Intermediate.for_channels clear_flag i), (clear_flag ch). split_and!.
  - unfold onStop. rewrite Hrun. cbn [snd]. unfold clearExtensionFlags. rewrite Hctx.
    unfold Coordinator.for_intermediates.
    cbn [set_coord coord modify Coordinator.ctrl Controller.c_ims].
    rewrite (for_ims_lookup _ _ _ _ clear_all_twice), decide_True.
    + by rewrite Hi.
    + by apply (list_elem_of_fmap_2 snd _ (k, a)).
  - cbn [Intermediate.for_channels modify Intermediate.m_channelMap].
    by rewrite lookup_fmap, Hch.
  - unfold clear_flag. destruct (String.eqb_spec (Channel.activeExtension ch) "sionna"); done.
  - intros E. unfold clear_flag. by rewrite E.
  - intros p. unfold clear_flag. by destruct (_ =? _)%string.
Qed.

(** Only the first ports of a link get taps, but all of them lose the model: on
    every other pair of ports the signal arrives without any loss. *)
Theorem other_ports_bypass (taps : signal_v) (ch : Channel.t) (p : ChannelProcessParams)
    `{Dsp} (x : float) :
  mkChId (dest_channel_index p) (src_channel_index p) ≠ mkChId 0 0 →
  Channel.active_taps p (touch taps ch) = Channel.active_taps p ch ∧
  Channel.computePathLoss x p (touch taps ch) = Channel.extensionPathLossDb ch.
Proof.
  intros Hp. split; [|reflexivity]. unfold Channel.active_taps.
  rewrite chTaps_touch, lookup_insert_ne by done. reflexivity.
Qed.

End Stop.

(** ** Witnesses *)

Section Demo.

(** A server that answers everything with an empty object, and one that cannot
    be reached. *)
#[local] Instance answering : Host unit := {|
  serve _ v := (Some "{}"%string, v); parse_json _ := Some (JObject []);
  dump _ := Some ""%string; alloc _ := true |}.

Definition unreachable : Host unit := {|
  serve _ v := (None, v); parse_json _ := None; dump _ := Some ""%string; alloc _ := true |}.

Definition one : float := F64.of_Z 1.

(** Three paths at one megahertz: at once, after a microsecond, at once. *)
Definition demo_delays : list float := [fzero; F64.lit 1 6; fzero].

Lemma cirToTaps_accumulates_witness :
  ∃ taps, cirToTaps 64 demo_delays [one; one; one] [fzero; one; one] (F64.of_Z 1000000) = Ok taps ∧
    length taps = 2%nat ∧
    taps !! 0%nat = Some (tap_sum 64 0 (zip [0; 1; 0] (zip demo_delays
      (zip [one; one; one] [fzero; one; one])))).
Proof.
  destruct (cirToTaps_accumulates 64 demo_delays [one; one; one] [fzero; one; one]
    (F64.of_Z 1000000) [0; 1; 0]) as (taps & E & Hl & _ & Ht & _).
  - vm_compute. reflexivity.
  - vm_compute. reflexivity.
  - reflexivity.
  - exists taps. change (max_index (Z.max 0 64) [0; 1; 0]) with 1 in Hl.
    assert (Hn : length taps = 2%nat) by lia.
    refine (conj E (conj Hn (Ht 0%nat _))). rewrite Hn. lia.
Defined.

(** Two nodes, registered as transmitters and receivers, each hearing the other
    without delay. *)
Definition demo_sionna : Sionna.t :=
  Sionna.init
    <| m_txMap := <["b" := "b-tx"]> (<["a" := "a-tx"]> ∅) |> <| m_txOrder := ["a-tx"; "b-tx"] |>
    <| m_rxMap := <["b" := "b-rx"]> (<["a" := "a-rx"]> ∅) |> <| m_rxOrder := ["a-rx"; "b-rx"] |>%string.

Definition demo_paths : list path := [(fzero, (one, fzero))].

Definition demo_matrix : list (list (list path)) := replicate 2 (replicate 2 demo_paths).

Lemma demo_tracks (x y : string) :
  tracks (<["b" := y]> (<["a" := x]> ∅))%string [x; y].
Proof.
  apply (tracks_insert _ [x]); [|by rewrite lookup_insert_ne, lookup_empty].
  by apply (tracks_insert _ []), lookup_empty; apply tracks_empty.
Qed.

(** With the limit of 64 taps. *)
Definition demo_limited : Coordinator.t := Commands.demo <| Coordinator.cir_max_taps := 64 |>.

Lemma cir_reaches_registered_links_witness :
  ∃ g, apply_cir (response 2 1 demo_matrix) demo_sionna demo_limited
       = (Ok tt, touched g demo_limited) ∧ is_Some (g ("a", "b")%string).
Proof.
  assert (Hm : ∀ r row t ps, demo_matrix !! r = Some row → row !! t = Some ps → ps = demo_paths).
  { intros r row t ps [-> _]%lookup_replicate [-> _]%lookup_replicate. reflexivity. }
  destruct (cir_reaches_registered_links demo_sionna demo_limited 2 1 demo_matrix) as (g & E & Hg).
  - apply demo_tracks.
  - apply demo_tracks.
  - repeat constructor; set_solver.
  - repeat constructor; set_solver.
  - vm_compute. repeat split.
  - lia.
  - intros r row [-> _]%lookup_replicate. split; [reflexivity|].
    intros t ps [-> _]%lookup_replicate. reflexivity.
  - intros src dst ps [rt (_ & tn & rn & row & _ & _ & _ & _ & Hr & Ht)].
    rewrite (Hm _ _ _ _ Hr Ht). unfold destSampleRate.
    change (Controller.m_nodeMap (Coordinator.ctrl demo_limited)) with (∅ : gmap string Node.t).
    rewrite lookup_empty. apply Forall_singleton. exists 0. split; [vm_compute; reflexivity|lia].
  - by split.
  - reflexivity.
  - exists g. split; [exact E|]. specialize (Hg "a"%string "b"%string).
    destruct (g ("a", "b")%string); [by eexists|]. exfalso. apply (Hg demo_paths).
    exists (1, 0)%nat. split; [done|].
    exists "a-tx"%string, "b-rx"%string, (replicate 2 demo_paths).
    repeat split; vm_compute; reflexivity.
Defined.

Definition fast : json := JObject [("updateRateMs"%string, JInt 10)].

Definition demo_world : world unit := mkWorld Commands.demo false 500 tt.

Lemma sionna_well_formed_witness :
  well_formed (onStart fast Sionna.init).2 ∧ m_updateRateMs (onStart fast Sionna.init).2 = 50.
Proof.
  split; [|vm_compute; reflexivity].
  exact (sionna_well_formed (onStart fast Sionna.init).2 demo_world demo_world
    (rtc_once (Sionna.init, demo_world) ((onStart fast Sionna.init).2, demo_world)
      (es_start fast Sionna.init demo_world))).
Defined.

(** A node at the origin of the map. *)
Definition demo_node : Node.t :=
  (Node.ctor 0 tower_config) <| Node.m_hasLocation := true |>.

Lemma failed_registration_not_retried_witness :
  m_txMap (@sync_node unit unreachable ("n"%string, demo_node)
    (Sionna.init, demo_world)).1 !! "n"%string = None.
Proof.
  refine (proj1 (@failed_registration_not_retried unit unreachable "n"%string demo_node
    (mkNodeLocation 0 NodeConfig.zero_location (mkVelocity fzero fzero fzero) false)
    Sionna.init (demo_world) _ eq_refl _ _ eq_refl eq_refl eq_refl
    eq_refl (rtc_refl _ _))).
  - apply lookup_empty.
  - reflexivity.
Defined.

(** The extension runs, and the link of the one channel is its own. *)
Definition demo_running : Sionna.t :=
  Sionna.init <| m_running := true |> <| m_thread := Some Polling |> <| context := true |>.

Lemma stop_leaves_taps_witness :
  let c := touched (λ _, Some [(one, fzero)]) Commands.demo in
  ∃ i' ch', Controller.c_ims (Coordinator.ctrl
      (coord (onStop demo_running (mkWorld c false 500 tt)).2)) !! 1%positive = Some i' ∧
    Intermediate.m_channelMap i' !! ("a", "b")%string = Some (1%positive, ch') ∧
    Channel.bypassesPathLoss ch' = false.
Proof.
  intros c.
  set (ch := touch [(one, fzero)] (Channel.ctor "a" "b" 1 1)).
  set (i := touch_all (λ _, Some [(one, fzero)]) Commands.demo_channel).
  destruct (stop_leaves_taps demo_running (mkWorld c false 500 tt) Commands.demo_freq 1%positive i
    ("a", "b")%string 1%positive ch eq_refl eq_refl) as (i' & ch' & Ei & Ech & _ & Hb & _).
  - apply list_elem_of_here.
  - reflexivity.
  - reflexivity.
  - exists i', ch'. exact (conj Ei (conj Ech (Hb eq_refl))).
Defined.

End Demo.
