(* ===== verification/Sandbox.v ===== *)
(** src/extensions/sandbox/src/middleman_client.cpp: the client that reports
    the path loss of every link to the service driving external hardware, and
    switches the emulator to sandbox mode while it runs. *)

From Stdlib Require Import ZArith Lia Strings.String Floats.SpecFloat.
From stdpp Require Import prelude list strings gmap sorting.
From S2P Require Import Prelude.
From S2P Require Import Ieee.
From S2P Require Import Common.
From S2P Require Import Json.
From S2P Require Import NodeConfig.
From S2P Require Import NodeEntity.
From S2P Require Import Channel.
From S2P Require Import Intermediate.
From S2P Require Import Controller.
From S2P Require Import Coordinator.
From S2P Require Import Http.

Module Sandbox.

Record t : Type := mk {
  context : bool;              (** [m_nodeMap] and [m_intermediateMap] are set *)
  m_serverUrl : string;
  m_host : string;
  m_port : string;
  m_running : bool;
  m_thread : bool;             (** the thread has not been joined *)
}.

#[export] Instance t_eta : Settable t := λ s,
  mk (context s) (m_serverUrl s) (m_host s) (m_port s) (m_running s) (m_thread s).

Definition init : t := mk false "" "" "" false false.

(** The keys of [m_channelMap] in the order of [std::pair]. *)
Definition link_le (a b : string * string * (positive * Channel.t)) : Prop :=
  String.ltb a.1.1 b.1.1 || ((a.1.1 =? b.1.1)%string && String.leb a.1.2 b.1.2) = true.

#[export] Instance link_le_dec a b : Decision (link_le a b).
Proof. unfold link_le. apply _. Defined.

Definition links (i : Intermediate.t) : list (string * string * (positive * Channel.t)) :=
  merge_sort link_le (map_to_list (Intermediate.m_channelMap i)).

Section Client.
Context {V : Type} `{Host V}.

#[local] Notation W := (world V).

Definition onStart (config : json) (s : t) (w : W) : bool * t * W :=
  if m_running s then (true, s, w)
  else
    let fs := Http.members config in
    let s := s <| m_serverUrl := Coordinator.text "middlemanUrl" (m_serverUrl s) fs |> in
    let rate := Http.at_least 50 "updateRateMs" (sandbox_update_rate_ms w) fs in
    let s := if empty_str (m_serverUrl s) then s <| m_serverUrl := "http://localhost:8080" |>
             else s in
    let '(host, port) := Http.parseUrl "8080" (m_serverUrl s) in
    (true, s <| m_host := host |> <| m_port := port |> <| m_running := true |>
             <| m_thread := true |>, set_sandbox true rate w).

Definition onStop (s : t) (w : W) : t * W :=
  if m_running s
  then (s <| m_running := false |> <| m_thread := false |>,
        set_sandbox false (sandbox_update_rate_ms w) w)
  else (s, w).

Definition getStatus (s : t) (w : W) : json :=
  of_pairs [("name", JString "sandbox"); ("running", JBool (m_running s));
            ("enabled", JBool (sandbox_enabled w)); ("middlemanUrl", JString (m_serverUrl s));
            ("updateRateMs", JInt (sandbox_update_rate_ms w))].

Definition getConfigSchema : json :=
  of_pairs [("middlemanUrl", JString "http://localhost:8080"); ("updateRateMs", JInt 500)].

(** [onStart] never fails. *)
Definition handleCommand (action : string) (params : json) (s : t) (w : W) : json * t * W :=
  if (action =? "start")%string then
    let '(ok, s, w) := onStart params s w in
    (of_pairs [("status", JString (if ok : bool then "success" else "fail"));
               ("message", JString (if ok : bool then "Sandbox mode started"
                                    else "Failed to start"))], s, w)
  else if (action =? "stop")%string then
    let '(s, w) := onStop s w in
    (of_pairs [("status", JString "success"); ("message", JString "Sandbox mode stopped")], s, w)
  else if (action =? "status")%string then (getStatus s w, s, w)
  else (Coordinator.failure ("Unknown action: " ++ action), s, w).

(** The name of a node, or its id. *)
Definition resolveName (m : gmap string Node.t) (id : string) : string :=
  match m !! id with
  | Some n => let nm := NodeConfig.m_name (Node.m_config n) in if empty_str nm then id else nm
  | None => id
  end.

Definition link_entry (m : gmap string Node.t) (freq : float) (ch : Channel.t) : json :=
  of_pairs [("tx", JString (resolveName m (Channel.source ch)));
            ("rx", JString (resolveName m (Channel.destination ch)));
            ("freq_hz", JFloat freq); ("pathloss_db", JFloat (Channel.plDb ch));
            ("distance_m", JFloat (Channel.getLinkDistance ch));
            ("elevation_deg", JFloat (elevation (Channel.linkInfo ch)))].

(** Links of a node to itself are left out. *)
Definition channel_entries (m : gmap string Node.t) (freq : float) (i : Intermediate.t)
    : list json :=
  omap (λ kl, if (Channel.source kl.2.2 =? Channel.destination kl.2.2)%string then None
              else Some (link_entry m freq kl.2.2)) (links i).

Definition pathloss_entries (c : Controller.t) : list json :=
  concat ((λ ka, match Controller.c_ims c !! ka.2 with
                 | Some i => channel_entries (Controller.m_nodeMap c) ka.1 i
                 | None => []
                 end) <$> Controller.m_intermediateMap c).

(** An exception of the request is logged by the thread. *)
Definition pushPathLoss (s : t) (w : W) : W :=
  if context s then
    match pathloss_entries (Coordinator.ctrl (coord w)) with
    | [] => w
    | es => (Http.http POST (m_host s) (m_port s) "/api/pathloss"
               (Some (of_pairs [("channels", JArray es)])) w).2
    end
  else w.

(** One turn of [pollLoop]. *)
Definition poll_step (s : t) (w : W) : t * W :=
  if m_thread s && m_running s then (s, pushPathLoss s w) else (s, w).

End Client.

End Sandbox.
