(* ===== verification/Operator.v ===== *)
(** The coordinator with its extensions: the objects the process registers
    (src/src/chem/channel/coordinator.cpp, lines 120-125), the commands for
    extensions, and start-up and shutdown of extensions (src/src/chem/main.cpp).

    The two clients of src/extensions/ are the instance of the interface of
    Extensions.v.  The theorem of the file extends the one of Commands.v: the
    whole operator side, extensions and their threads included, moves nodes and
    channels by steps of the machine of Emulator.v only. *)

From Stdlib Require Import ZArith Lia Strings.String Floats.SpecFloat.
From stdpp Require Import prelude list strings gmap relations.
From S2P Require Import Prelude.
From S2P Require Import Ieee.
From S2P Require Import Common.
From S2P Require Import CxxLib.
From S2P Require Import DataPool.
From S2P Require Import Json.
From S2P Require Import NodeConfig.
From S2P Require Import NodeEntity.
From S2P Require Import Receiver.
From S2P Require Import Transmitter.
From S2P Require Import Channel.
From S2P Require Import Intermediate.
From S2P Require Import DataPath.
From S2P Require Import Controller.
From S2P Require Import ControllerInv.
From S2P Require Import Routing.
From S2P Require Import Emulator.
From S2P Require Import Extensions.
From S2P Require Import Coordinator.
From S2P Require Import Commands.
From S2P Require Import Http.
From S2P Require Import Sionna.
From S2P Require Import Rays.
From S2P Require Import Sandbox.

#[local] Existing Instance Coordinator.t_eta.
#[local] Existing Instance Sionna.t_eta.
#[local] Existing Instance Sandbox.t_eta.

(** ** The extensions of the program *)

Inductive extension : Type :=
  | ESionna (s : Sionna.t)
  | ESandbox (s : Sandbox.t).

Section Instance.
Context {V : Type} `{Host V}.

#[export] Instance program_extensions : ChannelExtension extension (world V) := {|
  name e := match e with ESionna _ => "sionna" | ESandbox _ => "sandbox" end%string;
  onStart j e w :=
    match e with
    | ESionna s => let '(ok, s) := Sionna.onStart j s in (ok, ESionna s, w)
    | ESandbox s => let '(ok, s, w) := Sandbox.onStart j s w in (ok, ESandbox s, w)
    end;
  onStop e w :=
    match e with
    | ESionna s => let '(s, w) := Sionna.onStop s w in (ESionna s, w)
    | ESandbox s => let '(s, w) := Sandbox.onStop s w in (ESandbox s, w)
    end;
  isRunning e :=
    match e with ESionna s => Sionna.m_running s | ESandbox s => Sandbox.m_running s end;
  handleCommand a j e w :=
    match e with
    | ESionna s => let '(r, s, w) := Sionna.handleCommand a j s w in (r, ESionna s, w)
    | ESandbox s => let '(r, s, w) := Sandbox.handleCommand a j s w in (r, ESandbox s, w)
    end;
  getStatus e w :=
    match e with ESionna s => Sionna.getStatus s | ESandbox s => Sandbox.getStatus s w end;
  getConfigSchema e :=
    match e with
    | ESionna _ => Sionna.getConfigSchema
    | ESandbox _ => Sandbox.getConfigSchema
    end;
  setContext e :=
    match e with
    | ESionna s => ESionna (s <| Sionna.context := true |>)
    | ESandbox s => ESandbox (s <| Sandbox.context := true |>)
    end |}.

#[export] Instance program_laws : ExtensionLaws extension (world V).
Proof.
  split.
  - intros j [s|s] w; cbn; [by destruct (Sionna.onStart j s)|by destruct (Sandbox.onStart j s w) as [[]]].
  - intros [s|s] w; cbn; [by destruct (Sionna.onStop s w)|by destruct (Sandbox.onStop s w)].
  - intros a j [s|s] w; cbn; [by destruct (Sionna.handleCommand a j s w) as [[]]|
      by destruct (Sandbox.handleCommand a j s w) as [[]]].
  - by intros [].
  - by intros [].
  - intros j [s|s] w; cbn.
    + unfold Sionna.onStart. destruct (Sionna.m_running s) eqn:E; [done|]. cbv zeta.
      by destruct (Http.parseUrl _ _).
    + unfold Sandbox.onStart. destruct (Sandbox.m_running s) eqn:E; [done|]. cbv zeta.
      by destruct (Http.parseUrl _ _).
  - intros j [s|s] w; cbn; intros E.
    + unfold Sionna.onStart. by rewrite E.
    + unfold Sandbox.onStart. by rewrite E.
  - intros [s|s] w; cbn.
    + unfold Sionna.onStop. by destruct (Sionna.m_running s) eqn:E.
    + unfold Sandbox.onStop. by destruct (Sandbox.m_running s) eqn:E.
Qed.

End Instance.

(** ** The coordinator with its registry *)

Module Operator.

Record t (V : Type) : Type := mk {
  sys : world V;
  registry : ExtensionRegistry.t extension;
}.

Arguments mk {V} _ _.
Arguments sys {V} _.
Arguments registry {V} _.

Section Commands.
Context {V : Type} `{Host V}.

#[local] Notation W := (world V).

(** The constructor of the coordinator. *)
Definition ctor (w : W) : t V :=
  mk w (ExtensionRegistry.registerExtension (W := W) (Some (ESandbox Sandbox.init))
         (ExtensionRegistry.registerExtension (W := W) (Some (ESionna Sionna.init))
           (ExtensionRegistry.set_context (W := W) ExtensionRegistry.init))).

Definition reserved (k : string) : bool :=
  (k =? "CMD")%string || (k =? "extension")%string || (k =? "action")%string ||
  (k =? "params")%string.

(** Lines 635-643: the fields of the request join the parameters. *)
Definition ext_params (fs : list (string * json)) : outcome json_error json :=
  let params := match find_key "params" fs with Some p => p | None => JObject [] end in
  ofold (λ kv p, if reserved kv.1 then Ok p else set_key kv.1 kv.2 p) fs params.

Definition EXT (fs : list (string * json)) (o : t V) : outcome json_error json * t V :=
  let args :=
    (do! extName <- Coordinator.value get_string "extension" ""%string fs;
     do! action <- Coordinator.value get_string "action" ""%string fs;
     do! params <- ext_params fs;
     Ok (extName, action, params))%chem in
  match args with
  | Err e => (Err e, o)
  | Ok (extName, action, params) =>
      let '(resp, r, w) :=
        ExtensionRegistry.routeCommand extName action params (registry o) (sys o) in
      (Ok resp, mk w r)
  end.

Definition all_status (o : t V) : json := ExtensionRegistry.getAllStatus (registry o) (sys o).

Definition EXT_LIST (o : t V) : outcome json_error json * t V :=
  (Ok (of_pairs [("status", JString "success"); ("extensions", all_status o)]), o).

(** The commands of Coordinator.v, with the report of the extensions. *)
Definition other_command (db : string → string → bool) (version request : string) (o : t V)
    : option (outcome json_error json * t V) :=
  match Coordinator.requestHandler parse_json db (all_status o) version request with
  | None => None
  | Some h =>
      let '(r, c) := h (coord (sys o)) in Some (r, mk (set_coord c (sys o)) (registry o))
  end.

Definition requestHandler (db : string → string → bool) (version request : string) (o : t V)
    : option (outcome json_error json * t V) :=
  match parse_json request with
  | Some (JObject fs) =>
      match Coordinator.fld "CMD" fs with
      | JString cmd =>
          if (cmd =? "EXT")%string then Some (EXT fs o)
          else if (cmd =? "EXT_LIST")%string then Some (EXT_LIST o)
          else other_command db version request o
      | _ => other_command db version request o
      end
  | _ => other_command db version request o
  end.

(** main.cpp, lines 147-159: the extensions of the configuration file, then
    sandbox mode if the environment asks for it. *)
Definition start_extensions (cfg : json) (sandboxEnabled : bool) (url : string) (rate : Z)
    (o : t V) : t V :=
  let '(r, w) := ExtensionRegistry.startFromConfig cfg (registry o) (sys o) in
  if sandboxEnabled then
    let params := of_pairs [("middlemanUrl", JString url); ("updateRateMs", JInt rate)] in
    let '(_, r, w) := ExtensionRegistry.routeCommand "sandbox" "start" params r w in mk w r
  else mk w r.

(** [stopAll] of the registry. *)
Definition stop_extensions (o : t V) : t V :=
  let '(r, w) := ExtensionRegistry.stopAll (registry o) (sys o) in mk w r.

(** One turn of the thread of an extension; [Err] is undefined behaviour. *)
Definition poll (n : string) (elapsedMs : float) (o : t V) : outcome Sionna.fault unit * t V :=
  match ExtensionRegistry.get n (registry o) with
  | None => (Ok tt, o)
  | Some (ESionna s) =>
      let '(r, s, w) := Sionna.poll_step elapsedMs s (sys o) in
      (r, mk w (ExtensionRegistry.put n (ESionna s) (registry o)))
  | Some (ESandbox s) =>
      let '(s, w) := Sandbox.poll_step s (sys o) in
      (Ok tt, mk w (ExtensionRegistry.put n (ESandbox s) (registry o)))
  end.

End Commands.

End Operator.

(** ** Refinement *)

Section Refinement.
Import Operator.
Context `{Dsp, Converter, PriorityQueue, Geometry}.
Context {V : Type} `{Host V}.
Context (parse : string → option json) (coss : float → float) (mode : bool → Prop).

#[local] Notation steps := (rtc (cstep parse coss mode)).

(** The controller's part of a system. *)
Definition machine (o : t V) : Controller.t := Coordinator.ctrl (coord (sys o)).

(** What the operator's side can do: requests, start-up and shutdown, turns of
    the threads of extensions, updates of the positions; and steps of the
    emulator, whose requests are served in the mode the sandbox extension has
    set.  [mode] restricts the runs to those in which requests of nodes come in
    certain modes only; [λ _, True] is the program. *)
Inductive sys_step : t V → t V → Prop :=
  | ss_request db version request r o o' :
      requestHandler db version request o = Some (r, o') → sys_step o o'
  | ss_start cfg b url rate o : sys_step o (start_extensions cfg b url rate o)
  | ss_stop o : sys_step o (stop_extensions o)
  | ss_poll n elapsed o : sys_step o (poll n elapsed o).2
  | ss_positions o :
      sys_step o (mk (set_coord ((coord (sys o)) <| Coordinator.ctrl :=
        Coordinator.configChannels (machine o) |>) (sys o)) (registry o))
  | ss_machine o c :
      cstep parse coss (λ b, b = sandbox_enabled (sys o) ∧ mode b) (machine o) c →
      sys_step o (mk (set_coord ((coord (sys o)) <| Coordinator.ctrl := c |>) (sys o)) (registry o))
  | ss_outside o out : sys_step o (mk (set_outside out (sys o)) (registry o)).

(** *** The ray tracer's client *)

Lemma clear_flag_keeps : keeps Sionna.clear_flag.
Proof.
  intros ch. unfold Sionna.clear_flag. by destruct (_ =? _)%string.
Qed.

Lemma set_taps_settings s d taps i : rtc setting_step i (Sionna.set_taps s d taps i).
Proof.
  unfold Sionna.set_taps.
  pose proof (ss_link (LCir (mkChId 0 0) taps) s d i) as Hs. cbn [apply_link] in Hs.
  destruct (Intermediate.updateCIR s d (mkChId 0 0) taps i) as [b i'].
  destruct b; [|by apply rtc_once]. eapply rtc_l; [exact Hs|].
  apply rtc_once, ss_one. by intros ch.
Qed.

Definition action_steps (f : Sionna.action) : Prop :=
  ∀ c, steps (Coordinator.ctrl c) (Coordinator.ctrl (f c).2).

Lemma run_each_steps {A} (f : A → Sionna.action) l :
  (∀ a, action_steps (f a)) → action_steps (Sionna.run_each f l).
Proof.
  intros Hf. induction l as [|a l IH]; intros c; cbn [Sionna.run_each]; [apply rtc_refl|].
  specialize (Hf a c). destruct (f a c) as [[u|e] c']; [|done]. etrans; [exact Hf|apply IH].
Qed.

Lemma apply_paths_steps s d ps : action_steps (Sionna.apply_paths s d ps).
Proof.
  intros c0. unfold Sionna.apply_paths. apply run_each_steps. intros ka c.
  destruct (Sionna.taps_of _ _ ps) as [taps|e]; [|apply rtc_refl]. cbn [snd modify Coordinator.ctrl].
  set (ct := Coordinator.ctrl c).
  destruct (Controller.c_ims ct !! ka.2) as [i|] eqn:Ei.
  - rewrite (alter_some _ _ _ i Ei). apply (settings_steps parse coss mode ka.2 i); [|done].
    apply set_taps_settings.
  - rewrite alter_none by done. by destruct ct.
Qed.

Lemma apply_pair_steps s d re im n rt : action_steps (Sionna.apply_pair s d re im n rt).
Proof.
  intros c. unfold Sionna.apply_pair.
  destruct (Sionna.m_rxOrder s !! rt.1) as [rn|], (Sionna.m_txOrder s !! rt.2) as [tn|];
    try apply rtc_refl.
  destruct (Sionna.by_name (Sionna.m_txMap s) !! tn), (Sionna.by_name (Sionna.m_rxMap s) !! rn);
    try apply rtc_refl.
  destruct (_ =? _)%string; [apply rtc_refl|].
  destruct (Sionna.read_pair _ _ _ _ _ _) as [[|p ps]|[]]; try apply rtc_refl.
  apply apply_paths_steps.
Qed.

Lemma apply_cir_steps j s : action_steps (Sionna.apply_cir j s).
Proof.
  intros c. unfold Sionna.apply_cir. destruct (_ && _); [|apply rtc_refl].
  match goal with |- context [match ?r with Ok _ => _ | Err _ => _ end] => destruct r as [o|e] end;
    [|apply rtc_refl].
  destruct o as [[[[numRx numTx] numPaths] [[d re] im]]|]; [|apply rtc_refl].
  apply run_each_steps. intros rt. apply apply_pair_steps.
Qed.

#[local] Notation ctl w := (Coordinator.ctrl (coord w)).

Lemma http_coord v h p t b (w : world V) : coord (Http.http v h p t b w).2 = coord w.
Proof.
  unfold Http.http. destruct (match b with None => _ | Some _ => _ end); [|done].
  by destruct (serve _ _).
Qed.

Lemma sync_node_coord idn s (w : world V) : coord (Sionna.sync_node idn (s, w)).2 = coord w.
Proof.
  cbn [Sionna.sync_node]. destruct (Node.getLocation idn.2) as [nl|]; [|done].
  destruct (Sionna.moved _ _ _); [|done]. cbv zeta. set (pos := Sionna.position_json _ _).
  assert (Ht : coord (Sionna.sync_tx idn.1 idn.2 pos s w).2 = coord w).
  { unfold Sionna.sync_tx, Sionna.http. destruct (Sionna.m_txMap s !! idn.1); [apply http_coord|].
    match goal with |- context [Http.http ?v ?h ?p ?t ?b w] =>
      pose proof (http_coord v h p t b w) as E; destruct (Http.http v h p t b w) as [[r|] w'] end;
      exact E. }
  destruct (Sionna.sync_tx idn.1 idn.2 pos s w) as [s1 w1]. cbn [snd] in Ht. rewrite <- Ht.
  assert (Hr : coord (Sionna.sync_rx idn.1 idn.2 pos s1 w1).2 = coord w1).
  { unfold Sionna.sync_rx, Sionna.http. destruct (Sionna.m_rxMap s1 !! idn.1); [apply http_coord|].
    match goal with |- context [Http.http ?v ?h ?p ?t ?b w1] =>
      pose proof (http_coord v h p t b w1) as E; destruct (Http.http v h p t b w1) as [[r|] w'] end;
      exact E. }
  by destruct (Sionna.sync_rx idn.1 idn.2 pos s1 w1) as [s2 w2].
Qed.

Lemma sync_coord s (w : world V) : coord (Sionna.syncPositions s w).2 = coord w.
Proof.
  unfold Sionna.syncPositions. destruct (_ || _); [done|].
  generalize (entries (Sionna.nodes w)) as l. intros l. revert s w.
  induction l as [|idn l IH]; intros s w; [done|]. cbn [foldl].
  pose proof (sync_node_coord idn s w) as Hn. destruct (Sionna.sync_node idn (s, w)) as [s' w'].
  cbn [snd] in Hn. by rewrite IH.
Qed.

Lemma query_coord e s (w : world V) : coord (Sionna.query e s w).2 = coord w.
Proof.
  unfold Sionna.query, Sionna.http. repeat (case_match; [done|]). cbv zeta.
  match goal with |- context [Http.http ?v ?h ?p ?t ?b w] =>
    pose proof (http_coord v h p t b w) as E; destruct (Http.http v h p t b w) as [[r|] w1] end;
    [|exact E]. cbn [snd] in E. rewrite <- E.
  match goal with |- context [Http.http ?v ?h ?p ?t ?b w1] =>
    pose proof (http_coord v h p t b w1) as E'; destruct (Http.http v h p t b w1) as [[r'|] w2] end;
    exact E'.
Qed.

Lemma alignment_coord s (w : world V) : coord (Sionna.fetchSceneAlignment s w).2 = coord w.
Proof.
  unfold Sionna.fetchSceneAlignment, Sionna.http. destruct (empty_str _); [done|].
  match goal with |- context [Http.http ?v ?h ?p ?t ?b w] =>
    pose proof (http_coord v h p t b w) as E; destruct (Http.http v h p t b w) as [r w1] end.
  by destruct (r ≫= parse_json).
Qed.

Lemma create_coord s (w : world V) : coord (Sionna.createScene s w).2 = coord w.
Proof.
  unfold Sionna.createScene, Sionna.http.
  match goal with |- context [Http.http ?v ?h ?p ?t ?b w] =>
    pose proof (http_coord v h p t b w) as E; destruct (Http.http v h p t b w) as [r w1] end.
  cbn [snd] in E. destruct (r ≫= parse_json) as [[|fs| | | | | |]|]; try exact E.
  destruct (find_key "scene_id" fs) as [[| | |id| | | |]|]; try exact E.
  pose proof (alignment_coord (s <| Sionna.m_sceneId := id |>) w1) as E'.
  destruct (Sionna.fetchSceneAlignment _ w1) as [s2 w2]. cbn [snd] in *. congruence.
Qed.

Lemma poll_sionna_steps e s (w : world V) :
  steps (ctl w) (ctl (Sionna.poll_step e s w).2).
Proof.
  unfold Sionna.poll_step. destruct (Sionna.m_thread s) as [[]|]; try apply rtc_refl.
  - destruct (_ && _); [|apply rtc_refl]. pose proof (create_coord s w) as E.
    destruct (Sionna.createScene s w) as [[ok s1] w1]. cbn [snd] in *. rewrite E. apply rtc_refl.
  - destruct (Sionna.m_running s); [|apply rtc_refl]. pose proof (sync_coord s w) as E.
    destruct (Sionna.syncPositions s w) as [s1 w1]. cbn [snd] in E. rewrite <- E.
    unfold Sionna.computeAndApplyCIR. pose proof (query_coord e s1 w1) as E'.
    destruct (Sionna.query e s1 w1) as [[[j|] s2] w2]; cbn [snd] in E'; rewrite <- E'.
    + pose proof (apply_cir_steps j s2 (coord w2)) as Hs.
      by destruct (Sionna.apply_cir j s2 (coord w2)).
    + apply rtc_refl.
Qed.

(** *** The interface *)

Lemma onStart_coord j (e : extension) (w : world V) : coord (onStart j e w).2 = coord w.
Proof.
  destruct e as [s|s]; cbn; [by destruct (Sionna.onStart j s)|].
  unfold Sandbox.onStart. destruct (Sandbox.m_running s); [done|]. cbv zeta.
  by destruct (Http.parseUrl _ _).
Qed.

Lemma sionna_stop_steps s (w : world V) : steps (ctl w) (ctl (Sionna.onStop s w).2).
Proof.
  unfold Sionna.onStop. destruct (Sionna.m_running s); [|apply rtc_refl]. cbn [snd].
  unfold Sionna.clearExtensionFlags. destruct (Sionna.context s); [|apply rtc_refl].
  apply (alter_all_steps parse coss mode (λ _, Intermediate.for_channels Sionna.clear_flag)).
  intros k i. apply rtc_once, ss_links, clear_flag_keeps.
Qed.

Lemma onStop_steps (e : extension) (w : world V) : steps (ctl w) (ctl (onStop e w).2).
Proof.
  destruct e as [s|s]; cbn.
  - pose proof (sionna_stop_steps s w) as Hs. by destruct (Sionna.onStop s w).
  - unfold Sandbox.onStop. destruct (Sandbox.m_running s); apply rtc_refl.
Qed.

Lemma push_origin_coord fs s (w : world V) : coord (Sionna.push_origin fs s w) = coord w.
Proof.
  unfold Sionna.push_origin. destruct (Http.object _ _); [|done].
  destruct (empty_str _); [done|]. apply http_coord.
Qed.

Lemma handleCommand_steps a j (e : extension) (w : world V) :
  steps (ctl w) (ctl (handleCommand a j e w).2).
Proof.
  destruct e as [s|s]; cbn.
  - unfold Sionna.handleCommand. destruct (a =? "start")%string; [apply rtc_refl|].
    destruct (a =? "stop")%string.
    { pose proof (sionna_stop_steps s w) as Hs. by destruct (Sionna.onStop s w). }
    destruct (a =? "status")%string; [apply rtc_refl|].
    destruct (a =? "config")%string; [|apply rtc_refl]. cbn [snd]. rewrite push_origin_coord.
    apply rtc_refl.
  - unfold Sandbox.handleCommand. destruct (a =? "start")%string.
    { pose proof (onStart_coord j (ESandbox s) w) as E. cbn in E.
      destruct (Sandbox.onStart j s w) as [[ok s1] w1]. cbn [snd] in *. rewrite E. apply rtc_refl. }
    destruct (a =? "stop")%string.
    { pose proof (onStop_steps (ESandbox s) w) as Hs. cbn in Hs.
      by destruct (Sandbox.onStop s w). }
    destruct (a =? "status")%string; apply rtc_refl.
Qed.

(** *** The registry and the commands *)

#[local] Notation reg := (ExtensionRegistry.t extension).

Lemma startFromConfig_coord j (r : reg) (w : world V) :
  coord (ExtensionRegistry.startFromConfig j r w).2 = coord w.
Proof.
  destruct j as [|fs| | | | | |]; try done. cbn [ExtensionRegistry.startFromConfig].
  revert r w. induction fs as [|nc fs IH]; intros r w; [done|].
  cbn [foldl ExtensionRegistry.start_one].
  destruct (ExtensionRegistry.m_extensions r !! nc.1) as [e|]; [|apply IH].
  destruct (ExtensionRegistry.enabled nc.2); [|apply IH].
  pose proof (onStart_coord nc.2 e w) as Hs. destruct (onStart nc.2 e w) as [[ok e'] w'].
  by rewrite IH.
Qed.

Lemma stopAll_steps (r : reg) (w : world V) :
  steps (ctl w) (ctl (ExtensionRegistry.stopAll r w).2).
Proof.
  unfold ExtensionRegistry.stopAll. generalize (entries (ExtensionRegistry.m_extensions r)) as l.
  intros l. revert r w. induction l as [|ne l IH]; intros r w; [apply rtc_refl|].
  cbn [foldl ExtensionRegistry.stop_one]. destruct (isRunning ne.2); [|apply IH].
  pose proof (onStop_steps ne.2 w) as Hs. destruct (onStop ne.2 w) as [e' w'].
  etrans; [exact Hs|apply IH].
Qed.

Lemma route_steps n a j (r : reg) (w : world V) :
  steps (ctl w) (ctl (ExtensionRegistry.routeCommand n a j r w).2).
Proof.
  unfold ExtensionRegistry.routeCommand.
  destruct (ExtensionRegistry.m_extensions r !! n) as [e|]; [|apply rtc_refl].
  pose proof (handleCommand_steps a j e w) as Hs. by destruct (handleCommand a j e w) as [[resp e'] w'].
Qed.

Lemma other_steps db ver request o r o' :
  other_command db ver request o = Some (r, o') → steps (machine o) (machine o').
Proof.
  unfold other_command.
  destruct (Coordinator.requestHandler _ _ _ _ _) as [h|] eqn:Eh; [|done].
  pose proof (request_moves parse coss mode _ _ _ _ _ h Eh (coord (sys o))) as Hs.
  destruct (h (coord (sys o))) as [r' c]. by intros [= <- <-].
Qed.

Lemma request_steps db ver request o r o' :
  requestHandler db ver request o = Some (r, o') → steps (machine o) (machine o').
Proof.
  unfold requestHandler. destruct (parse_json request) as [[|fs| | | | | |]|]; try apply other_steps.
  destruct (Coordinator.fld "CMD" fs) as [| | |cmd| | | |]; try apply other_steps.
  destruct (cmd =? "EXT")%string.
  - intros [= E]. unfold EXT in E.
    match type of E with context [match ?a with Ok _ => _ | Err _ => _ end] =>
      destruct a as [[[n a'] j]|e] end; [|injection E as <- <-; apply rtc_refl].
    pose proof (route_steps n a' j (registry o) (sys o)) as Hs.
    destruct (ExtensionRegistry.routeCommand _ _ _ _ _) as [[resp r'] w']. by injection E as <- <-.
  - destruct (cmd =? "EXT_LIST")%string; [|apply other_steps].
    intros [= <- <-]. apply rtc_refl.
Qed.

Lemma start_steps cfg b url rt o : steps (machine o) (machine (start_extensions cfg b url rt o)).
Proof.
  unfold start_extensions. pose proof (startFromConfig_coord cfg (registry o) (sys o)) as E.
  destruct (ExtensionRegistry.startFromConfig _ _ _) as [r w]. cbn [snd] in E.
  unfold machine at 1. rewrite <- E. destruct b; [|apply rtc_refl].
  pose proof (route_steps "sandbox" "start" (of_pairs [("middlemanUrl", JString url);
    ("updateRateMs", JInt rt)]) r w) as Hs.
  by destruct (ExtensionRegistry.routeCommand _ _ _ _ _) as [[resp r'] w'].
Qed.

Lemma poll_steps n e o : steps (machine o) (machine (poll n e o).2).
Proof.
  unfold poll. destruct (ExtensionRegistry.get n (registry o)) as [[s|s]|]; [| |apply rtc_refl].
  - pose proof (poll_sionna_steps e s (sys o)) as Hs.
    by destruct (Sionna.poll_step e s (sys o)) as [[r s'] w'].
  - unfold Sandbox.poll_step, Sandbox.pushPathLoss.
    destruct (_ && _); [|apply rtc_refl]. destruct (Sandbox.context s); [|apply rtc_refl].
    destruct (Sandbox.pathloss_entries _) as [|j es]; [apply rtc_refl|].
    unfold machine. cbn [snd sys]. rewrite http_coord. apply rtc_refl.
Qed.

Lemma sys_step_steps o o' : sys_step o o' → steps (machine o) (machine o').
Proof.
  intros [db ver request r v v' E|cfg b url rt v|v|n e v|v|v c E|v out].
  - by eapply request_steps.
  - apply start_steps.
  - unfold stop_extensions. pose proof (stopAll_steps (registry v) (sys v)) as Hs.
    by destruct (ExtensionRegistry.stopAll _ _).
  - apply poll_steps.
  - apply config_channels_steps.
  - apply rtc_once. apply (cstep_mono _ _ _ _ _ _ (λ b, @proj2 _ (mode b)) E).
  - apply rtc_refl.
Qed.

End Refinement.

Section Whole.
Import Operator.

(** C6 The operator's side as a whole, with its extensions, acts on nodes,
    intermediates and defaults by steps of the emulator's machine only: every
    command whatever it answers or throws, extension commands included, the
    start of the configured extensions and of sandbox mode, shutdown, every turn
    of the threads of the ray tracer's and of the sandbox's client whatever
    their servers answer, and every update of the positions, in any order and
    mixed with the requests of the nodes, which are served in the mode the
    sandbox extension has set.  In particular the invariant of the controller
    holds throughout every run in which no request of a node comes while the
    sandbox extension runs (see [sandbox_retune_splits] for one that does).
    Runs consist of steps of the controller and its channels without undefined
    behaviour, and of requests without NaN frequencies. *)
Theorem system_refines_machine `{Dsp, Converter, PriorityQueue, Geometry} `{Host V}
    (parse : string → option json) (coss : float → float) (mode : bool → Prop)
    (o o' : t V) (Hrun : rtc (sys_step parse coss mode) o o') :
  rtc (cstep parse coss mode) (machine o) (machine o') ∧
  ((∀ b, mode b → b = false) → inv (machine o) → inv (machine o')).
Proof.
  assert (Hs : rtc (cstep parse coss mode) (machine o) (machine o')).
  { induction Hrun as [o|o1 o2 o3 Hs _ IH]; [apply rtc_refl|].
    etrans; [by eapply sys_step_steps|done]. }
  split; [done|]. intros Hm. clear Hrun. revert Hs.
  generalize (machine o) as c1, (machine o') as c2.
  induction 1 as [c|c1 c2 c3 Hc _ IH]; [done|]. intros Hi. apply IH. by eapply cstep_inv.
Qed.

End Whole.

(** ** Witnesses *)

Section Demo.
Import Operator.

#[local] Existing Instance flat_dsp.
#[local] Existing Instance Commands.flat_geometry.

(** The operator starts the ray tracer's client; its server answers nothing. *)
Definition demo_fields : list (string * json) :=
  [("CMD", JString "EXT"); ("action", JString "start"); ("extension", JString "sionna")]%string.

#[local] Instance demo_host : Host unit := {|
  serve _ v := (None, v); parse_json _ := Some (JObject demo_fields);
  dump _ := Some ""%string; alloc _ := true |}.

Definition demo_operator : Operator.t unit := Operator.ctor (mkWorld Commands.demo false 500 tt).

(** It runs afterwards, and only it. *)
Example demo_started :
  match ExtensionRegistry.get "sionna" (registry (EXT demo_fields demo_operator).2),
        ExtensionRegistry.get "sandbox" (registry (EXT demo_fields demo_operator).2) with
  | Some a, Some b => (isRunning a, isRunning b)
  | _, _ => (false, true)
  end = (true, false).
Proof. vm_compute. reflexivity. Qed.

(** The sandbox extension switches the mode of the requests. *)
Definition sandbox_fields : list (string * json) :=
  [("CMD", JString "EXT"); ("action", JString "start"); ("extension", JString "sandbox")]%string.

Example demo_sandbox :
  sandbox_enabled (sys demo_operator) = false ∧
  sandbox_enabled (sys (EXT sandbox_fields demo_operator).2) = true.
Proof. vm_compute. by split. Qed.

(** A command, a turn of the ray tracer's client, and a request of a node (an
    unreadable one) while the sandbox extension is not running. *)
Lemma system_refines_machine_witness :
  let o1 := (EXT demo_fields demo_operator).2 in
  let o2 := (poll "sionna" fzero o1).2 in
  rtc (cstep (λ _, None) (λ x, x) (eq false)) (machine demo_operator) (machine o2) ∧
  (inv (machine demo_operator) → inv (machine o2)).
Proof.
  intros o1 o2.
  assert (Hreq : sys_step (λ _, None) (λ x, x) (eq false) demo_operator o1).
  { apply (ss_request (λ _, None) (λ x, x) (eq false) (λ _ _, false) "" ""
      (EXT demo_fields demo_operator).1). subst o1. rewrite <- surjective_pairing. reflexivity. }
  assert (Hself : ∀ o : t unit, o = mk (set_coord ((coord (sys o)) <| Coordinator.ctrl :=
    machine o |>) (sys o)) (registry o)) by by intros [[[] ? ?] ?].
  assert (Hnode : sys_step (λ _, None) (λ x, x) (eq false) o1 o1).
  { rewrite (Hself o1) at 2.
    apply (ss_machine (λ _, None) (λ x, x) (eq false) o1 (machine o1)).
    apply (cs_request _ _ _ (Controller.mkEnv 0 "" false 0 0) "" (Ok (Controller.status "fail")));
      [|done|done|done].
    split; [vm_compute; reflexivity|done]. }
  pose proof (ss_poll (λ _, None) (λ x, x) (eq false) "sionna" fzero o1) as Hpoll.
  destruct (system_refines_machine (λ _, None) (λ x, x) (eq false) demo_operator o2
    (rtc_l _ _ _ _ Hreq (rtc_l _ _ _ _ Hnode (rtc_once _ _ Hpoll)))) as [Hs Hi].
  split; [exact Hs|]. apply Hi. by intros b.
Defined.

End Demo.
