(* ===== verification/PathLoss.v ===== *)
(** The path-loss models: src/src/chem/dsp/channel.cpp, lines 51-221, and
    src/include/chem/channel_models/.

    The formulas are written once, over an arithmetic [Num] with a double and a
    single precision.  [float_num] is the program's arithmetic (the functions of
    libm are a parameter, [Libm]); RealLoss.v evaluates the same text with
    exact reals.  The draws of the random generators are arguments. *)

From Stdlib Require Import ZArith Lia Strings.String Floats.SpecFloat.
From stdpp Require Import prelude strings.
From S2P Require Import Prelude.
From S2P Require Import Ieee.
From S2P Require Import CxxLib.
From S2P Require Import Channel.

(** One precision: rounded operations, [std::pow] and the like. *)
Record arith (A : Type) : Type := mkArith {
  add : A → A → A;
  sub : A → A → A;
  mul : A → A → A;
  div : A → A → A;
  log10 : A → A;
  pow : A → A → A;
  sqrt : A → A;
  exp : A → A;
  cos : A → A;
}.

Arguments add {A} _ _ _.
Arguments sub {A} _ _ _.
Arguments mul {A} _ _ _.
Arguments div {A} _ _ _.
Arguments log10 {A} _ _.
Arguments pow {A} _ _ _.
Arguments sqrt {A} _ _.
Arguments exp {A} _ _.
Arguments cos {A} _ _.

(** [dp]: [double]; [sp]: [float]. *)
Class Num (A : Type) : Type := {
  dp : arith A;
  sp : arith A;
  lit : Z → Z → A;             (** the [double] literal [n / 10^k] *)
  lt : A → A → bool;
  le : A → A → bool;
  finite : A → bool;
  to_single : A → A;           (** [static_cast<float>] *)
}.

Declare Scope num_scope.
Delimit Scope num_scope with num.

Infix "+" := (add dp) : num_scope.
Infix "-" := (sub dp) : num_scope.
Infix "*" := (mul dp) : num_scope.
Infix "/" := (div dp) : num_scope.
Infix "+ₛ" := (add sp) (at level 50, left associativity) : num_scope.
Infix "-ₛ" := (sub sp) (at level 50, left associativity) : num_scope.
Infix "*ₛ" := (mul sp) (at level 40, left associativity) : num_scope.
Infix "/ₛ" := (div sp) (at level 40, left associativity) : num_scope.

Module PathLoss.

Inductive Environment : Type := URBAN | SUBURBAN | OPEN.

Inductive PropagationCondition : Type := LOS | NLOS.

Record ITMParams (A : Type) : Type := mkITMParams {
  freq_hz : A;
  tx_height_m : A;
  rx_height_m : A;
  refractivity : A;
  ground_conductivity : A;
  ground_permittivity : A;
  climate : Z;                 (* enum class Climate : int, 1 to 7 *)
}.

Arguments mkITMParams {A} _ _ _ _ _ _ _.
Arguments freq_hz {A} _.
Arguments tx_height_m {A} _.
Arguments rx_height_m {A} _.
Arguments refractivity {A} _.
Arguments ground_conductivity {A} _.
Arguments ground_permittivity {A} _.
Arguments climate {A} _.

Section Formulas.
Context {A : Type} `{Num A}.

#[local] Open Scope num_scope.

(** [std::max(a, b)], [std::min(a, b)] and [std::clamp]. *)
Definition max (a b : A) : A := if lt a b then b else a.

Definition min (a b : A) : A := if lt b a then b else a.

Definition clamp (x lo hi : A) : A := if lt x lo then lo else if lt hi x then hi else x.

(** A literal without fraction, and a [float] literal. *)
Definition int (n : Z) : A := lit n 0.

Definition single (n k : Z) : A := to_single (lit n k).

Definition sq (x : A) : A := pow dp x (int 2).

(** *** common.h *)

Definition PI : A := lit 314159265 8.

Definition SPEED_OF_LIGHT : A := int 299792458.

Definition EARTH_RADIUS : A := int 6371000.

Definition FSPL_CONSTANT : A := lit (-14755) 2.

Definition LOG_SAFE_GUARD : A := lit 1 4.

Definition LOG_GUARD (x : A) : A :=
  max (to_single LOG_SAFE_GUARD) (if finite x then x else int 0).

(** *** TR_38_901_3GPP.hpp

    [u] is the draw of the uniform distribution. *)

(** Lines 44-58: line of sight in the two urban scenarios. *)
Definition p_los_urban (d2d scale : A) : A :=
  let e := exp sp (sub sp (int 0) d2d /ₛ scale) in
  if le d2d (int 18) then int 1 else int 18 /ₛ d2d *ₛ (int 1 -ₛ e) +ₛ e.

Definition p_los (scenario : string) (dist : A) : A :=
  let d2d := max (int 1) dist in
  if (scenario =? "RMa")%string then
    if le d2d (int 10) then int 1
    else exp sp (sub sp (int 0) (d2d -ₛ int 10) /ₛ int 1000)
  else if (scenario =? "UMa")%string then p_los_urban d2d (int 63)
  else if (scenario =? "UMi-StreetCanyon")%string then p_los_urban d2d (int 36)
  else int 0.

Definition get_propagation_condition (u : A) (scenario : string) (dist : A)
    : PropagationCondition :=
  if lt u (p_los scenario dist) then LOS else NLOS.

Definition h_avg : A := int 5.

(** PL1 of the rural model at a distance. *)
Definition rma_pl1 (d fc : A) : A :=
  let h172 := pow dp h_avg (lit 172 2) in
  int 20 * log10 dp (int 40 * PI * d * fc / int 3)
  + min (lit 3 2 * h172) (int 10) * log10 dp d
  - min (lit 44 3 * h172) (lit 1477 2)
  + lit 2 3 * log10 dp h_avg * d.

Definition rma_los (d3D d2D fc hBS hUT : A) : A :=
  let d_BP := int 2 * PI * hBS * hUT * (fc * int 1000000000) / SPEED_OF_LIGHT in
  if le d2D d_BP then rma_pl1 d3D fc
  else
    let d3D_BP := sqrt dp (d_BP * d_BP + sq (hBS - hUT)) in
    rma_pl1 d3D_BP fc + int 40 * log10 dp (d3D / d3D_BP).

Definition calculate_path_loss_rma (dist_3d dist_2d freq_ghz ue_height bs_height : A)
    (prop_cond : PropagationCondition) : A :=
  let hBS := max (int 1) bs_height in
  let hUT := max (int 1) ue_height in
  let d3D := max (int 1) dist_3d in
  let d2D := max (int 1) dist_2d in
  let pl_los := rma_los d3D d2D freq_ghz hBS hUT in
  match prop_cond with
  | LOS => pl_los
  | NLOS =>
      let pl_nlos :=
        lit 16104 2 - lit 71 1 * log10 dp (int 20) + lit 75 1 * log10 dp h_avg
        - (lit 2437 2 - lit 37 1 * sq (h_avg / hBS)) * log10 dp hBS
        + (lit 4342 2 - lit 31 1 * log10 dp hBS) * (log10 dp d3D - int 3)
        + int 20 * log10 dp freq_ghz
        - (lit 32 1 * sq (log10 dp (lit 1175 2 * hUT)) - lit 497 2) in
      max pl_nlos pl_los
  end.

(** An integer factor makes the product single, a [double] one double. *)
Definition calculate_path_loss_uma (dist_3d freq_ghz ue_height : A)
    (prop_cond : PropagationCondition) : A :=
  let ld := log10 sp (LOG_GUARD dist_3d) in
  let lf := log10 sp (LOG_GUARD freq_ghz) in
  match prop_cond with
  | LOS => int 28 + int 22 *ₛ ld + int 20 *ₛ lf
  | NLOS => lit 1354 2 + lit 3908 2 * ld + int 20 *ₛ lf
            - lit 6 1 * (ue_height - lit 15 1)
  end.

Definition calculate_path_loss_umi (dist_3d freq_ghz ue_height : A)
    (prop_cond : PropagationCondition) : A :=
  let ld := log10 sp (LOG_GUARD dist_3d) in
  let lf := log10 sp (LOG_GUARD freq_ghz) in
  match prop_cond with
  | LOS => lit 324 1 + int 21 *ₛ ld + int 20 *ₛ lf
  | NLOS => lit 353 1 * ld + lit 224 1 + lit 213 1 * lf - lit 3 1 * (ue_height - lit 15 1)
  end.

(** [None] is the exception for an unknown scenario. *)
Definition tr_38_901 (u : A) (scenario : string) (dist freq_ghz ue_height bs_height : A)
    : option A :=
  let prop_cond := get_propagation_condition u scenario dist in
  let dist_3d := to_single (sqrt dp (dist *ₛ dist + sq (bs_height -ₛ ue_height))) in
  if (scenario =? "RMa")%string then
    Some (calculate_path_loss_rma dist_3d dist freq_ghz ue_height bs_height prop_cond)
  else if (scenario =? "UMa")%string then
    Some (calculate_path_loss_uma dist_3d freq_ghz ue_height prop_cond)
  else if (scenario =? "UMi-StreetCanyon")%string then
    Some (calculate_path_loss_umi dist_3d freq_ghz ue_height prop_cond)
  else None.

(** *** okumura_hata.hpp *)

Definition EnvironmentFromString (env : string) : Environment :=
  if (env =? "URBAN")%string then URBAN
  else if (env =? "SUBURBAN")%string then SUBURBAN
  else if (env =? "OPEN")%string then OPEN
  else URBAN.

Definition mobile_correction (freq_mhz h_ms : A) : A :=
  let log_fc := log10 dp (max (int 1) freq_mhz) in
  (lit 11 1 * log_fc - lit 7 1) * h_ms - (lit 156 2 * log_fc - lit 8 1).

Definition calculate_urban (freq_mhz dist_km h_bs h_ms : A) : A :=
  let fc := clamp freq_mhz (int 150) (int 1500) in
  let d := max (lit 1 1) dist_km in
  let hb := clamp h_bs (int 1) (int 200) in
  let hm := clamp h_ms (int 1) (int 10) in
  let log_fc := log10 dp fc in
  let a_hm := mobile_correction fc hm in
  lit 6955 2 + lit 2616 2 * log_fc - lit 1382 2 * log10 dp hb - a_hm
  + (lit 449 1 - lit 655 2 * log10 dp hb) * log10 dp d.

Definition okumura_hata (freq_hz dist_m h_bs h_ms : A) (env : Environment) : A :=
  let freq_mhz := freq_hz / int 1000000 in
  let dist_km := dist_m / int 1000 in
  let pl := calculate_urban freq_mhz dist_km h_bs h_ms in
  match env with
  | SUBURBAN =>
      let log_ratio := log10 dp (freq_mhz / int 28) in
      pl - (int 2 * log_ratio * log_ratio + lit 54 1)
  | OPEN =>
      let log_fc := log10 dp freq_mhz in
      pl - (lit 478 2 * log_fc * log_fc - lit 1833 2 * log_fc + lit 4094 2)
  | URBAN => pl
  end.

(** *** longley_rice.hpp *)

Definition effective_earth_radius_factor (N_s : A) : A :=
  int 1 / (int 1 - lit 4665 5 * exp dp (lit 5577 6 * N_s)).

Definition horizon_distance (h k_factor : A) : A :=
  sqrt dp (int 2 * k_factor * EARTH_RADIUS * max (lit 1 2) h).

Definition knife_edge_loss (v : A) : A :=
  if le v (lit (-78) 2) then int 0
  else if lt v (int 0) then lit 602 2 + lit 911 2 * v - lit 127 2 * v * v
  else lit 602 2 + int 9 * v + lit 165 2 * v * v.

Definition los_distance (params : ITMParams A) (k_factor : A) : A :=
  horizon_distance (tx_height_m params) k_factor + horizon_distance (rx_height_m params) k_factor.

Definition diffraction_loss (dist_m freq_hz : A) (params : ITMParams A) (k_factor : A) : A :=
  let lambda := SPEED_OF_LIGHT / freq_hz in
  let a_e := k_factor * EARTH_RADIUS in
  let d_los := los_distance params k_factor in
  if le dist_m d_los then int 0
  else
    let d_beyond := dist_m - d_los in
    let h_eff := d_beyond * d_beyond / (int 2 * a_e) in
    let d_eff := d_los * d_beyond / max (int 1) (d_los + d_beyond) in
    let v := h_eff * sqrt dp (int 2 / (lambda * d_eff)) in
    knife_edge_loss v.

Definition troposcatter_loss (dist_m freq_hz : A) (params : ITMParams A) (k_factor : A) : A :=
  let freq_mhz := freq_hz / int 1000000 in
  let dist_km := dist_m / int 1000 in
  let a_e := k_factor * EARTH_RADIUS in
  let theta_s := dist_m / a_e - tx_height_m params / max (int 1) dist_m
                 - rx_height_m params / max (int 1) dist_m in
  if le theta_s (int 0) then int 0
  else
    let theta_deg := theta_s * (int 180 / PI) in
    let freq_ghz := freq_mhz / int 1000 in
    lit 1901 1 + int 20 * log10 dp (max (lit 1 3) freq_ghz)
    + int 20 * log10 dp (max (lit 1 2) dist_km) + lit 573 3 * theta_deg
    - lit 15 2 * refractivity params.

Definition longley_rice (dist_m : A) (params : ITMParams A) : A :=
  let d := max (int 1) dist_m in
  let freq := max (int 1000000) (freq_hz params) in
  let k_factor := effective_earth_radius_factor (refractivity params) in
  let fspl := int 20 * log10 dp d + int 20 * log10 dp freq + FSPL_CONSTANT in
  if le d (los_distance params k_factor) then fspl
  else
    let l_diff := diffraction_loss d freq params k_factor in
    let l_tropo := troposcatter_loss d freq params k_factor in
    fspl + min l_diff l_tropo.

(** *** dsp/channel.cpp

    [z] is the draw of the normal distribution of that deviation. *)

Definition shadowed (shadowing_std z pl_db : A) : A :=
  to_single (if lt (int 0) shadowing_std then pl_db + z else pl_db).

(** [std::isfinite(frequency_hz) && frequency_hz > 0.0f]. *)
Definition usable_freq (frequency_hz : A) : bool := finite frequency_hz && lt (int 0) frequency_hz.

Definition calc_fspl (z distance_m frequency_hz shadowing_std : A) : A :=
  shadowed shadowing_std z
    (int 20 * log10 sp frequency_hz + int 20 * log10 dp (distance_m + LOG_SAFE_GUARD)
     + FSPL_CONSTANT).

Definition calc_3gpp_38_901 (u z distance_m frequency_hz ue_height bs_height : A)
    (scenario : string) (shadowing_std : A) : A :=
  let pl_db :=
    if usable_freq frequency_hz then
      default (int 0) (tr_38_901 u scenario distance_m (frequency_hz /ₛ int 1000000000)
                         ue_height bs_height)
    else int 0 in
  shadowed shadowing_std z pl_db.

(** Lines 121-132. *)
Definition two_ray (d1 d2 gamma frequency_hz : A) : A :=
  let lambda := SPEED_OF_LIGHT / frequency_hz in
  let k := int 2 * PI / max (lit 1 12) lambda in
  let phase := k * (d2 - d1) in
  let a := int 1 / max (lit 1 12) d1 in
  let b := gamma / max (lit 1 12) d2 in
  let e_mag2 := max (lit 1 20) (a * a + b * b + int 2 * a * b * cos dp phase) in
  let pl_lin := sq (int 4 * PI / lambda) / e_mag2 in
  int 10 * log10 dp (max (lit 1 20) pl_lin).

Definition calc_2ray (z distance_m frequency_hz tx_height rx_height ground_coeff shadowing_std : A)
    : A :=
  let d := max (int 0) distance_m in
  let ht := max (single 1 2) tx_height in
  let hr := max (single 1 2) rx_height in
  let d1 := sqrt sp (d *ₛ d +ₛ pow sp (ht -ₛ hr) (int 2)) in
  let d2 := sqrt sp (d *ₛ d +ₛ pow sp (ht +ₛ hr) (int 2)) in
  let gamma := if finite ground_coeff then clamp ground_coeff (int (-1)) (int 1) else int (-1) in
  shadowed shadowing_std z
    (if usable_freq frequency_hz then two_ray d1 d2 gamma frequency_hz else int 0).

Definition calc_okumura_hata (z distance_m frequency_hz bs_height ms_height : A)
    (environment : string) (shadowing_std : A) : A :=
  shadowed shadowing_std z
    (if usable_freq frequency_hz
     then okumura_hata frequency_hz distance_m bs_height ms_height
            (EnvironmentFromString environment)
     else int 0).

(** Conductivity, permittivity and climate are set and read by no formula. *)
Definition calc_longley_rice (z distance_m frequency_hz tx_height rx_height refr : A)
    (conductivity permittivity : A) (climate_zone : Z) (shadowing_std : A) : A :=
  let params := {|
    freq_hz := frequency_hz;
    tx_height_m := max (single 1 2) tx_height;
    rx_height_m := max (single 1 2) rx_height;
    refractivity := refr;
    ground_conductivity := conductivity;
    ground_permittivity := permittivity;
    climate := clampZ 1 7 climate_zone |} in
  shadowed shadowing_std z
    (if usable_freq frequency_hz then longley_rice distance_m params else int 0).

End Formulas.

End PathLoss.

(** ** The program's arithmetic *)

(** libm, in both precisions. *)
Class Libm : Type := {
  log10_d : float → float;  log10_f : float → float;
  pow_d : float → float → float;  pow_f : float → float → float;
  sqrt_d : float → float;  sqrt_f : float → float;
  exp_d : float → float;  exp_f : float → float;
  cos_d : float → float;
}.

#[export] Instance float_num `{Libm} : Num float := {|
  dp := mkArith float F64.add F64.sub F64.mul F64.div log10_d pow_d sqrt_d exp_d cos_d;
  sp := mkArith float F32.add F32.sub F32.mul F32.div log10_f pow_f sqrt_f exp_f
          (λ x, F32.of_float (cos_d x));
  lit := F64.lit;
  lt := flt;
  le := fle;
  finite := isfinite;
  to_single := F32.of_float |}.

(** The kernels a link calls, with these models for the path loss and given
    draws: what Channel.v proves of any [Dsp] holds of it. *)
Definition with_models `{Libm} (base : Dsp) (u z : float) : Dsp := {|
  resample := resample;
  fc32_mul_scalar := fc32_mul_scalar;
  fc32_mul_scalar_sum := fc32_mul_scalar_sum;
  fc32_lshift := fc32_lshift;
  calc_power := calc_power;
  apply_cir := apply_cir;
  get_noise := get_noise;
  apply_frequency_offset := apply_frequency_offset;
  compute_antenna_gain_db := compute_antenna_gain_db;
  calc_fspl := PathLoss.calc_fspl z;
  calc_2ray := PathLoss.calc_2ray z;
  calc_3gpp_38_901 := PathLoss.calc_3gpp_38_901 u z;
  calc_okumura_hata := PathLoss.calc_okumura_hata z;
  calc_longley_rice := PathLoss.calc_longley_rice z;
  log10f := log10_f;
  pow10f := pow_f (F32.of_Z 10);
  sqrtf := sqrt_f |}.
