(* ===== verification/RealLoss.v ===== *)
(** The path-loss models of PathLoss.v in exact arithmetic: how they order
    against free space and against each other, and where they depart from the
    models they are named after. *)

From Stdlib Require Import ZArith Lia Reals Lra Strings.String.
From stdpp Require Import prelude strings.
From S2P Require Import Prelude.
From S2P Require Import PathLoss.
Import PathLoss.

#[local] Open Scope R_scope.

(** ** Exact arithmetic *)

Definition rlog10 (x : R) : R := ln x / ln 10.

Definition rpow (x y : R) : R := if Req_EM_T y 2 then x * x else Rpower x y.

Definition rlit (n k : Z) : R := IZR n / IZR (10 ^ k).

Definition rlt (x y : R) : bool := if Rlt_dec x y then true else false.

Definition rle (x y : R) : bool := if Rle_dec x y then true else false.

Definition real_arith : arith R :=
  mkArith R Rplus Rminus Rmult Rdiv rlog10 rpow R_sqrt.sqrt Rtrigo_def.exp Rtrigo_def.cos.

#[export] Instance real_num : Num R := {|
  dp := real_arith; sp := real_arith; lit := rlit; lt := rlt; le := rle;
  finite _ := true; to_single x := x |}.

(** Operations and literals of the formulas as those of [R]. *)
Ltac reals :=
  cbn [add sub mul div log10 pow sqrt exp cos dp sp lit lt le finite to_single
       real_num real_arith] in *;
  unfold int, single, sq, rlit in *;
  cbn [add sub mul div log10 pow sqrt exp cos dp sp lit lt le finite to_single
       real_num real_arith] in *;
  unfold rlit in *;
  repeat match goal with
  | |- context [IZR (10 ^ ?k)] => let v := eval vm_compute in (10 ^ k)%Z in change (10 ^ k)%Z with v
  | Hx : context [IZR (10 ^ ?k)] |- _ =>
      let v := eval vm_compute in (10 ^ k)%Z in change (10 ^ k)%Z with v in Hx
  end;
  rewrite ?Rdiv_1_r in *.

Section Basics.

Lemma ln10_pos : 0 < ln 10.
Proof. rewrite <- ln_1. apply ln_increasing; lra. Qed.

Lemma log10_le x y : 0 < x → x <= y → rlog10 x <= rlog10 y.
Proof.
  intros Hx Hy. unfold rlog10. apply Rmult_le_compat_r.
  - left. apply Rinv_0_lt_compat, ln10_pos.
  - destruct Hy as [Hy| ->]; [left; by apply ln_increasing|right; done].
Qed.

Lemma log10_lt x y : 0 < x → x < y → rlog10 x < rlog10 y.
Proof.
  intros Hx Hy. unfold rlog10. apply Rmult_lt_compat_r.
  - apply Rinv_0_lt_compat, ln10_pos.
  - by apply ln_increasing.
Qed.

Lemma log10_10 : rlog10 10 = 1.
Proof. unfold rlog10. pose proof ln10_pos. field. lra. Qed.

Lemma log10_1 : rlog10 1 = 0.
Proof. unfold rlog10. rewrite ln_1. pose proof ln10_pos. field. lra. Qed.

Lemma log10_mult x y : 0 < x → 0 < y → rlog10 (x * y) = rlog10 x + rlog10 y.
Proof. intros Hx Hy. unfold rlog10. rewrite ln_mult by done. pose proof ln10_pos. field. lra. Qed.

Lemma log10_inv x : 0 < x → rlog10 (/ x) = - rlog10 x.
Proof. intros Hx. unfold rlog10. rewrite ln_Rinv by done. pose proof ln10_pos. field. lra. Qed.

Lemma log10_div x y : 0 < x → 0 < y → rlog10 (x / y) = rlog10 x - rlog10 y.
Proof.
  intros Hx Hy. unfold Rdiv. rewrite log10_mult, log10_inv; [lra|done..|].
  by apply Rinv_0_lt_compat.
Qed.

Lemma log10_100 : rlog10 100 = 2.
Proof. replace 100 with (10 * 10) by lra. rewrite log10_mult, log10_10; lra. Qed.

Lemma log10_1000 : rlog10 1000 = 3.
Proof. replace 1000 with (100 * 10) by lra. rewrite log10_mult, log10_100, log10_10; lra. Qed.

Lemma rlt_spec x y : reflect (x < y) (rlt x y).
Proof. unfold rlt. destruct (Rlt_dec x y); by constructor. Qed.

Lemma rle_spec x y : reflect (x <= y) (rle x y).
Proof. unfold rle. destruct (Rle_dec x y); by constructor. Qed.

Lemma max_Rmax x y : max x y = Rmax x y.
Proof.
  unfold max. reals. destruct (rlt_spec x y).
  - rewrite Rmax_right; [done|lra].
  - rewrite Rmax_left; [done|lra].
Qed.

Lemma min_Rmin x y : min x y = Rmin x y.
Proof.
  unfold min. reals. destruct (rlt_spec y x).
  - rewrite Rmin_right; [done|lra].
  - rewrite Rmin_left; [done|lra].
Qed.

Lemma clamp_range x lo hi : lo <= hi → lo <= clamp x lo hi <= hi.
Proof.
  intros Hle. unfold clamp. reals. destruct (rlt_spec x lo); [lra|].
  destruct (rlt_spec hi x); lra.
Qed.

Lemma shadowed_off z x : shadowed 0 z x = x.
Proof. unfold shadowed. reals. destruct (rlt_spec 0 0); [lra|done]. Qed.

Lemma usable f : 0 < f → usable_freq f = true.
Proof. intros Hf. unfold usable_freq. reals. by destruct (rlt_spec 0 f). Qed.

Lemma log_guard x : LOG_SAFE_GUARD <= x → LOG_GUARD x = x.
Proof.
  intros Hx. unfold LOG_GUARD. rewrite max_Rmax. reals. unfold LOG_SAFE_GUARD in *. reals.
  by apply Rmax_right.
Qed.

End Basics.

(** ** 3GPP TR 38.901 *)

Section Urban.

Lemma guard_pos x : 0 < LOG_GUARD x.
Proof.
  unfold LOG_GUARD. rewrite max_Rmax. unfold LOG_SAFE_GUARD. reals.
  eapply Rlt_le_trans; [|apply Rmax_l]. lra.
Qed.

Lemma guard_le x b : 1 <= b → x <= b → LOG_GUARD x <= b.
Proof.
  intros Hb Hx. unfold LOG_GUARD. rewrite max_Rmax. unfold LOG_SAFE_GUARD. reals.
  apply Rmax_lub; lra.
Qed.

Lemma guard_ge x : x <= LOG_GUARD x.
Proof. unfold LOG_GUARD. rewrite max_Rmax. reals. apply Rmax_r. Qed.

Lemma uma_difference d f h :
  calculate_path_loss_uma d f h NLOS - calculate_path_loss_uma d f h LOS
  = 17.08 * rlog10 (LOG_GUARD d) - 14.46 - 0.6 * (h - 1.5).
Proof. unfold calculate_path_loss_uma. reals. lra. Qed.

Lemma umi_difference d f h :
  calculate_path_loss_umi d f h NLOS - calculate_path_loss_umi d f h LOS
  = 14.3 * rlog10 (LOG_GUARD d) + 1.3 * rlog10 (LOG_GUARD f) - 10 - 0.3 * (h - 1.5).
Proof. unfold calculate_path_loss_umi. reals. lra. Qed.

Lemma rma_nlos_max d3 d2 f h hb :
  calculate_path_loss_rma d3 d2 f h hb LOS <= calculate_path_loss_rma d3 d2 f h hb NLOS.
Proof. unfold calculate_path_loss_rma. rewrite (max_Rmax _ (rma_los _ _ _ _ _)). apply Rmax_r. Qed.

(** The loss of a scenario that is not one of the three, at any frequency. *)
Lemma unknown_scenario_loses_nothing u z d f h hb name std :
  name ≠ "RMa" → name ≠ "UMa" → name ≠ "UMi-StreetCanyon" →
  calc_3gpp_38_901 u z d f h hb name std = if Rlt_dec 0 std then z else 0.
Proof.
  intros Hr Ha Hi. unfold calc_3gpp_38_901, tr_38_901, shadowed.
  rewrite (proj2 (String.eqb_neq name _) Hr), (proj2 (String.eqb_neq name _) Ha),
    (proj2 (String.eqb_neq name _) Hi).
  cbn [from_option]. destruct (usable_freq f); reals; unfold rlt;
    (replace (0 / 1) with 0 by lra); destruct (Rlt_dec 0 std); lra.
Qed.

(** C32 In exact arithmetic, an obstructed urban path can be the better one.
    The rural loss without line of sight is never below the loss with it, at
    any frequency, heights and distances.  The two urban losses are, because
    the maximum of the two is not taken: in the macro cell for a user at least
    63 m up, at any frequency and every distance up to a kilometre, in the
    street canyon for a user at least 120 m up, at frequencies up to 100 GHz
    and the same distances.  For a user at most 1.5 m up both urban losses
    without line of sight are the larger ones from 10 m on, the street
    canyon's at frequencies from 1 GHz.  A scenario of any name but the three
    the model knows loses nothing, whatever the frequency: what is left is the
    draw of the shadowing, if that is on. *)
Theorem nlos_below_los_aloft (d d3 d2 f h hb : R) :
  calculate_path_loss_rma d3 d2 f h hb LOS <= calculate_path_loss_rma d3 d2 f h hb NLOS
  ∧ (63 <= h → d <= 1000 →
     calculate_path_loss_uma d f h NLOS < calculate_path_loss_uma d f h LOS)
  ∧ (f <= 100 → 120 <= h → d <= 1000 →
     calculate_path_loss_umi d f h NLOS < calculate_path_loss_umi d f h LOS)
  ∧ (h <= 1.5 → 10 <= d →
     calculate_path_loss_uma d f h LOS < calculate_path_loss_uma d f h NLOS)
  ∧ (1 <= f → h <= 1.5 → 10 <= d →
     calculate_path_loss_umi d f h LOS < calculate_path_loss_umi d f h NLOS)
  ∧ (∀ u z name std, name ≠ "RMa" → name ≠ "UMa" → name ≠ "UMi-StreetCanyon" →
     calc_3gpp_38_901 u z d f h hb name std = if Rlt_dec 0 std then z else 0).
Proof.
  pose proof (uma_difference d f h) as Ea. pose proof (umi_difference d f h) as Ei.
  pose proof (guard_pos d) as Hd. pose proof (guard_pos f) as Hf.
  assert (Hlow : 1 <= f → 0 <= rlog10 (LOG_GUARD f)).
  { intros Hle. rewrite <- log10_1. apply log10_le; [lra|]. pose proof (guard_ge f). lra. }
  assert (Hhigh : f <= 100 → rlog10 (LOG_GUARD f) <= 2).
  { intros Hle. rewrite <- log10_100. apply log10_le; [done|]. apply guard_le; lra. }
  assert (Hfar : d <= 1000 → rlog10 (LOG_GUARD d) <= 3).
  { intros Hle. rewrite <- log10_1000. apply log10_le; [done|]. apply guard_le; lra. }
  assert (Hnear : 10 <= d → 1 <= rlog10 (LOG_GUARD d)).
  { intros Hge. rewrite <- log10_10 at 1. apply log10_le; [lra|]. pose proof (guard_ge d). lra. }
  split_and!.
  - apply rma_nlos_max.
  - intros Hh Hle. specialize (Hfar Hle). lra.
  - intros Hf2 Hh Hle. specialize (Hhigh Hf2). specialize (Hfar Hle). lra.
  - intros Hh Hge. specialize (Hnear Hge). lra.
  - intros Hf1 Hh Hge. specialize (Hlow Hf1). specialize (Hnear Hge). lra.
  - intros u z name std. apply unknown_scenario_loses_nothing.
Qed.

Lemma nlos_below_los_aloft_witness :
  calculate_path_loss_uma 500 3 100 NLOS < calculate_path_loss_uma 500 3 100 LOS
  ∧ calculate_path_loss_umi 500 3 1 LOS < calculate_path_loss_umi 500 3 1 NLOS
  ∧ calc_3gpp_38_901 0 2 500 3 100 10 "UMi" 0 = 0.
Proof.
  destruct (nlos_below_los_aloft 500 500 500 3 100 10) as (_ & Ha & _ & _ & _ & Hn).
  destruct (nlos_below_los_aloft 500 500 500 3 1 10) as (_ & _ & _ & _ & Hg & _).
  split; [apply Ha; lra|]. split; [apply Hg; lra|].
  rewrite Hn by discriminate. destruct (Rlt_dec 0 0); [lra|done].
Defined.

End Urban.

(** ** Okumura-Hata *)

Section Hata.

(** The part of the urban loss the frequency enters, as a line in its log. *)
Definition hata_slope (h_ms : R) : R := 27.72 - 1.1 * clamp h_ms 1 10.

Lemma int_R n : int n = IZR n :> R.
Proof. reals. lra. Qed.

Lemma clamp_mid x lo hi : lo <= x <= hi → clamp x lo hi = x.
Proof.
  intros Hx. unfold clamp. reals. destruct (rlt_spec x lo); [lra|].
  destruct (rlt_spec hi x); lra.
Qed.

Lemma clamp_above x lo hi : lo <= hi → hi <= x → clamp x lo hi = hi.
Proof.
  intros Hlh Hx. unfold clamp. reals. destruct (rlt_spec x lo); [lra|].
  destruct (rlt_spec hi x); lra.
Qed.

(** What two frequencies differ by, all else equal. *)
Lemma urban_frequency f g d hb hm :
  calculate_urban f d hb hm - calculate_urban g d hb hm
  = hata_slope hm * (rlog10 (clamp f 150 1500) - rlog10 (clamp g 150 1500)).
Proof.
  unfold calculate_urban, mobile_correction, hata_slope. rewrite !int_R, !max_Rmax.
  pose proof (clamp_range f 150 1500). pose proof (clamp_range g 150 1500).
  rewrite !(Rmax_right 1) by lra. reals. lra.
Qed.

(** What two distances differ by. *)
Lemma urban_distance f d e hb hm :
  calculate_urban f d hb hm - calculate_urban f e hb hm
  = (44.9 - 6.55 * rlog10 (clamp hb 1 200)) * (rlog10 (Rmax 0.1 d) - rlog10 (Rmax 0.1 e)).
Proof.
  unfold calculate_urban. rewrite !int_R, !max_Rmax. reals.
  replace (1 / 10) with 0.1 by lra. lra.
Qed.

Lemma hata_slope_pos hm : 16.72 <= hata_slope hm <= 26.62.
Proof. unfold hata_slope. pose proof (clamp_range hm 1 10). lra. Qed.

Lemma distance_slope_pos hb : 0 < 44.9 - 6.55 * rlog10 (clamp hb 1 200).
Proof.
  pose proof (clamp_range hb 1 200).
  assert (rlog10 (clamp hb 1 200) <= 3); [|lra].
  rewrite <- log10_1000. apply log10_le; lra.
Qed.

(** The correction of an environment at a frequency. *)
Definition hata_correction (f_mhz : R) (env : Environment) : R :=
  match env with
  | URBAN => 0
  | SUBURBAN => 2 * (rlog10 f_mhz - rlog10 28) ^ 2 + 5.4
  | OPEN => 4.78 * rlog10 f_mhz ^ 2 - 18.33 * rlog10 f_mhz + 40.94
  end.

Lemma okumura_hata_split f d hb hm env :
  0 < f →
  okumura_hata (f * 1000000) d hb hm env
  = calculate_urban f (d / 1000) hb hm - hata_correction f env.
Proof.
  intros Hf. unfold okumura_hata. rewrite !int_R. reals.
  replace (f * 1000000 / 1000000) with f by field.
  destruct env; cbn [hata_correction].
  - lra.
  - rewrite log10_div by lra. lra.
  - lra.
Qed.

Lemma log10_1500 : 3 < rlog10 1500 <= 3.2.
Proof.
  assert (H : rlog10 1.5 <= 0.2).
  { assert (5 * rlog10 1.5 <= rlog10 10) as Hp; [|rewrite log10_10 in Hp; lra].
    replace (5 * rlog10 1.5) with (rlog10 (1.5 * (1.5 * (1.5 * (1.5 * 1.5)))))
      by (rewrite !log10_mult by lra; lra).
    apply log10_le; lra. }
  assert (0 < rlog10 1.5) by (rewrite <- log10_1; apply log10_lt; lra).
  replace 1500 with (1000 * 1.5) by lra. rewrite log10_mult, log10_1000; lra.
Qed.

Lemma log10_28 : 1 <= rlog10 28 <= 2.
Proof. rewrite <- log10_10 at 1. rewrite <- log10_100. split; apply log10_le; lra. Qed.

(** Inside the model's range the correction grows less than the urban loss. *)
Lemma correction_in_range k x y env :
  16.72 <= k → 10 ^ 2 <= x → x < y → y <= 1500 →
  hata_correction y env - hata_correction x env < k * (rlog10 y - rlog10 x).
Proof.
  intros Hk Hx Hxy Hy. pose proof log10_1500. pose proof log10_28.
  assert (rlog10 x < rlog10 y) by (apply log10_lt; lra).
  assert (rlog10 y <= rlog10 1500) by (apply log10_le; lra).
  assert (0 <= rlog10 x) by (rewrite <- log10_1; apply log10_le; lra).
  destruct env; cbn [hata_correction]; nra.
Qed.

Lemma correction_above x y env :
  1500 <= x → x < y →
  match env with
  | URBAN => hata_correction x env = hata_correction y env
  | _ => hata_correction x env < hata_correction y env
  end.
Proof.
  intros Hx Hxy. pose proof log10_1500. pose proof log10_28.
  assert (rlog10 x < rlog10 y) by (apply log10_lt; lra).
  assert (rlog10 1500 <= rlog10 x) by (apply log10_le; lra).
  destruct env; cbn [hata_correction]; nra.
Qed.

Lemma calc_okumura_hata_split z d f hb hm e :
  0 < f →
  calc_okumura_hata z d (f * 1000000) hb hm e 0
  = calculate_urban f (d / 1000) hb hm - hata_correction f (EnvironmentFromString e).
Proof.
  intros Hf. unfold calc_okumura_hata.
  rewrite shadowed_off, usable, okumura_hata_split by lra. done.
Qed.

(** C34 The Hata loss over frequency and distance, in exact arithmetic.  From 150 to 1500 MHz it
    grows with the frequency in every environment.  Above, the urban loss keeps
    its value at 1500 MHz, since its frequency is clamped, but the suburban and
    open corrections go on growing with the frequency that was asked for: there
    the loss falls as the frequency rises.  It grows with the distance, from
    100 m on. *)
Theorem hata_frequency_inversion z d hb hm e f g :
  150 <= f → f < g →
  let loss d f := calc_okumura_hata z d (f * 1000000) hb hm e 0 in
  (g <= 1500 → loss d f < loss d g)
  ∧ (1500 <= f →
     match EnvironmentFromString e with
     | URBAN => loss d g = loss d f
     | _ => loss d g < loss d f
     end)
  ∧ (∀ d', 100 <= d → d < d' → loss d f < loss d' f).
Proof.
  intros Hf Hfg loss. subst loss. cbn beta. rewrite !calc_okumura_hata_split by lra.
  pose proof (urban_frequency f g (d / 1000) hb hm) as Hd.
  pose proof (hata_slope_pos hm) as Hs. split_and!.
  - intros Hg. rewrite !clamp_mid in Hd by lra.
    pose proof (correction_in_range (hata_slope hm) f g (EnvironmentFromString e)). lra.
  - intros Hf'. rewrite !clamp_above in Hd by lra.
    pose proof (correction_above f g (EnvironmentFromString e) Hf' Hfg).
    destruct (EnvironmentFromString e); lra.
  - intros d' Hd1 Hdd. rewrite calc_okumura_hata_split by lra.
    pose proof (urban_distance f (d / 1000) (d' / 1000) hb hm) as He.
    rewrite !Rmax_right in He by lra. pose proof (distance_slope_pos hb).
    assert (rlog10 (d / 1000) < rlog10 (d' / 1000)) by (apply log10_lt; lra). nra.
Qed.

Lemma hata_frequency_inversion_witness :
  calc_okumura_hata 0 1000 (3500 * 1000000) 30 1.5 "OPEN" 0
  < calc_okumura_hata 0 1000 (2000 * 1000000) 30 1.5 "OPEN" 0.
Proof.
  assert (H1 : 150 <= 2000) by lra. assert (H2 : 2000 < 3500) by lra.
  destruct (hata_frequency_inversion 0 1000 30 1.5 "OPEN" 2000 3500 H1 H2) as (_ & Ha & _).
  apply Ha. lra.
Defined.

End Hata.

(** ** Longley-Rice *)

Section LongleyRice.

Definition free_space (d f : R) : R := 20 * rlog10 d + 20 * rlog10 f - 147.55.

Definition earth (n : R) : R := effective_earth_radius_factor n * 6371000.

Definition horizon (n ht hr : R) : R :=
  R_sqrt.sqrt (2 * earth n * Rmax 0.01 ht) + R_sqrt.sqrt (2 * earth n * Rmax 0.01 hr).

Lemma exp_5_2 : Rtrigo_def.exp 2.5 <= 16.
Proof.
  assert (H : Rtrigo_def.exp 2.5 * Rtrigo_def.exp 2.5 <= 243).
  { rewrite <- exp_plus.
    replace (2.5 + 2.5) with (1 + (1 + (1 + (1 + 1)))) by lra. rewrite !exp_plus.
    pose proof exp_le_3. pose proof (exp_pos 1).
    replace 243 with (3 * (3 * (3 * (3 * 3)))) by lra.
    repeat (apply Rmult_le_compat; [lra|nra| |]; try lra). }
  pose proof (exp_pos 2.5). nra.
Qed.

Lemma radius_factor n : n <= 448 → 1 <= effective_earth_radius_factor n.
Proof.
  intros Hn. unfold effective_earth_radius_factor. reals.
  set (x := Rtrigo_def.exp _).
  assert (Hx : 0 < x <= 16).
  { split; [apply exp_pos|]. etrans; [|apply exp_5_2]. subst x.
    destruct (Rle_lt_or_eq_dec (5577 / 1000000 * n) 2.5) as [Hl| ->]; [lra| |lra].
    left. by apply exp_increasing. }
  apply (Rmult_le_reg_r (1 - 4665 / 100000 * x)); [lra|].
  unfold Rdiv at 2. rewrite !Rmult_1_l, Rinv_l by lra. lra.
Qed.

Lemma earth_pos n : n <= 448 → 0 < earth n.
Proof. intros Hn. unfold earth. pose proof (radius_factor n Hn). lra. Qed.

Lemma los_horizon n p :
  los_distance p (effective_earth_radius_factor n) = horizon n (tx_height_m p) (rx_height_m p).
Proof.
  unfold los_distance, horizon_distance, horizon, earth, EARTH_RADIUS. rewrite !int_R, !max_Rmax.
  reals. replace (1 / 100) with 0.01 by lra. by rewrite <- !Rmult_assoc.
Qed.

Lemma knife_edge_beyond v : 0 <= v → 6.02 <= knife_edge_loss v.
Proof.
  intros Hv. unfold knife_edge_loss. rewrite !int_R. reals.
  destruct (rle_spec v (-78 / 100)); [lra|]. destruct (rlt_spec v 0); [lra|]. nra.
Qed.

Lemma diffraction_beyond n p d f :
  n <= 448 → horizon n (tx_height_m p) (rx_height_m p) < d → 0 < f →
  6.02 <= diffraction_loss d f p (effective_earth_radius_factor n).
Proof.
  intros Hn Hd Hf. unfold diffraction_loss. rewrite !los_horizon. cbn zeta. rewrite !int_R.
  set (l := horizon _ _ _) in *. reals. destruct (rle_spec d l); [lra|].
  apply knife_edge_beyond. apply Rmult_le_pos; [|apply sqrt_pos].
  apply Rle_mult_inv_pos; [nra|]. pose proof (earth_pos n Hn). unfold earth in *.
  unfold EARTH_RADIUS. rewrite int_R. lra.
Qed.

(** Beyond the horizon the scatter angle is positive. *)
Lemma scatter_angle n ht hr d :
  n <= 448 → 0 <= ht → 0 <= hr → 1 <= d → horizon n ht hr < d →
  0 < d / earth n - ht / d - hr / d.
Proof.
  intros Hn Ht Hr Hd Hh. pose proof (earth_pos n Hn) as Ha. unfold horizon in Hh.
  set (a := earth n) in *.
  set (x := R_sqrt.sqrt (2 * a * Rmax 0.01 ht)) in *.
  set (y := R_sqrt.sqrt (2 * a * Rmax 0.01 hr)) in *.
  pose proof (Rmax_l 0.01 ht). pose proof (Rmax_r 0.01 ht).
  pose proof (Rmax_l 0.01 hr). pose proof (Rmax_r 0.01 hr).
  assert (Hx : x * x = 2 * a * Rmax 0.01 ht) by (apply sqrt_sqrt; nra).
  assert (Hy : y * y = 2 * a * Rmax 0.01 hr) by (apply sqrt_sqrt; nra).
  assert (0 <= x) by apply sqrt_pos. assert (0 <= y) by apply sqrt_pos.
  assert (Hdd : a * (ht + hr) < d * d) by nra.
  replace (d / a - ht / d - hr / d) with ((d * d - a * (ht + hr)) / (a * d)) by (field; lra).
  apply Rdiv_lt_0_compat; nra.
Qed.

Lemma troposcatter_beyond n p d f :
  n = refractivity p → n <= 448 → 0 <= tx_height_m p → 0 <= rx_height_m p → 1 <= d →
  horizon n (tx_height_m p) (rx_height_m p) < d →
  6.02 <= troposcatter_loss d f p (effective_earth_radius_factor n).
Proof.
  intros Hp Hn Ht Hr Hd Hh. unfold troposcatter_loss, EARTH_RADIUS. cbn zeta.
  rewrite !int_R, !max_Rmax, <- Hp. reals. rewrite (Rmax_right 1 d) by done.
  pose proof (scatter_angle n _ _ d Hn Ht Hr Hd Hh) as Hth. unfold earth in Hth.
  set (th := d / _ - _ - _) in *. destruct (rle_spec th 0); [lra|].
  assert (Hfq : -3 <= rlog10 (Rmax (1 / 1000) (f / 1000000 / 1000))).
  { assert (Hl : rlog10 (1 / 1000) = -3) by (rewrite log10_div, log10_1, log10_1000; lra).
    rewrite <- Hl. apply log10_le; [lra|apply Rmax_l]. }
  assert (Hdk : -2 <= rlog10 (Rmax (1 / 100) (d / 1000))).
  { assert (Hl : rlog10 (1 / 100) = -2) by (rewrite log10_div, log10_1, log10_100; lra).
    rewrite <- Hl. apply log10_le; [lra|apply Rmax_l]. }
  assert (0 <= th * (180 / PI)).
  { apply Rmult_le_pos; [lra|]. unfold PI. reals. lra. }
  lra.
Qed.

(** The terrain loss against free space, in exact arithmetic: up to the two horizons (of the
    Earth enlarged by the refractivity, up to 448 N-units) it is the free-space
    loss exactly; one step further it is at least 6 dB above it, so the loss
    jumps at the horizon. *)
Theorem longley_rice_at_horizon z d f ht hr n sigma eps zone :
  1 <= d → 1000000 <= f → n <= 448 →
  let l := horizon n (Rmax 0.01 ht) (Rmax 0.01 hr) in
  (d <= l → calc_longley_rice z d f ht hr n sigma eps zone 0 = free_space d f)
  ∧ (l < d → free_space d f + 6.02 <= calc_longley_rice z d f ht hr n sigma eps zone 0).
Proof.
  intros Hd Hf Hn l. unfold calc_longley_rice. rewrite shadowed_off, usable by lra.
  unfold longley_rice. cbn zeta. cbn [refractivity freq_hz]. rewrite los_horizon.
  cbn [tx_height_m rx_height_m].
  rewrite !int_R, !max_Rmax, (Rmax_right 1 d), (Rmax_right 1000000 f) by done.
  replace (single 1 2) with 0.01 by (reals; lra). fold l.
  assert (Hfs : (20 * rlog10 d + 20 * rlog10 f + FSPL_CONSTANT)%R = free_space d f)
    by (unfold free_space, FSPL_CONSTANT; reals; lra).
  pose proof (Rmax_l 0.01 ht). pose proof (Rmax_l 0.01 hr).
  cbn [add mul log10 dp real_num real_arith le]. rewrite Hfs.
  split; intros Hl; destruct (rle_spec d l); try lra.
  apply Rplus_le_compat_l. rewrite min_Rmin. apply Rmin_glb.
  - apply diffraction_beyond; [done|done|lra].
  - apply troposcatter_beyond; cbn [tx_height_m rx_height_m refractivity]; done || lra.
Qed.

Lemma horizon_10m : 1000 <= horizon 0 (Rmax 0.01 10) (Rmax 0.01 10) < 1000000.
Proof.
  assert (He : 6371000 <= earth 0 <= 7000000).
  { unfold earth, effective_earth_radius_factor. reals. rewrite Rmult_0_r, exp_0. lra. }
  unfold horizon. rewrite !(Rmax_right 0.01) by (try rewrite Rmax_right; lra).
  assert (Hx : R_sqrt.sqrt (2 * earth 0 * 10) * R_sqrt.sqrt (2 * earth 0 * 10)
               = 2 * earth 0 * 10) by (apply sqrt_sqrt; lra).
  pose proof (sqrt_pos (2 * earth 0 * 10)). nra.
Qed.

Lemma longley_rice_at_horizon_witness :
  calc_longley_rice 0 1000 2000000000 10 10 0 0.005 15 5 0 = free_space 1000 2000000000
  ∧ free_space 1000000 2000000000 + 6.02 <= calc_longley_rice 0 1000000 2000000000 10 10 0 0.005 15 5 0.
Proof.
  assert (H1 : 1 <= 1000) by lra. assert (H2 : 1000000 <= 2000000000) by lra.
  assert (H3 : 0 <= 448) by lra. assert (H4 : 1 <= 1000000) by lra.
  split.
  - apply (longley_rice_at_horizon 0 1000 2000000000 10 10 0 0.005 15 5 H1 H2 H3), horizon_10m.
  - apply (longley_rice_at_horizon 0 1000000 2000000000 10 10 0 0.005 15 5 H4 H2 H3), horizon_10m.
Defined.

End LongleyRice.

(** ** Two rays *)

Section TwoRay.

(** Lengths of the direct and of the reflected ray. *)
Definition ray_length (d dh : R) : R := R_sqrt.sqrt (d * d + dh * dh).

Lemma ray_length_mono d x y : x * x <= y * y → ray_length d x <= ray_length d y.
Proof. intros Hxy. apply sqrt_le_1_alt. lra. Qed.

Lemma ray_length_ge d x : 0 <= d → d <= ray_length d x.
Proof.
  intros Hd. unfold ray_length. rewrite <- (sqrt_square d) at 1 by done.
  apply sqrt_le_1_alt. nra.
Qed.

(** The field of the two rays against the direct one. *)
Lemma two_ray_field a b c :
  0 <= a → -a <= b <= a → -1 <= c <= 1 → a * a + b * b + 2 * a * b * c <= 4 * (a * a).
Proof.
  intros Ha Hb Hc. assert (Hbb : b * b <= a * a) by nra.
  assert (Hab : -(a * a) <= a * b <= a * a) by nra.
  assert (a * b * c <= a * a) by (destruct (Rle_dec 0 c); nra). lra.
Qed.

Definition direct_loss (d1 f : R) : R := 20 * rlog10 (4 * PI * d1 * f / 299792458).

Lemma PI_pos : 3 < PI < 4.
Proof. unfold PI. reals. lra. Qed.

(** The two-ray loss with its guards as maxima. *)
Lemma two_ray_R d1 d2 g f :
  1 <= d1 → 1 <= d2 →
  ∃ c, -1 <= c <= 1 ∧
  two_ray d1 d2 g f
  = 10 * rlog10 (Rmax (1 / 100000000000000000000)
      ((4 * PI / (299792458 / f)) * (4 * PI / (299792458 / f))
       / Rmax (1 / 100000000000000000000)
           (1 / d1 * (1 / d1) + g / d2 * (g / d2) + 2 * (1 / d1) * (g / d2) * c))).
Proof.
  intros H1 H2. eexists. split; [apply COS_bound|].
  unfold two_ray, sq, SPEED_OF_LIGHT. rewrite !int_R, !max_Rmax. reals.
  unfold rpow. destruct (Req_EM_T 2 2) as [_|]; [|lra].
  rewrite (Rmax_right _ d1), (Rmax_right _ d2) by lra. reflexivity.
Qed.

Lemma reflected_le d1 d2 g :
  1 <= d1 → d1 <= d2 → -1 <= g <= 1 → - (1 / d1) <= g / d2 <= 1 / d1.
Proof.
  intros H1 H2 Hg.
  assert (Hi : 0 < / d2 <= / d1).
  { split; [apply Rinv_0_lt_compat; lra|]. apply Rinv_le_contravar; lra. }
  unfold Rdiv. nra.
Qed.

Lemma two_ray_lower d1 d2 g f :
  1 <= d1 → d1 <= d2 → -1 <= g <= 1 → d1 <= 1000000000 → 0 < f →
  direct_loss d1 f - 20 * rlog10 2 <= two_ray d1 d2 g f.
Proof.
  intros H1 H2 Hg H3 Hf. destruct (two_ray_R d1 d2 g f) as (c & Hc & ->); [lra..|].
  pose proof PI_pos. set (q := 4 * PI * d1 * f / 299792458).
  assert (Hq : 0 < q) by (apply Rdiv_lt_0_compat; [|lra]; repeat apply Rmult_lt_0_compat; lra).
  set (e := Rmax _ (1 / d1 * (1 / d1) + _ + _)).
  assert (Hi : 1 / 1000000000 <= 1 / d1).
  { unfold Rdiv. rewrite !Rmult_1_l. apply Rinv_le_contravar; lra. }
  assert (He : 0 < e <= 4 * (1 / d1 * (1 / d1))).
  { unfold e. split; [eapply Rlt_le_trans; [|apply Rmax_l]; lra|].
    apply Rmax_lub; [nra|]. apply two_ray_field; [lra|by apply reflected_le|done]. }
  assert (Hlog : direct_loss d1 f - 20 * rlog10 2 = 10 * rlog10 (q / 2 * (q / 2))).
  { unfold direct_loss. fold q. rewrite log10_mult, log10_div by lra. lra. }
  rewrite Hlog. apply Rmult_le_compat_l; [lra|]. apply log10_le; [nra|].
  etrans; [|apply Rmax_r].
  apply (Rmult_le_reg_r e); [lra|].
  assert (Hr : ∀ x, x / e * e = x) by (intros; field; lra). rewrite Hr.
  etrans; [apply Rmult_le_compat_l; [nra|apply He]|].
  right. unfold q. field. lra.
Qed.

(** The two-ray loss is never more than 6.03 dB better than free space over
    the direct ray, whatever the heights, the reflection coefficient (clamped
    to [-1, 1]) and the phase: the ground can at most double the field. *)
Theorem two_ray_at_most_doubles z d f ht hr g :
  1 <= d → 0 < f →
  let d1 := ray_length d (Rmax 0.01 ht - Rmax 0.01 hr) in
  d1 <= 1000000000 →
  direct_loss d1 f - 20 * rlog10 2 <= calc_2ray z d f ht hr g 0.
Proof.
  intros Hd Hf d1 H1. unfold calc_2ray. rewrite shadowed_off, usable by done.
  rewrite !max_Rmax, !int_R. rewrite (Rmax_right 0 d) by lra.
  replace (single 1 2) with 0.01 by (reals; lra). reals.
  unfold rpow. destruct (Req_EM_T 2 2) as [_|]; [|lra].
  change (R_sqrt.sqrt (d * d + (Rmax 0.01 ht - Rmax 0.01 hr) * (Rmax 0.01 ht - Rmax 0.01 hr)))
    with d1.
  change (R_sqrt.sqrt (d * d + (Rmax 0.01 ht + Rmax 0.01 hr) * (Rmax 0.01 ht + Rmax 0.01 hr)))
    with (ray_length d (Rmax 0.01 ht + Rmax 0.01 hr)).
  pose proof (Rmax_l 0.01 ht). pose proof (Rmax_l 0.01 hr).
  apply two_ray_lower; [|apply ray_length_mono; nra|apply clamp_range; lra|done|done].
  etrans; [exact Hd|apply ray_length_ge; lra].
Qed.

Lemma two_ray_at_most_doubles_witness :
  direct_loss (ray_length 100 (Rmax 0.01 2 - Rmax 0.01 2)) 2000000000 - 20 * rlog10 2
  <= calc_2ray 0 100 2000000000 2 2 (-1) 0.
Proof.
  assert (H1 : 1 <= 100) by lra. assert (H2 : 0 < 2000000000) by lra.
  apply (two_ray_at_most_doubles 0 100 2000000000 2 2 (-1) H1 H2).
  unfold ray_length. replace (_ + _) with (100 * 100) by lra. rewrite sqrt_square; lra.
Defined.

End TwoRay.
