(* ===== verification/Rotator.v ===== *)
(** The frequency shift of a link: [apply_frequency_offset] of
    src/src/chem/dsp/signal.cpp, lines 216-251.

    The text is written over the arithmetic of PathLoss.v, for the program's
    numbers and for exact ones.  In exact arithmetic the phase kept between two
    calls makes consecutive buffers one rotation. *)

From Stdlib Require Import ZArith Lia Reals Lra.
From stdpp Require Import prelude list.
From S2P Require Import Prelude.
From S2P Require Import Ieee.
From S2P Require Import CxxLib.
From S2P Require Import PathLoss.
From S2P Require Import RealLoss.

(** What the function calls besides the arithmetic: libm, and VOLK's
    [volk_32fc_s32fc_x2_rotator_32fc] of samples, increment and phase. *)
Class Rotation (A : Type) : Type := {
  sin : A → A;
  remainder : A → A → A;
  rotator : list (A * A) → A * A → A * A → list (A * A);
}.

Module Rotator.

Section Shift.
Context {A : Type} `{Num A, Rotation A}.

#[local] Open Scope num_scope.

Definition int (n : Z) : A := lit n 0.

Definition two_pi : A := int 2 * PathLoss.PI.

(** A point of the unit circle, in single precision. *)
Definition polar (x : A) : A * A := (to_single (cos dp x), to_single (sin x)).

(** The samples and the phase afterwards; [signal] has at least [size]
    samples. *)
Definition apply_frequency_offset (signal : list (A * A)) (size : nat)
    (sample_rate_hz freq_offset_hz phase_rad : A) : list (A * A) * A :=
  if Nat.eqb size 0 then (signal, phase_rad)
  else if negb (finite sample_rate_hz) || le sample_rate_hz (int 0) then (signal, phase_rad)
  else if negb (finite freq_offset_hz) || le freq_offset_hz (int 0) && le (int 0) freq_offset_hz
  then (signal, phase_rad)
  else
    let phase_inc := two_pi * freq_offset_hz / sample_rate_hz in
    let phase := remainder phase_rad two_pi in
    (rotator (take size signal) (polar phase_inc) (polar phase) ++ drop size signal,
     remainder (phase + phase_inc * int (Z.of_nat size)) two_pi).

End Shift.

End Rotator.

(** ** Exact rotation *)

#[local] Open Scope R_scope.

Definition cmul (a b : R * R) : R * R :=
  (a.1 * b.1 - a.2 * b.2, a.1 * b.2 + a.2 * b.1).

(** The recurrence of the kernel. *)
Fixpoint rotate (l : list (R * R)) (inc phase : R * R) : list (R * R) :=
  match l with
  | [] => []
  | z :: l => cmul z phase :: rotate l inc (cmul phase inc)
  end.

(** The nearest multiple is taken off (a tie up, where libm goes to the even
    one: the same up to a turn). *)
Definition turns (x y : R) : Z := Int_part (x / y + 1 / 2).

#[export] Instance real_rotation : Rotation R := {|
  sin := Rtrigo_def.sin;
  remainder x y := x - IZR (turns x y) * y;
  rotator := rotate |}.

Section Exact.
Import Rotator.

Definition cis (x : R) : R * R := (Rtrigo_def.cos x, Rtrigo_def.sin x).

Lemma cmul_assoc a b c : cmul a (cmul b c) = cmul (cmul a b) c.
Proof. unfold cmul. cbn. f_equal; ring. Qed.

Lemma cmul_comm a b : cmul a b = cmul b a.
Proof. unfold cmul. f_equal; ring. Qed.

Lemma cis_plus x y : cis (x + y) = cmul (cis x) (cis y).
Proof. unfold cmul, cis. cbn. rewrite cos_plus, sin_plus. f_equal; ring. Qed.

Lemma cis_0 : cis 0 = (1, 0).
Proof. unfold cis. by rewrite cos_0, sin_0. Qed.

(** A turn of the phase turns every sample. *)
Lemma rotate_turn l inc phase z :
  rotate l inc (cmul phase z) = (λ s, cmul s z) <$> rotate l inc phase.
Proof.
  revert phase. induction l as [|s l IH]; intros phase; [done|]. cbn. f_equal.
  - apply cmul_assoc.
  - rewrite <- IH. f_equal. rewrite <- !cmul_assoc. f_equal. apply cmul_comm.
Qed.

Lemma rotate_app l l' i p :
  rotate (l ++ l') (cis i) (cis p)
  = rotate l (cis i) (cis p) ++ rotate l' (cis i) (cis (p + INR (length l) * i)).
Proof.
  revert p. induction l as [|s l IH]; intros p.
  - cbn. f_equal. f_equal. lra.
  - cbn [app rotate length]. rewrite S_INR, <- cis_plus, IH. cbn [app]. do 3 f_equal. f_equal. lra.
Qed.

Lemma rotate_length l inc phase : length (rotate l inc phase) = length l.
Proof. revert phase. induction l as [|s l IH]; intros phase; [done|]. cbn. by rewrite IH. Qed.

(** The function on a whole buffer, with an offset at a rate. *)
Lemma offset_exact l rate off ph :
  l ≠ [] → 0 < rate → off ≠ 0 →
  apply_frequency_offset l (length l) rate off ph
  = (rotate l (cis (two_pi * off / rate)) (cis (remainder ph two_pi)),
     remainder (remainder ph two_pi + two_pi * off / rate * INR (length l)) two_pi).
Proof.
  intros Hl Hr Ho. unfold apply_frequency_offset.
  destruct (Nat.eqb_spec (length l) 0) as [E|_]; [by apply length_zero_iff_nil in E|].
  unfold Rotator.int. cbn [finite le lit real_num negb orb]. unfold rlit.
  replace (IZR 0 / IZR (10 ^ 0)) with 0 by (cbn; lra).
  destruct (rle_spec rate 0); [lra|]. cbn [orb].
  destruct (rle_spec off 0), (rle_spec 0 off); cbn [andb]; try lra;
    (rewrite take_ge, drop_ge, app_nil_r by done; cbn [mul div add dp real_num real_arith rotator
       real_rotation]; unfold polar; cbn [to_single cos dp real_num real_arith]; f_equal;
     f_equal; f_equal; f_equal; rewrite INR_IZR_INZ; cbn; lra).
Qed.

Lemma two_pi_pos : 0 < two_pi.
Proof. unfold two_pi, Rotator.int, PathLoss.PI. reals. lra. Qed.

Lemma remainder_range x y : 0 < y → - y <= 2 * remainder x y < y.
Proof.
  intros Hy. cbn [remainder real_rotation]. unfold turns.
  destruct (base_Int_part (x / y + 1 / 2)) as [H1 H2]. set (k := IZR (Int_part (x / y + 1 / 2))) in *.
  assert (Hx : x / y * y = x) by (field; lra).
  assert (k * y <= (x / y + 1 / 2) * y) by (apply Rmult_le_compat_r; lra).
  assert ((x / y + 1 / 2 - 1) * y < k * y) by (apply Rmult_lt_compat_r; lra).
  lra.
Qed.

(** The samples of two buffers in a row are those of one, up to whole turns of
    the second; a turn is [2 * 3.14159265].  The phase kept stays within half a
    turn. *)
Theorem offset_continues (xs ys : list (R * R)) rate off ph
    (Hx : xs ≠ []) (Hy : ys ≠ []) (Hr : 0 < rate) (Ho : off ≠ 0) :
  let '(out1, ph1) := apply_frequency_offset xs (length xs) rate off ph in
  let '(out2, ph2) := apply_frequency_offset ys (length ys) rate off ph1 in
  let '(out, _) := apply_frequency_offset (xs ++ ys) (length (xs ++ ys)) rate off ph in
  take (length xs) out = out1 ∧
  (∃ k : Z, out2 = (λ s, cmul s (cis (IZR k * two_pi))) <$> drop (length xs) out) ∧
  - two_pi <= 2 * ph1 < two_pi.
Proof.
  assert (Hxy : xs ++ ys ≠ []) by (intros [E _]%app_nil; done).
  rewrite !offset_exact by done.
  set (i := two_pi * off / rate). set (p := remainder ph two_pi).
  rewrite rotate_app. split_and!; [| |apply remainder_range, two_pi_pos..].
  - rewrite take_app_length'; [done|]. symmetry. apply rotate_length.
  - rewrite drop_app_length' by (symmetry; apply rotate_length).
    set (q := p + i * INR (length xs)).
    cbn [remainder real_rotation]. set (k1 := turns q two_pi).
    set (k2 := turns (q - IZR k1 * two_pi) two_pi). exists (- (k1 + k2))%Z.
    rewrite <- rotate_turn, <- cis_plus. do 2 f_equal. subst q.
    rewrite opp_IZR, plus_IZR. lra.
Qed.

Lemma offset_continues_witness :
  let '(out1, ph1) := apply_frequency_offset [(1, 0)] 1 4 1 0 in
  let '(out2, _) := apply_frequency_offset [(1, 0)] 1 4 1 ph1 in
  let '(out, _) := apply_frequency_offset [(1, 0); (1, 0)] 2 4 1 0 in
  take 1 out = out1 ∧
  (∃ k : Z, out2 = (λ s, cmul s (cis (IZR k * two_pi))) <$> drop 1 out) ∧
  - two_pi <= 2 * ph1 < two_pi.
Proof.
  assert (Hr : 0 < 4) by lra. assert (Ho : 1 <> 0) by lra.
  exact (offset_continues [(1, 0)] [(1, 0)] 4 1 0 ltac:(discriminate) ltac:(discriminate) Hr Ho).
Defined.

End Exact.
