(* ===== verification/TcpServer.v ===== *)
(** The TCP server of the controller and of the coordinator:
    src/src/chem/net/tcp_server.cpp.

    [TCPServer]: connections as Boost.Asio and the kernel keep them, and the
    three completions the server registers (a connection accepted, a line read,
    the end of a stream).  How the kernel cuts the stream is an argument of the
    completion, as is what it takes of an answer at once.  The handler is a
    parameter; it sees the address the server remembers.

    [LineClient]: clients that wait for each answer.  The theorems say what the
    server guarantees to them, and what it does to anybody else. *)

From Stdlib Require Import ZArith Lia Strings.Ascii Strings.String.
From stdpp Require Import prelude list strings gmap relations.
From S2P Require Import Prelude.
From S2P Require Import Ieee.
From S2P Require Import CxxLib.
From S2P Require Import Json.
From S2P Require Import NodeConfig.
From S2P Require Import NodeEntity.
From S2P Require Import Controller.
From S2P Require Import Emulator.

#[local] Open Scope nat_scope.

(** [UNTIL] *)
Definition UNTIL : ascii := "010"%char.

Inductive tcp_fault (F : Type) : Type :=
  | Handler (e : F)            (** an exception of the handler leaves [run] *)
  | NotConnected               (** [remote_endpoint] throws: the peer is gone *)
  | Dangling.                  (** a write from the answer after it is destroyed *)

Arguments Handler {F} e.
Arguments NotConnected {F}.
Arguments Dangling {F}.

Module TCPServer.

Record conn : Type := mkConn {
  peer : string;
  inbox : list ascii;              (** arrived and not read *)
  ended : bool;                    (** the peer sends no more *)
  broken : bool;                   (** the peer reset the connection *)
  pending : option (list ascii);   (** the buffer of the read under way *)
  outbox : list ascii;             (** written *)
}.

#[global] Instance conn_eta : Settable conn := fun c =>
  mkConn (peer c) (inbox c) (ended c) (broken c) (pending c) (outbox c).

(** [target] is what the handler works on. *)
Record t (S : Type) : Type := mk {
  conns : gmap nat conn;
  m_remote_ip : string;
  target : S;
}.

Arguments mk {S} _ _ _.
Arguments conns {S} _.
Arguments m_remote_ip {S} _.
Arguments target {S} _.

(** What the outside answers in a completion: the bytes of an answer the kernel
    takes in [async_write] itself, and whether the peer still has an address. *)
Record kernel : Type := mkKernel { taken : nat; reachable : bool }.

Section Server.
Context {F S : Type}.

(** [m_handler]: the remembered address and the request, to an answer. *)
Variable m_handler : string → string → S → outcome F (string * S).

Definition set_conn (id : nat) (c : conn) (s : t S) : t S :=
  mk (<[id := c]> (conns s)) (m_remote_ip s) (target s).

(** A new buffer for every read. *)
Definition handle_connection (k : kernel) (id : nat) (c : conn) (s : t S)
    : outcome (tcp_fault F) (t S) :=
  if reachable k then Ok (mk (<[id := c <| pending := Some [] |>]> (conns s)) (peer c) (target s))
  else Err NotConnected.

(** The completion registered by [startAccept]. *)
Definition startAccept (k : kernel) (id : nat) (ip : string) (s : t S)
    : outcome (tcp_fault F) (t S) :=
  handle_connection k id (mkConn ip [] false false None []) s.

(** The first line of a buffer, for [getline]; the rest is dropped with it. *)
Fixpoint line (l : list ascii) : option (list ascii) :=
  match l with
  | [] => None
  | a :: l => if decide (a = UNTIL) then Some [] else (a ::.) <$> line l
  end.

(** The request is answered and the connection listened to again. *)
Definition answer (k : kernel) (id : nat) (c : conn) (request : list ascii) (s : t S)
    : outcome (tcp_fault F) (t S) :=
  match m_handler (m_remote_ip s) (string_of_list_ascii request) (target s) with
  | Err e => Err (Handler e)
  | Ok (response, a) =>
      let response := list_ascii_of_string response ++ [UNTIL] in
      if taken k <? length response then Err Dangling
      else handle_connection k id (c <| outbox := outbox c ++ response |>)
             (mk (conns s) (m_remote_ip s) a)
  end.

(** [async_read_until] gets [n] bytes. *)
Definition on_read (k : kernel) (id n : nat) (s : t S) : outcome (tcp_fault F) (t S) :=
  match conns s !! id with
  | Some c =>
      match pending c with
      | Some buffer =>
          let buffer := buffer ++ take n (inbox c) in
          let c := c <| inbox := drop n (inbox c) |> in
          match line buffer with
          | Some request => answer k id (c <| pending := None |>) request s
          | None => Ok (set_conn id (c <| pending := Some buffer |>) s)
          end
      | None => Ok s
      end
  | None => Ok s
  end.

(** The read fails: end of file, or an error, which is logged. *)
Definition on_error (id : nat) (s : t S) : t S :=
  match conns s !! id with
  | Some c =>
      if broken c || (ended c && bool_decide (inbox c = []))
      then set_conn id (c <| pending := None |>) s else s
  | None => s
  end.

(** *** The network *)

Definition arrive (id : nat) (bytes : list ascii) (s : t S) : t S :=
  match conns s !! id with
  | Some c => if ended c then s else set_conn id (c <| inbox := inbox c ++ bytes |>) s
  | None => s
  end.

Definition finish (id : nat) (s : t S) : t S :=
  match conns s !! id with Some c => set_conn id (c <| ended := true |>) s | None => s end.

(** Reads of one connection, one after the other. *)
Fixpoint reads (k : kernel) (id : nat) (ns : list nat) (s : t S)
    : outcome (tcp_fault F) (t S) :=
  match ns with
  | [] => Ok s
  | n :: ns => obind (on_read k id n s) (reads k id ns)
  end.

End Server.

End TCPServer.

Import TCPServer.

(** ** Lines *)

Section Lines.

Lemma line_here l rest : UNTIL ∉ l → line (l ++ UNTIL :: rest) = Some l.
Proof.
  induction l as [|a l IH]; intros Hl; [done|]. apply not_elem_of_cons in Hl as [Ha Hl].
  cbn [app line]. destruct (decide (a = UNTIL)); [congruence|]. by rewrite IH.
Qed.

Lemma line_none l : UNTIL ∉ l → line l = None.
Proof.
  induction l as [|a l IH]; intros Hl; [done|]. apply not_elem_of_cons in Hl as [Ha Hl].
  cbn [line]. destruct (decide (a = UNTIL)); [congruence|]. by rewrite IH.
Qed.

(** A part of a line that is cut before its end has no end in it. *)
Lemma cut_line b inbox l n :
  b ++ inbox = l ++ [UNTIL] → n < length inbox → UNTIL ∉ l → UNTIL ∉ b ++ take n inbox.
Proof.
  intros E Hn Hl Hin. apply Hl.
  assert (Hp : b ++ take n inbox `prefix_of` l); [|by destruct Hp as [r ->]; set_solver].
  exists (take (length l - length (b ++ take n inbox)) (drop n inbox)).
  assert (Hlen : length b + length inbox = length l + 1)
    by (rewrite <- length_app, E, length_app; done).
  rewrite <- (take_app_length l [UNTIL]) at 1. rewrite <- E.
  rewrite <- (take_drop n inbox) at 1. rewrite (assoc_L (++)).
  rewrite take_app_ge by (rewrite length_app, length_take; lia). done.
Qed.

Lemma string_line l : string_of_list_ascii (list_ascii_of_string l) = l.
Proof. apply string_of_list_ascii_of_string. Qed.

Lemma string_bytes s : length (list_ascii_of_string s) = String.length s.
Proof. induction s as [|a s IH]; [done|]. cbn. by rewrite IH. Qed.

End Lines.

(** ** Clients that wait for their answers *)

Section LineClient.
Context {F S : Type}.
Variable m_handler : string → string → S → outcome F (string * S).

(** What a client has asked, and which of its lines the handler was given. *)
Record client : Type := mkClient { asked : list string; served : list string }.

Record world : Type := mkWorld { srv : t S; clients : gmap nat client }.

(** Complete answers in what was written. *)
Definition answers (l : list ascii) : nat := length (filter (.= UNTIL) l).

#[local] Arguments answers : simpl never.

(** The line a read completes. *)
Definition completed (id n : nat) (s : t S) : option (list ascii) :=
  match conns s !! id with
  | Some c => match pending c with Some b => line (b ++ take n (inbox c)) | None => None end
  | None => None
  end.

Definition serve (o : option (list ascii)) (q : client) : client :=
  match o with
  | Some l => mkClient (asked q) (served q ++ [string_of_list_ascii l])
  | None => q
  end.

(** A client asks only when each of its lines was answered; everything else is
    free: who connects, how streams are cut, what else changes the target. *)
Inductive lstep (w : world) : world → Prop :=
  | l_connect k id ip s' :
      conns (srv w) !! id = None → startAccept (F := F) k id ip (srv w) = Ok s' →
      lstep w (mkWorld s' (<[id := mkClient [] []]> (clients w)))
  | l_ask id l c q :
      conns (srv w) !! id = Some c → clients w !! id = Some q → ended c = false →
      answers (outbox c) = length (asked q) → UNTIL ∉ list_ascii_of_string l →
      lstep w (mkWorld (arrive id (list_ascii_of_string l ++ [UNTIL]) (srv w))
                       (<[id := mkClient (asked q ++ [l]) (served q)]> (clients w)))
  | l_read k id n s' :
      on_read m_handler k id n (srv w) = Ok s' →
      lstep w (mkWorld s' (alter (serve (completed id n (srv w))) id (clients w)))
  | l_finish id : lstep w (mkWorld (finish id (srv w)) (clients w))
  | l_error id : lstep w (mkWorld (on_error id (srv w)) (clients w))
  | l_target a :
      lstep w (mkWorld (mk (conns (srv w)) (m_remote_ip (srv w)) a) (clients w)).

Definition start (ip : string) (a : S) : world := mkWorld (mk ∅ ip a) ∅.

(** The answers are one line each, as printed JSON is. *)
Hypothesis one_line : ∀ ip r a resp a',
  m_handler ip r a = Ok (resp, a') → UNTIL ∉ list_ascii_of_string resp.

(** *** The invariant of a connection *)

Definition idle (c : conn) (q : client) : Prop :=
  asked q = served q ∧ default [] (pending c) ++ inbox c = [].

Definition waiting (c : conn) (q : client) (l : string) : Prop :=
  asked q = served q ++ [l] ∧ UNTIL ∉ list_ascii_of_string l ∧
  ∃ b, pending c = Some b ∧ UNTIL ∉ b ∧ b ++ inbox c = list_ascii_of_string l ++ [UNTIL].

Definition conn_ok (c : conn) (q : client) : Prop :=
  answers (outbox c) = length (served q) ∧ broken c = false ∧
  (pending c = None → ended c = true) ∧ (idle c q ∨ ∃ l, waiting c q l).

Definition all_ok (w : world) : Prop :=
  ∀ id, match conns (srv w) !! id, clients w !! id with
        | Some c, Some q => conn_ok c q
        | None, None => True
        | _, _ => False
        end.

Lemma answers_app l l' : answers (l ++ l') = answers l + answers l'.
Proof. unfold answers. by rewrite filter_app, length_app. Qed.

Lemma answers_none l : UNTIL ∉ l → answers l = 0.
Proof.
  intros Hl. unfold answers. induction l as [|a l IH]; [done|].
  apply not_elem_of_cons in Hl as [Ha Hl]. rewrite filter_cons_False by congruence. auto.
Qed.

Lemma answers_line l : UNTIL ∉ l → answers (l ++ [UNTIL]) = 1.
Proof. intros Hl. by rewrite answers_app, answers_none. Qed.

(** One connection at a time. *)
Lemma all_ok_set w s' cl' id c q :
  all_ok w → conn_ok c q → conns s' = <[id := c]> (conns (srv w)) →
  cl' = <[id := q]> (clients w) → all_ok (mkWorld s' cl').
Proof.
  intros Hw Hc Es -> id'. cbn. rewrite Es.
  destruct (decide (id = id')) as [<-|Hne].
  - by rewrite !lookup_insert_eq.
  - rewrite !lookup_insert_ne by done. apply Hw.
Qed.

Lemma all_ok_same w s' cl' :
  all_ok w → conns s' = conns (srv w) → cl' = clients w → all_ok (mkWorld s' cl').
Proof. intros Hw Es -> id. cbn. rewrite Es. apply Hw. Qed.

Lemma all_ok_at w id c : all_ok w → conns (srv w) !! id = Some c →
  ∃ q, clients w !! id = Some q ∧ conn_ok c q.
Proof. intros Hw Hc. specialize (Hw id). rewrite Hc in Hw. destruct (clients w !! id); [eauto|done]. Qed.

(** *** Reads *)

(** A read that does not reach the end of the line. *)
Lemma read_part k id n s c b l :
  conns s !! id = Some c → pending c = Some b →
  b ++ inbox c = list_ascii_of_string l ++ [UNTIL] → UNTIL ∉ list_ascii_of_string l →
  n < length (inbox c) →
  completed id n s = None ∧ UNTIL ∉ b ++ take n (inbox c) ∧
  on_read m_handler k id n s
  = Ok (set_conn id ((c <| inbox := drop n (inbox c) |>)
                       <| pending := Some (b ++ take n (inbox c)) |>) s).
Proof.
  intros Hc Hp E Hl Hn. pose proof (cut_line _ _ _ _ E Hn Hl) as Hb.
  unfold completed, on_read. rewrite Hc, Hp, (line_none _ Hb). done.
Qed.

(** The read that reaches it. *)
Lemma read_rest k id n s c b l :
  conns s !! id = Some c → pending c = Some b →
  b ++ inbox c = list_ascii_of_string l ++ [UNTIL] → UNTIL ∉ list_ascii_of_string l →
  length (inbox c) <= n →
  completed id n s = Some (list_ascii_of_string l) ∧
  on_read m_handler k id n s
  = answer m_handler k id ((c <| inbox := [] |>) <| pending := None |>) (list_ascii_of_string l) s.
Proof.
  intros Hc Hp E Hl Hn. unfold completed, on_read. rewrite Hc, Hp.
  rewrite take_ge, drop_ge, E by done. by rewrite line_here.
Qed.

Lemma answer_ok k id c l s s' :
  answer m_handler k id c (list_ascii_of_string l) s = Ok s' →
  ∃ resp a, m_handler (m_remote_ip s) l (target s) = Ok (resp, a) ∧
  s' = mk (<[id := (c <| outbox := outbox c ++ list_ascii_of_string resp ++ [UNTIL] |>)
                     <| pending := Some [] |>]> (conns s)) (peer c) a.
Proof.
  unfold answer. rewrite string_line.
  destruct (m_handler _ _ _) as [[resp a]|] eqn:Eh; [|done].
  destruct (_ <? _); [done|]. unfold handle_connection.
  destruct (reachable k); [|done]. intros [= <-]. eauto.
Qed.

Lemma alter_known {A} (f : A → A) id (m : gmap nat A) x :
  m !! id = Some x → alter f id m = <[id := f x]> m.
Proof.
  intros Hx. apply map_eq. intros j. destruct (decide (id = j)) as [<-|Hne].
  - by rewrite lookup_alter_eq, lookup_insert_eq, Hx.
  - by rewrite lookup_alter_ne, lookup_insert_ne.
Qed.

Lemma read_ok w k id n s' :
  all_ok w → on_read m_handler k id n (srv w) = Ok s' →
  all_ok (mkWorld s' (alter (serve (completed id n (srv w))) id (clients w))).
Proof.
  intros Hw Hr. destruct (conns (srv w) !! id) as [c|] eqn:Hc.
  2: { unfold on_read in Hr. rewrite Hc in Hr. injection Hr as <-.
       apply (all_ok_same w); [done|done|]. unfold completed. rewrite Hc.
       apply map_eq. intros j. destruct (decide (id = j)) as [<-|]; [|by rewrite lookup_alter_ne].
       rewrite lookup_alter_eq. by destruct (clients w !! id). }
  destruct (all_ok_at w id c Hw Hc) as (q & Hq & (Ho & Hbr & Hend & Hst)).
  rewrite (alter_known _ _ _ _ Hq).
  destruct Hst as [[Ei Eb]|(l & Ea & Hl & b & Hp & Hb & E)].
  - destruct (pending c) as [b|] eqn:Hp.
    + cbn in Eb; apply app_nil in Eb as [-> Ei']. unfold on_read in Hr. unfold completed.
      rewrite Hc, Hp, Ei', take_nil in *. cbn in Hr. injection Hr as <-.
      eapply (all_ok_set w); [done| |reflexivity|done].
      unfold conn_ok, idle. cbn. rewrite drop_nil. split_and!; auto.
    + unfold on_read in Hr. unfold completed. rewrite Hc, Hp in *. injection Hr as <-.
      eapply (all_ok_set w); [done| |by rewrite insert_id|done].
      unfold conn_ok, idle. rewrite Hp. split_and!; auto.
  - destruct (decide (n < length (inbox c))) as [Hn|Hn].
    + destruct (read_part k id n _ c b l Hc Hp E Hl Hn) as (Ec & Hb' & Er).
      rewrite Ec. rewrite Er in Hr. injection Hr as <-.
      eapply (all_ok_set w); [done| |reflexivity|done].
      split_and!; [done|done|done|]. right. exists l. split_and!; [done|done|].
      eexists. split_and!; [done|done|]. cbn. rewrite <- (assoc_L (++)), take_drop. done.
    + destruct (read_rest k id n _ c b l Hc Hp E Hl) as [Ec Er]; [lia|].
      rewrite Ec. rewrite Er in Hr. apply answer_ok in Hr as (resp & a & Eh & ->).
      eapply (all_ok_set w); [done| |reflexivity|done].
      split_and!; [|done|done|].
      * cbn. rewrite answers_app, answers_line, length_app by eauto. cbn. lia.
      * left. cbn. rewrite string_line. done.
Qed.

Lemma ask_ok w id l c q :
  all_ok w → conns (srv w) !! id = Some c → clients w !! id = Some q → ended c = false →
  answers (outbox c) = length (asked q) → UNTIL ∉ list_ascii_of_string l →
  all_ok (mkWorld (arrive id (list_ascii_of_string l ++ [UNTIL]) (srv w))
                  (<[id := mkClient (asked q ++ [l]) (served q)]> (clients w))).
Proof.
  intros Hw Hc Hq He Ha Hl.
  pose proof (Hw id) as Hok. rewrite Hc, Hq in Hok. destruct Hok as (Ho & Hbr & Hend & Hst).
  unfold arrive. rewrite Hc, He. eapply (all_ok_set w); [done| |reflexivity|done].
  destruct Hst as [[Ei Eb]|(l' & Ea & _)].
  2: { rewrite Ea, length_app in Ha. cbn in Ha. lia. }
  destruct (pending c) as [b|] eqn:Hp; [|by rewrite Hend in He].
  cbn in Eb; apply app_nil in Eb as [-> Ei']. split_and!; [done|done|cbn; by rewrite Hp|].
  right. exists l. split_and!; [cbn; by rewrite Ei|done|].
  exists []. cbn. rewrite Ei'. split_and!; [done|set_solver|done].
Qed.

Lemma connect_ok w k id ip s' :
  all_ok w → conns (srv w) !! id = None → startAccept (F := F) k id ip (srv w) = Ok s' →
  all_ok (mkWorld s' (<[id := mkClient [] []]> (clients w))).
Proof.
  intros Hw Hn. unfold startAccept, handle_connection. destruct (reachable k); [|done].
  intros [= <-]. eapply (all_ok_set w); [done| |reflexivity|done].
  split_and!; [done|done|done|by left].
Qed.

Lemma finish_ok w id : all_ok w → all_ok (mkWorld (finish id (srv w)) (clients w)).
Proof.
  intros Hw. unfold finish. destruct (conns (srv w) !! id) as [c|] eqn:Hc; [|by apply (all_ok_same w)].
  destruct (all_ok_at w id c Hw Hc) as (q & Hq & (Ho & Hbr & Hend & Hst)).
  eapply (all_ok_set w); [done| |reflexivity|by rewrite insert_id].
  split_and!; [done|done|done|]. destruct Hst as [Hi|(l & Hl)]; [by left|right]. by exists l.
Qed.

Lemma error_ok w id : all_ok w → all_ok (mkWorld (on_error id (srv w)) (clients w)).
Proof.
  intros Hw. unfold on_error. destruct (conns (srv w) !! id) as [c|] eqn:Hc; [|by apply (all_ok_same w)].
  destruct (all_ok_at w id c Hw Hc) as (q & Hq & (Ho & Hbr & Hend & Hst)).
  rewrite Hbr. cbn [orb]. destruct (ended c && _) eqn:Hg; [|by apply (all_ok_same w)].
  apply andb_true_iff in Hg as [He Hi]. apply bool_decide_eq_true in Hi.
  eapply (all_ok_set w); [done| |reflexivity|by rewrite insert_id].
  split_and!; [done|done|done|]. left. destruct Hst as [[Ea _]|(l & Ea & Hl & b & Hp & Hb & E)].
  - split; [done|]. exact Hi.
  - exfalso. apply Hb. rewrite Hi, app_nil_r in E. rewrite E. set_solver.
Qed.

Lemma lstep_ok w w' : lstep w w' → all_ok w → all_ok w'.
Proof.
  intros [] Hw.
  - by eapply connect_ok.
  - by eapply ask_ok.
  - by eapply read_ok.
  - by apply finish_ok.
  - by apply error_ok.
  - by apply (all_ok_same w).
Qed.

Lemma reached_ok ip a w : rtc lstep (start ip a) w → all_ok w.
Proof.
  intros Hr. assert (H0 : all_ok (start ip a)) by (intros id; unfold start; cbn [srv clients conns]; by rewrite !lookup_empty).
  revert H0. induction Hr; eauto using lstep_ok.
Qed.

(** However the stream is cut, the reads end with the answer. *)
Lemma reads_answer k id l : ∀ ns s c b,
  conns s !! id = Some c → pending c = Some b → UNTIL ∉ b →
  b ++ inbox c = list_ascii_of_string l ++ [UNTIL] → UNTIL ∉ list_ascii_of_string l →
  sum_list ns = length (inbox c) → Forall (λ n, 0 < n) ns →
  ∀ resp a, m_handler (m_remote_ip s) l (target s) = Ok (resp, a) →
  String.length resp < taken k → reachable k = true →
  reads m_handler k id ns s
  = Ok (mk (<[id := (c <| inbox := [] |>)
                      <| outbox := outbox c ++ list_ascii_of_string resp ++ [UNTIL] |>
                      <| pending := Some [] |>]> (conns s)) (peer c) a).
Proof.
  induction ns as [|n ns IH]; intros s c b Hc Hp Hb E Hl Hsum Hpos resp a Eh Hlen Hk.
  - destruct (inbox c); [|done]. exfalso. apply Hb. rewrite app_nil_r in E. rewrite E. set_solver.
  - apply Forall_cons in Hpos as [Hn Hpos]. change (n + sum_list ns = length (inbox c)) in Hsum.
    cbn [reads]. destruct (decide (n < length (inbox c))) as [Hlt|Hge].
    + destruct (read_part k id n s c b l Hc Hp E Hl Hlt) as (_ & Hb' & ->). cbn [obind].
      erewrite IH; [|by apply lookup_insert_eq|reflexivity|exact Hb'| |exact Hl| |done|exact Eh|done|done].
      * cbn. by rewrite insert_insert_eq.
      * cbn. by rewrite <- (assoc_L (++)), take_drop.
      * change (sum_list ns = length (drop n (inbox c))). rewrite length_drop. lia.
    + destruct (read_rest k id n s c b l Hc Hp E Hl) as [_ ->]; [lia|].
      assert (ns = []) as ->.
      { destruct ns as [|m ns]; [done|]. apply Forall_cons in Hpos as [Hm _].
        change (n + (m + sum_list ns) = length (inbox c)) in Hsum. lia. }
      unfold answer. rewrite string_line, Eh. rewrite (proj2 (Nat.ltb_ge _ _)).
      2: { rewrite length_app, string_bytes. cbn. lia. }
      unfold handle_connection. by rewrite Hk.
Qed.

End LineClient.

Arguments world S : clear implicits.
Arguments mkWorld {S} _ _.
Arguments srv {S} _.
Arguments clients {S} _.

(** ** What the server guarantees *)

Section Guarantees.
Context {F S : Type}.
Variable m_handler : string → string → S → outcome F (string * S).

(** C10 A client that waits for each answer before it asks again is served: in
    every state that such clients can reach, however their streams are cut and
    whatever else happens, the lines of a connection were handed to the handler
    in their order, each once, except the last line when it is not answered yet;
    and for that one, however the rest of it arrives, the reads end with the
    handler called on exactly that line and its answer written. *)
Theorem lockstep_every_request_answered ip0 a0 w id c q
    (Hone : ∀ ip r a resp a', m_handler ip r a = Ok (resp, a') →
       UNTIL ∉ list_ascii_of_string resp)
    (Hrun : rtc (lstep m_handler) (start ip0 a0) w) :
  conns (srv w) !! id = Some c → clients w !! id = Some q →
  asked q = served q ∨
  ∃ l, asked q = served q ++ [l] ∧
    ∀ k ns resp a,
      sum_list ns = length (inbox c) → Forall (λ n, 0 < n) ns →
      m_handler (m_remote_ip (srv w)) l (target (srv w)) = Ok (resp, a) →
      String.length resp < taken k → reachable k = true →
      ∃ s' c', reads m_handler k id ns (srv w) = Ok s' ∧ target s' = a ∧
        conns s' !! id = Some c' ∧ inbox c' = [] ∧ pending c' = Some [] ∧
        outbox c' = outbox c ++ list_ascii_of_string resp ++ [UNTIL].
Proof.
  intros Hc Hq. pose proof (reached_ok m_handler Hone _ _ _ Hrun id) as Hok.
  rewrite Hc, Hq in Hok. destruct Hok as (_ & _ & _ & [[Ei _]|(l & Ea & Hl & b & Hp & Hb & E)]);
    [by left|right].
  exists l. split; [done|]. intros k ns resp a Hsum Hpos Eh Hlen Hk.
  do 2 eexists. split; [by eapply reads_answer|].
  cbn. rewrite lookup_insert_eq. by split_and!.
Qed.

(** C39 What a client sends behind a line before that line is read is lost: the
    read that takes both leaves the server exactly as if only the line had been
    sent.  A second request is neither handled nor kept for the next read. *)
Theorem pipelined_requests_lost k id s c l rest :
  conns s !! id = Some c → pending c = Some [] → UNTIL ∉ l →
  inbox c = l ++ UNTIL :: rest →
  on_read m_handler k id (length (inbox c)) s
  = on_read m_handler k id (length (l ++ [UNTIL]))
      (set_conn id (c <| inbox := l ++ [UNTIL] |>) s).
Proof.
  intros Hc Hp Hl Ei. unfold on_read. rewrite Hc, Hp. cbn [set_conn conns].
  rewrite lookup_insert_eq. cbn [pending inbox]. rewrite !take_ge, !drop_ge by done.
  cbn. rewrite Hp, Ei, (line_here l rest). 2: done. cbn. rewrite (line_here l []) by done.
  unfold answer, set_conn, handle_connection. cbn [m_remote_ip target conns].
  destruct (m_handler _ _ _) as [[resp a]|]; [|done]. destruct (_ <? _); [done|].
  destruct (reachable k); [|done]. cbn. by rewrite insert_insert_eq.
Qed.

(** C38 A request can be taken for another client's: the server keeps one
    address, that of the connection it listened to last.  When a second client
    connects before the first one's request is read, the handler is called with
    the address of the second. *)
Theorem request_under_anothers_address k ip1 ip2 s s1 s2 l :
  startAccept (F := F) k 1 ip1 s = Ok s1 → startAccept (F := F) k 2 ip2 s1 = Ok s2 →
  UNTIL ∉ list_ascii_of_string l →
  let bytes := list_ascii_of_string l ++ [UNTIL] in
  (∀ e, m_handler ip2 l (target s) = Err e →
     on_read m_handler k 1 (length bytes) (arrive 1 bytes s2) = Err (Handler e)) ∧
  (∀ resp a, m_handler ip2 l (target s) = Ok (resp, a) →
     String.length resp < taken k →
     ∃ s3, on_read m_handler k 1 (length bytes) (arrive 1 bytes s2) = Ok s3 ∧ target s3 = a).
Proof.
  unfold startAccept, handle_connection. destruct (reachable k) eqn:Hk; [|done].
  intros [= <-] [= <-] Hl. set (bytes := list_ascii_of_string l ++ [UNTIL]).
  match goal with |- context [arrive 1 bytes ?x] => set (s2 := x) end.
  assert (Hc : conns s2 !! 1 = Some (mkConn ip1 [] false false (Some []) []))
    by (subst s2; cbn; by rewrite lookup_insert_ne, lookup_insert_eq).
  unfold arrive. rewrite Hc. cbn [ended].
  unfold on_read. cbn [set_conn conns]. rewrite lookup_insert_eq. cbn.
  rewrite take_ge, drop_ge by done.
  assert (El : line bytes = Some (list_ascii_of_string l)) by by apply (line_here _ []).
  rewrite !El.
  unfold answer. cbn. rewrite string_line.
  change (m_remote_ip s2) with ip2. change (target s2) with (target s). split.
  - intros e Eh. by rewrite Eh.
  - intros resp a Eh Hlen. rewrite Eh, length_app, string_bytes, Nat.add_1_r.
    rewrite (proj2 (Nat.leb_gt _ _)) by lia. unfold handle_connection. rewrite Hk. eauto.
Qed.

End Guarantees.

(** ** The controller behind the server *)

(** The handler [Controller::Start] binds; [dump] prints the answer. *)
Definition controller_handler (parse : string → option json) (cos : float → float)
    (dump : json → string) (now : Z) (sandbox : bool) (ip request : string) (c : Controller.t)
    : outcome cerror (string * Controller.t) :=
  match Controller.requestHandler parse cos (Controller.mkEnv now ip sandbox 0 0) request c with
  | (Ok j, c) => Ok (dump j, c)
  | (Err e, _) => Err e
  end.

Section Examples.

Definition count_handler (ip r : string) (n : nat) : outcome unit (string * nat) := Ok ("ok"%string, S n).

Definition wide : kernel := mkKernel 100 true.

Definition one_conn : conn := mkConn "h" [] false false (Some []) [].

Definition one_client : world nat :=
  mkWorld (mk (<[1 := one_conn]> ∅) "h" 0) (<[1 := mkClient [] []]> ∅).

Definition one_request : world nat :=
  mkWorld (arrive 1 (list_ascii_of_string "a" ++ [UNTIL]) (srv one_client))
          (<[1 := mkClient ["a"%string] []]> (clients one_client)).

Lemma one_request_run : rtc (lstep count_handler) (start "" 0) one_request.
Proof.
  assert (H1 : lstep count_handler (start "" 0) one_client)
    by exact (l_connect count_handler (start "" 0) wide 1 "h" _ eq_refl eq_refl).
  assert (H2 : lstep count_handler one_client one_request).
  { refine (l_ask count_handler one_client 1 "a" one_conn (mkClient [] []) _ _ _ _ _);
      try reflexivity. vm_compute. set_solver. }
  exact (rtc_l _ _ _ _ H1 (rtc_l _ _ _ _ H2 (rtc_refl _ _))).
Qed.

Lemma lockstep_every_request_answered_witness :
  ∃ s', reads count_handler wide 1 [1; 1] (srv one_request) = Ok s' ∧ target s' = 1.
Proof.
  destruct (lockstep_every_request_answered count_handler "" 0 one_request 1
    (mkConn "h" (list_ascii_of_string "a" ++ [UNTIL]) false false (Some []) [])
    (mkClient ["a"%string] [])) as [E|(l & El & Hr)].
  - intros ip r a resp a' [= <- _]. cbn. set_solver.
  - exact one_request_run.
  - reflexivity.
  - reflexivity.
  - discriminate E.
  - destruct (Hr wide [1; 1] "ok"%string 1) as (s' & c' & E1 & E2 & _).
    + reflexivity.
    + repeat constructor.
    + reflexivity.
    + vm_compute. lia.
    + reflexivity.
    + exists s'. split; [exact E1|exact E2].
Defined.

Definition two_lines : list ascii := list_ascii_of_string "a" ++ UNTIL :: list_ascii_of_string "b" ++ [UNTIL].

Lemma pipelined_requests_lost_witness :
  let s := mk (<[1 := mkConn "h" two_lines false false (Some []) []]> ∅) "h" 0 in
  on_read count_handler wide 1 4 s
  = on_read count_handler wide 1 2
      (set_conn 1 (mkConn "h" (list_ascii_of_string "a" ++ [UNTIL]) false false (Some []) []) s).
Proof.
  intros s.
  apply (pipelined_requests_lost count_handler wide 1 s
    (mkConn "h" two_lines false false (Some []) []) (list_ascii_of_string "a")
    (list_ascii_of_string "b" ++ [UNTIL])).
  - reflexivity.
  - reflexivity.
  - cbn. set_solver.
  - reflexivity.
Defined.

Definition print_ok (j : json) : string := "ok".

Definition demo_handler := controller_handler demo_parse demo_cos print_ok 0 false.

Definition demo_answer := demo_handler "10.0.0.2" "n1 home" demo_fresh.

Definition demo_after : Controller.t :=
  match demo_answer with Ok (_, c) => c | Err _ => demo_fresh end.

Lemma demo_answer_ok :
  match demo_answer with Ok _ => true | Err _ => false end = true →
  demo_answer = Ok ("ok"%string, demo_after).
Proof.
  unfold demo_after. unfold demo_answer at 1 2. unfold demo_handler, controller_handler.
  destruct (Controller.requestHandler _ _ _ _ _) as [[j|e] c] eqn:E; [|done]. intros _.
  unfold demo_answer, demo_handler, controller_handler. by rewrite E.
Qed.

Definition listening : t Controller.t := mk ∅ "" demo_fresh.

Definition accept_both : t Controller.t :=
  mk (<[2 := mkConn "10.0.0.2" [] false false (Some []) []]>
        (<[1 := mkConn "10.0.0.1" [] false false (Some []) []]> ∅)) "10.0.0.2" demo_fresh.

(** The node of the first client, registered with the second one's address. *)
Lemma request_under_anothers_address_witness :
  (∃ s3, on_read demo_handler wide 1 8 (arrive 1 (list_ascii_of_string "n1 home" ++ [UNTIL]) accept_both)
         = Ok s3 ∧ target s3 = demo_after) ∧
  NodeConfig.m_ipAddress (Node.m_config (demo_node "n1" demo_after)) = "10.0.0.2"%string.
Proof.
  split; [|vm_compute; reflexivity].
  destruct (request_under_anothers_address demo_handler wide "10.0.0.1" "10.0.0.2" listening
    (mk (<[1 := mkConn "10.0.0.1" [] false false (Some []) []]> ∅) "10.0.0.1" demo_fresh)
    accept_both "n1 home") as [_ H].
  - reflexivity.
  - reflexivity.
  - cbn. set_solver.
  - apply (H "ok"%string demo_after).
    + apply demo_answer_ok. vm_cast_no_check (eq_refl true).
    + vm_compute. lia.
Defined.

End Examples.
