(* ===== verification/Backlog.v ===== *)
(** A worker that has fallen behind: the loop of
    src/src/chem/channel/intermediate.cpp, lines 86-150, over several passes.

    What one pass removes from the queue, and that a backlog of bursts that are
    too old is gone, with all its buffers back, after as many passes. *)

From Stdlib Require Import ZArith Lia Strings.Byte Strings.String Floats.SpecFloat.
From stdpp Require Import prelude list strings gmap.
From S2P Require Import Prelude.
From S2P Require Import Ieee.
From S2P Require Import Common.
From S2P Require Import CxxLib.
From S2P Require Import DataPool.
From S2P Require Import Signal.
From S2P Require Import Receiver.
From S2P Require Import Transmitter.
From S2P Require Import Channel.
From S2P Require Import Intermediate.
From S2P Require Import DataPath.
From S2P Require Import Routing.

Import Intermediate DataPath.

Section Backlog.
Context `{Dsp, Converter, PriorityQueue}.

(** The [while] loop of [WorkerLoop], one pass at each of the given times. *)
Fixpoint WorkerLoop (e : Scratch)
    (order : list (DestInfo * list byte) → list (DestInfo * list byte))
    (junk : Signal.t) (times : list Z) (id : string) (w : world)
    : outcome ierror (list worker_event * world) :=
  match times with
  | [] => Ok ([], w)
  | now :: times =>
      (do! x <- WorkerLoop_iter e order junk now id w;
       let '(ev, w) := x in
       do! y <- WorkerLoop e order junk times id w;
       let '(evs, w) := y in Ok (ev :: evs, w))%chem
  end.

(** Too old at a time, by the limit of the channel. *)
Definition stale (w : world) (now : Z) (s : Signal.t) : Prop :=
  h_start (Signal.header s) < now - m_max_latency_ns (im w).

(** The world after the worker dropped bursts. *)
Definition dropped (id : string) (c : WorkerContext) (n : nat) (p : iqPool_t) (w w' : world) : Prop :=
  hp w' = hp w ∧ home w' = home w ∧
  pools w' = <[Z.to_nat (numa_node c) := p]> (pools w) ∧
  m_workers (im w') = <[id := c]> (m_workers (im w)) ∧
  m_destCount (im w') = m_destCount (im w) ∧ work (im w') = work (im w) ∧
  m_max_latency_ns (im w') = m_max_latency_ns (im w) ∧
  m_workerAgeDropCount (im w') = m_workerAgeDropCount (im w) + Z.of_nat n.

(** One pass over a burst that is too old. *)
Lemma stale_pass e order junk now id w c s q b p :
  m_workers (im w) !! id = Some c → running c = true → work (im w) = true →
  m_destCount (im w) ≠ 0 → queue c = s :: q → stale w now s →
  Signal.iq_data s = Some b → pools w !! Z.to_nat (numa_node c) = Some p →
  ∃ w', WorkerLoop_iter e order junk now id w = Ok (WTooOld s, w') ∧
    dropped id (c <| queue := q |>) 1 (bp_give b p) w w'.
Proof.
  intros Hc Hr Hk Hd Hq Ho Hb Hp. unfold WorkerLoop_iter.
  rewrite Hc, Hr, Hk. cbn [andb negb]. rewrite (proj2 (Z.eqb_neq _ _) Hd), Hq.
  unfold stale in Ho. cbn [set_worker].
  change (m_max_latency_ns (im (set_worker id (c <| queue := q |>) w)))
    with (m_max_latency_ns (im w)).
  rewrite (proj2 (Z.ltb_lt _ _) Ho). unfold release_to.
  change (pools (set_worker id (c <| queue := q |>) w)) with (pools w).
  change (numa_node (c <| queue := q |>)) with (numa_node c).
  rewrite Hp, Hb. eexists. split; [reflexivity|]. by split_and!.
Qed.

Lemma dropped_trans id c c' n n' p p' w w' w'' :
  numa_node c = numa_node c' →
  dropped id c n p w w' → dropped id c' n' p' w' w'' → dropped id c' (n + n') p' w w''.
Proof.
  intros En (E1 & E2 & E3 & E4 & E5 & E6 & E7 & E8) (F1 & F2 & F3 & F4 & F5 & F6 & F7 & F8).
  unfold dropped. split_and!; try congruence.
  - rewrite F3, E3, En. apply list_insert_insert_eq.
  - rewrite F4, E4. apply insert_insert_eq.
  - lia.
Qed.

(** C22 A worker that has fallen behind catches up.  When every burst of its
    queue is too old at every one of as many passes as there are bursts, those
    passes succeed and drop exactly the queue, oldest first: afterwards it is
    empty and every buffer is back in the worker's pool, in that order; the
    drops are counted, and no transmitter, receiver or other worker has
    changed. *)
Theorem stale_backlog_drained e order junk times id w c p
    (Hc : m_workers (im w) !! id = Some c) (Hrun : running c = true)
    (Hwork : work (im w) = true) (Hdest : m_destCount (im w) ≠ 0)
    (Hp : pools w !! Z.to_nat (numa_node c) = Some p)
    (Hlen : length times = length (queue c))
    (Hold : ∀ now s, now ∈ times → s ∈ queue c → stale w now s)
    (Hdata : Forall (λ s, is_Some (Signal.iq_data s)) (queue c)) :
  ∃ w' bs, WorkerLoop e order junk times id w = Ok (WTooOld <$> queue c, w') ∧
    Signal.iq_data <$> queue c = Some <$> bs ∧
    dropped id (c <| queue := [] |>) (length (queue c)) (foldl (λ p b, bp_give b p) p bs) w w'.
Proof.
  remember (queue c) as q eqn:Eq. revert w c p times Hc Hrun Hwork Hdest Hp Hlen Hold Hdata Eq.
  induction q as [|s q IH]; intros w c p times Hc Hrun Hwork Hdest Hp Hlen Hold Hdata Eq.
  - destruct times; [|done]. exists w, []. split_and!; [done..|].
    split_and!; try done; cbn.
    + symmetry. by apply list_insert_id.
    + rewrite insert_id; [done|]. rewrite Hc. f_equal. destruct c. cbn in *. by subst.
    + lia.
  - destruct times as [|now times]; [done|]. injection Hlen as Hlen.
    apply Forall_cons in Hdata as [[b Hb] Hdata].
    destruct (stale_pass e order junk now id w c s q b p) as (w1 & E1 & D1); try done.
    { apply Hold; left. }
    assert (D1' := D1). destruct D1' as (_ & _ & P1 & W1 & N1 & K1 & L1 & _).
    destruct (IH w1 (c <| queue := q |>) (bp_give b p) times) as (w2 & bs & E2 & Eb & D2).
    + by rewrite W1, lookup_insert_eq.
    + done.
    + by rewrite K1.
    + by rewrite N1.
    + rewrite P1. apply list_lookup_insert_eq. by eapply lookup_lt_Some.
    + done.
    + intros now' s' Hn Hs. unfold stale. rewrite L1. apply Hold; by right.
    + done.
    + done.
    + exists w2, (b :: bs). split_and!.
      * cbn [WorkerLoop]. rewrite E1. cbn [obind]. by rewrite E2.
      * cbn. by rewrite Hb, Eb.
      * exact (dropped_trans id (c <| queue := q |>) (c <| queue := [] |>) 1 (length q) _ _ w w1 w2
               eq_refl D1 D2).
Qed.

End Backlog.

(** Two old bursts at a worker of the demonstration. *)
Definition late_signal : Signal.t :=
  Signal.ctor sample_junk (Some (replicate 8 x01))
    (mkHeader 8 (-20000000) 6000 0 2000000 2 1 1) (F64.of_Z 3500000000) "a".

Definition late_worker : WorkerContext := demo_worker <| queue := [late_signal; late_signal] |>.

Definition late_world : world := set_worker "a" late_worker demo_ready.

Lemma stale_backlog_drained_witness :
  ∃ w' bs, @WorkerLoop flat_dsp _ _ demo_scratch (λ l, l) sample_junk [6000; 7000] "a" late_world
           = Ok (WTooOld <$> [late_signal; late_signal], w') ∧
    Signal.iq_data <$> [late_signal; late_signal] = Some <$> bs ∧
    dropped "a" (late_worker <| queue := [] |>) 2 (foldl (λ p b, bp_give b p) demo_pool bs)
      late_world w'.
Proof.
  apply (@stale_backlog_drained flat_dsp _ _ demo_scratch (λ l, l) sample_junk [6000; 7000] "a"
    late_world late_worker demo_pool).
  - apply lookup_insert_eq.
  - vm_cast_no_check (eq_refl true).
  - vm_cast_no_check (eq_refl true).
  - by vm_compute.
  - vm_cast_no_check (eq_refl (Some demo_pool)).
  - reflexivity.
  - intros now s Hn Hs.
    assert (Hs' : h_start (Signal.header s) = -20000000).
    { repeat (apply elem_of_cons in Hs as [->|Hs]; [reflexivity|]). destruct (not_elem_of_nil _ Hs). }
    unfold stale. rewrite Hs'.
    assert (Hl : m_max_latency_ns (im late_world) = 10000000)
      by vm_cast_no_check (eq_refl 10000000).
    rewrite Hl. repeat (apply elem_of_cons in Hn as [->|Hn]; [lia|]). destruct (not_elem_of_nil _ Hn).
  - repeat constructor; by eexists.
Defined.
