(* ===== verification/Config.v ===== *)
(** The configuration file: src/src/chem/config.cpp, src/include/chem/config.h,
    and [basic_json::merge_patch] of the JSON library (RFC 7386), by which the
    operator changes it.

    The file system is a map from paths to contents; the text form of JSON is a
    parameter ([parse], [dump]). *)

From Stdlib Require Import ZArith Lia Strings.Ascii Strings.String Floats.SpecFloat Sorting.Sorted.
From Stdlib Require Import Structures.OrderedTypeEx.
From stdpp Require Import prelude list strings gmap.
From S2P Require Import Prelude.
From S2P Require Import Ieee.
From S2P Require Import Common.
From S2P Require Import CxxLib.
From S2P Require Import Json.

(** ** Merging *)

Definition fields_of (j : json) : list (string * json) :=
  match j with JObject fs => fs | _ => [] end.

(** [erase(key)]. *)
Definition erase_key (k : string) (fs : list (string * json)) : list (string * json) :=
  filter (λ kv, kv.1 ≠ k) fs.

(** [operator[](key)]: null for a new key. *)
Definition member (k : string) (fs : list (string * json)) : json := default JNull (find_key k fs).

Fixpoint merge_patch (apply_patch j : json) {struct apply_patch} : json :=
  match apply_patch with
  | JObject ps =>
      let fix go ps fs :=
        match ps with
        | [] => fs
        | (k, v) :: ps =>
            go ps (match v with
                   | JNull => erase_key k fs
                   | _ => put_key k (merge_patch v (member k fs)) fs
                   end)
        end in
      JObject (go ps (fields_of j))
  | _ => apply_patch
  end.

(** The body of the loop. *)
Definition merge_entry (kv : string * json) (fs : list (string * json)) : list (string * json) :=
  match kv.2 with
  | JNull => erase_key kv.1 fs
  | v => put_key kv.1 (merge_patch v (member kv.1 fs)) fs
  end.

Definition merge_entries (ps fs : list (string * json)) : list (string * json) :=
  foldl (λ fs kv, merge_entry kv fs) fs ps.

(** ** The settings *)

Module Config.

Record t : Type := mk {
  configuration : json;
  m_path : string;
  controllerIpaddr : string;
  controllerPort : Z;              (* uint16_t *)
  coordIpaddress : string;
  coordPort : Z;                   (* uint16_t *)
  maxNode : Z;                     (* uint8_t *)
  logDirectory : string;
  logLevel : string;
  cpuAffinity : string;
  numaNode : Z;                    (* int *)
  maxCores : Z;                    (* int *)
  numaEnabled : bool;
  extensionsConfig : json;
  sandboxEnabled : bool;
  sandboxMiddlemanUrl : string;
  sandboxUpdateRateMs : Z;         (* int *)
}.

#[global] Instance t_eta : Settable t := λ c,
  mk (configuration c) (m_path c) (controllerIpaddr c) (controllerPort c) (coordIpaddress c)
    (coordPort c) (maxNode c) (logDirectory c) (logLevel c) (cpuAffinity c) (numaNode c)
    (maxCores c) (numaEnabled c) (extensionsConfig c) (sandboxEnabled c)
    (sandboxMiddlemanUrl c) (sandboxUpdateRateMs c).

Definition default : t :=
  mk JNull "" "0.0.0.0" 10000 "0.0.0.0" 5000 2 "chem.log" "info" "" (-1) 10 true (JObject [])
    false "http://localhost:8080" 500.

(** *** Reading *)

(** Like [get_u8] of Json.v, for 16 bits and for [bool]. *)
Definition get_u16 (j : json) : outcome json_error Z :=
  match j with
  | JUnsigned z | JInt z => Ok (u16 z)
  | JFloat x => Ok (u16 (cvtt32 x))
  | JBool b => Ok (Z.b2z b)
  | _ => Err TypeError
  end.

Definition get_bool (j : json) : outcome json_error bool :=
  match j with JBool b => Ok b | _ => Err TypeError end.

(** [configuration[k]]: a missing key is inserted with null, and stays. *)
Definition subscript (k : string) (c : t) : outcome json_error t :=
  match configuration c with
  | JNull => Ok (c <| configuration := JObject [(k, JNull)] |>)
  | JObject fs =>
      match find_key k fs with
      | Some _ => Ok c
      | None => Ok (c <| configuration := JObject (put_key k JNull fs) |>)
      end
  | _ => Err TypeError
  end.

Definition entry (k : string) (c : t) : json := member k (fields_of (configuration c)).

(** [x = configuration[k]]: the insertion happens before the conversion. *)
Definition required {A} (k : string) (get : json → outcome json_error A) (set : A → t → t)
    : list (stmt t) :=
  [subscript k; λ c, match get (entry k c) with Ok a => Ok (set a c) | Err e => Err e end].

(** [if (configuration.contains(k)) x = configuration[k]]. *)
Definition optional {A} (k : string) (get : json → outcome json_error A) (set : A → t → t)
    : stmt t := λ c,
  if contains k (configuration c)
  then match get (entry k c) with Ok a => Ok (set a c) | Err e => Err e end else Ok c.

(** A guarded member of the section [sandbox]. *)
Definition sandbox_member {A} (k : string) (right : json → bool)
    (get : json → outcome json_error A) (set : A → t → t) : stmt t := λ c,
  if is_object (entry "sandbox" c) then
    match find_key k (fields_of (entry "sandbox" c)) with
    | Some v => if right v
                then match get v with Ok a => Ok (set a c) | Err e => Err e end else Ok c
    | None => Ok c
    end
  else Ok c.

Definition is_boolean (j : json) : bool := match j with JBool _ => true | _ => false end.

(** Lines 17-60: the [try] block. *)
Definition statements : list (stmt t) :=
  required "controllerIpAddress" get_string (λ s c, c <| controllerIpaddr := s |>) ++
  required "controllerPort" get_u16 (λ z c, c <| controllerPort := z |>) ++
  required "coordIpaddress" get_string (λ s c, c <| coordIpaddress := s |>) ++
  required "coordPort" get_u16 (λ z c, c <| coordPort := z |>) ++
  required "maxNode" get_u8 (λ z c, c <| maxNode := z |>) ++
  required "logDirectory" get_string (λ s c, c <| logDirectory := s |>) ++
  required "logLevel" get_string (λ s c, c <| logLevel := s |>) ++
  [optional "cpuAffinity" get_string (λ s c, c <| cpuAffinity := s |>);
   optional "numaNode" get_int (λ z c, c <| numaNode := z |>);
   optional "maxCores" get_int (λ z c, c <| maxCores := Z.max 1 z |>);
   optional "numaEnabled" get_bool (λ b c, c <| numaEnabled := b |>);
   λ c, if is_object (entry "extensions" c)
        then Ok (c <| extensionsConfig := entry "extensions" c |>) else Ok c;
   sandbox_member "enabled" is_boolean get_bool (λ b c, c <| sandboxEnabled := b |>);
   sandbox_member "middlemanUrl" is_string get_string (λ s c, c <| sandboxMiddlemanUrl := s |>);
   sandbox_member "updateRateMs" is_number get_int
     (λ z c, c <| sandboxUpdateRateMs := Z.max 50 z |>)].

(** A [try] block whose [catch] returns false. *)
Fixpoint run (ss : list (stmt t)) (c : t) : bool * t :=
  match ss with
  | [] => (true, c)
  | s :: ss => match s c with Ok c => run ss c | Err _ => (false, c) end
  end.

Section Files.
Context (parse : string → option json) (dump : json → string).

Definition loaded (fpath : string) (j : json) (c : t) : t :=
  c <| m_path := fpath |> <| configuration := j |>.

(** A file that cannot be opened reads as empty.  [None]: the parser throws,
    outside the [try] block. *)
Definition read (fpath : string) (files : gmap string string) (c : t) : option (bool * t) :=
  match parse (match files !! fpath with Some s => s | None => "" end) with
  | None => None
  | Some j => Some (run statements (loaded fpath j c))
  end.

(** [writable]: the paths that can be opened for writing, on a disk with room. *)
Definition save (writable : string → bool) (path : string) (c : t) (files : gmap string string)
    : bool * gmap string string :=
  let target := if (path =? "")%string then m_path c else path in
  if (target =? "")%string then (false, files)
  else if writable target
  then (true, <[target := dump (configuration c) +:+ String "010" ""]> files)
  else (false, files).

Definition mergePatch (patch : json) (c : t) : t :=
  c <| configuration := merge_patch patch (configuration c) |>.

(** The commands SAVE_CONFIG_FILE and GET_CONFIG_FILE of the coordinator
    (coordinator.cpp, lines 223-254), given the fields: the answer, and what it
    leaves.  The coordinator may have been given no configuration. *)
Definition no_file : json :=
  of_pairs [("status", JString "fail"); ("message", JString "Config file not available")].

Definition SAVE_CONFIG_FILE (writable : string → bool) (fs : list (string * json))
    (m_config : option t) (files : gmap string string)
    : json * option t * gmap string string :=
  match m_config with
  | None => (no_file, None, files)
  | Some c =>
      let c := if is_object (member "config" fs) then mergePatch (member "config" fs) c else c in
      let path := match member "path" fs with JString s => s | _ => ""%string end in
      let '(ok, files) := save writable path c files in
      (of_pairs ([("status", JString (if ok then "success" else "fail"))] ++
                 (if ok then [] else [("message", JString "Failed to write config file")]) ++
                 [("path", JString (if (path =? "")%string then m_path c else path));
                  ("config", configuration c)]), Some c, files)
  end.

Definition GET_CONFIG_FILE (m_config : option t) : json :=
  match m_config with
  | None => no_file
  | Some c => of_pairs [("status", JString "success"); ("path", JString (m_path c));
                        ("config", configuration c)]
  end.

End Files.

End Config.

(** ** Merging *)

Section Merging.

Lemma json_object_ind (P : json → Prop) :
  (∀ fs, Forall (λ kv, P kv.2) fs → P (JObject fs)) →
  (∀ j, is_object j = false → P j) → ∀ j, P j.
Proof.
  intros Ho Hn. fix IH 1. intros [|fs| | | | | |]; try (by apply Hn). apply Ho.
  revert fs. fix IHfs 1. intros [|[k v] fs]; constructor; [apply IH|apply IHfs].
Qed.

Lemma merge_object ps j : merge_patch (JObject ps) j = JObject (merge_entries ps (fields_of j)).
Proof.
  cbn [merge_patch]. f_equal. generalize (fields_of j) as fs.
  induction ps as [|[k v] ps IH]; intros fs; [done|].
  unfold merge_entries in *. cbn [foldl]. rewrite <- IH. by destruct v.
Qed.

Lemma merge_other p j : is_object p = false → merge_patch p j = p.
Proof. by destruct p. Qed.

Lemma find_erase k k' fs :
  find_key k (erase_key k' fs) = if (k =? k')%string then None else find_key k fs.
Proof.
  unfold erase_key. induction fs as [|[k1 v1] fs IH]; [by destruct (k =? k')%string|].
  rewrite filter_cons. cbn [fst find_key]. case_decide as Hk; cbn [find_key]; rewrite IH;
    destruct (String.eqb_spec k k'), (String.eqb_spec k k1); congruence.
Qed.

Lemma find_merge_entry k kv fs :
  find_key k (merge_entry kv fs)
  = if (k =? kv.1)%string
    then match kv.2 with JNull => None | v => Some (merge_patch v (member k fs)) end
    else find_key k fs.
Proof.
  destruct kv as [k' v]. unfold merge_entry. cbn [fst snd].
  destruct v; rewrite ?find_erase, ?find_put; destruct (String.eqb_spec k k'); by subst.
Qed.

Lemma find_key_none k fs : k ∉ fs.*1 → find_key k fs = None.
Proof.
  induction fs as [|[k' v] fs IH]; intros Hk; [done|]. apply not_elem_of_cons in Hk as [Hne Hk].
  cbn in *. destruct (String.eqb_spec k k'); [done|auto].
Qed.

(** What a merge leaves under a key. *)
Lemma find_merge k ps fs :
  NoDup ps.*1 →
  find_key k (merge_entries ps fs)
  = match find_key k ps with
    | None => find_key k fs
    | Some JNull => None
    | Some v => Some (merge_patch v (member k fs))
    end.
Proof.
  revert fs. induction ps as [|[k' v] ps IH]; intros fs Hnd; [done|].
  apply NoDup_cons in Hnd as [Hk Hnd]. cbn [merge_entries foldl find_key]. fold (merge_entries ps).
  unfold merge_entries in IH. rewrite IH by done.
  destruct (String.eqb_spec k k') as [->|Hne].
  - rewrite (find_key_none k' ps Hk), find_merge_entry. cbn [fst snd].
    rewrite String.eqb_refl. by destruct v.
  - assert (E : find_key k (merge_entry (k', v) fs) = find_key k fs).
    { rewrite find_merge_entry. cbn [fst]. by destruct (String.eqb_spec k k'). }
    unfold member. by rewrite E.
Qed.

(** *** Objects as maps *)

Definition key_lt (a b : string * json) : Prop := String.compare a.1 b.1 = Lt.

Definition sorted (fs : list (string * json)) : Prop := StronglySorted key_lt fs.

(** A value as the library holds it: the keys of every object are in order. *)
Inductive json_ok : json → Prop :=
  | ok_object fs : sorted fs → Forall (λ kv, json_ok kv.2) fs → json_ok (JObject fs)
  | ok_other j : is_object j = false → json_ok j.

Lemma member_lt_trans a b c : key_lt a b → key_lt b c → key_lt a c.
Proof.
  unfold key_lt.
  intros H1 H2. apply String_as_OT.cmp_lt. apply (String_as_OT.lt_trans _ b.1);
    by apply String_as_OT.cmp_lt.
Qed.

Lemma sorted_nodup fs : sorted fs → NoDup fs.*1.
Proof.
  induction 1 as [|a fs Hs IH Ha]; [constructor|]. apply NoDup_cons. split; [|done].
  intros (b & E & Hb)%list_elem_of_fmap. rewrite Forall_forall in Ha.
  specialize (Ha b Hb). unfold key_lt in Ha. rewrite E, compare_refl in Ha. done.
Qed.

Lemma sorted_put k v fs : sorted fs → sorted (put_key k v fs).
Proof.
  induction 1 as [|[k1 v1] fs Hs IH Ha]; cbn [put_key].
  - repeat constructor.
  - destruct (String.compare k k1) eqn:E.
    + apply String.compare_eq_iff in E as ->. constructor; [done|]. done.
    + constructor; [by constructor|]. constructor; [done|].
      eapply Forall_impl; [exact Ha|]. intros b Hb. by eapply (member_lt_trans _ (k1, v1)).
    + constructor; [done|]. assert (Hk : key_lt (k1, v1) (k, v)).
      { unfold key_lt. cbn. rewrite String.compare_antisym, E. done. }
      clear -Ha Hk. induction fs as [|[k2 v2] fs IH]; cbn [put_key]; [by repeat constructor|].
      apply Forall_cons in Ha as [H2 Ha]. destruct (String.compare k k2); repeat constructor; auto.
Qed.

Lemma sorted_erase k fs : sorted fs → sorted (erase_key k fs).
Proof.
  unfold erase_key. induction 1 as [|a fs Hs IH Ha]; [constructor|]. rewrite filter_cons.
  case_decide; [|done]. constructor; [done|]. apply Forall_forall. intros b Hb.
  rewrite Forall_forall in Ha. apply Ha. by apply list_elem_of_filter in Hb as [_ Hb].
Qed.

(** Objects with the same members are equal. *)
Lemma sorted_ext fs fs' :
  sorted fs → sorted fs' → (∀ k, find_key k fs = find_key k fs') → fs = fs'.
Proof.
  intros Hs. revert fs'. induction Hs as [|[k v] fs Hs IH Ha]; intros fs' Hs' He.
  - destruct fs' as [|[k' v'] fs']; [done|]. specialize (He k'). cbn in He.
    by rewrite String.eqb_refl in He.
  - destruct Hs' as [|[k' v'] fs' Hs' Ha'].
    { specialize (He k). cbn in He. by rewrite String.eqb_refl in He. }
    assert (Hnk : ∀ k0 w0 l, Forall (key_lt (k0, w0)) l → k0 ∉ l.*1).
    { intros k0 w0 l Hl (b & -> & Hb)%list_elem_of_fmap. rewrite Forall_forall in Hl.
      specialize (Hl b Hb). unfold key_lt in Hl. cbn in Hl. by rewrite compare_refl in Hl. }
    assert (Hlt : ∀ k1 k2 w2 l, Forall (key_lt (k2, w2)) l → String.compare k1 k2 = Lt →
              find_key k1 ((k2, w2) :: l) = None).
    { intros k1 k2 w2 l Hl Hc. apply find_key_none. cbn. apply not_elem_of_cons. split.
      - intros ->. by rewrite compare_refl in Hc.
      - apply (Hnk k1 JNull). eapply Forall_impl; [exact Hl|]. intros b Hb.
        by eapply (member_lt_trans _ (k2, w2)). }
    destruct (String.compare k k') eqn:E.
    + apply String.compare_eq_iff in E as ->.
      assert (v = v') as ->.
      { specialize (He k'). cbn in He. rewrite String.eqb_refl in He. congruence. }
      f_equal. apply IH; [done|]. intros k0. specialize (He k0). cbn in He.
      destruct (String.eqb_spec k0 k') as [E0|]; [|done].
      rewrite E0, !find_key_none; [done|by eapply Hnk..].
    + specialize (He k). rewrite (Hlt k k' v' fs') in He by done. cbn in He.
      by rewrite String.eqb_refl in He.
    + specialize (He k'). rewrite (Hlt k' k v fs) in He.
      * cbn in He. by rewrite String.eqb_refl in He.
      * done.
      * by rewrite String.compare_antisym, E.
Qed.

Lemma sorted_merge ps fs : sorted fs → sorted (merge_entries ps fs).
Proof.
  revert fs. induction ps as [|[k v] ps IH]; intros fs Hs; [done|]. cbn [merge_entries foldl].
  apply IH. unfold merge_entry. cbn [fst snd].
  destruct v; first [by apply sorted_erase|by apply sorted_put].
Qed.

Lemma json_ok_fields j : json_ok j → sorted (fields_of j) ∧ Forall (λ kv, json_ok kv.2) (fields_of j).
Proof. intros [fs Hs Hf|j' Hj]; [done|]. destruct j'; try done; by split; constructor. Qed.

Lemma find_in k fs v : find_key k fs = Some v → (k, v) ∈ fs.
Proof.
  induction fs as [|[k' v'] fs IH]; [done|]. cbn. destruct (String.eqb_spec k k') as [->|].
  - intros [= ->]. left.
  - intros Hk. right. auto.
Qed.

Lemma in_find k v fs : sorted fs → (k, v) ∈ fs → find_key k fs = Some v.
Proof.
  intros Hs%sorted_nodup. induction fs as [|[k' v'] fs IH]; intros Hin; [by apply elem_of_nil in Hin|].
  apply NoDup_cons in Hs as [Hk Hs]. cbn. apply elem_of_cons in Hin as [[= -> ->]|Hin].
  - by rewrite String.eqb_refl.
  - destruct (String.eqb_spec k k') as [->|]; [|auto]. destruct Hk.
    apply list_elem_of_fmap. by exists (k', v).
Qed.

Lemma find_ok k fs v : Forall (λ kv, json_ok kv.2) fs → find_key k fs = Some v → json_ok v.
Proof. rewrite Forall_forall. intros Hf Hk%find_in. exact (Hf _ Hk). Qed.

Lemma member_ok k fs : Forall (λ kv, json_ok kv.2) fs → json_ok (member k fs).
Proof.
  intros Hf. unfold member. destruct (find_key k fs) eqn:E; cbn; [by eapply find_ok|by apply ok_other].
Qed.

Lemma merge_ok p j : json_ok p → json_ok j → json_ok (merge_patch p j).
Proof.
  revert j. induction p as [ps IH|p Hp] using json_object_ind; intros j Hok Hj;
    [|by rewrite merge_other].
  rewrite merge_object. apply json_ok_fields in Hok as [Hs Hps], Hj as [Hs' Hfs].
  constructor; [by apply sorted_merge|]. apply Forall_forall. intros [k v] Hin. cbn.
  apply in_find in Hin; [|by apply sorted_merge].
  rewrite find_merge in Hin by by apply sorted_nodup.
  destruct (find_key k ps) as [w|] eqn:Ek; [|by eapply find_ok].
  rewrite Forall_forall in IH. specialize (IH _ (find_in _ _ _ Ek)). cbn in IH.
  assert (Hw := find_ok _ _ _ Hps Ek).
  destruct w; try done; apply (inj Some) in Hin as <-;
    exact (IH _ Hw (member_ok k _ Hfs)).
Qed.

Lemma merge_idempotent p j : json_ok p → json_ok j → merge_patch p (merge_patch p j) = merge_patch p j.
Proof.
  revert j. induction p as [ps IH|p Hp] using json_object_ind; intros j Hok Hj;
    [|by rewrite !merge_other].
  rewrite !merge_object. cbn [fields_of]. f_equal.
  apply json_ok_fields in Hok as [Hs Hps], Hj as [Hs' Hfs].
  apply sorted_ext; [by do 2 apply sorted_merge|by apply sorted_merge|]. intros k.
  rewrite find_merge by by apply sorted_nodup.
  pose proof (find_merge k ps (fields_of j) (sorted_nodup _ Hs)) as Hk.
  destruct (find_key k ps) as [w|] eqn:Ek; [|done]. rewrite Hk.
  rewrite Forall_forall in IH. specialize (IH _ (find_in _ _ _ Ek)). cbn in IH.
  assert (Hw := find_ok _ _ _ Hps Ek).
  destruct w; try done; unfold member at 1; rewrite Hk; cbn [default]; f_equal;
    exact (IH _ Hw (member_ok k _ Hfs)).
Qed.

End Merging.

(** C28 Patching the configuration: under every key of the document there is
    afterwards what was there, if the patch does not name it; nothing, if the
    patch gives null; and otherwise the patch's value, merged in the same way
    into what was there.  The keys stay in order, and applying the same patch
    again changes nothing. *)
Theorem config_patch_merges c ps
    (Hp : json_ok (JObject ps)) (Hc : json_ok (Config.configuration c)) :
  let c' := Config.mergePatch (JObject ps) c in
  (∀ k, find_key k (fields_of (Config.configuration c'))
        = match find_key k ps with
          | None => find_key k (fields_of (Config.configuration c))
          | Some JNull => None
          | Some v => Some (merge_patch v (member k (fields_of (Config.configuration c))))
          end) ∧
  json_ok (Config.configuration c') ∧
  Config.mergePatch (JObject ps) c' = c'.
Proof.
  intros c'. split_and!.
  - intros k. subst c'. cbn -[merge_patch]. rewrite merge_object. cbn [fields_of].
    apply find_merge, sorted_nodup. by apply json_ok_fields in Hp as [Hs _].
  - by apply merge_ok.
  - subst c'. unfold Config.mergePatch. destruct c. cbn -[merge_patch] in *.
    by rewrite merge_idempotent.
Qed.

Lemma config_patch_merges_witness :
  let doc := [("a", JInt 1); ("b", JObject [("x", JInt 1); ("y", JInt 2)])]%string in
  let patch := [("a", JNull); ("b", JObject [("y", JInt 3)])]%string in
  Config.configuration (Config.mergePatch (JObject patch)
    (Config.default <| Config.configuration := JObject doc |>))
  = JObject [("b", JObject [("x", JInt 1); ("y", JInt 3)])]%string ∧
  ∀ k, find_key k (fields_of (Config.configuration (Config.mergePatch (JObject patch)
         (Config.default <| Config.configuration := JObject doc |>))))
       = match find_key k patch with
         | None => find_key k doc
         | Some JNull => None
         | Some v => Some (merge_patch v (member k doc))
         end.
Proof.
  intros doc patch. split; [reflexivity|].
  refine (proj1 (config_patch_merges (Config.default <| Config.configuration := JObject doc |>)
    patch _ _)).
  - constructor.
    + repeat constructor.
    + constructor; [by apply ok_other|]. constructor; [|constructor].
      constructor; [repeat constructor|]. constructor; [by apply ok_other|constructor].
  - constructor.
    + repeat constructor.
    + constructor; [by apply ok_other|]. constructor; [|constructor].
      constructor; [repeat constructor|]. do 2 (constructor; [by apply ok_other|]). constructor.
Defined.

(** ** Reading what was saved *)

(** A key a document must have, and one it may have. *)
Definition key {A} (k : string) (get : json → outcome json_error A)
    (fs : list (string * json)) : outcome json_error A :=
  match find_key k fs with Some v => get v | None => Err TypeError end.

Definition key_or {A} (k : string) (get : json → outcome json_error A) (d : A)
    (fs : list (string * json)) : outcome json_error A :=
  match find_key k fs with Some v => get v | None => Ok d end.

(** A member of the section [sandbox], when it has the right type. *)
Definition sandbox_or {A} (k : string) (right : json → bool)
    (get : json → outcome json_error A) (d : A) (fs : list (string * json))
    : outcome json_error A :=
  match member "sandbox" fs with
  | JObject sb => match find_key k sb with
                  | Some v => if right v then get v else Ok d
                  | None => Ok d
                  end
  | _ => Ok d
  end.

(** The settings a document stands for: every field from its own key, the
    optional ones with their defaults. *)
Definition settings (fpath : string) (fs : list (string * json)) : outcome json_error Config.t :=
  (do! ip <- key "controllerIpAddress" get_string fs;
   do! port <- key "controllerPort" Config.get_u16 fs;
   do! coord_ip <- key "coordIpaddress" get_string fs;
   do! coord_port <- key "coordPort" Config.get_u16 fs;
   do! nodes <- key "maxNode" get_u8 fs;
   do! directory <- key "logDirectory" get_string fs;
   do! level <- key "logLevel" get_string fs;
   do! affinity <- key_or "cpuAffinity" get_string "" fs;
   do! numa <- key_or "numaNode" get_int (-1) fs;
   do! cores <- key_or "maxCores" get_int 10 fs;
   do! numa_on <- key_or "numaEnabled" Config.get_bool true fs;
   do! sandbox <- sandbox_or "enabled" Config.is_boolean Config.get_bool false fs;
   do! url <- sandbox_or "middlemanUrl" is_string get_string "http://localhost:8080" fs;
   do! rate <- sandbox_or "updateRateMs" is_number get_int 500 fs;
   Ok {| Config.configuration := JObject fs; Config.m_path := fpath;
         Config.controllerIpaddr := ip; Config.controllerPort := port;
         Config.coordIpaddress := coord_ip; Config.coordPort := coord_port;
         Config.maxNode := nodes; Config.logDirectory := directory; Config.logLevel := level;
         Config.cpuAffinity := affinity; Config.numaNode := numa;
         Config.maxCores := Z.max 1 cores; Config.numaEnabled := numa_on;
         Config.extensionsConfig :=
           if is_object (member "extensions" fs) then member "extensions" fs else JObject [];
         Config.sandboxEnabled := sandbox; Config.sandboxMiddlemanUrl := url;
         Config.sandboxUpdateRateMs := Z.max 50 rate |})%chem.

Section RoundTrip.
Import Config.
Context (parse : string → option json) (dump : json → string).

Implicit Types (c : t) (ss : list (stmt t)).

Lemma run_req {A} k (get : json → outcome json_error A) set ss c fs :
  configuration c = JObject fs → (∀ a, get JNull ≠ Ok a) →
  match key k get fs with
  | Ok a => run (required k get set ++ ss) c = run ss (set a c)
  | Err _ => (run (required k get set ++ ss) c).1 = false
  end.
Proof.
  intros Ec Hn. unfold key, required. cbn [app run]. unfold subscript. rewrite Ec.
  destruct (find_key k fs) as [v|] eqn:Ef.
  - unfold entry, member. rewrite Ec. cbn [fields_of]. rewrite Ef.
    cbn [from_option id]. by destruct (get v).
  - unfold entry, member. cbn [modify configuration fields_of].
    rewrite find_put, String.eqb_refl. cbn [from_option id].
    destruct (get JNull) eqn:Eg; [by destruct (Hn a)|done].
Qed.

Lemma run_opt {A} k (get : json → outcome json_error A) (set : A → t → t) d ss c fs :
  configuration c = JObject fs → set d c = c →
  match key_or k get d fs with
  | Ok a => run (optional k get set :: ss) c = run ss (set a c)
  | Err _ => (run (optional k get set :: ss) c).1 = false
  end.
Proof.
  intros Ec Hd. unfold key_or. cbn [run]. unfold optional, entry, member, contains. rewrite Ec.
  cbn [fields_of]. destruct (find_key k fs) as [v|]; [|by rewrite Hd].
  cbn [from_option id]. by destruct (get v).
Qed.

Lemma run_sandbox {A} k right (get : json → outcome json_error A) (set : A → t → t) d ss c fs :
  configuration c = JObject fs → set d c = c →
  match sandbox_or k right get d fs with
  | Ok a => run (sandbox_member k right get set :: ss) c = run ss (set a c)
  | Err _ => (run (sandbox_member k right get set :: ss) c).1 = false
  end.
Proof.
  intros Ec Hd. unfold sandbox_or. cbn [run]. unfold sandbox_member, entry. rewrite Ec.
  cbn [fields_of]. destruct (member "sandbox" fs) as [|sb| | | | | |]; cbn [is_object];
    try (by rewrite Hd).
  cbn [fields_of]. destruct (find_key k sb) as [v|]; [|by rewrite Hd].
  destruct (right v); [|by rewrite Hd]. by destruct (get v).
Qed.

Definition extensions_statement : stmt t := λ c,
  if is_object (entry "extensions" c)
  then Ok (c <| extensionsConfig := entry "extensions" c |>) else Ok c.

Lemma run_extensions ss c fs :
  configuration c = JObject fs →
  run (extensions_statement :: ss) c
  = run ss (c <| extensionsConfig := if is_object (member "extensions" fs)
                                     then member "extensions" fs else extensionsConfig c |>).
Proof.
  intros Ec. cbn [run]. unfold extensions_statement, entry. rewrite Ec. cbn [fields_of].
  destruct (is_object _); [done|]. by destruct c.
Qed.

(** One line of [settings] and its statement in [read]. *)
Ltac reading :=
  lazymatch goal with
  | |- match obind (key ?k ?g ?fs) _ with _ => _ end =>
      lazymatch goal with
      | |- context [run (required k g ?set ++ ?ss) ?c] =>
          let H := fresh in
          pose proof (run_req k g set ss c fs eq_refl ltac:(intros ?; discriminate)) as H;
          destruct (key k g fs); [rewrite H; clear H; cbn [obind]|exact H]
      end
  | |- match obind (key_or ?k ?g ?d ?fs) _ with _ => _ end =>
      lazymatch goal with
      | |- context [run (optional k g ?set :: ?ss) ?c] =>
          let H := fresh in
          pose proof (run_opt k g set d ss c fs eq_refl eq_refl) as H;
          destruct (key_or k g d fs); [rewrite H; clear H; cbn [obind]|exact H]
      end
  | |- match obind (sandbox_or ?k ?r ?g ?d ?fs) _ with _ => _ end =>
      lazymatch goal with
      | |- context [run (sandbox_member k r g ?set :: ?ss) ?c] =>
          let H := fresh in
          pose proof (run_sandbox k r g set d ss c fs eq_refl eq_refl) as H;
          destruct (sandbox_or k r g d fs); [rewrite H; clear H; cbn [obind]|exact H]
      end
  end.

(** Reading a document is computing its settings. *)
Lemma run_settings fpath fs :
  match settings fpath fs with
  | Ok c => run statements (loaded fpath (JObject fs) default) = (true, c)
  | Err _ => (run statements (loaded fpath (JObject fs) default)).1 = false
  end.
Proof.
  unfold settings, statements. do 7 reading.
  change ([?a; ?b; ?c; ?d] ++ ?l) with (a :: b :: c :: d :: l). do 4 reading.
  match goal with |- context [run (?e :: ?l) ?c] =>
    change (run (e :: l) c) with (run (extensions_statement :: l) c);
    rewrite (run_extensions l c fs eq_refl) end.
  do 3 reading. reflexivity.
Qed.

(** C27 What the operator saves is what the next start reads.  When the command
    SAVE_CONFIG_FILE, perhaps with a patch of the configuration, succeeds and
    the text it wrote reads back as the document written (the JSON library's
    printer and parser), the program keeps the patched document, and a start
    from the file written (the path of the request, or the one the
    configuration was read from) finds exactly the settings of that document:
    every field from the document's key of that name, a missing optional key at
    its default, [maxCores] at least 1 and [updateRateMs] at least 50.  It
    succeeds just when all seven required keys are there and every key used has
    the right type. *)
Theorem saved_configuration_reads_back writable fs c files answer c' files' doc
    (Hsave : SAVE_CONFIG_FILE dump writable fs (Some c) files = (answer, Some c', files'))
    (Hok : find_key "status" (fields_of answer) = Some (JString "success"))
    (Hdoc : configuration c' = JObject doc)
    (Htext : parse (dump (JObject doc) +:+ String "010"%char "") = Some (JObject doc)) :
  let target := match member "path" fs with JString s => if (s =? "")%string then m_path c else s
                | _ => m_path c end in
  configuration c' = (match member "config" fs with
                      | JObject patch => merge_patch (JObject patch) (configuration c)
                      | _ => configuration c end) ∧
  ∀ c'', read parse target files' default = Some (true, c'') ↔ settings target doc = Ok c''.
Proof.
  intros target. unfold SAVE_CONFIG_FILE in Hsave. cbv zeta in Hsave.
  set (c1 := if is_object _ then _ else _) in Hsave.
  set (path := match member "path" fs with JString s => s | _ => ""%string end) in Hsave.
  assert (Hm : m_path c1 = m_path c) by (subst c1; by destruct (is_object _)).
  assert (Ht : (if (path =? "")%string then m_path c1 else path) = target).
  { rewrite Hm. subst path target. by destruct (member "path" fs) as [| | |x| | | |]. }
  unfold save in Hsave. rewrite Ht in Hsave.
  destruct (target =? "")%string.
  { injection Hsave as <- _ _. vm_compute in Hok. discriminate Hok. }
  destruct (writable target).
  2:{ injection Hsave as <- _ _. vm_compute in Hok. discriminate Hok. }
  injection Hsave as _ <- <-. split.
  { subst c1. by destruct (member "config" fs). }
  intros c''. unfold read. rewrite lookup_insert_eq, Hdoc, Htext.
  pose proof (run_settings target doc) as Hrun.
  destruct (settings target doc) as [cs|e].
  - rewrite Hrun. split; [intros H|intros H]; [|by injection H as <-].
    apply (inj Some) in H. by injection H as <-.
  - split; [|done]. intros H. apply (inj Some) in H. rewrite H in Hrun. discriminate Hrun.
Qed.

(** A reading that stops: the settings before the missing one are taken, all
    others keep their defaults, and the document holds a null that was not in
    the file.  [main] goes on with them. *)
Lemma missing_key_stops_reading fpath files fs ip :
  parse (match files !! fpath with Some s => s | None => "" end) = Some (JObject fs) →
  find_key "controllerIpAddress" fs = Some (JString ip) → find_key "controllerPort" fs = None →
  read parse fpath files default
  = Some (false, default <| m_path := fpath |> <| controllerIpaddr := ip |>
                         <| configuration := JObject (put_key "controllerPort" JNull fs) |>).
Proof.
  intros Hp Hip Hport. unfold read. rewrite Hp. f_equal.
  unfold statements, required. cbn [app run]. unfold subscript at 1. cbn [configuration loaded].
  cbn. rewrite Hip. unfold entry, member. cbn. rewrite Hip. cbn. unfold subscript. cbn. rewrite Hport.
  cbn. by rewrite find_put.
Qed.

End RoundTrip.

Definition sample_document : json := of_pairs
  [("controllerIpAddress", JString "10.0.0.1"); ("controllerPort", JUnsigned 10000);
   ("coordIpaddress", JString "0.0.0.0"); ("coordPort", JUnsigned 5001);
   ("maxNode", JUnsigned 8); ("logDirectory", JString "log"); ("logLevel", JString "debug");
   ("maxCores", JInt 0)]%string.

Definition sample_settings : Config.t := Config.default
  <| Config.configuration := sample_document |> <| Config.m_path := "a.json" |>
  <| Config.controllerIpaddr := "10.0.0.1" |> <| Config.coordPort := 5001 |>
  <| Config.maxNode := 8 |> <| Config.logDirectory := "log" |> <| Config.logLevel := "debug" |>
  <| Config.maxCores := 1 |>.

(** The file of a start, and a patch that changes two settings and adds a
    section. *)
Definition sample_patch : json := JObject
  [("coordPort", JUnsigned 6001); ("cpuAffinity", JString "0-3");
   ("sandbox", JObject [("enabled", JBool true); ("updateRateMs", JUnsigned 20)])]%string.

Definition patched_document : json := merge_patch sample_patch sample_document.

Definition sample_request : list (string * json) :=
  [("config", sample_patch); ("path", JString "b.json")]%string.

(** A printer and a parser that tell the two documents apart. *)
Definition sample_dump (j : json) : string :=
  if contains "sandbox" j then "patched" else "plain".

Definition sample_parse (s : string) : option json :=
  if (s =? "patched" +:+ String "010"%char "")%string then Some patched_document
  else if (s =? "plain" +:+ String "010"%char "")%string then Some sample_document else None.

Definition sample_saved : json * option Config.t * gmap string string :=
  Config.SAVE_CONFIG_FILE sample_dump (λ _, true) sample_request (Some sample_settings) ∅.

Lemma saved_configuration_reads_back_witness :
  ∃ c, Config.read sample_parse "b.json" sample_saved.2 Config.default = Some (true, c) ∧
    Config.coordPort c = 6001 ∧ Config.controllerPort c = 10000 ∧
    Config.cpuAffinity c = "0-3"%string ∧ Config.sandboxEnabled c = true ∧
    Config.sandboxUpdateRateMs c = 50.
Proof.
  destruct (saved_configuration_reads_back sample_parse sample_dump (λ _, true) sample_request
    sample_settings ∅ sample_saved.1.1 (Config.mergePatch sample_patch sample_settings)
    sample_saved.2 (fields_of patched_document)) as [_ Hread].
  - vm_compute. reflexivity.
  - vm_compute. reflexivity.
  - vm_compute. reflexivity.
  - vm_compute. reflexivity.
  - destruct (settings "b.json" (fields_of patched_document)) as [c|] eqn:E;
      [|by vm_compute in E].
    exists c. split; [by apply Hread|].
    vm_compute in E. injection E as <-. vm_compute. by split_and!.
Defined.
