(* ===== verification/Reports.v ===== *)
(** What the coordinator reports: src/src/chem/channel/coordinator.cpp, lines
    74-104, 257-279, 841-987 and 1086-1118.

    The database's view of the nodes, the text form of numbers and the lines of
    the log are arguments. *)

From Stdlib Require Import ZArith Lia Strings.Ascii Strings.String Floats.SpecFloat.
From stdpp Require Import prelude list strings gmap sorting.
From S2P Require Import Prelude.
From S2P Require Import Ieee.
From S2P Require Import Common.
From S2P Require Import CxxLib.
From S2P Require Import DataPool.
From S2P Require Import Json.
From S2P Require Import NodeConfig.
From S2P Require Import NodeEntity.
From S2P Require Import Receiver.
From S2P Require Import Transmitter.
From S2P Require Import Channel.
From S2P Require Import Intermediate.
From S2P Require Import DataPath.
From S2P Require Import Controller.
From S2P Require Import Emulator.
From S2P Require Import Coordinator.
From S2P Require Import Antenna.

Module Reports.

(** *** Activity of the transmitters *)

Definition ms_ns : Z := 1000000.

Definition TX_ACTIVE_WINDOW : Z := 5000000000.

(** [latest[src_id] = last_tx_ns] unless a later one is there. *)
Definition note_tx (latest : gmap string Z) (a : string * Z) : gmap string Z :=
  match latest !! a.1 with
  | Some t => if t <? a.2 then <[a.1 := a.2]> latest else latest
  | None => <[a.1 := a.2]> latest
  end.

(** The intermediates in the order of their frequencies. *)
Definition intermediates (c : Controller.t) : list (float * Intermediate.t) :=
  omap (λ fa, (λ i, (fa.1, i)) <$> Controller.c_ims c !! fa.2) (Controller.m_intermediateMap c).

Definition collectTxActivity (c : Controller.t) : gmap string Z :=
  foldl (λ m fi, foldl note_tx m (Intermediate.getTxActivity fi.2)) ∅ (intermediates c).

Definition addTxActivityFields (last_tx_ns now_ns : Z) : list (string * json) :=
  if last_tx_ns <=? 0 then [("msSinceLastTx", JNull); ("txActive", JBool false)]
  else
    let elapsed_ns := Z.max 0 (s64 (now_ns - last_tx_ns)) in
    [("msSinceLastTx", JInt (Z.quot elapsed_ns ms_ns));
     ("txActive", JBool (elapsed_ns <=? TX_ACTIVE_WINDOW))].

(** *** Links *)

(** The lambda [resolveName]. *)
Definition resolveName (nodes : gmap string Node.t) (id : string) : string :=
  let name n := NodeConfig.m_name (Node.m_config n) in
  match nodes !! id with
  | Some n =>
      if (name n =? "")%string
      then match List.find (Coordinator.named id) (Coordinator.by_key nodes) with
           | Some (_, n) => name n
           | None => id
           end
      else name n
  | None =>
      match List.find (Coordinator.named id) (Coordinator.by_key nodes) with
      | Some (_, n) => name n
      | None => id
      end
  end.

Section Entry.
Context (nodes : gmap string Node.t) (tx_activity : gmap string Z) (now_ns : Z).

(** One port of one link. *)
Definition entry (model : string) (ch : Channel.t) (l : chId * float) : json :=
  let noise := match Channel.noiseType ch with AWGN => "AWGN" | _ => "NONE" end%string in
  of_pairs (
    [("src", JString (resolveName nodes (Channel.source ch)));
     ("srcId", JString (Channel.source ch));
     ("dest", JString (resolveName nodes (Channel.destination ch)));
     ("destId", JString (Channel.destination ch));
     ("p_src", JUnsigned (src l.1)); ("p_dest", JUnsigned (dest l.1));
     ("coeff", JFloat l.2); ("noiseModel", JString noise);
     ("snr", JFloat (Channel.getSNR ch));
     ("snrMeasuredDb", JFloat (Channel.snrMeasured ch));
     ("snrOverrideDb", match Channel.snrOverride ch with
                       | Some _ => JFloat (Channel.getSNR ch) | None => JNull end);
     ("distance", JFloat (Channel.getLinkDistance ch));
     ("altitude", JFloat (h_dist (Channel.linkInfo ch)));
     ("elevation", JFloat (elevation (Channel.linkInfo ch)));
     ("azimuth", JFloat (azimuth (Channel.linkInfo ch)));
     ("plDb", JFloat (Channel.plDb ch));
     ("freqOffsetHz", JFloat (Channel.freqOffsetHz ch));
     ("dopplerEnabled", JBool (Channel.dopplerEnabled ch));
     ("dopplerHz", JFloat (Channel.dopplerHz ch));
     ("pathLoss", JString model);
     ("cirTapCount", JUnsigned (Channel.getChTapCount l.1 ch));
     ("extensionActive", JBool (Channel.isExtensionActive ch));
     ("activeExtension", JString (Channel.activeExtension ch))]
    ++ addTxActivityFields (default 0 (tx_activity !! Channel.source ch)) now_ns).

(** The maps of links and of their ports, in the order of their keys. *)
Definition pair_le (a b : (string * string) * (positive * Channel.t)) : Prop :=
  match String.compare a.1.1 b.1.1 with
  | Lt => True | Eq => String.leb a.1.2 b.1.2 = true | Gt => False
  end.

#[export] Instance pair_le_dec a b : Decision (pair_le a b).
Proof. unfold pair_le. destruct (String.compare _ _); apply _. Defined.

Definition port_le (a b : chId * float) : Prop :=
  src a.1 < src b.1 ∨ src a.1 = src b.1 ∧ dest a.1 ≤ dest b.1.

#[export] Instance port_le_dec a b : Decision (port_le a b).
Proof. unfold port_le. apply _. Defined.

Definition getChannelList (i : Intermediate.t) : list Channel.t :=
  (λ ka, ka.2.2) <$> merge_sort pair_le (map_to_list (Intermediate.m_channelMap i)).

Definition getIndChannels (ch : Channel.t) : list (chId * float) :=
  merge_sort port_le (map_to_list (Channel.portChCoeffs ch)).

(** A link is left out when both of its ends show the same name. *)
Definition link_entries (model : string) (ch : Channel.t) : list json :=
  if (resolveName nodes (Channel.source ch) =? resolveName nodes (Channel.destination ch))%string
  then [] else entry model ch <$> getIndChannels ch.

Definition entries (i : Intermediate.t) : list json :=
  let model := PropagationModelToString (Intermediate.m_propagationModel i) in
  mjoin (link_entries model <$> getChannelList i).

(** [if (!j.contains(k)) j[k] = array()], then [j[k].push_back(e)]. *)
Definition append_at (k : string) (es : list json) (fs : list (string * json))
    : list (string * json) :=
  let old := match find_key k fs with Some (JArray l) => l | _ => [] end in
  put_key k (JArray (old ++ es)) fs.

End Entry.

Definition getIndividualChannels (to_string : float → string) (now_ns : Z) (c : Controller.t)
    : json :=
  let tx_activity := collectTxActivity c in
  match intermediates c with
  | [] => JNull
  | l => JObject (foldl (λ fs fi,
           append_at (to_string (F64.div fi.1 (F64.of_Z 1000000)))
             (entries (Controller.m_nodeMap c) tx_activity now_ns fi.2) fs) [] l)
  end.

(** *** Nodes *)

Definition gain_or (has : bool) (gain dflt : float) : float :=
  let raw := if has then gain else fzero in
  if isfinite raw && flt (F64.lit 1 12) (SFabs raw) then raw else dflt.

Definition pattern_fields (k : string) (has : bool) (p : string)
    (antennas : NodeCharacteristics → list string) (cfg : NodeConfig.t) : list (string * json) :=
  if has then [(k, JString p)]
  else match NodeConfig.m_characteristics cfg with
       | Some chars => match antennas chars with a :: _ => [(k, JString a)] | [] => [] end
       | None => []
       end.

(** What is set in the database's entry of a node. *)
Definition node_fields (cfg : NodeConfig.t) (last_tx_ns now_ns : Z) : list (string * json) :=
  [("txGainDb", JFloat (gain_or (NodeConfig.m_hasDeviceTxGain cfg) (NodeConfig.m_deviceTxGain cfg)
                          Channel.TX_GAIN));
   ("rxGainDb", JFloat (gain_or (NodeConfig.m_hasDeviceRxGain cfg) (NodeConfig.m_deviceRxGain cfg)
                          Channel.RX_GAIN))]
  ++ pattern_fields "txAntennaPattern" (NodeConfig.m_hasTxAntennaPattern cfg)
       (NodeConfig.m_txAntennaPattern cfg) tx_antennas cfg
  ++ pattern_fields "rxAntennaPattern" (NodeConfig.m_hasRxAntennaPattern cfg)
       (NodeConfig.m_rxAntennaPattern cfg) rx_antennas cfg
  ++ match NodeConfig.m_characteristics cfg with
     | Some chars => if isfinite (source_power_dbfs chars)
                     then [("sourcePowerDbfs", JFloat (source_power_dbfs chars))] else []
     | None => []
     end
  ++ [("nodeType", JString (NodeTypeToString (NodeConfig.m_nodeType cfg)))]
  ++ addTxActivityFields last_tx_ns now_ns.

Definition put_fields (l fs : list (string * json)) : list (string * json) :=
  foldl (λ fs kv, put_key kv.1 kv.2 fs) fs l.

(** A node shows up under its name if the database knows it by that name. *)
Definition report_node (tx_activity : gmap string Z) (now_ns : Z) (kn : string * Node.t)
    (resp : list (string * json)) : list (string * json) :=
  let cfg := Node.m_config kn.2 in
  let name := NodeConfig.m_name cfg in
  if (name =? "")%string then resp
  else match find_key name resp with
       | Some (JObject fs) =>
           put_key name (JObject (put_fields
             (node_fields cfg (default 0 (tx_activity !! kn.1)) now_ns) fs)) resp
       | _ => resp
       end.

Definition getNodes (db : json) (now_ns : Z) (c : Controller.t) : json :=
  let tx_activity := collectTxActivity c in
  match db with
  | JObject fs =>
      JObject (foldl (λ resp kn, report_node tx_activity now_ns kn resp) fs
                 (Coordinator.by_key (Controller.m_nodeMap c)))
  | _ => db
  end.

(** *** Antennas and logs *)

Definition getAntennaTypes : json := JArray (JString <$> Antenna.AvailableAntennas).

(** The subdirectories of data/antenna, in the order of the file system. *)
Definition getAntennaPatterns (dirs : option (list string)) : json :=
  JArray (match dirs with
          | None => []
          | Some l => JString <$> filter (λ s, negb (String.prefix "." s) ∧ s ≠ ""%string) l
          end).

Definition log_ringbuffer_capacity : Z := 2048.

(** [ringbuffer_sink::last_formatted] of the logging library: all lines when
    the limit is 0. *)
Definition last_formatted (lim : Z) (q : list string) : list string :=
  let items := Z.of_nat (length q) in
  let n := if 0 <? lim then Z.min lim items else items in
  drop (Z.to_nat (items - n)) q.

(** [ring]: the lines kept, if the logger was set up. *)
Definition GET_LOGS (ring : option (list string)) (fs : list (string * json)) : json :=
  let lines := match find_key "lines" fs with
               | Some (JInt v | JUnsigned v) =>
                   Z.min (Z.max 0 (s64 v)) log_ringbuffer_capacity
               | _ => 500
               end in
  match ring with
  | Some q => of_pairs [("status", JString "success");
                        ("lines", JArray (JString <$> last_formatted lines q));
                        ("capacity", JUnsigned log_ringbuffer_capacity)]
  | None => of_pairs [("status", JString "fail");
                      ("message", JString "Log ring buffer not initialized");
                      ("lines", JArray [])]
  end.

End Reports.

Import Reports.

(** ** What the reports contain *)

Section Activity.

(** A map of latest times is right for a list of reports. *)
Definition latest_of (m : gmap string Z) (l : list (string * Z)) : Prop := ∀ s,
  match m !! s with
  | Some t => (s, t) ∈ l ∧ ∀ t', (s, t') ∈ l → t' ≤ t
  | None => ∀ t, (s, t) ∉ l
  end.

Lemma note_tx_latest m l a : latest_of m l → latest_of (note_tx m a) (l ++ [a]).
Proof.
  intros Hm s. destruct a as [s' t]. unfold note_tx. cbn [fst snd].
  assert (Hs' := Hm s'). specialize (Hm s).
  assert (Hmem : ∀ s t', (s, t') ∈ l ++ [(s', t)] ↔ (s, t') ∈ l ∨ s = s' ∧ t' = t).
  { intros s0 t0. rewrite elem_of_app, list_elem_of_singleton. naive_solver. }
  destruct (decide (s = s')) as [->|Hne].
  - destruct (m !! s') as [t0|] eqn:E; [destruct (Z.ltb_spec t0 t)|].
    + rewrite lookup_insert_eq. split; [apply Hmem; by right|].
      intros t' [Hin|[_ ->]]%Hmem; [|done]. destruct Hm as [_ Hm]. specialize (Hm _ Hin). lia.
    + rewrite E. destruct Hm as [Hin Hm]. split; [apply Hmem; by left|].
      intros t' [Hi|[_ ->]]%Hmem; [by apply Hm|done].
    + rewrite lookup_insert_eq. split; [apply Hmem; by right|].
      intros t' [Hin|[_ ->]]%Hmem; [by destruct (Hm t')|done].
  - assert (E : (match m !! s' with
                 | Some t0 => if t0 <? t then <[s' := t]> m else m
                 | None => <[s' := t]> m end) !! s = m !! s).
    { destruct (m !! s') as [t0|]; [destruct (t0 <? t)|]; by rewrite ?lookup_insert_ne. }
    rewrite E. destruct (m !! s) as [t0|].
    + destruct Hm as [Hin Hm]. split; [apply Hmem; by left|].
      intros t' [Hi|[? _]]%Hmem; [by apply Hm|done].
    + intros t' [Hi|[? _]]%Hmem; [by eapply Hm|done].
Qed.

Lemma note_all_latest l' m l : latest_of m l → latest_of (foldl note_tx m l') (l ++ l').
Proof.
  revert m l. induction l' as [|a l' IH]; intros m l Hm; [by rewrite app_nil_r|].
  cbn [foldl]. rewrite cons_middle, (assoc_L (++)). apply IH. by apply note_tx_latest.
Qed.

(** The activity of a source is its latest transmission on any frequency. *)
Lemma activity_is_latest c :
  latest_of (collectTxActivity c) (mjoin ((λ fi, Intermediate.getTxActivity fi.2) <$> intermediates c)).
Proof.
  unfold collectTxActivity.
  assert (H : ∀ l m l0, latest_of m l0 →
    latest_of (foldl (λ m fi, foldl note_tx m (Intermediate.getTxActivity fi.2)) m l)
      (l0 ++ mjoin ((λ fi : float * Intermediate.t, Intermediate.getTxActivity fi.2) <$> l))).
  { induction l as [|fi l IH]; intros m l0 Hm; [by rewrite app_nil_r|].
    cbn [foldl fmap list_fmap mjoin list_join]. rewrite (assoc_L (++)). apply IH.
    by apply note_all_latest. }
  apply (H _ ∅ []). intros s. rewrite lookup_empty. intros t Hin. by apply elem_of_nil in Hin.
Qed.

End Activity.

Section Links.
Context (nodes : gmap string Node.t) (tx_activity : gmap string Z) (now_ns : Z).

Lemma elem_of_link_entries e i :
  e ∈ entries nodes tx_activity now_ns i ↔
  ∃ key a ch l,
    Intermediate.m_channelMap i !! key = Some (a, ch) ∧
    Channel.portChCoeffs ch !! l.1 = Some l.2 ∧
    resolveName nodes (Channel.source ch) ≠ resolveName nodes (Channel.destination ch) ∧
    e = entry nodes tx_activity now_ns
          (PropagationModelToString (Intermediate.m_propagationModel i)) ch l.
Proof.
  unfold entries. rewrite list_elem_of_join. split.
  - intros (es & He & (ch & -> & Hch)%list_elem_of_fmap).
    apply list_elem_of_fmap in Hch as ([key [a ch']] & -> & Hk).
    rewrite merge_sort_Permutation in Hk. apply elem_of_map_to_list in Hk. cbn [snd] in *.
    unfold link_entries in He. destruct (String.eqb_spec (resolveName nodes (Channel.source ch'))
      (resolveName nodes (Channel.destination ch'))) as [_|Hne]; [by apply elem_of_nil in He|].
    apply list_elem_of_fmap in He as ([p x] & -> & Hp). unfold getIndChannels in Hp.
    rewrite merge_sort_Permutation in Hp. apply elem_of_map_to_list in Hp.
    exists key, a, ch', (p, x). done.
  - intros (key & a & ch & [p x] & Hk & Hp & Hne & ->).
    exists (link_entries nodes tx_activity now_ns
              (PropagationModelToString (Intermediate.m_propagationModel i)) ch). split.
    + unfold link_entries. destruct (String.eqb_spec (resolveName nodes (Channel.source ch))
        (resolveName nodes (Channel.destination ch))) as [|_]; [done|].
      apply list_elem_of_fmap. exists (p, x). split; [done|]. unfold getIndChannels.
      rewrite merge_sort_Permutation. by apply elem_of_map_to_list.
    + apply list_elem_of_fmap. exists ch. split; [done|]. apply list_elem_of_fmap.
      exists (key, (a, ch)). split; [done|]. rewrite merge_sort_Permutation.
      by apply elem_of_map_to_list.
Qed.

Definition listed (k : string) (e : json) (fs : list (string * json)) : Prop :=
  ∃ l, find_key k fs = Some (JArray l) ∧ e ∈ l.

Lemma listed_append k e k' es fs :
  listed k e (append_at k' es fs) ↔ listed k e fs ∨ k = k' ∧ e ∈ es.
Proof.
  unfold listed, append_at. rewrite find_put. destruct (String.eqb_spec k k') as [->|Hne].
  - split.
    + intros (l & [= <-] & He). apply elem_of_app in He as [He|He]; [left|by right].
      destruct (find_key k' fs) as [[]|]; try by apply elem_of_nil in He. eauto.
    + intros [(l & Hl & He)|[_ He]]; eexists; (split; [done|]); apply elem_of_app; [left|by right].
      by rewrite Hl.
  - split; [intros H; by left|]. intros [H|[? _]]; done.
Qed.

Lemma listed_fold (text : float * Intermediate.t → string) k e l fs :
  listed k e (foldl (λ fs fi,
    append_at (text fi) (entries nodes tx_activity now_ns fi.2) fs) fs l) ↔
  listed k e fs ∨
  ∃ fi, fi ∈ l ∧ text fi = k ∧ e ∈ entries nodes tx_activity now_ns fi.2.
Proof.
  revert fs. induction l as [|fi l IH]; intros fs; cbn [foldl].
  - split; [by left|]. intros [H|(fi & Hin & _)]; [done|by apply elem_of_nil in Hin].
  - rewrite IH, listed_append. split.
    + intros [[H|[-> H]]|(fj & Hin & H)]; [by left|right; exists fi; split_and!; [left|done..]|].
      right. exists fj. split; [by right|done].
    + intros [H|(fj & Hin & Ht & He)]; [by do 2 left|].
      apply elem_of_cons in Hin as [->|Hin]; [left; by right|right; by exists fj].
Qed.

End Links.

(** The report of the links, GET_IND_CHANNELS: an entry stands under a
    frequency exactly if it describes one port of one link of an intermediate
    whose frequency prints so, with the model in force there and the sender's
    latest activity, and both ends have different names.  A link between two
    nodes of the same name is in no report. *)
Theorem report_lists_links to_string now_ns c k e :
  (∃ l, at_key k (getIndividualChannels to_string now_ns c) = Ok (JArray l) ∧ e ∈ l) ↔
  ∃ f i key a ch l,
    (f, i) ∈ intermediates c ∧ to_string (F64.div f (F64.of_Z 1000000)) = k ∧
    Intermediate.m_channelMap i !! key = Some (a, ch) ∧
    Channel.portChCoeffs ch !! l.1 = Some l.2 ∧
    resolveName (Controller.m_nodeMap c) (Channel.source ch)
      ≠ resolveName (Controller.m_nodeMap c) (Channel.destination ch) ∧
    e = entry (Controller.m_nodeMap c) (collectTxActivity c) now_ns
          (PropagationModelToString (Intermediate.m_propagationModel i)) ch l.
Proof.
  set (nodes := Controller.m_nodeMap c). set (act := collectTxActivity c).
  transitivity (∃ fi, fi ∈ intermediates c ∧ to_string (F64.div fi.1 (F64.of_Z 1000000)) = k ∧
                 e ∈ entries nodes act now_ns fi.2).
  - unfold getIndividualChannels. fold nodes act.
    assert (Hl : ∀ l, (∃ x, at_key k (JObject (foldl (λ fs fi,
        append_at (to_string (F64.div fi.1 (F64.of_Z 1000000)))
          (entries nodes act now_ns fi.2) fs) [] l)) = Ok (JArray x) ∧ e ∈ x) ↔
      ∃ fi, fi ∈ l ∧ to_string (F64.div fi.1 (F64.of_Z 1000000)) = k ∧
            e ∈ entries nodes act now_ns fi.2).
    { intros l.
      pose proof (listed_fold nodes act now_ns
        (λ fi, to_string (F64.div fi.1 (F64.of_Z 1000000))) k e l []) as Hf.
      assert (Hn : ¬ listed k e []) by (intros (x & Hx & _); discriminate Hx).
      rewrite at_key_object. set (fs := foldl _ _ _) in *.
      transitivity (listed k e fs); [|naive_solver]. unfold listed.
      split; intros (x & Hx & He); exists x; destruct (find_key k fs); cbn in *; by simplify_eq. }
    destruct (intermediates c) as [|fi l]; [|apply Hl]. split.
    + intros (x & Hx & _). discriminate Hx.
    + intros (fi & Hin & _). by apply elem_of_nil in Hin.
  - split.
    + intros ([f i] & Hin & Ht & (key & a & ch & l & H)%elem_of_link_entries).
      exists f, i, key, a, ch, l. split; [exact Hin|]. split; [exact Ht|]. exact H.
    + intros (f & i & key & a & ch & l & Hin & Ht & H). exists (f, i).
      split; [exact Hin|]. split; [exact Ht|]. apply elem_of_link_entries. by exists key, a, ch, l.
Qed.

(** The log: never more lines than asked for or than are kept, except that a
    limit of zero means none. *)
Lemma logs_limit lim q :
  length (last_formatted lim q)
  = if 0 <? lim then Nat.min (Z.to_nat lim) (length q) else length q.
Proof.
  unfold last_formatted. rewrite length_drop. destruct (Z.ltb_spec 0 lim); lia.
Qed.
